(* ===== verification/_CoqProject ===== *)
-Q . S2P
Prelude.v
Spinlock.v
Kstate.v
Mlfq.v
Sched.v
MlfqSched.v
Boot.v
Switch.v
Policies.v
Starve.v
CString.v
Globals.v
Kalloc.v
Vm.v
VmProofs.v
UserMem.v
Printf.v
Sleeplock.v
Virtio.v
Bio.v
Log.v
Fs.v
FsProofs.v
Runs.v
VirtioProofs.v
BioProofs.v
LogProofs.v
Recovery.v
Txn.v
FileProofs.v
FileWrite.v
Console.v
Pipe.v
File.v
Proc.v
Exec.v
Syscall.v
Sysfile.v
Trap.v
TimeSlice.v
Asm.v
Start.v
User.v
Uprintf.v
Umalloc.v
Text.v
Sh.v
Utils.v
Tests.v
Grind.v
UtArgs.v
UtProcs.v
UtFiles.v
UtMem.v
Usertests.v
Mkfs.v
MkfsProofs.v
