(* ===== verification/Prelude.v ===== *)
(** A verification development of xv6-riscv with five schedulers: the kernel
    (src/kernel), the user library and programs (src/user) and the builder of the
    file system image (src/mkfs).

    * How the program is modelled

    C functions are Rocq functions of the same names.  Integers are [Z] with the
    conversions of their C types written out ([uint], [int], [uint64], [uchar] below);
    arrays are lists or maps, structs are records, pointers are indices of their
    tables or addresses.

    Kernel code runs in the resumption monad [M] of this file: a run returns, panics,
    hits undefined behaviour ([Fault]), spins for ever, or stops at a swtch
    ([Swtch]), which carries what comes after it.  The state [kst] consists of the
    harts and locks (Spinlock), the process table and the MLFQ queues (Kstate) and
    the rest of the kernel's data (Globals).  One hart runs at a time; other harts,
    interrupts and devices act at the points where the code gives up the hart or
    reads a device.  Addresses that the linker chooses, the contents of device
    registers and what other processes do are arguments or hypotheses.

    User programs are trees of system calls ([uprog] in User): the kernel's answers
    are quantified over, or given by a small kernel of the theorem.  Assembly is
    lists of instructions for an interpreter of the instructions that occur (Asm).

    Loops whose end is not structural take fuel; the theorems say how much is enough
    and that the run ends.

    * The kernel

    - Prelude: C integers, the monad, record update, lists.
    - Spinlock: spinlock.c, push_off and pop_off, cpuid, mycpu, myproc (proc.c); locks
      restore the interrupt state ([locks_restore_interrupts]).
    - Kstate: proc.h, param.h, memlayout.h: the process table and its constants.
    - Mlfq: the queues of proc.c (enqueue_to_mlfq, compact_queue) refine bounded lists
      ([mlfq_data]); [mlfq_inv] adds that mlfq.lock is free.
    - Sched, MlfqSched: the scheduler loop and its five policies; Boot: states to run
      it on; Policies: each policy enters the process it promises, round robin enters
      every RUNNABLE process once per turn.  The interrupts that the hart takes between
      the turns are an argument of the loop.  Starve: MLFQ passes over a process that is
      in no queue while the entry of one that has exited is left.
    - Switch: sched, yield, sleep, wakeup, kill as steps between processes.
    - CString: string.c.  Globals: the data of file.h, fs.h, buf.h, log.c, pipe.c,
      console.c, uart.c, and physical memory.
    - Kalloc: kalloc.c; the free list is a stack of distinct pages.
    - Vm: vm.c; VmProofs: mappages on page table trees; UserMem: copyout, copyin and
      copyinstr against what the user sees.
    - Printf: printf.c and polled output.  Sleeplock: sleeplock.c.
    - Virtio, Bio, Log, Fs: virtio_disk.c, bio.c, log.c, fs.c.  FsProofs: inodes and
      the free map read back as written.
    - Runs: a program logic for deterministic runs of kernel code that sleep for the
      disk ([World], [does], [fails]); loops that sleep, for any number of wakeups.
      VirtioProofs: a request moves a block and the interrupt completes it, the device
      ([device_step]) being one that serves well-formed chains in order.  BioProofs: the buffer cache refines the disk.
    - LogProofs, Recovery, Txn: crash triples ([safe]): at every wait of a transaction
      the disk is one from which recovery gives all of its writes or none; recovery
      can itself be interrupted and repeated; begin_op waits until the log has room.
    - FileProofs: readi gives the bytes of the blocks that an inode lists ([file_at],
      [bytes_of]), through the cache or inside a transaction ([reader]), to a variable, to
      kernel memory or to user memory ([put]).  FileWrite:
      balloc, bmap and writei on a file that grows ([wfile], over a pool of free
      blocks); the transaction of a writei is atomic and read back as written.
    - Console: console.c and uart.c.  Pipe: pipe.c.  File: file.c.  Proc: the rest of
      proc.c.  Exec: exec.c.  Syscall, Sysfile: syscall.c, sysproc.c, sysfile.c.
      Trap: trap.c, plic.c and main.c.  TimeSlice: a timer tick under MLFQ charges,
      demotes and hands over the running process.
    - Asm: swtch.S, trampoline.S, kernelvec.S, entry.S; contexts, trapframes and
      interrupted registers come back.  Start: riscv.h and start.c; start enters main
      in supervisor mode, and which control registers it changes.

    * User space and the image

    - User: the system call stubs (usys.pl), ulib.c and printf.c; printf is defined
      exactly on arguments of the types its format names, printed numbers read back.
      [wp p Q]: whatever the kernel answers, [p] finishes without undefined behaviour
      and returns only values in [Q].  Uprintf: what printf writes for the documented
      conversions.
    - Umalloc: umalloc.c; live blocks never overlap, keep what is written to them, and
      no memory is lost.
    - Text: cat.c, echo.c, wc.c, grep.c; grep's matcher accepts the language of the
      pattern, grep and wc do not depend on how read cuts the input.
    - Sh: sh.c; parsing and running every line ends, inside its buffers.
    - Utils: init.c, kill.c, ln.c, ls.c, mkdir.c, rm.c, setpolicy.c, top.c, zombie.c
      and initcode.S.  Tests: forktest.c, stressfs.c and the scheduler tests.
    - Grind: grind.c; its generator is the one of Park and Miller.  UtArgs, UtProcs,
      UtFiles, UtMem, Usertests: usertests.c; all tests but thirteen end whatever the
      kernel answers, all but one stay inside their arrays, and runtests reports what
      their exit statuses say.
    - Mkfs: mkfs.c.  MkfsProofs: the blocks of the files are those that the free map
      marks beyond the metadata.

    * Bounds

    Digits: 64 for any base on 64 bits, 32 on 32 bits.  Ring walks of the buffer
    cache: NBUF.  grep, wc, cat: one read more than the bytes of the input.  The
    parser: four nested calls per character and six more.  strlen and the like: any
    number above the length of the string.  malloc and free: three turns per free block
    and three more.  Loops that sleep: [patience] wakeups, a parameter; one is enough for
    the disk, and begin_op is described for every number.

    * What is not modelled

    kernel.ld and user.ld (the addresses are parameters), defs.h (prototypes), the weak
    memory order of the harts (fences have no effect on one hart), and failures of the
    host's files in mkfs.  User programs run on kernels that answer every call: that a
    process is killed in a call or at an access to memory is not modelled.  Interrupts in
    the middle of kernel code, where it runs with them on, are not modelled; the
    scheduler takes them between its turns.

    This file holds the shared vocabulary: C integer widths, the resumption monad,
    loops, record update, and the list, arithmetic and automation lemmas. *)

From Stdlib Require Import ZArith Lia List FunctionalExtensionality.
From stdpp Require Import base gmap strings numbers list.

#[local] Open Scope Z_scope.

(** * C integers *)

(** Values of C integer types are integers; the conversions the code performs
    are written out.  [uint], [int], [uint64] and [uchar] are the types of
    kernel/types.h. *)

Definition uchar (z : Z) : Z := z mod 2 ^ 8.
Definition ushort (z : Z) : Z := z mod 2 ^ 16.
Definition uint (z : Z) : Z := z mod 2 ^ 32.
Definition uint64 (z : Z) : Z := z mod 2 ^ 64.
Definition int (z : Z) : Z := (z + 2 ^ 31) mod 2 ^ 32 - 2 ^ 31.

Arguments uchar : simpl never.
Arguments ushort : simpl never.
Arguments uint : simpl never.
Arguments uint64 : simpl never.
Arguments int : simpl never.

Lemma uint_small z : 0 <= z < 2 ^ 32 → uint z = z.
Proof. apply Z.mod_small. Qed.

Lemma uint_range z : 0 <= uint z < 2 ^ 32.
Proof. apply Z.mod_pos_bound. lia. Qed.

Lemma uchar_small z : 0 <= z < 2 ^ 8 → uchar z = z.
Proof. apply Z.mod_small. Qed.

Lemma uchar_range z : 0 <= uchar z < 2 ^ 8.
Proof. apply Z.mod_pos_bound. lia. Qed.

Lemma uint64_small z : 0 <= z < 2 ^ 64 → uint64 z = z.
Proof. apply Z.mod_small. Qed.

Lemma uint64_range z : 0 <= uint64 z < 2 ^ 64.
Proof. apply Z.mod_pos_bound. lia. Qed.

Lemma int_small z : - 2 ^ 31 <= z < 2 ^ 31 → int z = z.
Proof. intros. unfold int. rewrite Z.mod_small; lia. Qed.

Lemma int_range z : - 2 ^ 31 <= int z < 2 ^ 31.
Proof. unfold int. pose proof (Z.mod_pos_bound (z + 2 ^ 31) (2 ^ 32)). lia. Qed.

Lemma uint_uint z : uint (uint z) = uint z.
Proof. apply uint_small, uint_range. Qed.

Lemma uint_int z : uint (int z) = uint z.
Proof.
  unfold uint, int. rewrite Zminus_mod_idemp_l. f_equal. lia.
Qed.

(** Fractions [a/x], [b/y], [c/z] with positive denominators. *)
Lemma frac_le_trans a x b y c z :
  0 < x → 0 < y → 0 < z → a * y <= b * x → b * z <= c * y → a * z <= c * x.
Proof.
  intros Hx Hy Hz H1 H2. apply (Zmult_le_reg_r _ _ y); [lia|].
  apply (Z.le_trans _ (b * z * x)).
  - replace (a * z * y) with (a * y * z) by lia.
    replace (b * z * x) with (b * x * z) by lia. apply Z.mul_le_mono_nonneg_r; lia.
  - replace (c * x * y) with (c * y * x) by lia. apply Z.mul_le_mono_nonneg_r; lia.
Qed.

Lemma frac_lt_trans a x b y c z :
  0 < x → 0 < y → 0 < z → a * y < b * x → b * z < c * y → a * z < c * x.
Proof.
  intros Hx Hy Hz H1 H2. apply (Zmult_lt_reg_r _ _ y); [lia|].
  apply (Z.lt_trans _ (b * z * x)).
  - replace (a * z * y) with (a * y * z) by lia.
    replace (b * z * x) with (b * x * z) by lia. by apply Z.mul_lt_mono_pos_r.
  - replace (c * x * y) with (c * y * x) by lia. by apply Z.mul_lt_mono_pos_r.
Qed.

(** * Record update *)

(** [s <| f := v |>] and [s <| f ::= g |>] update one field.  A record type
    joins by giving its eta expansion as a [Settable] instance. *)

Class Settable (R : Type) := mk_eta : R → R.
Class Setter {R E : Type} (g : R → E) := set_field : (E → E) → R → R.

Ltac head_of t := lazymatch t with ?f _ => head_of f | _ => t end.

Ltac derive_setter R E g :=
  exact (fun (f : E → E) (r : R) => ltac:(
    let e := lazymatch constr:(@mk_eta R _) with @mk_eta _ ?e' => e' end in
    let h := head_of e in
    let b := eval cbv beta delta [h] in (e r) in
    let b := eval pattern (g r) in b in
    match b with ?h _ => let t := eval cbv beta in (h (f (g r))) in exact t end)).

#[global] Hint Extern 1 (@Setter ?R ?E ?g) => derive_setter R E g : typeclass_instances.

Arguments set_field {R E} g {Setter} f r /.

Notation "r <| g ::= f |>" := (set_field g f r)
  (at level 1, left associativity, format "r  <|  g  ::=  f  |>").
Notation "r <| g := v |>" := (set_field g (fun _ => v) r)
  (at level 1, left associativity, format "r  <|  g  :=  v  |>").

(** * Arrays *)

(** [a[z]] with a C index: out of range is undefined. *)
Definition at_idx {A} (l : list A) (z : Z) : option A :=
  if z <? 0 then None else l !! Z.to_nat z.

Lemma at_idx_nat {A} (l : list A) (n : nat) : at_idx l (Z.of_nat n) = l !! n.
Proof. unfold at_idx. destruct (Z.ltb_spec (Z.of_nat n) 0); [lia|]. by rewrite Nat2Z.id. Qed.

Lemma at_idx_Some {A} (l : list A) z x :
  at_idx l z = Some x → 0 <= z < Z.of_nat (length l).
Proof.
  unfold at_idx. destruct (Z.ltb_spec z 0); [done|].
  intros H1%lookup_lt_Some. lia.
Qed.

Lemma at_idx_lt {A} (l : list A) z :
  0 <= z < Z.of_nat (length l) → ∃ x, at_idx l z = Some x.
Proof.
  intros Hz. unfold at_idx. destruct (Z.ltb_spec z 0); [lia|].
  apply lookup_lt_is_Some. lia.
Qed.

(** The list without the first occurrence of [x]. *)
Fixpoint remove_first {A} `{EqDecision A} (x : A) (l : list A) : list A :=
  match l with
  | [] => []
  | y :: l' => if decide (y = x) then l' else y :: remove_first x l'
  end.

Section remove_first.
Context {A : Type} `{EqDecision A}.
Implicit Types (x y : A) (l : list A).

Lemma remove_first_notin x l : x ∉ l → remove_first x l = l.
Proof.
  induction l as [|y l IH]; simpl; [done|]. rewrite not_elem_of_cons. intros [Hy Hl].
  destruct (decide (y = x)); [congruence|]. by rewrite IH.
Qed.

Lemma remove_first_at x l i :
  l !! i = Some x → (∀ j, (j < i)%nat → l !! j ≠ Some x) → remove_first x l = delete i l.
Proof.
  revert i. induction l as [|y l IH]; intros i; [done|]. destruct i as [|i]; simpl.
  - intros [= ->] _. by rewrite decide_True.
  - intros Hi Hj. rewrite decide_False.
    + rewrite (IH i); [done..|]. intros j Hji. apply (Hj (S j)). lia.
    + intros ->. by apply (Hj 0%nat); [lia|].
Qed.

Lemma length_remove_first x l : x ∈ l → length l = S (length (remove_first x l)).
Proof.
  induction l as [|y l IH]; [by intros ?%elem_of_nil|]. simpl. intros Hx.
  destruct (decide (y = x)) as [->|]; [done|]. simpl. rewrite <- IH; [done|].
  by apply elem_of_cons in Hx as [->|].
Qed.

Lemma elem_of_remove_first x y l : y ∈ remove_first x l → y ∈ l.
Proof.
  induction l as [|z l IH]; simpl; [done|]. destruct (decide (z = x)); [by right|].
  intros [->|?]%elem_of_cons; [by left|right; auto].
Qed.

Lemma elem_of_remove_first_ne x y l : y ≠ x → y ∈ l → y ∈ remove_first x l.
Proof.
  intros Hne. induction l as [|z l IH]; simpl; [done|].
  intros [->|?]%elem_of_cons; destruct (decide _); try done; [by left|right; auto].
Qed.

Lemma NoDup_remove_first x l : NoDup l → NoDup (remove_first x l) ∧ x ∉ remove_first x l.
Proof.
  induction 1 as [|y l Hy Hl [IH1 IH2]]; simpl; [split; [constructor|apply not_elem_of_nil]|].
  destruct (decide (y = x)) as [->|]; [done|]. split.
  - constructor; [|done]. by intros ?%elem_of_remove_first.
  - by apply not_elem_of_cons.
Qed.

Lemma first_index x l :
  x ∈ l → ∃ i, l !! i = Some x ∧ ∀ j, (j < i)%nat → l !! j ≠ Some x.
Proof.
  induction l as [|y l IH]; [by intros ?%elem_of_nil|]. intros Hx.
  destruct (decide (y = x)) as [->|Hy].
  - exists 0%nat. split; [done|]. lia.
  - destruct IH as (i & Hi & Hj); [by apply elem_of_cons in Hx as [->|]|].
    exists (S i). split; [done|]. intros [|j] Hlt; simpl; [congruence|]. apply Hj. lia.
Qed.

End remove_first.

(** A duplicate-free list of table indices is no longer than the table. *)
Lemma NoDup_indices_le (l : list nat) (n : nat) :
  NoDup l → (∀ i, i ∈ l → (i < n)%nat) → (length l <= n)%nat.
Proof.
  intros Hd Hl. rewrite <- (length_seq n 0).
  apply submseteq_length, NoDup_submseteq; [done|].
  intros i Hi. apply elem_of_seq. specialize (Hl i Hi). lia.
Qed.

(** * Kernel code *)

(** Kernel code runs on one hart and changes a global state.  A run ends in a
    value, in [panic], in undefined behaviour (a null or out-of-range
    dereference), in an endless loop of the hart (a lock that another hart
    holds), or reaches [swtch], which hands the hart to another kernel thread:
    [k] is the rest of the caller, resumed on the state the other thread leaves
    behind. *)

Inductive target : Type :=
| ToSched
| ToProc (i : nat).

Inductive res (S A : Type) : Type :=
| Ret (a : A) (s : S)
| Panic (msg : string)
| Fault
| Spin
| Swtch (t : target) (s : S) (k : S → res S A).

Arguments Ret {S A}.
Arguments Panic {S A}.
Arguments Fault {S A}.
Arguments Spin {S A}.
Arguments Swtch {S A}.

Fixpoint res_bind {S A B} (r : res S A) (f : A → S → res S B) : res S B :=
  match r with
  | Ret a s => f a s
  | Panic msg => Panic msg
  | Fault => Fault
  | Spin => Spin
  | Swtch t s k => Swtch t s (fun s' => res_bind (k s') f)
  end.

Definition M (S A : Type) : Type := S → res S A.

#[global] Instance M_ret S : MRet (M S) := fun A a s => Ret a s.
#[global] Instance M_bind S : MBind (M S) := fun A B f m s => res_bind (m s) f.

Section monad.
Context {S : Type}.

Definition gets {A} (f : S → A) : M S A := fun s => Ret (f s) s.
Definition modify (f : S → S) : M S unit := fun s => Ret tt (f s).
Definition panic {A} (msg : string) : M S A := fun _ => Panic msg.
Definition fault {A} : M S A := fun _ => Fault.
Definition spin {A} : M S A := fun _ => Spin.
Definition swtch (t : target) : M S unit := fun s => Swtch t s (Ret tt).

(** Dereference of a pointer that may be null or out of range. *)
Definition deref {A} (f : S → option A) : M S A :=
  fun s => match f s with Some a => Ret a s | None => Fault end.

Definition when (b : bool) (m : M S unit) : M S unit :=
  if b then m else mret tt.

(** [for (i in l) body], left early when [body] gives a value. *)
Fixpoint for_ret {A} (l : list nat) (body : nat → M S (option A)) : M S (option A) :=
  match l with
  | [] => mret None
  | i :: l' =>
      r ← body i;
      match r with
      | Some a => mret (Some a)
      | None => for_ret l' body
      end
  end.

(** [for (i in l) acc = body i acc]. *)
Fixpoint for_acc {A} (l : list nat) (body : nat → A → M S A) (acc : A) : M S A :=
  match l with
  | [] => mret acc
  | i :: l' => acc' ← body i acc; for_acc l' body acc'
  end.

(** The same loops on a state that is passed purely. *)
Fixpoint iter_ret {A} (l : list nat) (b : nat → S → option A * S) (s : S) : option A * S :=
  match l with
  | [] => (None, s)
  | i :: l' =>
      match b i s with
      | (Some a, s') => (Some a, s')
      | (None, s') => iter_ret l' b s'
      end
  end.

Fixpoint iter_acc {A} (l : list nat) (b : nat → A → S → A * S) (acc : A) (s : S) : A * S :=
  match l with
  | [] => (acc, s)
  | i :: l' => let '(acc', s') := b i acc s in iter_acc l' b acc' s'
  end.

Lemma bind_Ret {A B} (m : M S A) (f : A → M S B) s a s' :
  m s = Ret a s' → (m ≫= f) s = f a s'.
Proof. intros H. unfold mbind, M_bind. by rewrite H. Qed.

Lemma deref_Some {A} (f : S → option A) s a : f s = Some a → deref f s = Ret a s.
Proof. intros H. unfold deref. by rewrite H. Qed.

Lemma bind_run {A B} (m : M S A) (f : A → M S B) s :
  (m ≫= f) s = res_bind (m s) f.
Proof. done. Qed.

Lemma res_bind_ret {A} (r : res S A) : res_bind r (fun a s => Ret a s) = r.
Proof.
  induction r as [| | | |t s k IH]; simpl; [done..|]. f_equal.
  apply functional_extensionality. apply IH.
Qed.

Lemma res_bind_assoc {A B C} (r : res S A) (f : A → S → res S B) (g : B → S → res S C) :
  res_bind (res_bind r f) g = res_bind r (fun a s => res_bind (f a s) g).
Proof.
  induction r as [| | | |t s k IH]; simpl; [done..|]. f_equal.
  apply functional_extensionality. apply IH.
Qed.

Lemma for_ret_skip {A} (l1 l2 : list nat) (body : nat → M S (option A)) s :
  (∀ i, i ∈ l1 → body i s = Ret None s) → for_ret (l1 ++ l2) body s = for_ret l2 body s.
Proof.
  induction l1 as [|i l1 IH]; intros Hb; simpl; [done|].
  erewrite bind_Ret; [|by apply Hb; left]. apply IH. intros j Hj. apply Hb. by right.
Qed.

Lemma for_ret_none {A} (l : list nat) (body : nat → M S (option A)) s :
  (∀ i, i ∈ l → body i s = Ret None s) → for_ret l body s = Ret None s.
Proof. intros Hb. rewrite <- (app_nil_r l). by rewrite for_ret_skip. Qed.

(** A loop whose body runs purely while [I] holds runs purely. *)
Lemma for_ret_pure {A} (I : S → Prop) (l : list nat) (body : nat → M S (option A))
    (b : nat → S → option A * S) s :
  (∀ i s, i ∈ l → I s → body i s = Ret (b i s).1 (b i s).2 ∧ I (b i s).2) →
  I s →
  for_ret l body s = Ret (iter_ret l b s).1 (iter_ret l b s).2 ∧ I (iter_ret l b s).2.
Proof.
  revert s. induction l as [|i l IH]; intros s Hb Hs; [done|].
  destruct (Hb i s) as [Hr HI]; [by left|done|].
  simpl. rewrite bind_run, Hr. simpl.
  destruct (b i s) as [[a|] s']; [done|].
  apply IH; [|done]. intros j sj Hj. apply Hb. by right.
Qed.

Lemma for_acc_pure {A} (I : A → S → Prop) (l : list nat) (body : nat → A → M S A)
    (b : nat → A → S → A * S) acc s :
  (∀ i acc s, i ∈ l → I acc s →
     body i acc s = Ret (b i acc s).1 (b i acc s).2 ∧ I (b i acc s).1 (b i acc s).2) →
  I acc s →
  for_acc l body acc s = Ret (iter_acc l b acc s).1 (iter_acc l b acc s).2 ∧
  I (iter_acc l b acc s).1 (iter_acc l b acc s).2.
Proof.
  revert acc s. induction l as [|i l IH]; intros acc s Hb Hs; [done|].
  destruct (Hb i acc s) as [Hr HI]; [by left|done|].
  simpl. rewrite bind_run, Hr. simpl.
  destruct (b i acc s) as [acc' s'].
  apply IH; [|done]. intros j aj sj Hj. apply Hb. by right.
Qed.
End monad.

(** [msimpl] runs monadic code as far as the state is known. *)
Ltac munfold :=
  unfold mbind, M_bind, mret, M_ret, gets, modify, deref, when, panic, fault, spin, swtch in *.
Ltac msimpl := munfold; simpl.
