(* ===== verification/Spinlock.v ===== *)
(** Harts, interrupt masking and spin locks: [struct cpu] (kernel/proc.h),
    [cpuid]/[mycpu]/[myproc] (kernel/proc.c) and kernel/spinlock.c.

    A component whose state contains the machine says so with an instance of
    [HasMachine]; the lock operations below then work on its state. *)

From stdpp Require Import base gmap strings numbers list.
From S2P Require Import Prelude.
Local Open Scope Z_scope.

(** * Data *)

(** The spin locks of the kernel: the global ones by the name they are
    initialised with, the one of each [struct proc], of each pipe page and the
    inner lock of each sleep lock. *)
Inductive lockid : Type :=
| LkGlobal (name : string)
| LkProc (i : nat)
| LkPipe (pa : Z)
| LkSleep (kind : string) (i : nat).

#[global] Instance lockid_eq_dec : EqDecision lockid.
Proof. solve_decision. Defined.

#[global] Instance lockid_countable : Countable lockid.
Proof.
  refine (inj_countable'
    (fun l => match l with
     | LkGlobal n => inl (inl n) | LkProc i => inl (inr i)
     | LkPipe a => inr (inl a) | LkSleep k i => inr (inr (k, i)) end)
    (fun x => match x with
     | inl (inl n) => LkGlobal n | inl (inr i) => LkProc i
     | inr (inl a) => LkPipe a | inr (inr (k, i)) => LkSleep k i end) _).
  by intros [].
Defined.

Record spinlock := mkspinlock {
  lk_locked : Z;
  lk_name : string;
  lk_cpu : option nat
}.

#[global] Instance eta_spinlock : Settable spinlock :=
  fun l => mkspinlock (lk_locked l) (lk_name l) (lk_cpu l).

(** [struct cpu].  [c_proc] is an index into the process table; [c_sie] is the
    SIE bit of the hart's [sstatus] register, which is not part of the struct.
    The saved scheduler context is the continuation of a [Swtch]. *)
Record cpu := mkcpu {
  c_proc : option nat;
  c_noff : Z;
  c_intena : bool;
  c_sie : bool
}.

#[global] Instance eta_cpu : Settable cpu :=
  fun c => mkcpu (c_proc c) (c_noff c) (c_intena c) (c_sie c).

(** [tp] is the hart that runs (register tp). *)
Record machine := mkmachine {
  cpus : list cpu;
  tp : nat;
  locks : gmap lockid spinlock
}.

#[global] Instance eta_machine : Settable machine :=
  fun m => mkmachine (cpus m) (tp m) (locks m).

Class HasMachine (S : Type) := {
  mach : S → machine;
  set_mach : (machine → machine) → S → S;
  mach_set_mach : ∀ f s, mach (set_mach f s) = f (mach s);
  set_mach_set_mach : ∀ f g s, set_mach g (set_mach f s) = set_mach (fun m => g (f m)) s;
  set_mach_ext : ∀ f g s, f (mach s) = g (mach s) → set_mach f s = set_mach g s
}.

(** * Operations *)

Section ops.
Context {S : Type} `{HM : HasMachine S}.

Definition cpuid : M S nat := gets (fun s => tp (mach s)).

Definition mycpu : M S cpu := deref (fun s => cpus (mach s) !! tp (mach s)).

(** Assignment to fields of [*mycpu()]. *)
Definition upd_mycpu (f : cpu → cpu) : M S unit :=
  c ← mycpu;
  modify (set_mach (fun m => m <| cpus ::= <[tp m := f c]> |>)).

Definition intr_get : M S bool := c ← mycpu; mret (c_sie c).
Definition intr_on : M S unit := upd_mycpu (fun c => c <| c_sie := true |>).
Definition intr_off : M S unit := upd_mycpu (fun c => c <| c_sie := false |>).

Definition push_off : M S unit :=
  old ← intr_get;
  intr_off ;;
  c ← mycpu;
  when (c_noff c =? 0) (upd_mycpu (fun c => c <| c_intena := old |>)) ;;
  upd_mycpu (fun c => c <| c_noff ::= Z.add 1 |>).

Definition pop_off : M S unit :=
  on ← intr_get;
  if on : bool then panic "pop_off - interruptible" else
  c ← mycpu;
  if c_noff c <? 1 then panic "pop_off" else
  upd_mycpu (fun c => c <| c_noff ::= fun n => n - 1 |>) ;;
  c ← mycpu;
  when ((c_noff c =? 0) && c_intena c) intr_on.

Definition get_lock (l : lockid) : M S spinlock := deref (fun s => locks (mach s) !! l).

Definition upd_lock (l : lockid) (f : spinlock → spinlock) : M S unit :=
  lk ← get_lock l;
  modify (set_mach (fun m => m <| locks ::= <[l := f lk]> |>)).

Definition initlock (l : lockid) (name : string) : M S unit :=
  modify (set_mach (fun m => m <| locks ::= <[l := mkspinlock 0 name None]> |>)).

Definition holding (l : lockid) : M S bool :=
  lk ← get_lock l;
  id ← cpuid;
  mret (negb (lk_locked lk =? 0) && bool_decide (lk_cpu lk = Some id)).

(** [__sync_lock_test_and_set(&lk->locked, 1)]. *)
Definition test_and_set (l : lockid) : M S Z :=
  lk ← get_lock l;
  upd_lock l (fun lk => lk <| lk_locked := 1 |>) ;;
  mret (lk_locked lk).

(** The [while] of [acquire] leaves at once when the lock was free; when
    another hart holds it, this hart spins. *)
Definition acquire (l : lockid) : M S unit :=
  push_off ;;
  h ← holding l;
  if h : bool then panic "acquire" else
  old ← test_and_set l;
  if negb (old =? 0) then spin else
  id ← cpuid;
  upd_lock l (fun lk => lk <| lk_cpu := Some id |>).

Definition release (l : lockid) : M S unit :=
  h ← holding l;
  if negb h then panic "release" else
  upd_lock l (fun lk => lk <| lk_cpu := None |>) ;;
  upd_lock l (fun lk => lk <| lk_locked := 0 |>) ;;
  pop_off.

Definition myproc : M S (option nat) :=
  push_off ;;
  c ← mycpu;
  pop_off ;;
  mret (c_proc c).

End ops.

(** * The effect of the operations on the machine *)

Definition cpu_push (c : cpu) : cpu :=
  mkcpu (c_proc c) (1 + c_noff c)
    (if c_noff c =? 0 then c_sie c else c_intena c) false.

Definition cpu_pop (c : cpu) : cpu :=
  mkcpu (c_proc c) (c_noff c - 1) (c_intena c)
    (if (c_noff c - 1 =? 0) && c_intena c then true else c_sie c).

(** What a matched [push_off]/[pop_off] leaves behind: [c_intena] records the
    interrupt state when nothing was nested around it. *)
Definition cpu_settle (c : cpu) : cpu :=
  if c_noff c =? 0 then c <| c_intena := c_sie c |> else c.

Definition held (l : lockid) (m : machine) : machine :=
  m <| cpus ::= alter cpu_push (tp m) |>
    <| locks ::= alter (fun lk => mkspinlock 1 (lk_name lk) (Some (tp m))) l |>.

Definition unheld (l : lockid) (m : machine) : machine :=
  m <| cpus ::= alter cpu_pop (tp m) |>
    <| locks ::= alter (fun lk => mkspinlock 0 (lk_name lk) None) l |>.

Definition settle (m : machine) : machine := m <| cpus ::= alter cpu_settle (tp m) |>.

(** * Well-formed machines *)

Definition hart_ok (m : machine) : Prop :=
  ∃ c, cpus m !! tp m = Some c ∧ 0 <= c_noff c ∧ (0 < c_noff c → c_sie c = false).

Definition free (l : lockid) (m : machine) : Prop :=
  ∃ name, locks m !! l = Some (mkspinlock 0 name None).

(** Lock [l] is held by the running hart. *)
Definition owned (l : lockid) (m : machine) : Prop :=
  ∃ name, locks m !! l = Some (mkspinlock 1 name (Some (tp m))).

Create HintDb lk.

Lemma cpu_pop_push c :
  0 <= c_noff c → (0 < c_noff c → c_sie c = false) → cpu_pop (cpu_push c) = cpu_settle c.
Proof.
  destruct c as [p n i e]. unfold cpu_pop, cpu_push, cpu_settle. simpl. intros Hn Hs.
  replace (1 + n - 1) with n by lia.
  destruct (Z.eqb_spec n 0) as [->|Hne]; simpl; [by destruct e|].
  rewrite Hs; [done|lia].
Qed.

Lemma tp_held l m : tp (held l m) = tp m.
Proof. done. Qed.

Lemma tp_settle m : tp (settle m) = tp m.
Proof. done. Qed.

Lemma locks_settle m : locks (settle m) = locks m.
Proof. done. Qed.

Lemma settle_settle m : settle (settle m) = settle m.
Proof.
  unfold settle. simpl. f_equal. rewrite list_alter_alter_eq.
  apply list_alter_ext; [|done]. intros c _. unfold compose, cpu_settle.
  by destruct c as [p n i e]; simpl; destruct (n =? 0) eqn:E; simpl; rewrite ?E.
Qed.

Lemma settle_nested m c :
  cpus m !! tp m = Some c → 0 < c_noff c → settle m = m.
Proof.
  intros Hc Hn. destruct m as [cs t ls]. unfold settle. simpl in *. f_equal.
  apply list_eq. intros i. destruct (decide (i = t)) as [->|].
  - rewrite list_lookup_alter_eq, Hc. simpl. unfold cpu_settle.
    destruct (Z.eqb_spec (c_noff c) 0); [lia|done].
  - by rewrite list_lookup_alter_ne.
Qed.

Lemma hart_ok_settle m : hart_ok m → hart_ok (settle m).
Proof.
  intros (c & Hc & H0 & Hs). exists (cpu_settle c). split.
  - simpl. by rewrite list_lookup_alter_eq, Hc.
  - unfold cpu_settle. destruct (_ =? _); done.
Qed.

Lemma free_settle l m : free l m → free l (settle m).
Proof. done. Qed.

Lemma hart_ok_held l m : hart_ok m → hart_ok (held l m).
Proof.
  intros (c & Hc & H0 & Hs). exists (cpu_push c). simpl.
  rewrite list_lookup_alter_eq, Hc. simpl. split; [done|]. split; [lia|done].
Qed.

Lemma owned_held l m : free l m → owned l (held l m).
Proof. intros [n Hn]. exists n. simpl. by rewrite lookup_alter_eq, Hn. Qed.

Lemma free_held l l' m : l ≠ l' → free l' m → free l' (held l m).
Proof. intros Hl [n Hn]. exists n. simpl. by rewrite lookup_alter_ne. Qed.

Lemma owned_held_ne l l' m : l ≠ l' → owned l' m → owned l' (held l m).
Proof. intros Hl [n Hn]. exists n. simpl. by rewrite lookup_alter_ne. Qed.

Lemma owned_not_free l m : owned l m → free l m → False.
Proof. intros [n Hn] [n' Hn']. congruence. Qed.

(** Releasing what was acquired gives the machine back, up to [c_intena]. *)
Lemma unheld_held l m : hart_ok m → free l m → unheld l (held l m) = settle m.
Proof.
  intros (c & Hc & H0 & Hs) [n Hn]. destruct m as [cs t ls].
  unfold unheld, held, settle. simpl in *. f_equal.
  - apply list_eq. intros i. destruct (decide (i = t)) as [->|].
    + rewrite !list_lookup_alter_eq, Hc. simpl. by rewrite cpu_pop_push.
    + by rewrite !list_lookup_alter_ne.
  - apply map_eq. intros i. destruct (decide (i = l)) as [->|].
    + by rewrite !lookup_alter_eq, Hn.
    + by rewrite !lookup_alter_ne.
Qed.

Lemma cpu_push_settle c : cpu_push (cpu_settle c) = cpu_push c.
Proof.
  destruct c as [p n i e]. unfold cpu_settle, cpu_push. simpl.
  by destruct (n =? 0) eqn:E; simpl; rewrite ?E.
Qed.

Lemma held_settle l m : held l (settle m) = held l m.
Proof.
  unfold held, settle. simpl. f_equal. rewrite list_alter_alter_eq.
  apply list_alter_ext; [|done]. intros c _. apply cpu_push_settle.
Qed.

Lemma settle_held l m : hart_ok m → settle (held l m) = held l m.
Proof.
  intros (c & Hc & H0 & _). apply (settle_nested _ (cpu_push c)).
  - simpl. by rewrite list_lookup_alter_eq, Hc.
  - simpl. lia.
Qed.

(** Locks need not be given back in the reverse order. *)
Lemma unheld_swap l l' m :
  l ≠ l' → hart_ok m → free l m → unheld l (held l' (held l m)) = held l' m.
Proof.
  intros Hl (c & Hc & H0 & Hs) [n Hn]. destruct m as [cs t ls].
  unfold unheld, held. simpl in *. f_equal.
  - rewrite !list_alter_alter_eq. apply list_alter_ext; [|done].
    intros x Hx. assert (x = c) as -> by congruence. unfold compose, cpu_pop, cpu_push. simpl.
    replace (1 + (1 + c_noff c) - 1) with (1 + c_noff c) by lia.
    destruct (Z.eqb_spec (1 + c_noff c) 0); [lia|]. done.
  - apply map_eq. intros i. destruct (decide (i = l)) as [->|].
    + rewrite lookup_alter_eq, !(lookup_alter_ne _ _ l') by done.
      by rewrite lookup_alter_eq, Hn.
    + rewrite lookup_alter_ne by done. destruct (decide (i = l')) as [->|].
      * by rewrite !lookup_alter_eq, lookup_alter_ne by done.
      * by rewrite !lookup_alter_ne by done.
Qed.

#[export] Hint Resolve hart_ok_settle free_settle hart_ok_held owned_held free_held
  owned_held_ne : lk.

(** The machine [m0] after balanced lock operations of its hart. *)
Definition balanced (m0 m : machine) : Prop := m = m0 ∨ m = settle m0.

Lemma balanced_settle m0 m : balanced m0 m → balanced m0 (settle m).
Proof. intros [->| ->]; right; [done|]. by rewrite settle_settle. Qed.

Lemma balanced_ok m0 m : hart_ok m0 → balanced m0 m → hart_ok m.
Proof. intros Hok [->| ->]; eauto with lk. Qed.

Lemma balanced_free l m0 m : free l m0 → balanced m0 m → free l m.
Proof. intros Hf [->| ->]; eauto with lk. Qed.

Lemma balanced_cpu m0 m c :
  cpus m0 !! tp m0 = Some c → balanced m0 m →
  ∃ c', cpus m !! tp m = Some c' ∧ c_proc c' = c_proc c ∧ c_noff c' = c_noff c.
Proof.
  intros Hc [->| ->]; [by exists c|]. exists (cpu_settle c). split.
  - simpl. by rewrite list_lookup_alter_eq, Hc.
  - unfold cpu_settle. by destruct (_ =? 0).
Qed.

Lemma balanced_trans m0 m1 m2 : balanced m0 m1 → balanced m1 m2 → balanced m0 m2.
Proof. intros [->| ->] [->| ->]; unfold balanced; rewrite ?settle_settle; auto. Qed.

Lemma balanced_refl m : balanced m m.
Proof. by left. Qed.

(** * What the operations do *)

Section runs.
Context {S : Type} `{HM : HasMachine S}.

Lemma mycpu_run s c : cpus (mach s) !! tp (mach s) = Some c → mycpu s = Ret c s.
Proof. intros H. unfold mycpu, deref. by rewrite H. Qed.

Lemma upd_mycpu_run f (s : S) c :
  cpus (mach s) !! tp (mach s) = Some c →
  upd_mycpu f s = Ret tt (set_mach (fun m => m <| cpus ::= alter f (tp m) |>) s).
Proof.
  intros H. unfold upd_mycpu. erewrite bind_Ret; [|by apply mycpu_run].
  unfold modify. f_equal. apply set_mach_ext. simpl. f_equal.
  apply list_eq. intros i. destruct (decide (i = tp (mach s))) as [->|].
  - rewrite list_lookup_alter_eq, H. simpl.
    apply list_lookup_insert_eq. by eapply lookup_lt_Some.
  - by rewrite list_lookup_insert_ne, list_lookup_alter_ne.
Qed.

Lemma intr_get_run (s : S) c :
  cpus (mach s) !! tp (mach s) = Some c → intr_get s = Ret (c_sie c) s.
Proof. intros H. unfold intr_get. by erewrite bind_Ret; [|by apply mycpu_run]. Qed.

(** Composition of updates of the machine part of the state. *)
Lemma set_mach_comp (f g h : machine → machine) (s : S) :
  g (f (mach s)) = h (mach s) → set_mach g (set_mach f s) = set_mach h s.
Proof. intros E. rewrite set_mach_set_mach. by apply set_mach_ext. Qed.

Lemma push_off_run (s : S) c :
  cpus (mach s) !! tp (mach s) = Some c →
  push_off s = Ret tt (set_mach (fun m => m <| cpus ::= alter cpu_push (tp m) |>) s).
Proof.
  intros H. unfold push_off.
  erewrite bind_Ret; [|by apply intr_get_run].
  erewrite bind_Ret; [|by eapply upd_mycpu_run].
  erewrite bind_Ret; [|apply mycpu_run; rewrite mach_set_mach; simpl;
    by rewrite list_lookup_alter_eq, H].
  unfold when. simpl. destruct (c_noff c =? 0) eqn:E.
  - erewrite bind_Ret; [|eapply upd_mycpu_run; rewrite mach_set_mach; simpl;
      by rewrite list_lookup_alter_eq, H].
    erewrite upd_mycpu_run; [|rewrite !mach_set_mach; simpl;
      by rewrite !list_lookup_alter_eq, H].
    f_equal. rewrite !set_mach_set_mach. apply set_mach_ext. simpl. f_equal.
    rewrite !list_alter_alter_eq. apply list_alter_ext; [|done].
    intros c' Hc'. assert (c' = c) as -> by congruence.
    unfold cpu_push. by rewrite E.
  - erewrite bind_Ret; [|done].
    erewrite upd_mycpu_run; [|rewrite !mach_set_mach; simpl;
      by rewrite !list_lookup_alter_eq, H].
    f_equal. rewrite !set_mach_set_mach. apply set_mach_ext. simpl. f_equal.
    rewrite !list_alter_alter_eq. apply list_alter_ext; [|done].
    intros c' Hc'. assert (c' = c) as -> by congruence.
    unfold cpu_push. by rewrite E.
Qed.

(** Every outcome of [pop_off]. *)
Lemma pop_off_cases (s : S) c :
  cpus (mach s) !! tp (mach s) = Some c →
  pop_off s =
    if c_sie c then Panic "pop_off - interruptible"
    else if c_noff c <? 1 then Panic "pop_off"
    else Ret tt (set_mach (fun m => m <| cpus ::= alter cpu_pop (tp m) |>) s).
Proof.
  intros H. unfold pop_off.
  erewrite bind_Ret; [|by apply intr_get_run]. destruct (c_sie c); [done|].
  erewrite bind_Ret; [|by apply mycpu_run]. destruct (c_noff c <? 1); [done|].
  erewrite bind_Ret; [|by eapply upd_mycpu_run].
  erewrite bind_Ret; [|apply mycpu_run; rewrite mach_set_mach; simpl;
    by rewrite list_lookup_alter_eq, H].
  unfold when. simpl. destruct ((c_noff c - 1 =? 0) && c_intena c) eqn:E.
  - unfold intr_on. erewrite upd_mycpu_run; [|rewrite !mach_set_mach; simpl;
      by rewrite !list_lookup_alter_eq, H].
    f_equal. rewrite !set_mach_set_mach. apply set_mach_ext. simpl. f_equal.
    rewrite !list_alter_alter_eq. apply list_alter_ext; [|done].
    intros c' Hc'. assert (c' = c) as -> by congruence.
    unfold cpu_pop. by rewrite E.
  - unfold mret, M_ret. f_equal. apply set_mach_ext. simpl. f_equal.
    apply list_alter_ext; [|done].
    intros c' Hc'. assert (c' = c) as -> by congruence.
    unfold cpu_pop. by rewrite E.
Qed.

Lemma pop_off_run (s : S) c :
  cpus (mach s) !! tp (mach s) = Some c → c_sie c = false → 1 <= c_noff c →
  pop_off s = Ret tt (set_mach (fun m => m <| cpus ::= alter cpu_pop (tp m) |>) s).
Proof.
  intros H Hs Hn. rewrite (pop_off_cases s c H), Hs.
  destruct (Z.ltb_spec (c_noff c) 1); [lia|done].
Qed.

Lemma upd_lock_run l f (s : S) lk :
  locks (mach s) !! l = Some lk →
  upd_lock l f s = Ret tt (set_mach (fun m => m <| locks ::= alter f l |>) s).
Proof.
  intros H. unfold upd_lock, get_lock, deref, modify. msimpl. rewrite H. simpl.
  f_equal. apply set_mach_ext. simpl. f_equal.
  apply map_eq. intros i. destruct (decide (i = l)) as [->|].
  - by rewrite lookup_alter_eq, H, lookup_insert_eq.
  - by rewrite lookup_insert_ne, lookup_alter_ne.
Qed.

Lemma holding_run l (s : S) lk :
  locks (mach s) !! l = Some lk →
  holding l s =
    Ret (negb (lk_locked lk =? 0) && bool_decide (lk_cpu lk = Some (tp (mach s)))) s.
Proof. intros H. unfold holding, get_lock, cpuid. msimpl. by rewrite H. Qed.

(** Every outcome of [release]. *)
Lemma release_cases l (s : S) c lk :
  cpus (mach s) !! tp (mach s) = Some c → locks (mach s) !! l = Some lk →
  release l s =
    if negb (negb (lk_locked lk =? 0) && bool_decide (lk_cpu lk = Some (tp (mach s))))
    then Panic "release"
    else if c_sie c then Panic "pop_off - interruptible"
    else if c_noff c <? 1 then Panic "pop_off"
    else Ret tt (set_mach (unheld l) s).
Proof.
  intros Hc Hl. unfold release.
  erewrite bind_Ret; [|by apply holding_run].
  destruct (negb (negb (lk_locked lk =? 0) && _)) eqn:E; [done|].
  erewrite bind_Ret; [|by eapply upd_lock_run].
  erewrite bind_Ret; [|eapply upd_lock_run; rewrite mach_set_mach; simpl;
    by rewrite lookup_alter_eq, Hl].
  erewrite pop_off_cases; [|rewrite !mach_set_mach; simpl; exact Hc].
  destruct (c_sie c); [done|]. destruct (c_noff c <? 1); [done|].
  f_equal. rewrite !set_mach_set_mach. apply set_mach_ext. unfold unheld. simpl. f_equal.
  apply map_eq. intros i. destruct (decide (i = l)) as [->|].
  - by rewrite !lookup_alter_eq, Hl.
  - by rewrite !lookup_alter_ne.
Qed.

(** [release] of a lock the hart holds frees it. *)
Lemma release_run l (s : S) c :
  cpus (mach s) !! tp (mach s) = Some c → c_sie c = false → 1 <= c_noff c →
  owned l (mach s) → release l s = Ret tt (set_mach (unheld l) s).
Proof.
  intros Hc Hs Hn [n Ho]. rewrite (release_cases l s c _ Hc Ho), Hs. simpl.
  rewrite bool_decide_eq_true_2 by done. simpl.
  destruct (Z.ltb_spec (c_noff c) 1); [lia|done].
Qed.

(** The same, for a state whose machine is one in which [l] was taken last. *)
Lemma release_held l (s : S) m :
  hart_ok m → free l m → mach s = held l m →
  release l s = Ret tt (set_mach (fun _ => settle m) s).
Proof.
  intros Hok Hf E. pose proof Hok as (c & Hc & H0 & _).
  erewrite release_run with (c := cpu_push c).
  - f_equal. apply set_mach_ext. rewrite E. by apply unheld_held.
  - rewrite E. simpl. by rewrite list_lookup_alter_eq, Hc.
  - done.
  - simpl. lia.
  - rewrite E. by apply owned_held.
Qed.

Lemma myproc_run (s : S) c :
  cpus (mach s) !! tp (mach s) = Some c → hart_ok (mach s) →
  myproc s = Ret (c_proc c) (set_mach settle s).
Proof.
  intros Hc (c' & Hc' & H0 & Hs). assert (c' = c) as -> by congruence. unfold myproc.
  erewrite bind_Ret; [|by eapply push_off_run].
  erewrite bind_Ret; [|apply mycpu_run; rewrite mach_set_mach; simpl;
    by rewrite list_lookup_alter_eq, Hc].
  erewrite bind_Ret; [|eapply pop_off_run;
    [rewrite mach_set_mach; simpl; by rewrite list_lookup_alter_eq, Hc|done|simpl; lia]].
  unfold mret, M_ret. f_equal. apply set_mach_comp. unfold settle. simpl. f_equal.
  rewrite list_alter_alter_eq. apply list_alter_ext; [|done].
  intros x Hx. assert (x = c) as -> by congruence. by apply cpu_pop_push.
Qed.

(** Every outcome of [acquire]. *)
Lemma acquire_cases l (s : S) c lk :
  cpus (mach s) !! tp (mach s) = Some c → locks (mach s) !! l = Some lk →
  acquire l s =
    if negb (lk_locked lk =? 0) && bool_decide (lk_cpu lk = Some (tp (mach s)))
    then Panic "acquire"
    else if lk_locked lk =? 0 then Ret tt (set_mach (held l) s) else Spin.
Proof.
  intros Hc Hl. unfold acquire.
  erewrite bind_Ret; [|by eapply push_off_run].
  erewrite bind_Ret; [|apply holding_run; rewrite mach_set_mach; simpl; exact Hl].
  rewrite mach_set_mach. simpl.
  destruct (negb (lk_locked lk =? 0) && _) eqn:E; [done|]. unfold test_and_set.
  erewrite bind_Ret; [|erewrite bind_Ret; [|unfold get_lock, deref;
    rewrite mach_set_mach; simpl; rewrite Hl; done];
    erewrite bind_Ret; [|eapply upd_lock_run; rewrite mach_set_mach; simpl; exact Hl];
    done].
  simpl. destruct (lk_locked lk =? 0) eqn:E0; simpl; [|done].
  erewrite bind_Ret; [|done].
  erewrite upd_lock_run; [|rewrite !mach_set_mach; simpl; by rewrite lookup_alter_eq, Hl].
  f_equal. rewrite !set_mach_set_mach. apply set_mach_ext. unfold held. simpl. f_equal.
  apply map_eq. intros i. rewrite !mach_set_mach. simpl. destruct (decide (i = l)) as [->|].
  - by rewrite !lookup_alter_eq, Hl.
  - by rewrite !lookup_alter_ne.
Qed.

(** [acquire] of a free lock takes it with interrupts off. *)
Lemma acquire_run l (s : S) :
  hart_ok (mach s) → free l (mach s) → acquire l s = Ret tt (set_mach (held l) s).
Proof. intros (c & Hc & _) [n Hn]. by rewrite (acquire_cases l s c _ Hc Hn). Qed.

(** * The lock discipline *)

Inductive lockop : Type := Acq (l : lockid) | Rel (l : lockid).

Definition run_op (o : lockop) : M S unit :=
  match o with Acq l => acquire l | Rel l => release l end.

Fixpoint run_ops (os : list lockop) : M S unit :=
  match os with [] => mret tt | o :: os' => run_op o ;; run_ops os' end.

(** Balance of a sequence: acquisitions minus releases. *)
Fixpoint balance (os : list lockop) : Z :=
  match os with
  | [] => 0
  | Acq _ :: os' => 1 + balance os'
  | Rel _ :: os' => -1 + balance os'
  end.

(** The hart holds [n] locks and started with interrupts [b]. *)
Definition masked (b : bool) (n : Z) (m : machine) : Prop :=
  ∃ c, cpus m !! tp m = Some c ∧ c_noff c = n ∧ 0 <= n ∧
       if n =? 0 then c_sie c = b else c_sie c = false ∧ c_intena c = b.

Lemma masked_held b n l m : masked b n m → masked b (1 + n) (held l m).
Proof.
  intros (c & Hc & <- & H0 & Hs). exists (cpu_push c). simpl.
  rewrite list_lookup_alter_eq, Hc. do 2 (split; [done|]). split; [lia|].
  destruct (Z.eqb_spec (1 + c_noff c) 0); [lia|]. split; [done|].
  by destruct (c_noff c =? 0); [|destruct Hs].
Qed.

Lemma masked_unheld b n l m c :
  cpus m !! tp m = Some c → c_sie c = false → 1 <= c_noff c →
  masked b n m → masked b (-1 + n) (unheld l m).
Proof.
  intros Hc Hs H1 (c' & Hc' & <- & H0 & Hm). assert (c' = c) as -> by congruence.
  exists (cpu_pop c). simpl. rewrite list_lookup_alter_eq, Hc. split; [done|].
  split; [lia|]. split; [lia|]. destruct (Z.eqb_spec (c_noff c) 0); [lia|].
  destruct Hm as [_ Hi]. replace (c_noff c - 1) with (-1 + c_noff c) by lia.
  destruct (-1 + c_noff c =? 0); simpl; rewrite Hi; [|done]. by destruct b.
Qed.

Lemma run_op_masked o b n (s s' : S) :
  masked b n (mach s) → run_op o s = Ret tt s' → masked b (balance [o] + n) (mach s').
Proof.
  intros Hm. pose proof Hm as (c & Hc & _). destruct o as [l|l]; simpl.
  - destruct (locks (mach s) !! l) as [lk|] eqn:Hl.
    + rewrite (acquire_cases l s c lk Hc Hl). destruct (_ && _); [done|].
      destruct (_ =? 0); [|done]. intros [= <-]. rewrite mach_set_mach.
      by apply masked_held.
    + unfold acquire. erewrite bind_Ret; [|by eapply push_off_run].
      unfold holding, get_lock. msimpl. rewrite mach_set_mach. simpl. by rewrite Hl.
  - destruct (locks (mach s) !! l) as [lk|] eqn:Hl.
    + rewrite (release_cases l s c lk Hc Hl). destruct (negb _); [done|].
      destruct (c_sie c) eqn:Es; [done|].
      destruct (Z.ltb_spec (c_noff c) 1); [done|]. intros [= <-].
      rewrite mach_set_mach. by eapply masked_unheld.
    + unfold release, holding, get_lock. msimpl. by rewrite Hl.
Qed.

Lemma run_ops_masked os b n (s s' : S) :
  masked b n (mach s) → run_ops os s = Ret tt s' → masked b (balance os + n) (mach s').
Proof.
  revert n s. induction os as [|o os IH]; intros n s Hm; simpl.
  { by intros [= <-]. }
  rewrite bind_run. destruct (run_op o s) as [[] s1| | | |] eqn:E; try done. simpl.
  intros Hr. pose proof (run_op_masked o b n s s1 Hm E) as H1.
  specialize (IH _ _ H1 Hr).
  by destruct o; simpl in *; [replace (1 + balance os + n) with (balance os + (1 + n)) by lia
    |replace (-1 + balance os + n) with (balance os + (-1 + n)) by lia].
Qed.

End runs.

#[local] Instance machine_HasMachine : HasMachine machine.
Proof. refine {| mach := id; set_mach := fun f m => f m |}; done. Defined.

(** C23. After any sequence of acquire and release calls that runs through, the
    nesting count of the hart is the number of locks still held, interrupts are off
    while it is positive, and once it is back to zero interrupts are exactly as they
    were before the first acquire. *)
Theorem locks_restore_interrupts {S : Type} `{HM : HasMachine S} (os : list lockop) (b : bool)
    (s s' : S) :
  masked b 0 (mach s) → run_ops os s = Ret tt s' →
  ∃ c, cpus (mach s') !! tp (mach s') = Some c ∧ c_noff c = balance os ∧ 0 <= balance os ∧
    if balance os =? 0 then c_sie c = b else c_sie c = false.
Proof.
  intros Hm Hr. pose proof (run_ops_masked os b 0 s s' Hm Hr) as (c & Hc & Hn & H0 & Hs).
  rewrite Z.add_0_r in Hn, H0, Hs. exists c. split_and!; [done..|].
  destruct (balance os =? 0); [done|]. apply Hs.
Qed.

Definition ex_mach : machine :=
  mkmachine [mkcpu None 0 false true] 0
    {[ LkGlobal "a" := mkspinlock 0 "a" None; LkGlobal "b" := mkspinlock 0 "b" None ]}.

Lemma locks_restore_interrupts_witness :
  ∃ c, c_noff c = 1 ∧ c_sie c = false.
Proof.
  destruct (locks_restore_interrupts
    [Acq (LkGlobal "a"); Acq (LkGlobal "b"); Rel (LkGlobal "a")] true ex_mach
    (mkmachine [mkcpu None 1 true false] 0
       {[ LkGlobal "a" := mkspinlock 0 "a" None; LkGlobal "b" := mkspinlock 1 "b" (Some 0%nat) ]}))
    as (c & _ & Hn & _ & Hs).
  - exists (mkcpu None 0 false true). done.
  - vm_compute. reflexivity.
  - exists c. split; [exact Hn|exact Hs].
Defined.
