(* ===== verification/Kstate.v ===== *)
(** The data of kernel/proc.h and the global variables of kernel/proc.c and
    kernel/trap.c, as one kernel state over which the process, scheduler and
    trap code runs. *)

From stdpp Require Import base gmap strings numbers list.
From S2P Require Import Prelude Spinlock.
Local Open Scope Z_scope.

(** * Constants (kernel/param.h, kernel/riscv.h, kernel/memlayout.h) *)

Definition NPROC : nat := Z.to_nat 2000.
Definition NCPU : nat := 8%nat.
Definition NOFILE : nat := 16%nat.
Definition QUEUE_LEVELS : nat := 3%nat.
Definition PGSIZE : Z := 4096.
Definition MAXVA : Z := Z.shiftl 1 (9 + 9 + 9 + 12 - 1).
Definition TRAMPOLINE : Z := MAXVA - PGSIZE.
Definition KSTACK (p : Z) : Z := TRAMPOLINE - (p + 1) * 2 * PGSIZE.
Definition TRAPFRAME : Z := TRAMPOLINE - PGSIZE.

Lemma NPROC_val : Z.of_nat NPROC = 2000.
Proof. reflexivity. Qed.

#[global] Opaque NPROC.

(** * Data (kernel/proc.h) *)

Inductive procstate : Type := UNUSED | USED | SLEEPING | RUNNABLE | RUNNING | ZOMBIE.

#[global] Instance procstate_eq_dec : EqDecision procstate.
Proof. solve_decision. Defined.

(** Addresses that are used as sleep channels. *)
Inductive kptr : Type :=
| PProc (i : nat)
| PTicks
| PLog
| PSleeplock (kind : string) (i : nat)
| PPipeRead (pa : Z)
| PPipeWrite (pa : Z)
| PConsR
| PUartTxR
| PDiskFree
| PBuf (i : nat).

#[global] Instance kptr_eq_dec : EqDecision kptr.
Proof. solve_decision. Defined.

Record context := mkcontext {
  ctx_ra : Z; ctx_sp : Z;
  ctx_s0 : Z; ctx_s1 : Z; ctx_s2 : Z; ctx_s3 : Z; ctx_s4 : Z; ctx_s5 : Z;
  ctx_s6 : Z; ctx_s7 : Z; ctx_s8 : Z; ctx_s9 : Z; ctx_s10 : Z; ctx_s11 : Z
}.

Record trapframe := mktrapframe {
  tf_kernel_satp : Z; tf_kernel_sp : Z; tf_kernel_trap : Z; tf_epc : Z;
  tf_kernel_hartid : Z;
  tf_ra : Z; tf_sp : Z; tf_gp : Z; tf_tp : Z; tf_t0 : Z; tf_t1 : Z; tf_t2 : Z;
  tf_s0 : Z; tf_s1 : Z;
  tf_a0 : Z; tf_a1 : Z; tf_a2 : Z; tf_a3 : Z; tf_a4 : Z; tf_a5 : Z; tf_a6 : Z;
  tf_a7 : Z;
  tf_s2 : Z; tf_s3 : Z; tf_s4 : Z; tf_s5 : Z; tf_s6 : Z; tf_s7 : Z; tf_s8 : Z;
  tf_s9 : Z; tf_s10 : Z; tf_s11 : Z;
  tf_t3 : Z; tf_t4 : Z; tf_t5 : Z; tf_t6 : Z
}.

#[global] Instance eta_trapframe : Settable trapframe := fun t =>
  mktrapframe (tf_kernel_satp t) (tf_kernel_sp t) (tf_kernel_trap t) (tf_epc t)
    (tf_kernel_hartid t) (tf_ra t) (tf_sp t) (tf_gp t) (tf_tp t) (tf_t0 t) (tf_t1 t)
    (tf_t2 t) (tf_s0 t) (tf_s1 t) (tf_a0 t) (tf_a1 t) (tf_a2 t) (tf_a3 t) (tf_a4 t)
    (tf_a5 t) (tf_a6 t) (tf_a7 t) (tf_s2 t) (tf_s3 t) (tf_s4 t) (tf_s5 t) (tf_s6 t)
    (tf_s7 t) (tf_s8 t) (tf_s9 t) (tf_s10 t) (tf_s11 t) (tf_t3 t) (tf_t4 t) (tf_t5 t)
    (tf_t6 t).

(** [struct proc].  Pointers to processes, open files and inodes are indices
    of their tables; [None] is the null pointer.  [p_trapframe] and
    [p_pagetable] are physical addresses, 0 for null; [p_tf] is the content of
    the trapframe page.  The lock is [LkProc] of the machine. *)
Record proc := mkproc {
  p_state : procstate;
  p_chan : option kptr;
  p_killed : Z;
  p_xstate : Z;
  p_pid : Z;
  p_parent : option nat;
  p_kstack : Z;
  p_sz : Z;
  p_pagetable : Z;
  p_trapframe : Z;
  p_tf : trapframe;
  p_context : context;
  p_ofile : list (option nat);
  p_cwd : option nat;
  p_name : list Z;
  p_arrival_time : Z;
  p_priority : Z;
  p_last_runtime : Z;
  p_runtime_start_ticks : Z;
  p_queue_level : Z;
  p_time_slice : Z;
  p_total_ticks : Z;
  p_ready_time : Z;
  p_run_start_time : Z;
  p_waiting_time : Z
}.

#[global] Instance eta_proc : Settable proc := fun p =>
  mkproc (p_state p) (p_chan p) (p_killed p) (p_xstate p) (p_pid p) (p_parent p)
    (p_kstack p) (p_sz p) (p_pagetable p) (p_trapframe p) (p_tf p) (p_context p)
    (p_ofile p) (p_cwd p) (p_name p) (p_arrival_time p) (p_priority p)
    (p_last_runtime p) (p_runtime_start_ticks p) (p_queue_level p) (p_time_slice p)
    (p_total_ticks p) (p_ready_time p) (p_run_start_time p) (p_waiting_time p).

(** * The kernel state *)

(** [V] is the state of the rest of the kernel (memory, files). *)
Record kstate (V : Type) := mkkstate {
  k_mach : machine;
  k_procs : list proc;
  k_queue : list (list (option nat));
  k_qsize : list Z;
  k_nextpid : Z;
  k_initproc : option nat;
  k_policy : Z;
  k_ticks : Z;
  k_first : bool;
  k_sub : V
}.

Arguments mkkstate {V}.
Arguments k_mach {V}.
Arguments k_procs {V}.
Arguments k_queue {V}.
Arguments k_qsize {V}.
Arguments k_nextpid {V}.
Arguments k_initproc {V}.
Arguments k_policy {V}.
Arguments k_ticks {V}.
Arguments k_first {V}.
Arguments k_sub {V}.

#[global] Instance eta_kstate {V} : Settable (kstate V) := fun s =>
  mkkstate (k_mach s) (k_procs s) (k_queue s) (k_qsize s) (k_nextpid s)
    (k_initproc s) (k_policy s) (k_ticks s) (k_first s) (k_sub s).

#[global] Instance kstate_HasMachine {V} : HasMachine (kstate V).
Proof.
  refine {| mach := k_mach; set_mach := fun f s => s <| k_mach ::= f |> |}.
  - done.
  - done.
  - intros f g s E. simpl. by rewrite E.
Defined.

(** Names of the global locks, as given to [initlock]. *)
Definition pid_lock : lockid := LkGlobal "nextpid".
Definition wait_lock : lockid := LkGlobal "wait_lock".
Definition mlfq_lock : lockid := LkGlobal "mlfq".
Definition tickslock : lockid := LkGlobal "time".

(** * Access to the process table *)

Section access.
Context {V : Type}.

Definition get_proc (i : nat) : M (kstate V) proc := deref (fun s => k_procs s !! i).

(** Assignment to fields of [proc[i]]. *)
Definition upd_proc (i : nat) (f : proc → proc) : M (kstate V) unit :=
  p ← get_proc i;
  modify (fun s => s <| k_procs ::= <[i := f p]> |>).

(** A pointer that is dereferenced. *)
Definition non_null {A} (o : option A) : M (kstate V) A := deref (fun _ => o).

Lemma get_proc_run i (s : kstate V) p :
  k_procs s !! i = Some p → get_proc i s = Ret p s.
Proof. intros H. unfold get_proc, deref. by rewrite H. Qed.

Lemma upd_proc_run i f (s : kstate V) p :
  k_procs s !! i = Some p →
  upd_proc i f s = Ret tt (s <| k_procs ::= <[i := f p]> |>).
Proof. intros H. unfold upd_proc. by erewrite bind_Ret; [|by apply get_proc_run]. Qed.

End access.
