(* ===== verification/Mlfq.v ===== *)
(** The multi-level feedback queues: [struct mlfq_t] (kernel/proc.h) with
    [mlfq_init], [enqueue_to_mlfq] and [compact_queue] of kernel/proc.c.

    A level is an array of [NPROC] pointers of which the first [qsize] are in
    use; [active] is that part.  [enqueue_to_mlfq] and [compact_queue] are shown
    to implement list operations on it. *)

From stdpp Require Import base gmap strings numbers list.
From S2P Require Import Prelude Spinlock Kstate.
Local Open Scope Z_scope.

Section ops.
Context {V : Type}.
Local Abbreviation K := (M (kstate V)).

Definition qsize_get (level : Z) : K Z := deref (fun s => at_idx (k_qsize s) level).

Definition qsize_set (level : Z) (n : Z) : K unit :=
  qsize_get level ;;
  modify (fun s => s <| k_qsize ::= <[Z.to_nat level := n]> |>).

Definition queue_row (level : Z) : K (list (option nat)) :=
  deref (fun s => at_idx (k_queue s) level).

Definition queue_get (level : Z) (i : nat) : K (option nat) :=
  row ← queue_row level;
  deref (fun _ => row !! i).

Definition queue_set (level : Z) (i : nat) (v : option nat) : K unit :=
  row ← queue_row level;
  queue_get level i ;;
  modify (fun s => s <| k_queue ::= <[Z.to_nat level := <[i := v]> row]> |>).

(** [for (int j = i; j < qsize - 1; j++) queue[level][j] = queue[level][j+1];] *)
Definition shift_down (level : Z) (i : nat) (n : Z) : K unit :=
  for_acc (seq i (Z.to_nat (n - 1) - i))
    (fun j _ => v ← queue_get level (S j); queue_set level j v) tt.

(** [enqueue_to_mlfq(&proc[i])]. *)
Definition enqueue_to_mlfq (i : nat) : K unit :=
  p ← get_proc i;
  let level := p_queue_level p in
  n ← qsize_get level;
  for_ret (seq 0 (Z.to_nat n))
    (fun j =>
       q ← queue_get level j;
       if decide (q = Some i) then
         shift_down level j n ;;
         qsize_set level (n - 1) ;;
         mret (Some tt)
       else mret None) ;;
  n ← qsize_get level;
  if n <? Z.of_nat NPROC then
    queue_set level (Z.to_nat n) (Some i) ;;
    qsize_set level (n + 1)
  else panic "MLFQ: queue full".

(** [compact_queue(level)]; the loop variable is [(i, j)]. *)
Definition compact_queue (level : Z) : K unit :=
  n ← qsize_get level;
  j ← for_acc (seq 0 (Z.to_nat n))
        (fun i j =>
           q ← queue_get level i;
           match q with
           | None => mret j
           | Some _ => queue_set level j q ;; mret (S j)
           end) 0%nat;
  qsize_set level (Z.of_nat j).

Definition mlfq_init : K unit :=
  initlock mlfq_lock "mlfq" ;;
  for_acc (seq 0 QUEUE_LEVELS)
    (fun i _ =>
       qsize_set (Z.of_nat i) 0 ;;
       for_acc (seq 0 NPROC) (fun j _ => queue_set (Z.of_nat i) j None) tt) tt.

End ops.

(** * Levels *)

Section levels.
Context {V : Type}.
Implicit Types (s : kstate V) (row : list (option nat)).

Definition put_row (level : Z) row s : kstate V :=
  s <| k_queue ::= <[Z.to_nat level := row]> |>.

Definition put_n (level : Z) (n : Z) s : kstate V :=
  s <| k_qsize ::= <[Z.to_nat level := n]> |>.

(** Level [level] is the array [row] with [n] entries in use. *)
Definition level_is (level : Z) row (n : Z) s : Prop :=
  at_idx (k_queue s) level = Some row ∧ at_idx (k_qsize s) level = Some n ∧
  length row = NPROC ∧ 0 <= n <= Z.of_nat NPROC.

Definition active (n : Z) row : list (option nat) := take (Z.to_nat n) row.

Lemma at_idx_insert {A} (l : list A) z x y :
  at_idx l z = Some x → at_idx (<[Z.to_nat z := y]> l) z = Some y.
Proof.
  intros H. pose proof (at_idx_Some _ _ _ H). unfold at_idx.
  destruct (Z.ltb_spec z 0); [lia|]. apply list_lookup_insert_eq. lia.
Qed.

Lemma queue_get_run level row i v s :
  at_idx (k_queue s) level = Some row → row !! i = Some v →
  queue_get level i s = Ret v s.
Proof. intros Hr Hv. unfold queue_get, queue_row. msimpl. rewrite Hr. simpl. by rewrite Hv. Qed.

Lemma queue_set_run level row i v s :
  at_idx (k_queue s) level = Some row → (i < length row)%nat →
  queue_set level i v s = Ret tt (put_row level (<[i := v]> row) s).
Proof.
  intros Hr [w Hw]%lookup_lt_is_Some_2. unfold queue_set.
  erewrite bind_Ret; [|unfold queue_row, deref; by rewrite Hr].
  erewrite bind_Ret; [|by eapply queue_get_run]. done.
Qed.

Lemma qsize_get_run level n s :
  at_idx (k_qsize s) level = Some n → qsize_get level s = Ret n s.
Proof. intros H. unfold qsize_get, deref. by rewrite H. Qed.

Lemma qsize_set_run level n n' s :
  at_idx (k_qsize s) level = Some n → qsize_set level n' s = Ret tt (put_n level n' s).
Proof. intros H. unfold qsize_set. by erewrite bind_Ret; [|by apply qsize_get_run]. Qed.

Lemma put_row_row level r1 r2 s : put_row level r2 (put_row level r1 s) = put_row level r2 s.
Proof. unfold put_row. simpl. by rewrite list_insert_insert_eq. Qed.

Lemma put_row_id level row s : at_idx (k_queue s) level = Some row → put_row level row s = s.
Proof.
  intros H. unfold put_row. simpl. rewrite list_insert_id; [by destruct s|].
  unfold at_idx in H. by destruct (level <? 0).
Qed.

Lemma at_put_row level r0 r s :
  at_idx (k_queue s) level = Some r0 → at_idx (k_queue (put_row level r s)) level = Some r.
Proof. apply at_idx_insert. Qed.

(** The array after [shift_down]. *)
Fixpoint shift_row row (j m : nat) : list (option nat) :=
  match m with
  | O => row
  | S m' =>
      match row !! S j with
      | Some v => shift_row (<[j := v]> row) (S j) m'
      | None => row
      end
  end.

Lemma length_shift_row row j m : length (shift_row row j m) = length row.
Proof.
  revert row j. induction m as [|m IH]; intros row j; simpl; [done|].
  destruct (row !! S j); [|done]. by rewrite IH, length_insert.
Qed.

Lemma shift_row_lookup row j m k :
  (j + m < length row)%nat →
  shift_row row j m !! k = if decide (j <= k < j + m)%nat then row !! S k else row !! k.
Proof.
  revert row j. induction m as [|m IH]; intros row j Hl; simpl.
  { case_decide; [lia|done]. }
  destruct (lookup_lt_is_Some_2 row (S j)) as [v Hv]; [lia|]. rewrite Hv.
  rewrite IH by (rewrite length_insert; lia).
  destruct (decide (k = j)) as [->|Hkj].
  - rewrite decide_False by lia. rewrite decide_True by lia.
    rewrite list_lookup_insert_eq by lia. congruence.
  - destruct (decide (S k = j)) as [E|].
    + rewrite !decide_False by lia. by rewrite list_lookup_insert_ne by lia.
    + rewrite !list_lookup_insert_ne by lia.
      destruct (decide (S j <= k < S j + m)%nat); destruct (decide (j <= k < j + S m)%nat);
        try lia; done.
Qed.

Lemma take_shift_row row (j n : nat) :
  (j < n <= length row)%nat → take (n - 1) (shift_row row j (n - 1 - j)) = delete j (take n row).
Proof.
  intros Hj. apply list_eq. intros k. destruct (decide (k < n - 1)%nat).
  - rewrite lookup_take_lt by lia. rewrite shift_row_lookup by lia.
    destruct (decide (k < j)%nat).
    + rewrite decide_False by lia. rewrite list_lookup_delete_lt by lia.
      by rewrite lookup_take_lt by lia.
    + rewrite decide_True by lia. rewrite list_lookup_delete_ge by lia.
      by rewrite lookup_take_lt by lia.
  - rewrite lookup_take_ge by lia. rewrite list_lookup_delete_ge by lia.
    by rewrite lookup_take_ge by lia.
Qed.

Lemma shift_loop_run level row (j m : nat) s :
  at_idx (k_queue s) level = Some row → (j + m < length row)%nat →
  for_acc (seq j m) (fun j _ => v ← queue_get level (S j); queue_set level j v) tt s =
  Ret tt (put_row level (shift_row row j m) s).
Proof.
  revert row j s. induction m as [|m IH]; intros row j s Hr Hl; simpl.
  { by rewrite put_row_id. }
  destruct (lookup_lt_is_Some_2 row (S j)) as [v Hv]; [lia|]. rewrite Hv.
  erewrite bind_Ret.
  2: { erewrite bind_Ret; [|by eapply queue_get_run]. apply queue_set_run; [done|lia]. }
  rewrite (IH (<[j := v]> row)).
  - by rewrite put_row_row.
  - by eapply at_put_row.
  - rewrite length_insert. lia.
Qed.

Lemma put_n_row level n r s : put_row level r (put_n level n s) = put_n level n (put_row level r s).
Proof. done. Qed.

Lemma put_n_n level n1 n2 s : put_n level n2 (put_n level n1 s) = put_n level n2 s.
Proof. unfold put_n. simpl. by rewrite list_insert_insert_eq. Qed.

Lemma put_n_id level n s : at_idx (k_qsize s) level = Some n → put_n level n s = s.
Proof.
  intros H. unfold put_n. simpl. rewrite list_insert_id; [by destruct s|].
  unfold at_idx in H. by destruct (level <? 0).
Qed.

Lemma at_put_n level n0 n s :
  at_idx (k_qsize s) level = Some n0 → at_idx (k_qsize (put_n level n s)) level = Some n.
Proof. apply at_idx_insert. Qed.

Lemma active_lookup n row j : (j < Z.to_nat n)%nat → active n row !! j = row !! j.
Proof. intros. unfold active. by rewrite lookup_take_lt. Qed.

Lemma length_active level row n s : level_is level row n s → Z.of_nat (length (active n row)) = n.
Proof. intros (_ & _ & Hl & Hn). unfold active. rewrite length_take. lia. Qed.

(** The first phase of [enqueue_to_mlfq]: take the process out of its level. *)
Lemma dequeue_run level row n i s :
  level_is level row n s →
  ∃ row' r,
    for_ret (seq 0 (Z.to_nat n))
      (fun j =>
         q ← queue_get level j;
         if decide (q = Some i) then
           shift_down level j n ;; qsize_set level (n - 1) ;; mret (Some tt)
         else mret None) s =
      Ret r (put_n level (Z.of_nat (length (remove_first (Some i) (active n row))))
               (put_row level row' s)) ∧
    length row' = NPROC ∧
    take (length (remove_first (Some i) (active n row))) row' =
      remove_first (Some i) (active n row).
Proof.
  intros Hlv. pose proof Hlv as (Hr & Hq & Hl & Hn).
  pose proof (length_active _ _ _ _ Hlv) as Ha.
  destruct (decide (Some i ∈ active n row)) as [Hin|Hnin].
  - destruct (first_index _ _ Hin) as (j & Hj & Hbefore).
    assert (j < Z.to_nat n)%nat as Hjn by (apply lookup_lt_Some in Hj; lia).
    rewrite (remove_first_at _ _ j Hj Hbefore).
    assert (length (delete j (active n row)) = Z.to_nat n - 1)%nat as Hdel.
    { pose proof (length_delete (active n row) j) as E. rewrite E by eauto. lia. }
    exists (shift_row row j (Z.to_nat n - 1 - j)), (Some tt). rewrite Hdel.
    split; [|split].
    + replace (seq 0 (Z.to_nat n)) with (seq 0 j ++ seq j (Z.to_nat n - j)).
      2: { rewrite <- seq_app. f_equal. lia. }
      rewrite for_ret_skip.
      2: { intros k Hk%elem_of_seq. destruct (lookup_lt_is_Some_2 row k) as [q Hkq]; [lia|].
           erewrite bind_Ret; [|by eapply queue_get_run].
           rewrite decide_False; [done|]. intros ->.
           apply (Hbefore k); [lia|]. by rewrite active_lookup by lia. }
      replace (Z.to_nat n - j)%nat with (S (Z.to_nat n - j - 1)) by lia. simpl.
      rewrite active_lookup in Hj by lia.
      erewrite bind_Ret.
      2: { erewrite bind_Ret; [|by eapply queue_get_run]. rewrite decide_True by done.
           unfold shift_down. erewrite bind_Ret.
           2: { replace (Z.to_nat (n - 1) - j)%nat with (Z.to_nat n - 1 - j)%nat by lia.
                eapply shift_loop_run; [done|lia]. }
           erewrite bind_Ret; [|by eapply qsize_set_run]. done. }
      simpl. unfold mret, M_ret. do 2 f_equal. lia.
    + by rewrite length_shift_row.
    + unfold active. rewrite take_shift_row by lia. done.
  - exists row, None. rewrite remove_first_notin by done. rewrite Ha.
    rewrite put_row_id, put_n_id by done. split; [|split; [done|]].
    + apply for_ret_none. intros k Hk%elem_of_seq.
      destruct (lookup_lt_is_Some_2 row k) as [q Hkq]; [lia|].
      erewrite bind_Ret; [|by eapply queue_get_run]. rewrite decide_False; [done|].
      intros ->. apply Hnin. apply (list_elem_of_lookup_2 _ k).
      by rewrite active_lookup by lia.
    + unfold active. rewrite length_take. f_equal. lia.
Qed.

(** [enqueue_to_mlfq] moves the process to the end of its level. *)
Lemma enqueue_run i p row n s :
  k_procs s !! i = Some p → level_is (p_queue_level p) row n s →
  Some i ∈ active n row ∨ n < Z.of_nat NPROC →
  let q' := remove_first (Some i) (active n row) ++ [Some i] in
  ∃ row',
    enqueue_to_mlfq i s =
      Ret tt (put_n (p_queue_level p) (Z.of_nat (length q'))
               (put_row (p_queue_level p) row' s)) ∧
    length row' = NPROC ∧ active (Z.of_nat (length q')) row' = q'.
Proof.
  intros Hp Hlv Hroom q'. pose proof Hlv as (Hr & Hq & Hl & Hn).
  pose proof (length_active _ _ _ _ Hlv) as Ha.
  destruct (dequeue_run _ _ _ i _ Hlv) as (row1 & r & Hrun & Hl1 & Ht1).
  set (q1 := remove_first (Some i) (active n row)) in *.
  assert (length q1 < NPROC)%nat as Hlt.
  { destruct (decide (Some i ∈ active n row)) as [Hin|Hnin].
    - apply length_remove_first in Hin. fold q1 in Hin. lia.
    - destruct Hroom; [done|]. unfold q1. rewrite remove_first_notin by done. lia. }
  exists (<[length q1 := Some i]> row1). unfold enqueue_to_mlfq.
  assert (length q' = S (length q1)) as Hq' by (unfold q'; rewrite length_app; simpl; lia).
  split; [|split].
  - erewrite bind_Ret; [|by apply get_proc_run].
    erewrite bind_Ret; [|by apply qsize_get_run].
    erewrite bind_Ret; [|exact Hrun].
    erewrite bind_Ret; [|apply qsize_get_run; eapply at_put_n; done].
    destruct (Z.ltb_spec (Z.of_nat (length q1)) (Z.of_nat NPROC)); [|lia].
    erewrite bind_Ret.
    2: { apply queue_set_run; [by eapply at_put_row|rewrite Nat2Z.id; lia]. }
    erewrite qsize_set_run; [|by eapply at_put_n].
    rewrite put_n_row, put_n_n, put_row_row, Nat2Z.id. do 2 f_equal. lia.
  - by rewrite length_insert.
  - unfold active. rewrite Nat2Z.id, Hq'. rewrite (take_S_r _ _ (Some i)).
    + rewrite take_insert_ge by lia. by rewrite Ht1.
    + rewrite list_lookup_insert_eq; [done|lia].
Qed.

(** It panics only when the level is full of other processes. *)
Lemma enqueue_full i p row n s :
  k_procs s !! i = Some p → level_is (p_queue_level p) row n s →
  Some i ∉ active n row → n = Z.of_nat NPROC →
  enqueue_to_mlfq i s = Panic "MLFQ: queue full".
Proof.
  intros Hp Hlv Hnin ->. pose proof Hlv as (Hr & Hq & Hl & Hn).
  pose proof (length_active _ _ _ _ Hlv) as Ha.
  destruct (dequeue_run _ _ _ i _ Hlv) as (row1 & r & Hrun & Hl1 & Ht1).
  rewrite remove_first_notin, Ha in Hrun by done. unfold enqueue_to_mlfq.
  erewrite bind_Ret; [|by apply get_proc_run].
  erewrite bind_Ret; [|by apply qsize_get_run].
  erewrite bind_Ret; [|exact Hrun].
  erewrite bind_Ret; [|apply qsize_get_run; eapply at_put_n; done].
  by rewrite Z.ltb_irrefl.
Qed.

(** The loop of [compact_queue] from entry [i] on, with [j] entries kept. *)
Lemma compact_loop_run level (i j m : nat) row s :
  at_idx (k_queue s) level = Some row → (i + m <= length row)%nat → (j <= i)%nat →
  ∃ row',
    for_acc (seq i m)
      (fun i j =>
         q ← queue_get level i;
         match q with None => mret j | Some _ => queue_set level j q ;; mret (S j) end) j s =
      Ret (j + length (filter is_Some (take m (drop i row))))%nat (put_row level row' s) ∧
    length row' = length row ∧
    take (j + length (filter is_Some (take m (drop i row)))) row' =
      take j row ++ filter is_Some (take m (drop i row)).
Proof.
  revert i j row s. induction m as [|m IH]; intros i j row s Hr Hl Hj; simpl.
  { exists row. rewrite put_row_id by done. rewrite Nat.add_0_r, app_nil_r. done. }
  destruct (lookup_lt_is_Some_2 row i) as [q Hq]; [lia|].
  rewrite (drop_S row q i Hq). simpl.
  destruct q as [x|].
  - rewrite filter_cons_True by done. simpl.
    destruct (IH (S i) (S j) (<[j := Some x]> row) (put_row level (<[j := Some x]> row) s))
      as (row' & Hrun & Hl' & Ht).
    { by eapply at_put_row. } { rewrite length_insert. lia. } { lia. }
    rewrite drop_insert_lt in Hrun, Ht by lia. rewrite length_insert in Hl'.
    exists row'. split; [|split; [done|]].
    + erewrite bind_Ret.
      2: { erewrite bind_Ret; [|by eapply queue_get_run]. cbv beta iota.
           erewrite bind_Ret; [|apply queue_set_run; [done|lia]]. done. }
      rewrite Hrun, put_row_row. f_equal. lia.
    + rewrite Nat.add_succ_r. simpl in Ht. rewrite Ht.
      rewrite (take_S_r _ _ (Some x)) by (rewrite list_lookup_insert_eq; [done|lia]).
      rewrite take_insert_ge by lia. by rewrite <- app_assoc.
  - rewrite filter_cons_False by (by intros [? ?]).
    destruct (IH (S i) j row s Hr) as (row' & Hrun & Hl' & Ht); [lia..|].
    exists row'. split; [|done]. erewrite bind_Ret; [exact Hrun|].
    by erewrite bind_Ret; [|by eapply queue_get_run].
Qed.

(** [compact_queue] drops the null entries of a level and keeps the order. *)
Lemma compact_run level row n s :
  level_is level row n s →
  let q' := filter is_Some (active n row) in
  ∃ row',
    compact_queue level s = Ret tt (put_n level (Z.of_nat (length q')) (put_row level row' s)) ∧
    length row' = NPROC ∧ active (Z.of_nat (length q')) row' = q'.
Proof.
  intros (Hr & Hq & Hl & Hn) q'.
  destruct (compact_loop_run level 0 0 (Z.to_nat n) row s Hr) as (row' & Hrun & Hl' & Ht); [lia..|].
  rewrite drop_0 in Hrun, Ht. exists row'. split; [|split; [lia|]].
  - unfold compact_queue. erewrite bind_Ret; [|by apply qsize_get_run].
    erewrite bind_Ret; [|exact Hrun]. by erewrite qsize_set_run.
  - unfold active at 1. by rewrite Nat2Z.id.
Qed.

End levels.

(** * The queues as an abstract data type *)

(** Three first-in first-out queues of process indices. *)
Abbreviation queues := (list (list nat)).

Definition q_enqueue (lv i : nat) (q : queues) : queues :=
  alter (fun l => remove_first i l ++ [i]) lv q.

Definition q_remove (lv i : nat) (q : queues) : queues := alter (remove_first i) lv q.

(** Process [i] enters its level when [sel] selects it. *)
Definition enqueue_sel (sel : nat → proc → bool) (procs : list proc) (q : queues) (i : nat) :
    queues :=
  match procs !! i with
  | Some p => if sel i p then q_enqueue (Z.to_nat (p_queue_level p)) i q else q
  | None => q
  end.

(** No process is twice in a level, and all are of the process table. *)
Definition queues_wf (q : queues) : Prop :=
  length q = QUEUE_LEVELS ∧
  ∀ lv l, q !! lv = Some l → NoDup l ∧ ∀ i, i ∈ l → (i < NPROC)%nat.

Lemma queues_wf_alter f lv q :
  queues_wf q →
  (∀ l, NoDup l → (∀ i, i ∈ l → (i < NPROC)%nat) →
     NoDup (f l) ∧ ∀ i, i ∈ f l → (i < NPROC)%nat) →
  queues_wf (alter f lv q).
Proof.
  intros [Hl Hq] Hf. split; [by rewrite length_alter|]. intros lv' l'.
  destruct (decide (lv' = lv)) as [->|].
  - rewrite list_lookup_alter_eq. intros (l & Hlv & ->)%fmap_Some.
    destruct (Hq lv l Hlv). by apply Hf.
  - rewrite list_lookup_alter_ne by done. apply Hq.
Qed.

Lemma queues_wf_enqueue lv i q : queues_wf q → (i < NPROC)%nat → queues_wf (q_enqueue lv i q).
Proof.
  intros Hq Hi. apply queues_wf_alter; [done|]. intros l Hd Hl.
  destruct (NoDup_remove_first i l Hd) as [Hd' Hn]. split.
  - apply NoDup_app. split; [done|]. split; [|apply NoDup_singleton].
    intros x Hx ->%list_elem_of_singleton. done.
  - intros j [Hj%elem_of_remove_first| ->%list_elem_of_singleton]%elem_of_app; auto.
Qed.

Lemma queues_wf_remove lv i q : queues_wf q → queues_wf (q_remove lv i q).
Proof.
  intros Hq. apply queues_wf_alter; [done|]. intros l Hd Hl. split.
  - by apply NoDup_remove_first.
  - intros j Hj%elem_of_remove_first. auto.
Qed.

Definition levels_ok (procs : list proc) : Prop :=
  ∀ p, p ∈ procs → 0 <= p_queue_level p < Z.of_nat QUEUE_LEVELS.

Section refinement.
Context {V : Type}.
Implicit Types (s : kstate V) (q : queues).

(** The arrays of [s] hold the queues [q]. *)
Definition mlfq_abs s q : Prop :=
  length q = QUEUE_LEVELS ∧
  ∀ lv l, q !! lv = Some l →
    ∃ row n, level_is (Z.of_nat lv) row n s ∧ active n row = Some <$> l.

(** [s'] is [s] up to the content of the queues. *)
Definition same_but_queues s s' : Prop :=
  s' = s <| k_queue := k_queue s' |> <| k_qsize := k_qsize s' |>.

Lemma remove_first_fmap i (l : list nat) :
  remove_first (Some i) (Some <$> l) = Some <$> remove_first i l.
Proof.
  induction l as [|j l IH]; csimpl; [done|].
  destruct (decide (Some j = Some i)), (decide (j = i)); try congruence. csimpl. by rewrite IH.
Qed.

(** Writing one level. *)
Lemma mlfq_abs_put lv row n l f s q :
  mlfq_abs s q → q !! lv = Some l → length row = NPROC → 0 <= n <= Z.of_nat NPROC →
  active n row = Some <$> f l →
  mlfq_abs (put_n (Z.of_nat lv) n (put_row (Z.of_nat lv) row s)) (alter f lv q).
Proof.
  intros [Hl Hq] Hlv Hrow Hn Ha. split; [by rewrite length_alter|]. intros lv' l'.
  destruct (Hq lv l Hlv) as (row0 & n0 & (Hr0 & Hn0 & _) & _).
  destruct (decide (lv' = lv)) as [->|Hne].
  - rewrite list_lookup_alter_eq, Hlv. intros [= <-]. exists row, n. split; [|done].
    split; [by eapply at_put_row|]. split; [by eapply at_put_n|]. split; [exact Hrow|exact Hn].
  - rewrite list_lookup_alter_ne by done. intros Hl'.
    destruct (Hq lv' l' Hl') as (row' & n' & (Hr' & Hn' & Hrest) & Ha').
    exists row', n'. split; [|done]. rewrite at_idx_nat in Hr'. rewrite at_idx_nat in Hn'.
    split; [|split; [|exact Hrest]]; rewrite at_idx_nat; simpl; rewrite Nat2Z.id.
    + by rewrite list_lookup_insert_ne.
    + by rewrite list_lookup_insert_ne.
Qed.

Lemma same_but_queues_put lv n row s :
  same_but_queues s (put_n lv n (put_row lv row s)).
Proof. done. Qed.

Lemma queue_length_lt lv l i q :
  queues_wf q → q !! lv = Some l → i ∉ l → (i < NPROC)%nat → (length l < NPROC)%nat.
Proof.
  intros [_ Hq] Hlv Hi HiN. destruct (Hq lv l Hlv) as [Hd Hl].
  assert (length (i :: l) <= NPROC)%nat; [|simpl in *; lia].
  apply NoDup_indices_le; [by constructor|]. intros j [->|Hj]%elem_of_cons; auto.
Qed.

(** [enqueue_to_mlfq] implements [q_enqueue] and does not panic. *)
Lemma enqueue_abs i p lv s q :
  k_procs s !! i = Some p → p_queue_level p = Z.of_nat lv → (lv < QUEUE_LEVELS)%nat →
  (i < NPROC)%nat → mlfq_abs s q → queues_wf q →
  ∃ s', enqueue_to_mlfq i s = Ret tt s' ∧ mlfq_abs s' (q_enqueue lv i q) ∧
        same_but_queues s s'.
Proof.
  intros Hp Hlvl Hlv Hi Habs Hwf. pose proof Habs as [Hl Hq].
  destruct (lookup_lt_is_Some_2 q lv) as [l Hql]; [lia|].
  destruct (Hq lv l Hql) as (row & n & Hlis & Ha).
  pose proof (length_active _ _ _ _ Hlis) as Hlen. rewrite Ha, length_fmap in Hlen.
  destruct (enqueue_run i p row n s Hp) as (row' & Hrun & Hl' & Ha').
  { by rewrite Hlvl. }
  { rewrite Ha. destruct (decide (i ∈ l)); [left; by apply list_elem_of_fmap_2|right].
    pose proof (queue_length_lt lv l i q Hwf Hql ltac:(done) Hi). lia. }
  rewrite Ha, remove_first_fmap in Hrun, Ha'. rewrite Hlvl in Hrun.
  change ([Some i]) with (Some <$> [i]) in Hrun, Ha'. rewrite <- fmap_app in Hrun, Ha'.
  eexists. split; [exact Hrun|]. split; [|done].
  apply (mlfq_abs_put lv _ _ l (fun l => remove_first i l ++ [i])); [done..| |done].
  split; [lia|]. rewrite length_fmap.
  destruct (queues_wf_enqueue lv i q Hwf Hi) as [_ Hwf'].
  destruct (Hwf' lv (remove_first i l ++ [i])) as [Hd Hb].
  { unfold q_enqueue. by rewrite list_lookup_alter_eq, Hql. }
  pose proof (NoDup_indices_le _ NPROC Hd Hb). lia.
Qed.

Lemma filter_insert_None (l : list nat) j :
  filter is_Some (<[j := None]> (Some <$> l)) = Some <$> delete j l.
Proof.
  revert j. induction l as [|x l IH]; intros [|j]; [done|done|..].
  - csimpl. rewrite filter_cons_False by (by intros [? ?]).
    clear IH. induction l as [|y l IH]; [done|]. csimpl.
    rewrite filter_cons_True by done. by rewrite IH.
  - change (filter is_Some (Some x :: <[j := None]> (Some <$> l)) = Some <$> (x :: delete j l)).
    rewrite filter_cons_True by done. csimpl. by rewrite IH.
Qed.

Lemma remove_first_NoDup (l : list nat) j i :
  NoDup l → l !! j = Some i → remove_first i l = delete j l.
Proof.
  intros Hd Hj. apply remove_first_at; [done|]. intros j' Hlt Hj'.
  pose proof (NoDup_lookup l j j' i Hd Hj Hj'). lia.
Qed.

(** [mlfq.queue[level][j] = 0; compact_queue(level);] takes entry [j] out. *)
Lemma dequeue_at_abs lv l j i s q :
  mlfq_abs s q → queues_wf q → q !! lv = Some l → l !! j = Some i →
  ∃ s1 s', queue_set (Z.of_nat lv) j None s = Ret tt s1 ∧
    compact_queue (Z.of_nat lv) s1 = Ret tt s' ∧
    mlfq_abs s' (q_remove lv i q) ∧ same_but_queues s s'.
Proof.
  intros Habs Hwf Hql Hj. pose proof Habs as [Hl Hq].
  destruct (Hq lv l Hql) as (row & n & Hlis & Ha). pose proof Hlis as (Hr & Hn & Hrow & Hb).
  pose proof (length_active _ _ _ _ Hlis) as Hlen. rewrite Ha, length_fmap in Hlen.
  pose proof (lookup_lt_Some _ _ _ Hj) as Hjl.
  exists (put_row (Z.of_nat lv) (<[j := None]> row) s).
  destruct (compact_run (Z.of_nat lv) (<[j := None]> row) n
    (put_row (Z.of_nat lv) (<[j := None]> row) s)) as (row' & Hrun & Hl' & Ha').
  { split; [by eapply at_put_row|]. split; [exact Hn|]. by rewrite length_insert. }
  assert (active n (<[j := None]> row) = <[j := None]> (Some <$> l)) as E.
  { rewrite <- Ha. unfold active. by rewrite take_insert_lt by lia. }
  rewrite E, filter_insert_None in Hrun, Ha'.
  eexists. split; [apply queue_set_run; [done|lia]|]. split; [exact Hrun|].
  rewrite put_row_row. split; [|done].
  apply (mlfq_abs_put lv _ _ l (remove_first i)); [done..| |].
  - rewrite length_fmap. pose proof (length_delete l j ltac:(eauto)). lia.
  - rewrite Ha'. destruct Hwf as [_ Hwf]. destruct (Hwf lv l Hql).
    by rewrite (remove_first_NoDup l j i).
Qed.

Lemma mlfq_abs_ext s s' q :
  k_queue s' = k_queue s → k_qsize s' = k_qsize s → mlfq_abs s q → mlfq_abs s' q.
Proof.
  intros E1 E2 [Hl Hq]. split; [done|]. intros lv l Hlv.
  destruct (Hq lv l Hlv) as (row & n & (H1 & H2 & H3) & Ha). exists row, n.
  unfold level_is. by rewrite E1, E2.
Qed.

Lemma abs_qsize s q lv l :
  mlfq_abs s q → q !! lv = Some l → qsize_get (Z.of_nat lv) s = Ret (Z.of_nat (length l)) s.
Proof.
  intros [_ Hq] Hlv. destruct (Hq lv l Hlv) as (row & n & Hlis & Ha).
  pose proof (length_active _ _ _ _ Hlis) as Hlen. rewrite Ha, length_fmap in Hlen.
  apply qsize_get_run. rewrite Hlen. apply Hlis.
Qed.

Lemma abs_queue_get s q lv l j i :
  mlfq_abs s q → q !! lv = Some l → l !! j = Some i →
  queue_get (Z.of_nat lv) j s = Ret (Some i) s.
Proof.
  intros [_ Hq] Hlv Hj. destruct (Hq lv l Hlv) as (row & n & (Hr & _ & Hrow & Hn) & Ha).
  eapply queue_get_run; [exact Hr|].
  assert (active n row !! j = Some (Some i)) as E by (by rewrite Ha, list_lookup_fmap, Hj).
  unfold active in E. apply lookup_take_Some in E. by destruct E.
Qed.

(** ** Initialisation *)

Lemma init_row_run lv (m j : nat) row s :
  at_idx (k_queue s) lv = Some row → (j + m = length row)%nat →
  (∀ k, (k < j)%nat → row !! k = Some None) →
  for_acc (seq j m) (fun j _ => queue_set lv j None) tt s =
    Ret tt (put_row lv (replicate (length row) None) s).
Proof.
  revert j row s. induction m as [|m IH]; intros j row s Hr Hl Hj; simpl.
  - unfold mret, M_ret. f_equal. rewrite <- (put_row_id lv row s Hr) at 1. f_equal.
    apply list_eq. intros k. destruct (decide (k < length row)%nat).
    + rewrite lookup_replicate_2 by done. apply Hj. lia.
    + rewrite !lookup_ge_None_2; [done|..]; rewrite ?length_replicate; lia.
  - erewrite bind_Ret; [|apply queue_set_run; [done|lia]].
    rewrite (IH (S j) (<[j := None]> row)).
    + by rewrite put_row_row, length_insert.
    + by eapply at_put_row.
    + rewrite length_insert. lia.
    + intros k Hk. destruct (decide (k = j)) as [->|].
      * apply list_lookup_insert_eq. lia.
      * rewrite list_lookup_insert_ne by done. apply Hj. lia.
Qed.

(** The arrays [mlfq.queue] and [mlfq.qsize] have their declared sizes. *)
Definition mlfq_shape s : Prop :=
  length (k_queue s) = QUEUE_LEVELS ∧ length (k_qsize s) = QUEUE_LEVELS ∧
  ∀ row, row ∈ k_queue s → length row = NPROC.

Lemma mlfq_init_run s :
  mlfq_shape s →
  mlfq_init s =
    Ret tt (s <| k_mach ::= fun m => m <| locks ::= <[mlfq_lock := mkspinlock 0 "mlfq" None]> |> |>
              <| k_queue := replicate QUEUE_LEVELS (replicate NPROC None) |>
              <| k_qsize := replicate QUEUE_LEVELS 0 |>).
Proof.
  intros (Hq & Hn & Hrow). unfold mlfq_init.
  erewrite bind_Ret; [|unfold initlock, modify; reflexivity].
  destruct (k_queue s) as [|r0 [|r1 [|r2 [|]]]] eqn:Eq; try done.
  destruct (k_qsize s) as [|n0 [|n1 [|n2 [|]]]] eqn:En; try done.
  assert (length r0 = NPROC ∧ length r1 = NPROC ∧ length r2 = NPROC) as (H0 & H1 & H2).
  { split_and!; apply Hrow; set_solver. }
  destruct s as [m ps qs ns np ip pol t f v]. simpl in *. subst qs ns.
  unfold QUEUE_LEVELS. cbn [seq for_acc].
  assert (∀ lv n row (s : kstate V), at_idx (k_queue s) lv = Some row → length row = NPROC →
    at_idx (k_qsize s) lv = Some n →
    (qsize_set lv 0 ;; for_acc (seq 0 NPROC) (fun j _ => queue_set lv j None) tt) s =
    Ret tt (put_row lv (replicate NPROC None) (put_n lv 0 s))) as Hrow1.
  { intros lv n row s Hr Hl Hnl. erewrite bind_Ret; [|by eapply qsize_set_run].
    rewrite (init_row_run _ NPROC 0 row); [by rewrite Hl|done|lia|lia]. }
  erewrite bind_Ret; [|by eapply (Hrow1 (Z.of_nat 0) n0 r0)].
  erewrite bind_Ret; [|by eapply (Hrow1 (Z.of_nat 1) n1 r1)].
  erewrite bind_Ret; [|by eapply (Hrow1 (Z.of_nat 2) n2 r2)]. done.
Qed.

Lemma mlfq_init_abs s :
  mlfq_abs (s <| k_queue := replicate QUEUE_LEVELS (replicate NPROC None) |>
              <| k_qsize := replicate QUEUE_LEVELS 0 |>) (replicate QUEUE_LEVELS []).
Proof.
  split; [done|]. intros lv l [-> Hlv]%lookup_replicate. exists (replicate NPROC None), 0.
  split; [|done]. split; [|split; [|split]].
  - rewrite at_idx_nat. exact (lookup_replicate_2 _ _ _ Hlv).
  - rewrite at_idx_nat. exact (lookup_replicate_2 _ _ _ Hlv).
  - apply length_replicate.
  - lia.
Qed.

(** The queues of [s] are [q], and well formed: what mlfq.lock protects. *)
Definition mlfq_data s q : Prop := levels_ok (k_procs s) ∧ mlfq_abs s q ∧ queues_wf q.

(** The same while nobody holds the lock. *)
Definition mlfq_inv s q : Prop := free mlfq_lock (k_mach s) ∧ mlfq_data s q.

Lemma levels_ok_insert procs i p :
  levels_ok procs → 0 <= p_queue_level p < Z.of_nat QUEUE_LEVELS → levels_ok (<[i := p]> procs).
Proof.
  intros H Hp x [j Hj]%list_elem_of_lookup. apply list_lookup_insert_Some in Hj.
  destruct Hj as [(-> & <- & _)|[_ Hj]]; [done|]. apply H. by eapply list_elem_of_lookup_2.
Qed.

Definition same_but_procs_queues s s' : Prop :=
  s' = s <| k_procs := k_procs s' |> <| k_queue := k_queue s' |> <| k_qsize := k_qsize s' |>.

Lemma same_but_procs_queues_trans s1 s2 s3 :
  same_but_procs_queues s1 s2 → same_but_procs_queues s2 s3 → same_but_procs_queues s1 s3.
Proof.
  unfold same_but_procs_queues. intros H1 H2. rewrite H2 at 1. rewrite H1 at 1. by destruct s1.
Qed.

(** A loop over the table whose body changes process [i] by [g i] and the queues
    by [h], and keeps [I]. *)
Section table_pass.
Context (procs : list proc) (body : nat → M (kstate V) unit) (g : nat → proc → proc).
Context (h : queues → nat → queues) (I : kstate V → Prop).
Context (Hlen : length procs = NPROC).
Context (Hbody : ∀ i p s q, (i < NPROC)%nat → procs !! i = Some p → k_procs s !! i = Some p →
  length (k_procs s) = NPROC → I s → mlfq_abs s q → queues_wf q →
  ∃ s', body i s = Ret tt s' ∧ I s' ∧ k_procs s' = <[i := g i p]> (k_procs s) ∧
    mlfq_abs s' (h q i) ∧ queues_wf (h q i)).

Lemma table_pass_from m j s q :
  (j + m = NPROC)%nat → length (k_procs s) = NPROC →
  (∀ i, (j <= i)%nat → k_procs s !! i = procs !! i) → I s → mlfq_abs s q → queues_wf q →
  ∃ s', for_acc (seq j m) (fun i _ => body i) tt s = Ret tt s' ∧ I s' ∧
    mlfq_abs s' (fold_left h (seq j m) q) ∧ queues_wf (fold_left h (seq j m) q) ∧
    ∀ i, k_procs s' !! i = if decide (j <= i)%nat then g i <$> procs !! i else k_procs s !! i.
Proof.
  revert j s q. induction m as [|m IH]; intros j s q Hjm Hl Heq HI Habs Hwf;
    cbn [seq for_acc fold_left].
  { exists s. split_and!; [done..|]. intros i. destruct (decide (j <= i)%nat); [|done].
    rewrite Heq by done. by rewrite lookup_ge_None_2 by lia. }
  destruct (lookup_lt_is_Some_2 procs j) as [p Hp]; [lia|].
  destruct (Hbody j p s q) as (s1 & Hrun & HI1 & Hps1 & Habs1 & Hwf1); [lia|done| |done..|].
  { by rewrite Heq. }
  destruct (IH (S j) s1 (h q j)) as (s' & Hrun' & HI' & Habs' & Hwf' & Hps'); try done.
  - lia.
  - by rewrite Hps1, length_insert.
  - intros i Hi. rewrite Hps1, list_lookup_insert_ne by lia. apply Heq. lia.
  - exists s'. split_and!; [|done..|].
    + erewrite bind_Ret; [exact Hrun'|exact Hrun].
    + intros i. rewrite Hps', Hps1. destruct (decide (i = j)) as [->|].
      * rewrite decide_False by lia. rewrite decide_True by lia.
        rewrite list_lookup_insert_eq by lia. by rewrite Hp.
      * rewrite list_lookup_insert_ne by done.
        destruct (decide (S j <= i)%nat), (decide (j <= i)%nat); try lia; done.
Qed.

Lemma table_pass s q :
  k_procs s = procs → I s → mlfq_abs s q → queues_wf q →
  ∃ s', for_acc (seq 0 NPROC) (fun i _ => body i) tt s = Ret tt s' ∧ I s' ∧
    mlfq_abs s' (fold_left h (seq 0 NPROC) q) ∧ queues_wf (fold_left h (seq 0 NPROC) q) ∧
    k_procs s' = imap g procs.
Proof.
  intros Es HI Habs Hwf.
  destruct (table_pass_from NPROC 0 s q) as (s' & Hrun & HI' & Habs' & Hwf' & Hps); try done.
  - by rewrite Es.
  - by rewrite Es.
  - exists s'. split_and!; try done. apply list_eq. intros i.
    rewrite Hps. by rewrite list_lookup_imap.
Qed.

End table_pass.

Lemma enqueue_sel_wf sel procs q i :
  queues_wf q → (i < NPROC)%nat → queues_wf (enqueue_sel sel procs q i).
Proof.
  intros Hq Hi. unfold enqueue_sel. destruct (procs !! i) as [p|]; [|done].
  destruct (sel i p); [by apply queues_wf_enqueue|done].
Qed.

End refinement.

(** C17. enqueue_to_mlfq, called with mlfq.lock held or without it, implements the
    abstract queues: the process becomes the last entry of its level and occurs
    there once, the other levels and the rest of the kernel state, the locks
    included, are unchanged, the well-formedness of the queues is kept, and the
    queue-full panic cannot happen. *)
Theorem enqueue_refines {V} (i : nat) (p : proc) (s : kstate V) (q : queues) :
  k_procs s !! i = Some p → (i < NPROC)%nat → mlfq_data s q →
  ∃ s', enqueue_to_mlfq i s = Ret tt s' ∧
    mlfq_data s' (q_enqueue (Z.to_nat (p_queue_level p)) i q) ∧ same_but_queues s s'.
Proof.
  intros Hp Hi (Hlv & Habs & Hwf).
  pose proof (Hlv p (list_elem_of_lookup_2 _ _ _ Hp)) as Hpl.
  destruct (enqueue_abs i p (Z.to_nat (p_queue_level p)) s q) as (s' & Hr & Habs' & Hsame);
    [done|lia|lia|done..|].
  exists s'. split; [done|]. split; [|done].
  split; [by rewrite Hsame|]. split; [done|]. by apply queues_wf_enqueue.
Qed.

(** C18. compact_queue removes exactly the null entries of a level and keeps the
    order of the others. *)
Theorem compact_queue_refines {V} (lv : nat) (row : list (option nat)) (n : Z) (s : kstate V) :
  level_is (Z.of_nat lv) row n s →
  ∃ row', compact_queue (Z.of_nat lv) s =
      Ret tt (put_n (Z.of_nat lv) (Z.of_nat (length (omap id (active n row))))
               (put_row (Z.of_nat lv) row' s)) ∧
    level_is (Z.of_nat lv) row' (Z.of_nat (length (omap id (active n row))))
      (put_n (Z.of_nat lv) (Z.of_nat (length (omap id (active n row)))) (put_row (Z.of_nat lv) row' s)) ∧
    active (Z.of_nat (length (omap id (active n row)))) row' = Some <$> omap id (active n row).
Proof.
  intros Hlis. destruct (compact_run (Z.of_nat lv) row n s Hlis) as (row' & Hr & Hl & Ha).
  assert (filter is_Some (active n row) = Some <$> omap id (active n row)) as E.
  { generalize (active n row). intros l. induction l as [|[x|] l IH]; csimpl; [done|..].
    - rewrite filter_cons_True by done. by rewrite IH.
    - rewrite filter_cons_False by (by intros [? ?]). done. }
  rewrite E, length_fmap in Hr, Ha. exists row'. split; [exact Hr|]. split; [|exact Ha].
  destruct Hlis as (H1 & H2 & H3 & H4). split; [by eapply at_put_row|].
  split; [by eapply at_put_n|]. split; [done|].
  pose proof (f_equal length Ha) as HL. unfold active at 1 in HL.
  rewrite length_take, length_fmap, Nat2Z.id in HL. lia.
Qed.
