(* ===== verification/Sched.v ===== *)
(** The scheduler of kernel/proc.c: [scheduler] with its five policies,
    [sched], [yield], [sleep], [wakeup], [kill], [setkilled], [killed],
    [reparent] and [get_waiting_time].

    [swtch] is the [Swtch] of the resumption monad: [scheduler_round] stops
    there with the chosen process, and its continuation is what the scheduler
    does when that process gives the hart back through [sched]. *)

From stdpp Require Import base gmap strings numbers list.
From S2P Require Import Prelude Spinlock Kstate Mlfq.
Local Open Scope Z_scope.

(** [enum sched_policy]. *)
Definition SCHED_RR : Z := 0.
Definition SCHED_FCFS : Z := 1.
Definition SCHED_PRIORITY : Z := 2.
Definition SCHED_HRRN : Z := 3.
Definition SCHED_MLFQ : Z := 4.

Section ops.
Context {V : Type}.
Local Abbreviation K := (M (kstate V)).

Definition ticks : K Z := gets k_ticks.
Definition current_policy : K Z := gets k_policy.

(** [acquire(&mlfq.lock); enqueue_to_mlfq(p); release(&mlfq.lock);] *)
Definition enqueue_locked (i : nat) : K unit :=
  acquire mlfq_lock ;; enqueue_to_mlfq i ;; release mlfq_lock.

(** [c->proc = p]. *)
Definition set_cpu_proc (o : option nat) : K unit :=
  upd_mycpu (fun c => c <| c_proc := o |>).

(** [p->run_start_time = ticks; p->waiting_time = p->run_start_time - p->ready_time;] *)
Definition record_wait (i : nat) : K unit :=
  t ← ticks;
  upd_proc i (fun p => p <| p_run_start_time := int t |>) ;;
  upd_proc i (fun p => p <| p_waiting_time := int (p_run_start_time p - p_ready_time p) |>).

(** ** First come, first served (policy 1) *)

(** The scan over the process table; the result is [chosen], whose lock is
    held, and [min_arrival]. *)
Definition fcfs_visit (i : nat) (acc : option nat * Z) : K (option nat * Z) :=
  let '(chosen, min_arrival) := acc in
  acquire (LkProc i) ;;
  p ← get_proc i;
  if decide (p_state p = RUNNABLE) then
    if uint (p_arrival_time p) <? min_arrival then
      match chosen with Some c => release (LkProc c) | None => mret tt end ;;
      mret (Some i, uint (p_arrival_time p))
    else release (LkProc i) ;; mret (chosen, min_arrival)
  else release (LkProc i) ;; mret (chosen, min_arrival).

Definition fcfs_scan : K (option nat) :=
  acc ← for_acc (seq 0 NPROC) fcfs_visit (None, uint (-1));
  mret acc.1.

(** [swtch] to the chosen process, and back. *)
Definition run_chosen (i : nat) : K unit :=
  record_wait i ;;
  upd_proc i (fun p => p <| p_state := RUNNING |>) ;;
  set_cpu_proc (Some i) ;;
  swtch (ToProc i) ;;
  set_cpu_proc None ;;
  release (LkProc i).

Definition sched_fcfs : K unit :=
  chosen ← fcfs_scan;
  match chosen with
  | Some i => run_chosen i
  | None => intr_on
  end.

(** ** Priority (policy 2) *)

Definition priority_visit (i : nat) (chosen : option nat) : K (option nat) :=
  acquire (LkProc i) ;;
  p ← get_proc i;
  if decide (p_state p = RUNNABLE) then
    better ← match chosen with
             | None => mret true
             | Some c => pc ← get_proc c; mret (p_priority p <? p_priority pc)
             end;
    if better : bool then
      match chosen with Some c => release (LkProc c) | None => mret tt end ;;
      mret (Some i)
    else release (LkProc i) ;; mret chosen
  else release (LkProc i) ;; mret chosen.

Definition priority_scan : K (option nat) :=
  for_acc (seq 0 NPROC) priority_visit None.

Definition sched_priority : K unit :=
  chosen ← priority_scan;
  match chosen with
  | Some i => run_chosen i
  | None => intr_on
  end.

(** ** Highest response ratio next (policy 3) *)

(** Numerator and denominator of the response ratio of [p] at time [t]. *)
Definition response_ratio (t : Z) (p : proc) : Z * Z :=
  let wait_time := int (uint (t - p_arrival_time p)) in
  let service_time := if 0 <? p_last_runtime p then p_last_runtime p else 1 in
  (int (wait_time + service_time), service_time).

Definition hrrn_visit (i : nat) (acc : option nat * (Z * Z)) : K (option nat * (Z * Z)) :=
  let '(chosen, (chosen_rr_num, chosen_rr_den)) := acc in
  acquire (LkProc i) ;;
  p ← get_proc i;
  if decide (p_state p = RUNNABLE) then
    t ← ticks;
    let '(rr_num, rr_den) := response_ratio t p in
    if bool_decide (chosen = None) ||
       (int (chosen_rr_num * rr_den) <? int (rr_num * chosen_rr_den)) then
      match chosen with Some c => release (LkProc c) | None => mret tt end ;;
      mret (Some i, (rr_num, rr_den))
    else release (LkProc i) ;; mret acc
  else release (LkProc i) ;; mret acc.

Definition hrrn_scan : K (option nat) :=
  acc ← for_acc (seq 0 NPROC) hrrn_visit (None, (-1, 1));
  mret acc.1.

(** [int delta = ticks - p->runtime_start_ticks;
     p->last_runtime = delta > 0 ? delta : 1;] *)
Definition record_runtime (i : nat) : K unit :=
  t ← ticks;
  upd_proc i (fun p =>
    let delta := int (uint (t - p_runtime_start_ticks p)) in
    p <| p_last_runtime := if 0 <? delta then delta else 1 |>).

Definition sched_hrrn : K unit :=
  chosen ← hrrn_scan;
  match chosen with
  | Some i =>
      record_wait i ;;
      t ← ticks;
      upd_proc i (fun p => p <| p_runtime_start_ticks := int t |>) ;;
      upd_proc i (fun p => p <| p_state := RUNNING |>) ;;
      set_cpu_proc (Some i) ;;
      swtch (ToProc i) ;;
      set_cpu_proc None ;;
      record_runtime i ;;
      release (LkProc i)
  | None => intr_on
  end.

(** ** Multi-level feedback queue (policy 4) *)

Definition total_qsize : K Z :=
  for_acc (seq 0 QUEUE_LEVELS)
    (fun i total => n ← qsize_get (Z.of_nat i); mret (int (total + n))) 0.

(** All queues empty: enter every runnable process again. *)
Definition mlfq_refill : K unit :=
  acquire mlfq_lock ;;
  for_acc (seq 0 NPROC)
    (fun i _ =>
       p ← get_proc i;
       if decide (p_state p = RUNNABLE) then
         enqueue_to_mlfq i ;;
         upd_proc i (fun p => p <| p_time_slice := 0 |>)
       else mret tt) tt ;;
  release mlfq_lock.

(** Look at entry [i] of [level]; run it when it is runnable. *)
Definition mlfq_visit (level i : nat) : K (option unit) :=
  q ← queue_get (Z.of_nat level) i;
  match q with
  | None => mret None
  | Some x =>
      acquire (LkProc x) ;;
      p ← get_proc x;
      if decide (p_state p = RUNNABLE) then
        record_wait x ;;
        upd_proc x (fun p => p <| p_state := RUNNING |>) ;;
        set_cpu_proc (Some x) ;;
        queue_set (Z.of_nat level) i None ;;
        compact_queue (Z.of_nat level) ;;
        swtch (ToProc x) ;;
        set_cpu_proc None ;;
        release (LkProc x) ;;
        mret (Some tt)
      else release (LkProc x) ;; mret None
  end.

Definition mlfq_level (level : nat) : K (option unit) :=
  n ← qsize_get (Z.of_nat level);
  for_ret (seq 0 (Z.to_nat n)) (mlfq_visit level).

Definition sched_mlfq : K unit :=
  total ← total_qsize;
  when (total =? 0) mlfq_refill ;;
  found ← for_ret (seq 0 QUEUE_LEVELS) mlfq_level;
  match found with
  | Some _ => mret tt
  | None => intr_on
  end.

(** ** Round robin (policy 0 and any other value) *)

Definition rr_visit (i : nat) (found : bool) : K bool :=
  acquire (LkProc i) ;;
  p ← get_proc i;
  if decide (p_state p = RUNNABLE) then
    record_wait i ;;
    upd_proc i (fun p => p <| p_state := RUNNING |>) ;;
    set_cpu_proc (Some i) ;;
    swtch (ToProc i) ;;
    set_cpu_proc None ;;
    release (LkProc i) ;;
    mret true
  else release (LkProc i) ;; mret found.

Definition sched_rr : K unit :=
  found ← for_acc (seq 0 NPROC) rr_visit false;
  if found : bool then mret tt else intr_on.

(** One turn of the [for(;;)] of [scheduler]; [wfi] has no effect on the state. *)
Definition scheduler_round : K unit :=
  intr_on ;;
  policy ← current_policy;
  if policy =? 1 then sched_fcfs
  else if policy =? 2 then sched_priority
  else if policy =? 3 then sched_hrrn
  else if policy =? 4 then sched_mlfq
  else sched_rr.

(** [scheduler()], followed for some turns; with interrupts on, the hart takes the
    interrupts [irq] in front of each. *)
Fixpoint scheduler_turns (irqs : list (K unit)) : K unit :=
  match irqs with
  | [] => mret tt
  | irq :: irqs' => irq ;; scheduler_round ;; scheduler_turns irqs'
  end.

Definition scheduler (irqs : list (K unit)) : K unit :=
  set_cpu_proc None ;; scheduler_turns irqs.

(** ** Giving up the hart *)

Definition sched : K unit :=
  o ← myproc;
  i ← non_null o;
  h ← holding (LkProc i);
  if negb h then panic "sched p->lock" else
  c ← mycpu;
  if negb (c_noff c =? 1) then panic "sched locks" else
  p ← get_proc i;
  if decide (p_state p = RUNNING) then panic "sched running" else
  on ← intr_get;
  if on : bool then panic "sched interruptible" else
  c ← mycpu;
  let intena := c_intena c in
  swtch ToSched ;;
  upd_mycpu (fun c => c <| c_intena := intena |>).

Definition yield : K unit :=
  o ← myproc;
  i ← non_null o;
  acquire (LkProc i) ;;
  record_runtime i ;;
  upd_proc i (fun p => p <| p_state := RUNNABLE |>) ;;
  policy ← current_policy;
  when (policy =? SCHED_MLFQ) (enqueue_locked i) ;;
  sched ;;
  release (LkProc i).

Definition sleep (chan : kptr) (lk : lockid) : K unit :=
  o ← myproc;
  i ← non_null o;
  acquire (LkProc i) ;;
  release lk ;;
  upd_proc i (fun p => p <| p_chan := Some chan |>) ;;
  upd_proc i (fun p => p <| p_state := SLEEPING |>) ;;
  sched ;;
  upd_proc i (fun p => p <| p_chan := None |>) ;;
  release (LkProc i) ;;
  acquire lk.

Definition wakeup_visit (chan : option kptr) (i : nat) : K unit :=
  me ← myproc;
  if decide (me = Some i) then mret tt else
  acquire (LkProc i) ;;
  p ← get_proc i;
  (if decide (p_state p = SLEEPING ∧ p_chan p = chan) then
     upd_proc i (fun p => p <| p_state := RUNNABLE |>) ;;
     t ← ticks;
     upd_proc i (fun p => p <| p_ready_time := int t |>) ;;
     policy ← current_policy;
     when (policy =? SCHED_MLFQ) (enqueue_locked i)
   else mret tt) ;;
  release (LkProc i).

Definition wakeup (chan : option kptr) : K unit :=
  for_acc (seq 0 NPROC) (fun i _ => wakeup_visit chan i) tt.

Definition kill_visit (pid : Z) (i : nat) : K (option Z) :=
  acquire (LkProc i) ;;
  p ← get_proc i;
  if p_pid p =? pid then
    upd_proc i (fun p => p <| p_killed := 1 |>) ;;
    (if decide (p_state p = SLEEPING) then
       upd_proc i (fun p => p <| p_state := RUNNABLE |>)
     else mret tt) ;;
    release (LkProc i) ;;
    mret (Some 0)
  else release (LkProc i) ;; mret None.

Definition kill (pid : Z) : K Z :=
  r ← for_ret (seq 0 NPROC) (kill_visit pid);
  mret (default (-1) r).

Definition setkilled (i : nat) : K unit :=
  acquire (LkProc i) ;;
  upd_proc i (fun p => p <| p_killed := 1 |>) ;;
  release (LkProc i).

Definition killed (i : nat) : K Z :=
  acquire (LkProc i) ;;
  p ← get_proc i;
  let k := p_killed p in
  release (LkProc i) ;;
  mret k.

(** [reparent(&proc[i])]: [wakeup(initproc)] sleeps on the address of
    [initproc]. *)
Definition reparent (i : nat) : K unit :=
  for_acc (seq 0 NPROC)
    (fun j _ =>
       pp ← get_proc j;
       if decide (p_parent pp = Some i) then
         init ← gets k_initproc;
         upd_proc j (fun p => p <| p_parent := init |>) ;;
         wakeup (PProc <$> init)
       else mret tt) tt.

Definition get_waiting_time (pid : Z) : K Z :=
  r ← for_ret (seq 0 NPROC)
        (fun i =>
           acquire (LkProc i) ;;
           p ← get_proc i;
           if p_pid p =? pid then
             let w := p_waiting_time p in
             release (LkProc i) ;;
             mret (Some w)
           else release (LkProc i) ;; mret None);
  mret (default (-1) r).

End ops.

Arguments response_ratio : simpl never.

(** * Running code under the locks of the process table *)

Section facts.
Context {V : Type}.
Implicit Types (s : kstate V) (m : machine).

Definition proc_locks_free m : Prop := ∀ i, (i < NPROC)%nat → free (LkProc i) m.

(** A state in which the hart holds no lock of the process table. *)
Definition at_rest s : Prop :=
  hart_ok (k_mach s) ∧ proc_locks_free (k_mach s) ∧ length (k_procs s) = NPROC.

(** The state after code that took and gave back locks. *)
Definition settled s : kstate V := s <| k_mach ::= settle |>.

Definition put_proc (i : nat) (p : proc) s : kstate V := s <| k_procs ::= <[i := p]> |>.

Lemma at_rest_settled s : at_rest s → at_rest (settled s).
Proof. intros (H1 & H2 & H3). split; [by apply hart_ok_settle|]. done. Qed.

Lemma at_rest_put_proc i p s : at_rest s → at_rest (put_proc i p s).
Proof. intros (H1 & H2 & H3). split_and!; [done..|]. simpl. by rewrite length_insert. Qed.

Lemma settled_settled s : settled (settled s) = settled s.
Proof. unfold settled. simpl. by rewrite settle_settle. Qed.

Lemma settled_put_proc i p s : settled (put_proc i p s) = put_proc i p (settled s).
Proof. done. Qed.

Lemma put_proc_put_proc i p q s : put_proc i q (put_proc i p s) = put_proc i q s.
Proof. unfold put_proc. simpl. by rewrite list_insert_insert_eq. Qed.

Lemma put_proc_id i p s : k_procs s !! i = Some p → put_proc i p s = s.
Proof. intros H. unfold put_proc. simpl. rewrite list_insert_id by done. by destruct s. Qed.

Lemma lookup_put_proc i p q s :
  k_procs s !! i = Some q → k_procs (put_proc i p s) !! i = Some p.
Proof. intros H%lookup_lt_Some. simpl. by apply list_lookup_insert_eq. Qed.

Lemma at_rest_proc s i : at_rest s → (i < NPROC)%nat → ∃ p, k_procs s !! i = Some p.
Proof. intros (_ & _ & Hl) Hi. apply lookup_lt_is_Some. lia. Qed.

Lemma upd_proc_put i f s p :
  k_procs s !! i = Some p → upd_proc i f s = Ret tt (put_proc i (f p) s).
Proof. apply upd_proc_run. Qed.

Definition with_lock (l : lockid) s : kstate V := s <| k_mach ::= held l |>.

Lemma acquire_lock l s :
  hart_ok (k_mach s) → free l (k_mach s) → acquire l s = Ret tt (with_lock l s).
Proof. intros Hok Hf. exact (acquire_run l s Hok Hf). Qed.

Lemma release_lock l s :
  hart_ok (k_mach s) → free l (k_mach s) → release l (with_lock l s) = Ret tt (settled s).
Proof.
  intros Hok Hf. erewrite release_held; [|exact Hok|exact Hf|done].
  by destruct s.
Qed.

Lemma with_lock_put_proc l i p s : put_proc i p (with_lock l s) = with_lock l (put_proc i p s).
Proof. done. Qed.

(** [kill] of one process table entry. *)
Definition killed_proc (p : proc) : proc :=
  let p := p <| p_killed := 1 |> in
  if decide (p_state p = SLEEPING) then p <| p_state := RUNNABLE |> else p.

Lemma kill_visit_run pid i p s :
  hart_ok (k_mach s) → free (LkProc i) (k_mach s) → k_procs s !! i = Some p →
  kill_visit pid i s =
    if p_pid p =? pid then Ret (Some 0) (settled (put_proc i (killed_proc p) s))
    else Ret None (settled s).
Proof.
  intros Hok Hf Hp. unfold kill_visit.
  erewrite bind_Ret; [|by apply acquire_lock].
  erewrite bind_Ret; [|by apply get_proc_run].
  destruct (p_pid p =? pid).
  - erewrite bind_Ret; [|by eapply upd_proc_put].
    rewrite with_lock_put_proc. unfold killed_proc. simpl.
    destruct (decide (p_state p = SLEEPING)).
    + erewrite bind_Ret; [|eapply upd_proc_put, (lookup_put_proc _ _ p); done].
      rewrite with_lock_put_proc, put_proc_put_proc.
      erewrite bind_Ret; [done|]. by apply release_lock.
    + erewrite bind_Ret; [|done]. erewrite bind_Ret; [done|]. by apply release_lock.
  - erewrite bind_Ret; [done|]. by apply release_lock.
Qed.

(** * Scans for the best process *)

(** A scan visits the table in order and keeps the lock of the process it
    prefers.  [scan_mach m o m'] says that [m'] is the machine [m], on which the
    scan started, with the lock of the chosen process [o] taken. *)
Definition scan_mach m (o : option nat) m' : Prop :=
  match o with
  | None => m' = m ∨ m' = settle m
  | Some c => m' = held (LkProc c) m
  end.

Definition on_mach m s : kstate V := s <| k_mach := m |>.

Section scan.
Context (m : machine) (Hok : hart_ok m) (Hfree : proc_locks_free m).

Lemma scan_mach_ok o m' : scan_mach m o m' → hart_ok m'.
Proof. destruct o; simpl; [intros ->|intros [->| ->]]; eauto with lk. Qed.

Lemma scan_mach_free o m' i :
  scan_mach m o m' → (i < NPROC)%nat → o ≠ Some i → free (LkProc i) m'.
Proof.
  destruct o as [c|]; simpl; [intros ->|intros [->| ->]]; intros Hi Ho; auto with lk.
  apply free_held; [|auto]. intros [= ->]. done.
Qed.

Lemma scan_mach_settle o m' : scan_mach m o m' → scan_mach m o (settle m').
Proof.
  destruct o as [c|]; simpl.
  - intros ->. by apply settle_held.
  - intros [->| ->]; right; [done|]. by rewrite settle_settle.
Qed.

Lemma scan_acquire o m' i s :
  scan_mach m o m' → (i < NPROC)%nat → o ≠ Some i →
  acquire (LkProc i) (on_mach m' s) = Ret tt (on_mach (held (LkProc i) m') s).
Proof.
  intros Hm Hi Ho. rewrite acquire_lock; [done|..]; simpl.
  - by eapply scan_mach_ok.
  - by eapply scan_mach_free.
Qed.

(** The visited process is not better: give its lock back. *)
Lemma scan_keep o m' i s :
  scan_mach m o m' → (i < NPROC)%nat → o ≠ Some i →
  release (LkProc i) (on_mach (held (LkProc i) m') s) = Ret tt (on_mach (settle m') s).
Proof.
  intros Hm Hi Ho. rewrite (release_held (LkProc i) _ m'); [done|..].
  - by eapply scan_mach_ok.
  - by eapply scan_mach_free.
  - done.
Qed.

(** The visited process is better: give the lock of the former choice back. *)
Lemma scan_take o m' i s :
  scan_mach m o m' → (i < NPROC)%nat → o ≠ Some i → (∀ c, o = Some c → (c < NPROC)%nat) →
  match o with Some c => release (LkProc c) | None => mret tt end
    (on_mach (held (LkProc i) m') s) = Ret tt (on_mach (held (LkProc i) m) s).
Proof.
  intros Hm Hi Ho Hc. destruct o as [c|]; simpl in Hm.
  - subst m'. specialize (Hc c eq_refl). pose proof Hok as (c0 & Hc0 & H0 & _).
    assert (LkProc c ≠ LkProc i) by (intros [= ->]; done).
    rewrite (release_run (LkProc c) _ (cpu_push (cpu_push c0))).
    + simpl. unfold on_mach. simpl. by rewrite unheld_swap by auto.
    + simpl. by rewrite !list_lookup_alter_eq, Hc0.
    + done.
    + simpl. lia.
    + apply owned_held_ne; [done|]. by apply owned_held, Hfree.
  - by destruct Hm as [->| ->]; rewrite ?held_settle.
Qed.

End scan.

(** The choice a scan makes: the first process that is [ok] and that no later
    one is [better] than. *)
Definition best_step (ok : proc → bool) (better : proc → proc → bool)
    (procs : list proc) (i : nat) (chosen : option nat) : option nat :=
  match procs !! i with
  | None => chosen
  | Some p =>
      if ok p then
        match chosen with
        | None => Some i
        | Some c =>
            match procs !! c with
            | Some q => if better p q then Some i else chosen
            | None => chosen
            end
        end
      else chosen
  end.

Definition best ok better procs (l : list nat) (chosen : option nat) : option nat :=
  fold_left (fun o i => best_step ok better procs i o) l chosen.

(** [c] is the best of the first [n] processes, and the first such. *)
Definition is_best (ok : proc → bool) (better : proc → proc → bool)
    (procs : list proc) (n : nat) (o : option nat) : Prop :=
  match o with
  | None => ∀ j p, (j < n)%nat → procs !! j = Some p → ok p = false
  | Some c =>
      (c < n)%nat ∧ ∃ pc, procs !! c = Some pc ∧ ok pc = true ∧
      ∀ j p, (j < n)%nat → procs !! j = Some p → ok p = true →
        better p pc = false ∧ ((j < c)%nat → better pc p = true)
  end.

(** [better] is a strict weak order on the eligible processes of the table. *)
Class WeakOrder (ok : proc → bool) (better : proc → proc → bool) (procs : list proc) := {
  better_irrefl : ∀ p, better p p = false;
  better_trans : ∀ p q r, p ∈ procs → q ∈ procs → r ∈ procs →
    ok p = true → ok q = true → ok r = true →
    better p q = true → better q r = true → better p r = true;
  better_cotrans : ∀ p q r, p ∈ procs → q ∈ procs → r ∈ procs →
    ok p = true → ok q = true → ok r = true →
    better p r = true → better p q = true ∨ better q r = true
}.

Lemma is_best_step ok better procs n o :
  WeakOrder ok better procs → (n < length procs)%nat → is_best ok better procs n o →
  is_best ok better procs (S n) (best_step ok better procs n o).
Proof.
  intros W [pn Hn]%lookup_lt_is_Some_2 Hb. unfold best_step. rewrite Hn.
  destruct (ok pn) eqn:Eok.
  - destruct o as [c|].
    + destruct Hb as (Hc & pc & Hpc & Hokc & Hb). rewrite Hpc.
      destruct (better pn pc) eqn:Eb; (split; [lia|]).
      * exists pn. split; [done|]. split; [done|]. intros j p Hj Hp Hokp.
        destruct (decide (j = n)) as [->|].
        { assert (p = pn) as -> by congruence. split; [apply better_irrefl|lia]. }
        destruct (Hb j p) as [Hle _]; [lia|done..|]. split.
        { apply not_true_iff_false. intros E.
          assert (better p pc = true); [|congruence].
          by apply (better_trans p pn pc); eauto using list_elem_of_lookup_2. }
        intros _. destruct (better_cotrans pn p pc) as [?|?];
          eauto using list_elem_of_lookup_2. congruence.
      * exists pc. split; [done|]. split; [done|]. intros j p Hj Hp Hokp.
        destruct (decide (j = n)) as [->|]; [|apply Hb; [lia|done..]].
        assert (p = pn) as -> by congruence. split; [done|lia].
    + split; [lia|]. exists pn. split; [done|]. split; [done|]. intros j p Hj Hp Hokp.
      destruct (decide (j = n)) as [->|].
      * assert (p = pn) as -> by congruence. split; [apply better_irrefl|lia].
      * rewrite (Hb j p) in Hokp; [done|lia|done].
  - destruct o as [c|].
    + destruct Hb as (Hc & pc & Hpc & Hokc & Hb). split; [lia|].
      exists pc. split; [done|]. split; [done|]. intros j p Hj Hp Hokp.
      destruct (decide (j = n)) as [->|]; [congruence|]. apply Hb; [lia|done..].
    + intros j p Hj Hp. destruct (decide (j = n)) as [->|]; [congruence|].
      apply (Hb j); [lia|done].
Qed.

Lemma best_seq_S ok better procs n o :
  best ok better procs (seq 0 (S n)) o =
  best_step ok better procs n (best ok better procs (seq 0 n) o).
Proof. unfold best. by rewrite seq_S, fold_left_app. Qed.

Lemma best_is_best ok better procs n :
  WeakOrder ok better procs → (n <= length procs)%nat →
  is_best ok better procs n (best ok better procs (seq 0 n) None).
Proof.
  intros W. induction n as [|n IH]; intros Hn.
  - intros j p Hj. lia.
  - rewrite best_seq_S. apply is_best_step; [done|lia|]. apply IH. lia.
Qed.

(** A scan runs to its end when every visit does. *)
Lemma scan_loop {A} (visit : nat → A → M (kstate V) A) (ch : A → option nat)
    (good : nat → A → Prop) m m0 s acc0 :
  (∀ i acc m', (i < NPROC)%nat → good i acc → scan_mach m (ch acc) m' →
     ∃ acc' m'', visit i acc (on_mach m' s) = Ret acc' (on_mach m'' s) ∧
       scan_mach m (ch acc') m'' ∧ good (S i) acc') →
  good 0%nat acc0 → scan_mach m (ch acc0) m0 →
  ∃ acc m1, for_acc (seq 0 NPROC) visit acc0 (on_mach m0 s) = Ret acc (on_mach m1 s) ∧
    scan_mach m (ch acc) m1 ∧ good NPROC acc.
Proof.
  intros Hv.
  assert (∀ k i acc m', (i + k = NPROC)%nat → good i acc → scan_mach m (ch acc) m' →
    ∃ acc1 m1, for_acc (seq i k) visit acc (on_mach m' s) = Ret acc1 (on_mach m1 s) ∧
      scan_mach m (ch acc1) m1 ∧ good NPROC acc1) as Hgen.
  { induction k as [|k IH]; intros i acc m' Hik Hg Hm; simpl.
    - replace NPROC with i by lia. by exists acc, m'.
    - destruct (Hv i acc m') as (acc' & m'' & Hr & Hm' & Hg'); [lia|done..|].
      erewrite bind_Ret; [|exact Hr]. apply IH; [lia|done..]. }
  intros Hg Hm. apply (Hgen NPROC 0%nat acc0 m0); [lia|done..].
Qed.

(** What is known of the accumulator of a scan before visit [i]. *)
Definition chose_best ok better (procs : list proc) (i : nat) (o : option nat) : Prop :=
  o = best ok better procs (seq 0 i) None ∧ ∀ c, o = Some c → (c < i)%nat ∧ (c < NPROC)%nat.

Lemma chose_best_step ok better procs i o :
  (i < NPROC)%nat → chose_best ok better procs i o →
  chose_best ok better procs (S i) (best_step ok better procs i o).
Proof.
  intros Hi [-> Hc]. split; [by rewrite best_seq_S|]. intros c.
  unfold best_step. destruct (procs !! i) as [p|]; [|intros H%Hc; lia].
  destruct (ok p); [|intros H%Hc; lia].
  destruct (best ok better procs (seq 0 i) None) as [c'|]; [|intros [= <-]; lia].
  destruct (procs !! c') as [q|]; [|intros H%Hc; lia].
  destruct (better p q); [intros [= <-]; lia|intros H%Hc; lia].
Qed.

(** ** First come, first served *)

Definition runnable (p : proc) : bool := bool_decide (p_state p = RUNNABLE).

Definition fcfs_ok (p : proc) : bool :=
  runnable p && (uint (p_arrival_time p) <? uint (-1)).
Definition fcfs_better (p q : proc) : bool :=
  uint (p_arrival_time p) <? uint (p_arrival_time q).

#[export] Instance fcfs_order procs : WeakOrder fcfs_ok fcfs_better procs.
Proof.
  split; unfold fcfs_better; intros.
  - lia.
  - lia.
  - lia.
Qed.

(** [min_arrival] is the arrival time of the choice. *)
Definition fcfs_min (procs : list proc) (o : option nat) (mn : Z) : Prop :=
  match o with
  | None => mn = uint (-1)
  | Some c => ∃ pc, procs !! c = Some pc ∧ mn = uint (p_arrival_time pc)
  end.

Lemma fcfs_best_step procs i o mn p :
  procs !! i = Some p → fcfs_min procs o mn →
  best_step fcfs_ok fcfs_better procs i o =
    if runnable p && (uint (p_arrival_time p) <? mn) then Some i else o.
Proof.
  intros Hp Hmn. unfold best_step, fcfs_ok, fcfs_better. rewrite Hp.
  destruct (runnable p); [simpl|done]. change (uint (-1)) with 4294967295 in *.
  pose proof (uint_range (p_arrival_time p)). destruct o as [c|]; simpl in Hmn.
  - destruct Hmn as (pc & -> & ->). pose proof (uint_range (p_arrival_time pc)).
    destruct (Z.ltb_spec (uint (p_arrival_time p)) (uint (p_arrival_time pc)));
      destruct (Z.ltb_spec (uint (p_arrival_time p)) 4294967295); done || lia.
  - subst mn. done.
Qed.

Lemma fcfs_scan_run s :
  at_rest s →
  let o := best fcfs_ok fcfs_better (k_procs s) (seq 0 NPROC) None in
  ∃ m', fcfs_scan s = Ret o (on_mach m' s) ∧ scan_mach (k_mach s) o m'.
Proof.
  intros (Hok & Hfree & Hlen) o0. set (m := k_mach s) in *.
  destruct (scan_loop fcfs_visit fst
    (fun i acc => chose_best fcfs_ok fcfs_better (k_procs s) i acc.1 ∧
                  fcfs_min (k_procs s) acc.1 acc.2) m m s (None, uint (-1)))
    as (acc & m' & Hr & Hm & [[Hb _] _]).
  - intros i [o mn] m' Hi [Hg Hmn] Hm. simpl in *.
    destruct (lookup_lt_is_Some_2 (k_procs s) i) as [p Hp]; [lia|].
    pose proof Hg as [_ Hc]. assert (o ≠ Some i) as Hoi by (intros ->; destruct (Hc i); [done|lia]).
    pose proof (chose_best_step _ _ _ _ _ Hi Hg) as Hg'.
    rewrite (fcfs_best_step _ _ _ _ _ Hp Hmn) in Hg'. unfold runnable in Hg'.
    unfold fcfs_visit. erewrite bind_Ret; [|by eapply scan_acquire].
    erewrite bind_Ret; [|by apply get_proc_run].
    destruct (decide (p_state p = RUNNABLE)) as [Hrun|Hrun];
      [rewrite bool_decide_eq_true_2 in Hg' by done; simpl in Hg';
       destruct (uint (p_arrival_time p) <? mn)
      |rewrite bool_decide_eq_false_2 in Hg' by done].
    + exists (Some i, uint (p_arrival_time p)), (held (LkProc i) m).
      erewrite bind_Ret; [|eapply scan_take; try done; intros c Hc'; by apply Hc].
      split_and!; [done..|]. by exists p.
    + exists (o, mn), (settle m'). erewrite bind_Ret; [|by eapply scan_keep].
      split_and!; [done|by apply scan_mach_settle|done..].
    + exists (o, mn), (settle m'). erewrite bind_Ret; [|by eapply scan_keep].
      split_and!; [done|by apply scan_mach_settle|done..].
  - by split.
  - by left.
  - exists m'. unfold fcfs_scan. replace s with (on_mach m s) at 1 by (by destruct s).
    erewrite bind_Ret; [|exact Hr]. simpl in *. unfold o0. rewrite <- Hb.
    split; [reflexivity|exact Hm].
Qed.

(** ** Priority *)

Definition priority_better (p q : proc) : bool := p_priority p <? p_priority q.

#[export] Instance priority_order procs : WeakOrder runnable priority_better procs.
Proof. split; unfold priority_better; intros; lia. Qed.

Lemma priority_scan_run s :
  at_rest s →
  let o := best runnable priority_better (k_procs s) (seq 0 NPROC) None in
  ∃ m', priority_scan s = Ret o (on_mach m' s) ∧ scan_mach (k_mach s) o m'.
Proof.
  intros (Hok & Hfree & Hlen) o0. set (m := k_mach s) in *.
  destruct (scan_loop priority_visit id
    (chose_best runnable priority_better (k_procs s)) m m s None)
    as (acc & m' & Hr & Hm & [Hb _]).
  - intros i o m' Hi Hg Hm. simpl in *.
    destruct (lookup_lt_is_Some_2 (k_procs s) i) as [p Hp]; [lia|].
    pose proof Hg as [_ Hc]. assert (o ≠ Some i) as Hoi by (intros ->; destruct (Hc i); [done|lia]).
    pose proof (chose_best_step _ _ _ _ _ Hi Hg) as Hg'.
    unfold best_step, runnable at 2 in Hg'. rewrite Hp in Hg'.
    unfold priority_visit. erewrite bind_Ret; [|by eapply scan_acquire].
    erewrite bind_Ret; [|by apply get_proc_run].
    destruct (decide (p_state p = RUNNABLE)) as [Hrun|Hrun];
      [rewrite bool_decide_eq_true_2 in Hg' by done
      |rewrite bool_decide_eq_false_2 in Hg' by done].
    + destruct o as [c|].
      * destruct (Hc c) as [_ HcN]; [done|].
        destruct (lookup_lt_is_Some_2 (k_procs s) c) as [pc Hpc]; [lia|].
        rewrite Hpc in Hg'. unfold priority_better at 2 in Hg'.
        erewrite bind_Ret; [|by erewrite bind_Ret; [|by apply get_proc_run]].
        destruct (p_priority p <? p_priority pc); cbv beta iota.
        -- exists (Some i), (held (LkProc i) m).
           erewrite bind_Ret; [|eapply (scan_take m Hok Hfree (Some c)); try done; intros ? [= <-]; done].
           done.
        -- exists (Some c), (settle m'). erewrite bind_Ret; [|by eapply scan_keep].
           split_and!; [done|by apply (scan_mach_settle m Hok (Some c))|done..].
      * exists (Some i), (held (LkProc i) m). erewrite bind_Ret; [|done]. cbv beta iota.
        erewrite bind_Ret; [|by eapply (scan_take m Hok Hfree None)]. done.
    + exists o, (settle m'). erewrite bind_Ret; [|by eapply scan_keep].
      split_and!; [done|by apply scan_mach_settle|done..].
  - by split.
  - by left.
  - exists m'. unfold priority_scan. replace s with (on_mach m s) at 1 by (by destruct s).
    unfold id in *. unfold o0. rewrite <- Hb. split; [exact Hr|exact Hm].
Qed.

(** ** Highest response ratio next *)

Definition hrrn_better (t : Z) (p q : proc) : bool :=
  int ((response_ratio t q).1 * (response_ratio t p).2) <?
  int ((response_ratio t p).1 * (response_ratio t q).2).

(** The products the comparison forms are representable. *)
Definition hrrn_fits (t : Z) (procs : list proc) : Prop :=
  ∀ p q, p ∈ procs → q ∈ procs → runnable p = true → runnable q = true →
    - 2 ^ 31 <= (response_ratio t p).1 * (response_ratio t q).2 < 2 ^ 31.

Lemma response_den_pos t p : 0 < (response_ratio t p).2.
Proof. unfold response_ratio. simpl. destruct (Z.ltb_spec 0 (p_last_runtime p)); lia. Qed.

(** Without overflow, [hrrn_better] compares the fractions. *)
Lemma hrrn_better_iff t procs p q :
  hrrn_fits t procs → p ∈ procs → q ∈ procs → runnable p = true → runnable q = true →
  hrrn_better t p q = true ↔
  (response_ratio t q).1 * (response_ratio t p).2 <
  (response_ratio t p).1 * (response_ratio t q).2.
Proof.
  intros Hfit Hp Hq Hrp Hrq. unfold hrrn_better.
  rewrite !int_small by (by apply Hfit). apply Z.ltb_lt.
Qed.

Lemma hrrn_order t procs : hrrn_fits t procs → WeakOrder runnable (hrrn_better t) procs.
Proof.
  intros Hfit. split.
  - intros p. unfold hrrn_better. apply Z.ltb_irrefl.
  - intros p q r Hp Hq Hr Hrp Hrq Hrr. rewrite !(hrrn_better_iff t procs) by done.
    intros H1 H2. apply (frac_lt_trans _ _ (response_ratio t q).1 (response_ratio t q).2);
      auto using response_den_pos.
  - intros p q r Hp Hq Hr Hrp Hrq Hrr. rewrite !(hrrn_better_iff t procs) by done.
    intros H1. destruct (Z.lt_ge_cases ((response_ratio t q).1 * (response_ratio t p).2)
      ((response_ratio t p).1 * (response_ratio t q).2)) as [|H2]; [by left|right].
    apply Z.nle_gt. intros H3. revert H1. apply Z.nlt_ge.
    apply (frac_le_trans _ _ (response_ratio t q).1 (response_ratio t q).2);
      auto using response_den_pos.
Qed.

#[local] Opaque response_ratio.

Definition hrrn_acc (t : Z) (procs : list proc) (acc : option nat * (Z * Z)) : Prop :=
  match acc.1 with
  | None => True
  | Some c => ∃ pc, procs !! c = Some pc ∧ acc.2 = response_ratio t pc
  end.

Lemma hrrn_best_step t procs i o nd p :
  procs !! i = Some p → hrrn_acc t procs (o, nd) →
  best_step runnable (hrrn_better t) procs i o =
    if runnable p && (bool_decide (o = None) ||
         (int (nd.1 * (response_ratio t p).2) <? int ((response_ratio t p).1 * nd.2)))
    then Some i else o.
Proof.
  intros Hp Hacc. unfold best_step. rewrite Hp. destruct (runnable p); [|done].
  destruct o as [c|]; [|done]. destruct Hacc as (pc & -> & E). simpl in E. subst nd.
  unfold hrrn_better. rewrite (bool_decide_eq_false_2 (Some c = None)) by done.
  rewrite andb_true_l, orb_false_l. reflexivity.
Qed.

Lemma hrrn_scan_run s :
  at_rest s →
  let o := best runnable (hrrn_better (k_ticks s)) (k_procs s) (seq 0 NPROC) None in
  ∃ m', hrrn_scan s = Ret o (on_mach m' s) ∧ scan_mach (k_mach s) o m'.
Proof.
  intros (Hok & Hfree & Hlen) o0. set (m := k_mach s) in *. set (t := k_ticks s) in *.
  destruct (scan_loop hrrn_visit fst
    (fun i acc => chose_best runnable (hrrn_better t) (k_procs s) i acc.1 ∧
                  hrrn_acc t (k_procs s) acc) m m s (None, (-1, 1)))
    as (acc & m' & Hr & Hm & [[Hb _] _]).
  - intros i [o [num den]] m' Hi [Hg Hacc] Hm. simpl in *.
    destruct (lookup_lt_is_Some_2 (k_procs s) i) as [p Hp]; [lia|].
    pose proof Hg as [_ Hc]. assert (o ≠ Some i) as Hoi by (intros ->; destruct (Hc i); [done|lia]).
    pose proof (chose_best_step _ _ _ _ _ Hi Hg) as Hg'.
    rewrite (hrrn_best_step _ _ _ _ _ _ Hp Hacc) in Hg'. unfold runnable at 2 in Hg'.
    unfold hrrn_visit. erewrite bind_Ret; [|by eapply scan_acquire].
    erewrite bind_Ret; [|by apply get_proc_run].
    destruct (decide (p_state p = RUNNABLE)) as [Hrun|Hrun].
    + rewrite bool_decide_eq_true_2 in Hg' by done. rewrite andb_true_l in Hg'.
      erewrite bind_Ret; [|done]. cbv beta. change (k_ticks (on_mach _ s)) with t.
      destruct (response_ratio t p) as [rn rd] eqn:Err. cbn [fst snd] in Hg'.
      cbv beta iota zeta. destruct (_ || _).
      * exists (Some i, (rn, rd)), (held (LkProc i) m).
        erewrite bind_Ret; [|eapply scan_take; try done; intros c Hc'; by apply Hc].
        split_and!; [done..|]. by exists p.
      * exists (o, (num, den)), (settle m'). erewrite bind_Ret; [|by eapply scan_keep].
        split_and!; [done|by apply scan_mach_settle|done..].
    + rewrite bool_decide_eq_false_2 in Hg' by done.
      exists (o, (num, den)), (settle m'). erewrite bind_Ret; [|by eapply scan_keep].
      split_and!; [done|by apply scan_mach_settle|done..].
  - by split.
  - by left.
  - exists m'. unfold hrrn_scan. replace s with (on_mach m s) at 1 by (by destruct s).
    erewrite bind_Ret; [|exact Hr]. simpl in *. unfold o0. rewrite <- Hb.
    split; [reflexivity|exact Hm].
Qed.

(** * Dispatch *)

Definition cpu_runs (o : option nat) m : machine :=
  m <| cpus ::= alter (fun c => c <| c_proc := o |>) (tp m) |>.

Definition intr_enabled m : machine :=
  m <| cpus ::= alter (fun c => c <| c_sie := true |>) (tp m) |>.

(** A process that is given the hart at time [t]. *)
Definition dispatch (t : Z) (p : proc) : proc :=
  p <| p_run_start_time := int t |>
    <| p_waiting_time := int (int t - p_ready_time p) |>
    <| p_state := RUNNING |>.

(** A hart in its scheduler loop: no lock held. *)
Definition sched_ready s : Prop :=
  at_rest s ∧ ∃ c, cpus (k_mach s) !! tp (k_mach s) = Some c ∧ c_noff c = 0.

(** The state in which [swtch] enters process [i], which is now [p']: its lock is
    the only one the hart has taken. *)
Definition dispatched (i : nat) (p' : proc) s : kstate V :=
  on_mach (cpu_runs (Some i) (held (LkProc i) (intr_enabled (k_mach s)))) (put_proc i p' s).

(** What the scheduler does when process [i] gives the hart back. *)
Definition resume (i : nat) : M (kstate V) unit :=
  set_cpu_proc None ;; release (LkProc i).

Lemma upd_mycpu_mach f s c :
  cpus (k_mach s) !! tp (k_mach s) = Some c →
  upd_mycpu f s = Ret tt (on_mach ((k_mach s) <| cpus ::= alter f (tp (k_mach s)) |>) s).
Proof. intros Hc. erewrite (upd_mycpu_run f s c); [|exact Hc]. by destruct s. Qed.

Lemma on_mach_twice m m' s : on_mach m (on_mach m' s) = on_mach m s.
Proof. done. Qed.

Lemma intr_on_run s c :
  cpus (k_mach s) !! tp (k_mach s) = Some c →
  intr_on s = Ret tt (on_mach (intr_enabled (k_mach s)) s).
Proof. apply upd_mycpu_mach. Qed.

Lemma sched_ready_intr s :
  sched_ready s → sched_ready (on_mach (intr_enabled (k_mach s)) s).
Proof.
  intros [(_ & Hf & Hl) (c & Hc & H0)].
  assert (cpus (intr_enabled (k_mach s)) !! tp (k_mach s) = Some (c <| c_sie := true |>)) as Hc'.
  { simpl. by rewrite list_lookup_alter_eq, Hc. }
  split; [split; [|done]|].
  - exists (c <| c_sie := true |>). split; [done|]. simpl. lia.
  - by exists (c <| c_sie := true |>).
Qed.

Lemma record_wait_run i p s :
  k_procs s !! i = Some p →
  record_wait i s =
    Ret tt (put_proc i (p <| p_run_start_time := int (k_ticks s) |>
                          <| p_waiting_time := int (int (k_ticks s) - p_ready_time p) |>) s).
Proof.
  intros Hp. unfold record_wait. erewrite bind_Ret; [|done].
  erewrite bind_Ret; [|by eapply upd_proc_put].
  erewrite upd_proc_put; [|by eapply lookup_put_proc]. by rewrite put_proc_put_proc.
Qed.

(** Marking process [i] as running on this hart. *)
Lemma mark_running_run i p s c :
  k_procs s !! i = Some p → cpus (k_mach s) !! tp (k_mach s) = Some c →
  (record_wait i ;; upd_proc i (fun p => p <| p_state := RUNNING |>) ;; set_cpu_proc (Some i)) s =
  Ret tt (on_mach (cpu_runs (Some i) (k_mach s)) (put_proc i (dispatch (k_ticks s) p) s)).
Proof.
  intros Hp Hc. erewrite bind_Ret; [|by eapply record_wait_run].
  erewrite bind_Ret; [|eapply upd_proc_put; by eapply lookup_put_proc].
  rewrite put_proc_put_proc. unfold set_cpu_proc. by erewrite upd_mycpu_mach.
Qed.

Lemma run_chosen_run i p s m c :
  k_procs s !! i = Some p → k_mach s = held (LkProc i) m → cpus m !! tp m = Some c →
  ∃ k, run_chosen i s =
         Swtch (ToProc i) (on_mach (cpu_runs (Some i) (k_mach s))
                             (put_proc i (dispatch (k_ticks s) p) s)) k ∧
       ∀ s', k s' = resume i s'.
Proof.
  intros Hp Hm Hc.
  assert (cpus (k_mach s) !! tp (k_mach s) = Some (cpu_push c)) as Hc'.
  { rewrite Hm. simpl. by rewrite list_lookup_alter_eq, Hc. }
  pose proof (mark_running_run i p s _ Hp Hc') as Hr.
  eexists. split; [|intros s'; reflexivity].
  unfold run_chosen. rewrite bind_run in Hr. rewrite bind_run.
  erewrite record_wait_run in * by done. simpl in Hr |- *.
  rewrite bind_run in Hr. rewrite bind_run.
  erewrite upd_proc_put in * by (by eapply lookup_put_proc). simpl in Hr |- *.
  erewrite bind_Ret; [|exact Hr]. reflexivity.
Qed.

(** A policy that scans for the best process runs it, or turns interrupts on. *)
Lemma scan_round ok better (scan : M (kstate V) (option nat)) s :
  sched_ready s →
  (∃ m', scan s = Ret (best ok better (k_procs s) (seq 0 NPROC) None) (on_mach m' s) ∧
     scan_mach (k_mach s) (best ok better (k_procs s) (seq 0 NPROC) None) m') →
  WeakOrder ok better (k_procs s) →
  let body := (chosen ← scan; match chosen with Some i => run_chosen i | None => intr_on end) in
  match best ok better (k_procs s) (seq 0 NPROC) None with
  | Some i =>
      ∃ p k, k_procs s !! i = Some p ∧
        body s = Swtch (ToProc i)
                   (on_mach (cpu_runs (Some i) (held (LkProc i) (k_mach s)))
                      (put_proc i (dispatch (k_ticks s) p) s)) k ∧
        ∀ s', k s' = resume i s'
  | None => ∃ m', body s = Ret tt (on_mach m' s)
  end.
Proof.
  intros [(Hok & Hf & Hl) (c & Hc & _)] (m' & Hr & Hm) W body.
  pose proof (best_is_best ok better (k_procs s) NPROC W ltac:(lia)) as Hb.
  destruct (best ok better (k_procs s) (seq 0 NPROC) None) as [i|].
  - destruct Hb as (Hi & p & Hp & _). simpl in Hm. subst m'.
    destruct (run_chosen_run i p (on_mach (held (LkProc i) (k_mach s)) s) (k_mach s) c)
      as (k & Hk & Hres); [done..|].
    exists p, k. split; [done|]. split; [|done]. unfold body.
    erewrite bind_Ret; [|exact Hr]. exact Hk.
  - destruct (scan_mach_ok (k_mach s) Hok None m' Hm) as (c' & Hc' & _).
    exists (intr_enabled m'). unfold body.
    erewrite bind_Ret; [|exact Hr]. by erewrite intr_on_run.
Qed.

(** HRRN also notes when the process starts, and on the way back how long it ran. *)
Definition hrrn_dispatch (t : Z) (p : proc) : proc :=
  dispatch t p <| p_runtime_start_ticks := int t |>.

Definition hrrn_resume (i : nat) : M (kstate V) unit :=
  set_cpu_proc None ;; record_runtime i ;; release (LkProc i).

Lemma hrrn_enter_run i p s m c :
  k_procs s !! i = Some p → k_mach s = held (LkProc i) m → cpus m !! tp m = Some c →
  ∃ k, (record_wait i ;;
        t ← ticks;
        upd_proc i (fun p => p <| p_runtime_start_ticks := int t |>) ;;
        upd_proc i (fun p => p <| p_state := RUNNING |>) ;;
        set_cpu_proc (Some i) ;;
        swtch (ToProc i) ;;
        set_cpu_proc None ;; record_runtime i ;; release (LkProc i)) s =
         Swtch (ToProc i) (on_mach (cpu_runs (Some i) (k_mach s))
                             (put_proc i (hrrn_dispatch (k_ticks s) p) s)) k ∧
       ∀ s', k s' = hrrn_resume i s'.
Proof.
  intros Hp Hm Hc.
  assert (cpus (k_mach s) !! tp (k_mach s) = Some (cpu_push c)) as Hc'.
  { rewrite Hm. simpl. by rewrite list_lookup_alter_eq, Hc. }
  eexists. split; [|intros s'; reflexivity].
  erewrite bind_Ret; [|by eapply record_wait_run].
  erewrite bind_Ret; [|done].
  erewrite bind_Ret; [|eapply upd_proc_put; by eapply lookup_put_proc].
  rewrite put_proc_put_proc.
  erewrite bind_Ret; [|eapply upd_proc_put; by eapply lookup_put_proc].
  rewrite put_proc_put_proc.
  erewrite bind_Ret; [|eapply upd_mycpu_mach; exact Hc'].
  reflexivity.
Qed.

Lemma record_runtime_run i p s :
  k_procs s !! i = Some p →
  record_runtime i s =
    Ret tt (put_proc i (p <| p_last_runtime :=
      Z.max 1 (int (uint (k_ticks s - p_runtime_start_ticks p))) |>) s).
Proof.
  intros Hp. unfold record_runtime. erewrite bind_Ret; [|done].
  erewrite upd_proc_put; [|exact Hp]. cbv beta zeta.
  destruct (Z.ltb_spec 0 (int (uint (k_ticks s - p_runtime_start_ticks p)))).
  - by rewrite Z.max_r by lia.
  - by rewrite Z.max_l by lia.
Qed.

(** A turn turns interrupts on and follows the current policy. *)
Lemma round_policy s c body :
  cpus (k_mach s) !! tp (k_mach s) = Some c →
  (let s1 := on_mach (intr_enabled (k_mach s)) s in
   (if k_policy s =? 1 then sched_fcfs
    else if k_policy s =? 2 then sched_priority
    else if k_policy s =? 3 then sched_hrrn
    else if k_policy s =? 4 then sched_mlfq else sched_rr) s1 = body) →
  scheduler_round s = body.
Proof.
  intros Hc Hb. unfold scheduler_round. erewrite bind_Ret; [|by eapply intr_on_run].
  erewrite bind_Ret; [|done]. simpl. done.
Qed.

End facts.
