(* ===== verification/MlfqSched.v ===== *)
(** One turn of [scheduler] under the multi-level feedback queue policy
    (kernel/proc.c), against the queues as lists of processes (Mlfq.v). *)

From Stdlib Require Import FunctionalExtensionality.
From stdpp Require Import base gmap strings numbers list.
From S2P Require Import Prelude Spinlock Kstate Mlfq Sched.
Local Open Scope Z_scope.

(** * The choice *)

(** The first element of [l] that may run. *)
Fixpoint first_run (run : nat → bool) (l : list nat) : option nat :=
  match l with
  | [] => None
  | i :: l' => if run i then Some i else first_run run l'
  end.

(** The first such element of the first queue that has one, with its level;
    [lv] is the level of the head of [q]. *)
Fixpoint pick (run : nat → bool) (lv : nat) (q : queues) : option (nat * nat) :=
  match q with
  | [] => None
  | l :: q' =>
      match first_run run l with
      | Some i => Some (lv, i)
      | None => pick run (S lv) q'
      end
  end.

Definition run_of (procs : list proc) (i : nat) : bool :=
  match procs !! i with Some p => runnable p | None => false end.

(** All runnable processes, in table order, at the end of their levels. *)
Definition refill (procs : list proc) (l : list nat) (q : queues) : queues :=
  fold_left (enqueue_sel (fun _ => runnable) procs) l q.

Definition reset_slice (p : proc) : proc :=
  if runnable p then p <| p_time_slice := 0 |> else p.

Lemma first_run_Some run l i :
  first_run run l = Some i ↔
  ∃ l1 l2, l = l1 ++ i :: l2 ∧ run i = true ∧ ∀ j, j ∈ l1 → run j = false.
Proof.
  split.
  - induction l as [|j l IH]; simpl; [done|]. destruct (run j) eqn:E.
    + intros [= ->]. exists [], l. split_and!; [done..|]. by intros j ?%elem_of_nil.
    + intros (l1 & l2 & -> & Hi & Hl)%IH. exists (j :: l1), l2. split_and!; [done..|].
      intros k [->|?]%elem_of_cons; auto.
  - intros (l1 & l2 & -> & Hi & Hl). induction l1 as [|j l1 IH]; simpl; [by rewrite Hi|].
    rewrite Hl by left. apply IH. intros k Hk. apply Hl. by right.
Qed.

Lemma first_run_None run l : first_run run l = None ↔ ∀ j, j ∈ l → run j = false.
Proof.
  induction l as [|j l IH]; simpl.
  - split; [by intros _ j ?%elem_of_nil|done].
  - destruct (run j) eqn:E.
    + split; [done|]. intros H. by rewrite H in E by left.
    + rewrite IH. split; [|intros H k Hk; apply H; by right].
      intros H k [->|?]%elem_of_cons; auto.
Qed.

Lemma pick_None run lv q : pick run lv q = None ↔ ∀ l j, l ∈ q → j ∈ l → run j = false.
Proof.
  revert lv. induction q as [|l q IH]; intros lv; simpl.
  - split; [by intros _ l j ?%elem_of_nil|done].
  - destruct (first_run run l) as [i|] eqn:E.
    + split; [done|]. intros H. apply first_run_Some in E as (l1 & l2 & -> & Hi & _).
      rewrite (H (l1 ++ i :: l2) i) in Hi; [done|by left|apply elem_of_app; right; by left].
    + rewrite IH. rewrite first_run_None in E. split.
      * intros H l' j [->|?]%elem_of_cons ?; eauto.
      * intros H l' j ? ?. eapply H; [by right|done].
Qed.

Lemma pick_Some run lv q lv' i :
  pick run lv q = Some (lv', i) →
  ∃ k l, lv' = (lv + k)%nat ∧ q !! k = Some l ∧ first_run run l = Some i ∧
    ∀ k' l', (k' < k)%nat → q !! k' = Some l' → first_run run l' = None.
Proof.
  revert lv. induction q as [|l q IH]; intros lv; simpl; [done|].
  destruct (first_run run l) as [j|] eqn:E.
  - intros [= <- <-]. exists 0%nat, l. split_and!; [lia|done..|]. intros; lia.
  - intros (k & l' & -> & Hk & Hf & Hb)%IH. exists (S k), l'. split_and!; [lia|done..|].
    intros [|k'] l'' Hlt; simpl; [by intros [= <-]|]. apply Hb. lia.
Qed.

(** Refilling empty queues puts every runnable process in its level. *)
Definition in_level (procs : list proc) (lv i : nat) : bool :=
  match procs !! i with
  | Some p => runnable p && (p_queue_level p =? Z.of_nat lv)
  | None => false
  end.

Lemma refill_empty procs n lv :
  levels_ok procs → (lv < QUEUE_LEVELS)%nat →
  refill procs (seq 0 n) (replicate QUEUE_LEVELS []) !! lv =
    Some (filter (fun i => in_level procs lv i = true) (seq 0 n)).
Proof.
  intros Hlv Hlt. induction n as [|n IH].
  { exact (lookup_replicate_2 QUEUE_LEVELS [] lv Hlt). }
  rewrite seq_S. unfold refill in *. rewrite fold_left_app, filter_app. simpl.
  set (q := fold_left _ _ _) in *. unfold enqueue_sel, in_level at 3.
  destruct (procs !! n) as [p|] eqn:Hp.
  2: { rewrite filter_cons_False by (by rewrite Hp). by rewrite app_nil_r. }
  destruct (runnable p) eqn:Hr; simpl.
  2: { rewrite filter_cons_False by (by rewrite Hp, Hr). by rewrite app_nil_r. }
  pose proof (Hlv p (list_elem_of_lookup_2 _ _ _ Hp)). unfold q_enqueue.
  destruct (Z.eqb_spec (p_queue_level p) (Z.of_nat lv)) as [E|E].
  - rewrite E, Nat2Z.id, list_lookup_alter_eq, IH. simpl. do 2 f_equal.
    + apply remove_first_notin. rewrite list_elem_of_filter, elem_of_seq. lia.
    + rewrite filter_cons_True; [done|]. by rewrite Hp, Hr, E, Z.eqb_refl.
  - rewrite list_lookup_alter_ne by lia. rewrite filter_cons_False.
    + by rewrite app_nil_r.
    + rewrite Hp, Hr. simpl. lia.
Qed.

(** * The scan of the queues *)

Section scan.
Context {V : Type}.
Implicit Types (s : kstate V) (q : queues).

(** The state in which [swtch] enters process [i] from level [lv]. *)
Definition mlfq_entered (lv i : nat) (p : proc) q s s1 : Prop :=
  same_but_queues
    (on_mach (cpu_runs (Some i) (held (LkProc i) (k_mach s)))
       (put_proc i (dispatch (k_ticks s) p) s)) s1 ∧
  mlfq_abs s1 (q_remove lv i q).

(** The outcome [r] of the scan, when the choice is [o]. *)
Definition scan_outcome {A} (back : nat → M (kstate V) A) (none : A) q s
    (o : option (nat * nat)) (r : res (kstate V) A) : Prop :=
  match o with
  | Some (lv, i) =>
      ∃ p s1 k, k_procs s !! i = Some p ∧ r = Swtch (ToProc i) s1 k ∧
        mlfq_entered lv i p q s s1 ∧ ∀ s', k s' = back i s'
  | None => ∃ m', r = Ret none (on_mach m' s) ∧ scan_mach (k_mach s) None m'
  end.

Definition back_found (i : nat) : M (kstate V) (option unit) :=
  resume i ;; mret (Some tt).

Section level.
Context (s : kstate V) (q : queues).
Context (Hrest : at_rest s) (Habs : mlfq_abs s q) (Hwf : queues_wf q).

Lemma mlfq_visit_run lv l j i m' :
  q !! lv = Some l → l !! j = Some i → scan_mach (k_mach s) None m' →
  scan_outcome back_found None q s (if run_of (k_procs s) i then Some (lv, i) else None)
    (mlfq_visit lv j (on_mach m' s)).
Proof.
  intros Hl Hj Hm. pose proof Hrest as (Hok & Hfree & Hlen).
  assert (i < NPROC)%nat as Hi.
  { destruct Hwf as [_ Hq]. apply (Hq lv l Hl). by eapply list_elem_of_lookup_2. }
  destruct (lookup_lt_is_Some_2 (k_procs s) i) as [p Hp]; [lia|].
  assert (mlfq_abs (on_mach m' s) q) as Habs' by (by eapply mlfq_abs_ext; [..|exact Habs]).
  unfold mlfq_visit. erewrite bind_Ret; [|by eapply abs_queue_get]. cbv beta iota.
  erewrite bind_Ret; [|by eapply (scan_acquire (k_mach s) Hok Hfree None)].
  erewrite bind_Ret; [|by apply get_proc_run]. unfold run_of. rewrite Hp. unfold runnable.
  destruct (decide (p_state p = RUNNABLE)) as [Hr|Hr].
  - rewrite bool_decide_eq_true_2 by done.
    assert (held (LkProc i) m' = held (LkProc i) (k_mach s)) as ->.
    { destruct Hm as [->| ->]; [done|]. apply held_settle. }
    set (s2 := on_mach (held (LkProc i) (k_mach s)) s).
    pose proof Hok as (c & Hc & _).
    assert (cpus (k_mach s2) !! tp (k_mach s2) = Some (cpu_push c)) as Hc2.
    { simpl. by rewrite list_lookup_alter_eq, Hc. }
    set (s3 := on_mach (cpu_runs (Some i) (k_mach s2)) (put_proc i (dispatch (k_ticks s) p) s2)).
    destruct (dequeue_at_abs lv l j i s3 q) as (s4 & s5 & Hr4 & Hr5 & Habs5 & Hsame);
      [by eapply mlfq_abs_ext; [..|exact Habs]|done..|].
    assert (∀ {B} (f : unit → M (kstate V) B),
      (record_wait i ;; upd_proc i (fun p => p <| p_state := RUNNING |>) ;;
       x ← set_cpu_proc (Some i); f x) s2 = f tt s3) as Hmark.
    { intros B f. erewrite bind_Ret; [|by eapply record_wait_run].
      erewrite bind_Ret; [|eapply upd_proc_put; by eapply lookup_put_proc].
      rewrite put_proc_put_proc. erewrite bind_Ret; [|by eapply upd_mycpu_mach]. done. }
    rewrite Hmark. erewrite bind_Ret; [|exact Hr4]. erewrite bind_Ret; [|exact Hr5].
    eexists p, s5, _. split; [done|]. split; [reflexivity|]. split; [by split|].
    intros s'. unfold back_found, resume. rewrite !bind_run, res_bind_assoc. reflexivity.
  - rewrite bool_decide_eq_false_2 by done. exists (settle m').
    erewrite bind_Ret; [|by eapply (scan_keep (k_mach s) Hok Hfree None)].
    split; [done|]. by apply scan_mach_settle.
Qed.

Lemma level_scan_run lv l l1 l2 m' :
  q !! lv = Some l → l = l1 ++ l2 → scan_mach (k_mach s) None m' →
  scan_outcome back_found None q s
    (match first_run (run_of (k_procs s)) l2 with Some i => Some (lv, i) | None => None end)
    (for_ret (seq (length l1) (length l2)) (mlfq_visit lv) (on_mach m' s)).
Proof.
  intros Hl. revert l1 m'. induction l2 as [|i l2 IH]; intros l1 m' El Hm; simpl.
  { by exists m'. }
  pose proof (mlfq_visit_run lv l (length l1) i m' Hl) as Hv.
  rewrite El, list_lookup_middle in Hv by done. specialize (Hv eq_refl Hm).
  rewrite bind_run. destruct (run_of (k_procs s) i).
  - destruct Hv as (p & s1 & k & Hp & -> & He & Hk). simpl. eexists p, s1, _.
    split; [done|]. split; [reflexivity|]. split; [done|]. intros s'. simpl. rewrite Hk.
    unfold back_found. rewrite !bind_run, res_bind_assoc. done.
  - destruct Hv as (m'' & -> & Hm'). simpl.
    replace (S (length l1)) with (length (l1 ++ [i])) by (rewrite length_app; simpl; lia).
    apply IH; [|done]. by rewrite <- app_assoc.
Qed.

Lemma levels_scan_run q1 q2 m' :
  q = q1 ++ q2 → scan_mach (k_mach s) None m' →
  scan_outcome back_found None q s (pick (run_of (k_procs s)) (length q1) q2)
    (for_ret (seq (length q1) (length q2)) mlfq_level (on_mach m' s)).
Proof.
  revert q1 m'. induction q2 as [|l q2 IH]; intros q1 m' Eq Hm; simpl.
  { by exists m'. }
  assert (q !! length q1 = Some l) as Hl by (by rewrite Eq, list_lookup_middle).
  assert (mlfq_abs (on_mach m' s) q) as Habs' by (by eapply mlfq_abs_ext; [..|exact Habs]).
  pose proof (level_scan_run (length q1) l [] l m' Hl eq_refl Hm) as Hv. simpl in Hv.
  assert (mlfq_level (length q1) (on_mach m' s) =
    for_ret (seq 0 (length l)) (mlfq_visit (length q1)) (on_mach m' s)) as E.
  { unfold mlfq_level. erewrite bind_Ret; [|by eapply abs_qsize]. by rewrite Nat2Z.id. }
  rewrite bind_run, E.
  destruct (first_run (run_of (k_procs s)) l) as [i|].
  - destruct Hv as (p & s1 & k & Hp & -> & He & Hk). simpl. eexists p, s1, _.
    split; [done|]. split; [reflexivity|]. split; [done|]. intros s'. simpl. rewrite Hk.
    unfold back_found. rewrite !bind_run, res_bind_assoc. done.
  - destruct Hv as (m'' & -> & Hm'). simpl.
    replace (S (length q1)) with (length (q1 ++ [l])) by (rewrite length_app; simpl; lia).
    apply IH; [|done]. by rewrite <- app_assoc.
Qed.

End level.
End scan.

(** * The whole turn *)

Section round.
Context {V : Type}.
Implicit Types (s : kstate V) (q : queues).

Lemma total_qsize_run s q :
  mlfq_abs s q → queues_wf q →
  ∃ total, total_qsize s = Ret total s ∧ (total = 0 ↔ concat q = []).
Proof.
  intros Habs Hwf. pose proof Hwf as [Hl Hq].
  destruct q as [|l0 [|l1 [|l2 [|]]]] eqn:Eq; try done. rewrite <- Eq in Habs, Hq.
  assert (∀ lv l, q !! lv = Some l → Z.of_nat (length l) <= Z.of_nat NPROC) as Hle.
  { intros lv l Hlv. destruct (Hq lv l Hlv) as [Hd Hb].
    pose proof (NoDup_indices_le _ _ Hd Hb). lia. }
  pose proof (Hle 0%nat l0 ltac:(by rewrite Eq)) as H0.
  pose proof (Hle 1%nat l1 ltac:(by rewrite Eq)) as H1.
  pose proof (Hle 2%nat l2 ltac:(by rewrite Eq)) as H2.
  pose proof NPROC_val as HN.
  unfold total_qsize, QUEUE_LEVELS. cbn [seq for_acc].
  exists (Z.of_nat (length l0 + length l1 + length l2)). split.
  - erewrite bind_Ret; [|erewrite bind_Ret; [|eapply (abs_qsize s q 0 l0 Habs); by rewrite Eq];
      reflexivity].
    erewrite bind_Ret; [|erewrite bind_Ret; [|eapply (abs_qsize s q 1 l1 Habs); by rewrite Eq];
      reflexivity].
    erewrite bind_Ret; [|erewrite bind_Ret; [|eapply (abs_qsize s q 2 l2 Habs); by rewrite Eq];
      reflexivity].
    unfold mret, M_ret. f_equal. rewrite (int_small (0 + _)) by lia.
    rewrite (int_small (0 + _ + _)) by lia. rewrite int_small by lia. lia.
  - simpl. rewrite app_nil_r. split.
    + intros E. destruct l0, l1, l2; simpl in *; try lia; done.
    + intros [-> [-> ->]%app_eq_nil]%app_eq_nil. done.
Qed.

Lemma run_of_reset procs i : run_of (reset_slice <$> procs) i = run_of procs i.
Proof.
  unfold run_of. rewrite list_lookup_fmap. destruct (procs !! i) as [p|]; simpl; [|done].
  unfold reset_slice. destruct (runnable p) eqn:E; [|done]. unfold runnable in *. done.
Qed.

Lemma mlfq_refill_run s q :
  at_rest s → free mlfq_lock (k_mach s) → levels_ok (k_procs s) → mlfq_abs s q → queues_wf q →
  let q0 := refill (k_procs s) (seq 0 NPROC) q in
  ∃ s', mlfq_refill s = Ret tt s' ∧ mlfq_abs s' q0 ∧ queues_wf q0 ∧
    same_but_procs_queues (settled s) s' ∧ k_procs s' = reset_slice <$> k_procs s.
Proof.
  intros (Hok & Hfree & Hlen) Hlk Hlv Habs Hwf q0.
  destruct (table_pass (k_procs s)
    (fun i => p ← get_proc i;
       if decide (p_state p = RUNNABLE) then
         enqueue_to_mlfq i ;; upd_proc i (fun p => p <| p_time_slice := 0 |>)
       else mret tt) (fun _ => reset_slice) (enqueue_sel (fun _ => runnable) (k_procs s))
    (same_but_procs_queues (with_lock mlfq_lock s)) Hlen) with (s := with_lock mlfq_lock s) (q := q)
    as (s1 & Hrun & Hsame & Habs1 & Hwf1 & Hps); [|done..|by eapply mlfq_abs_ext; [..|exact Habs]|done|].
  { intros i p s1 q1 Hi Hp Hp1 Hl1 HI Habs1 Hwf1.
    pose proof (enqueue_sel_wf (fun _ => runnable) (k_procs s) q1 i Hwf1 Hi) as Hwf2.
    pose proof (Hlv p (list_elem_of_lookup_2 _ _ _ Hp)) as Hpl.
    unfold enqueue_sel, reset_slice, runnable in *. rewrite Hp in *.
    destruct (decide (p_state p = RUNNABLE)) as [Hr|Hr];
      [rewrite bool_decide_eq_true_2 in * by done|rewrite bool_decide_eq_false_2 in * by done].
    - destruct (enqueue_abs i p (Z.to_nat (p_queue_level p)) s1 q1 Hp1)
        as (s2 & Hrun2 & Habs2 & Hsame2); [lia..|done|done|].
      assert (k_procs s2 = k_procs s1) as Eps by (by rewrite Hsame2).
      exists (put_proc i (p <| p_time_slice := 0 |>) s2). split_and!; try done.
      + erewrite bind_Ret; [|by apply get_proc_run]. rewrite decide_True by done.
        erewrite bind_Ret; [|exact Hrun2]. apply upd_proc_put. by rewrite Eps.
      + eapply same_but_procs_queues_trans; [exact HI|]. unfold same_but_procs_queues.
        rewrite Hsame2. by destruct s1.
      + simpl. by rewrite Eps.
    - exists s1. split_and!; try done.
      + erewrite bind_Ret; [|by apply get_proc_run]. by rewrite decide_False by done.
      + by rewrite list_insert_id. }
  assert (k_mach s1 = held mlfq_lock (k_mach s)) as Em by (by rewrite Hsame).
  exists (on_mach (settle (k_mach s)) s1). split_and!.
  - unfold mlfq_refill. erewrite bind_Ret; [|by apply acquire_lock].
    erewrite bind_Ret; [|exact Hrun]. by rewrite (release_held mlfq_lock _ (k_mach s)).
  - by eapply mlfq_abs_ext; [..|exact Habs1].
  - done.
  - unfold same_but_procs_queues in *. rewrite Hsame. by destruct s.
  - simpl. rewrite Hps. apply list_eq. intros i. by rewrite list_lookup_imap, list_lookup_fmap.
Qed.

(** The queues and the table from which the turn chooses. *)
Definition queues_at_choice s q : queues :=
  if decide (concat q = []) then refill (k_procs s) (seq 0 NPROC) q else q.

Definition procs_at_choice s q : list proc :=
  if decide (concat q = []) then reset_slice <$> k_procs s else k_procs s.

Lemma prepare_run s q :
  at_rest s → free mlfq_lock (k_mach s) → levels_ok (k_procs s) → mlfq_abs s q → queues_wf q →
  ∃ s0, (∀ A (f : unit → M (kstate V) A),
           (total ← total_qsize; x ← when (total =? 0) mlfq_refill; f x) s = f tt s0) ∧
    mlfq_abs s0 (queues_at_choice s q) ∧ queues_wf (queues_at_choice s q) ∧
    same_but_procs_queues (on_mach (k_mach s0) s) s0 ∧ k_procs s0 = procs_at_choice s q ∧
    scan_mach (k_mach s) None (k_mach s0).
Proof.
  intros Hrest Hlk Hlv Habs Hwf.
  destruct (total_qsize_run s q Habs Hwf) as (total & Ht & H0).
  unfold queues_at_choice, procs_at_choice. destruct (decide (concat q = [])) as [E|E].
  - destruct (mlfq_refill_run s q) as (s' & Hrun & Habs' & Hwf' & Hsame & Hps); [done..|].
    assert (k_mach s' = settle (k_mach s)) as Em by (by rewrite Hsame).
    exists s'. split_and!; [|done..| |done|by right].
    + intros A f. erewrite bind_Ret; [|exact Ht]. replace (total =? 0) with true by (symmetry; apply Z.eqb_eq; tauto).
      by erewrite bind_Ret; [|exact Hrun].
    + rewrite Em. done.
  - exists s. split_and!; [|done..|by destruct s|done|by left].
    intros A f. erewrite bind_Ret; [|exact Ht].
    replace (total =? 0) with false by (symmetry; apply Z.eqb_neq; tauto).
    by erewrite bind_Ret.
Qed.

(** What a turn does, given its choice. *)
Definition mlfq_turn s q (r : res (kstate V) unit) : Prop :=
  match pick (run_of (k_procs s)) 0 (queues_at_choice s q) with
  | Some (lv, i) =>
      ∃ p s1 k, r = Swtch (ToProc i) s1 k ∧ procs_at_choice s q !! i = Some p ∧
        k_procs s1 = <[i := dispatch (k_ticks s) p]> (procs_at_choice s q) ∧
        mlfq_abs s1 (q_remove lv i (queues_at_choice s q)) ∧
        (k_mach s1 = cpu_runs (Some i) (held (LkProc i) (intr_enabled (k_mach s))) ∧ k_policy s1 = k_policy s) ∧
        ∀ s', k s' = resume i s'
  | None =>
      ∃ s1, r = Ret tt s1 ∧ k_procs s1 = procs_at_choice s q ∧
        mlfq_abs s1 (queues_at_choice s q) ∧
        (k_mach s1 = intr_enabled (k_mach s) ∨
         k_mach s1 = intr_enabled (settle (intr_enabled (k_mach s)))) ∧
        k_policy s1 = k_policy s ∧ k_ticks s1 = k_ticks s
  end.

Lemma intr_enabled_twice m : intr_enabled (intr_enabled m) = intr_enabled m.
Proof.
  unfold intr_enabled. simpl. f_equal. rewrite list_alter_alter_eq.
  by apply list_alter_ext; [intros [] _|].
Qed.

Lemma sched_mlfq_run s q :
  sched_ready s → k_policy s = SCHED_MLFQ → free mlfq_lock (k_mach s) →
  levels_ok (k_procs s) → mlfq_abs s q → queues_wf q → mlfq_turn s q (scheduler_round s).
Proof.
  intros Hready Hpol Hlk Hlv Habs Hwf. pose proof Hready as [(_ & _ & Hlen) (c & Hc & _)].
  erewrite round_policy; [|exact Hc|rewrite Hpol; reflexivity]. simpl.
  destruct (sched_ready_intr s Hready) as [Hrest _].
  set (sa := on_mach (intr_enabled (k_mach s)) s) in *.
  destruct (prepare_run sa q Hrest Hlk Hlv) as (s0 & Hrun & Habs0 & Hwf0 & Hsame & Hps & Hm0);
    [by eapply mlfq_abs_ext; [..|exact Habs]|done|].
  change (queues_at_choice sa q) with (queues_at_choice s q) in *.
  change (procs_at_choice sa q) with (procs_at_choice s q) in *.
  unfold sched_mlfq. rewrite Hrun.
  assert (at_rest s0) as Hrest0.
  { destruct Hrest as (Hok & Hfree & _). split; [by eapply scan_mach_ok|]. split.
    - intros i Hi. by eapply (scan_mach_free (k_mach sa) Hfree None).
    - rewrite Hps. unfold procs_at_choice. destruct (decide _); [by rewrite length_fmap|done]. }
  assert (run_of (k_procs s0) = run_of (k_procs s)) as Erun.
  { apply functional_extensionality. intros i. rewrite Hps. unfold procs_at_choice.
    destruct (decide _); [apply run_of_reset|done]. }
  pose proof (levels_scan_run s0 _ Hrest0 Habs0 Hwf0 [] (queues_at_choice s q) (k_mach s0)
    eq_refl ltac:(by left)) as Hscan.
  destruct Hwf0 as [El _]. rewrite El in Hscan. rewrite Erun in Hscan.
  replace (on_mach (k_mach s0) s0) with s0 in Hscan by (by destruct s0).
  rewrite bind_run. unfold mlfq_turn. simpl length in Hscan.
  destruct (pick (run_of (k_procs s)) 0 (queues_at_choice s q)) as [[lv i]|].
  - destruct Hscan as (p & s1 & k & Hp & -> & [Hs1 Hq1] & Hk). simpl. eexists p, s1, _.
    split; [reflexivity|]. rewrite Hps in Hp. split; [done|].
    assert (k_ticks s0 = k_ticks s) as Et by (by rewrite Hsame).
    split; [by rewrite Hs1; simpl; rewrite Hps, Et|]. split; [done|]. split.
    + split; [|by rewrite Hs1; simpl; rewrite Hsame].
      rewrite Hs1. simpl. f_equal. destruct Hm0 as [->| ->]; [done|]. apply held_settle.
    + intros s'. simpl. rewrite Hk. unfold back_found. rewrite bind_run, res_bind_assoc.
      simpl. etrans; [|apply res_bind_ret]. f_equal. by apply functional_extensionality; intros [].
  - destruct Hscan as (m' & -> & Hm'). simpl.
    destruct (scan_mach_ok (k_mach s0) (proj1 Hrest0) None m' Hm') as (c' & Hc' & _).
    erewrite intr_on_run; [|exact Hc']. eexists. split; [reflexivity|].
    split; [exact Hps|]. split; [by eapply mlfq_abs_ext; [..|exact Habs0]|].
    split; [|by rewrite Hsame]. simpl.
    destruct Hm0 as [E|E]; rewrite E in Hm'; destruct Hm' as [->| ->]; simpl.
    + left. apply intr_enabled_twice.
    + by right.
    + by right.
    + right. by rewrite settle_settle.
Qed.

End round.
