(* ===== verification/Boot.v ===== *)
(** A concrete kernel state: the zeroed globals with the locks initialised, as
    [main] (kernel/main.c) leaves them after [procinit], on hart 0.  The other
    files evaluate their theorems on states built from it. *)

From stdpp Require Import base gmap strings numbers list.
From S2P Require Import Prelude Spinlock Kstate Mlfq Sched.
Local Open Scope Z_scope.

Definition context0 : context := mkcontext 0 0 0 0 0 0 0 0 0 0 0 0 0 0.

Definition trapframe0 : trapframe :=
  mktrapframe 0 0 0 0 0 0 0 0 0 0 0 0 0 0 0 0 0 0 0 0 0 0 0 0 0 0 0 0 0 0 0 0 0 0 0 0.

(** An entry of the process table before its first use. *)
Definition proc0 : proc :=
  mkproc UNUSED None 0 0 0 None 0 0 0 0 trapframe0 context0 (replicate NOFILE None) None
    (replicate 16 0) 0 0 0 0 0 0 0 0 0 0.

Definition proc_locks : gmap lockid spinlock :=
  list_to_map ((fun i => (LkProc i, mkspinlock 0 "proc" None)) <$> seq 0 NPROC).

(** The locks with a name of their own. *)
Definition lock_names : list string :=
  ["mlfq"; "nextpid"; "wait_lock"; "time"; "kmem"; "ftable"; "itable"; "bcache"; "log";
   "cons"; "uart"; "pr"; "virtio_disk"]%string.

Definition global_locks : gmap lockid spinlock :=
  list_to_map ((fun n => (LkGlobal n, mkspinlock 0 n None)) <$> lock_names).

Definition boot_locks : gmap lockid spinlock := global_locks ∪ proc_locks.

Definition boot_mach : machine :=
  mkmachine (replicate NCPU (mkcpu None 0 false false)) 0 boot_locks.

Definition boot_with {V} (v : V) (policy t : Z) : kstate V :=
  mkkstate boot_mach (replicate NPROC proc0)
    (replicate QUEUE_LEVELS (replicate NPROC None)) (replicate QUEUE_LEVELS 0)
    1 None policy t true v.

Definition boot (policy t : Z) : kstate unit := boot_with tt policy t.

(** A process in state [st] with pid [pid], the rest as [proc0]. *)
Definition a_proc (pid : Z) (st : procstate) : proc := proc0 <| p_pid := pid |> <| p_state := st |>.

Ltac nproc := pose proof NPROC_val; lia.

Lemma boot_proc_lock i : (i < NPROC)%nat → free (LkProc i) boot_mach.
Proof.
  intros Hi. exists "proc"%string. simpl locks. unfold boot_locks.
  rewrite lookup_union_r by reflexivity. unfold proc_locks.
  apply elem_of_list_to_map_1.
  - rewrite <- list_fmap_compose. apply NoDup_fmap_2; [|apply NoDup_seq].
    intros x y H. injection H. done.
  - apply list_elem_of_fmap. exists i. split; [done|]. apply elem_of_seq. lia.
Qed.

Lemma boot_global_lock n : n ∈ lock_names → free (LkGlobal n) boot_mach.
Proof.
  intros Hn. exists n. simpl locks. unfold boot_locks. apply lookup_union_Some_l.
  unfold global_locks. apply elem_of_list_to_map_1.
  - rewrite <- list_fmap_compose. apply NoDup_fmap_2; [intros x y H; by injection H|].
    apply (bool_decide_unpack _). vm_compute. exact I.
  - apply list_elem_of_fmap. by exists n.
Qed.

Lemma boot_at_rest {V} (v : V) policy t : at_rest (boot_with v policy t).
Proof.
  split; [|split].
  - exists (mkcpu None 0 false false). split; [done|]. simpl. lia.
  - intros i. apply boot_proc_lock.
  - apply length_replicate.
Qed.

Lemma boot_ready {V} (v : V) policy t : sched_ready (boot_with v policy t).
Proof. split; [apply boot_at_rest|]. by exists (mkcpu None 0 false false). Qed.

Lemma ready_put_proc {V} i p (s : kstate V) : sched_ready s → sched_ready (put_proc i p s).
Proof. intros [Hr Hc]. split; [by apply at_rest_put_proc|done]. Qed.

Lemma boot_abs {V} (v : V) policy t : mlfq_abs (boot_with v policy t) (replicate QUEUE_LEVELS []).
Proof. exact (mlfq_init_abs (boot_with v policy t)). Qed.

Lemma boot_lookup {V} (v : V) policy t i :
  (i < NPROC)%nat → k_procs (boot_with v policy t) !! i = Some proc0.
Proof. intros Hi. by apply lookup_replicate_2. Qed.

Lemma empty_wf : queues_wf (replicate QUEUE_LEVELS []).
Proof.
  split; [done|]. intros lv l [-> _]%lookup_replicate. split; [constructor|].
  by intros i ?%elem_of_nil.
Qed.

Lemma boot_levels {V} (v : V) policy t : levels_ok (k_procs (boot_with v policy t)).
Proof. intros p [i [-> _]%lookup_replicate]%list_elem_of_lookup. done. Qed.

Lemma boot_inv {V} (v : V) policy t : mlfq_inv (boot_with v policy t) (replicate QUEUE_LEVELS []).
Proof.
  split; [|split; [apply boot_levels|split; [apply boot_abs|apply empty_wf]]].
  apply boot_global_lock. by left.
Qed.

Lemma inv_put_proc {V} i p (s : kstate V) q :
  mlfq_inv s q → 0 <= p_queue_level p < Z.of_nat QUEUE_LEVELS → mlfq_inv (put_proc i p s) q.
Proof.
  intros (Hlk & Hlv & Habs & Hwf) Hp. split; [exact Hlk|].
  split; [by apply levels_ok_insert|]. split; [|exact Hwf].
  by eapply mlfq_abs_ext; [..|exact Habs].
Qed.

(** Process [i] at the head of the empty level 0. *)
Definition queue_one {V} (i : nat) (s : kstate V) : kstate V :=
  put_n 0 1 (put_row 0 (<[0%nat := Some i]> (replicate NPROC None)) s).

Lemma inv_queue_one {V} i (s : kstate V) :
  (i < NPROC)%nat → mlfq_inv s (replicate QUEUE_LEVELS []) → mlfq_inv (queue_one i s) [[i]; []; []].
Proof.
  intros Hi (Hlk & Hlv & Habs & Hwf). split; [exact Hlk|]. split; [exact Hlv|]. split.
  - change [[i]; []; []] with (alter (fun _ : list nat => [i]) 0%nat (replicate QUEUE_LEVELS [])).
    apply (mlfq_abs_put 0 _ _ [] (fun _ => [i])); [exact Habs|done|..].
    + by rewrite length_insert, length_replicate.
    + pose proof NPROC_val. lia.
    + unfold active. assert (∃ n, NPROC = S n) as [n ->]; [|done]. exists (NPROC - 1)%nat. lia.
  - split; [done|]. intros [|[|[|]]] l; simpl; intros [= <-].
    + split; [apply NoDup_singleton|]. by intros j ->%list_elem_of_singleton.
    + split; [constructor|]. by intros j ?%elem_of_nil.
    + split; [constructor|]. by intros j ?%elem_of_nil.
Qed.

Lemma ready_queue_one {V} i (s : kstate V) : sched_ready s → sched_ready (queue_one i s).
Proof. intros [(H1 & H2 & H3) H4]. by split. Qed.

(** The boot state with two processes. *)
Definition two (policy t : Z) (p0 p1 : proc) : kstate unit :=
  put_proc 1 p1 (put_proc 0 p0 (boot policy t)).

Lemma two_ready policy t p0 p1 : sched_ready (two policy t p0 p1).
Proof. apply ready_put_proc, ready_put_proc, boot_ready. Qed.

Lemma two_inv policy t p0 p1 :
  0 <= p_queue_level p0 < 3 → 0 <= p_queue_level p1 < 3 →
  mlfq_inv (two policy t p0 p1) (replicate QUEUE_LEVELS []).
Proof. intros H0 H1. by apply inv_put_proc; [apply inv_put_proc; [apply boot_inv|]|]. Qed.

Lemma two_1 policy t p0 p1 : k_procs (two policy t p0 p1) !! 1%nat = Some p1.
Proof. eapply lookup_put_proc. simpl. rewrite list_lookup_insert_ne by done. apply (boot_lookup tt policy t). nproc. Qed.

Lemma two_0 policy t p0 p1 : k_procs (two policy t p0 p1) !! 0%nat = Some p0.
Proof.
  simpl. rewrite list_lookup_insert_ne by done. apply list_lookup_insert_eq.
  rewrite length_replicate. nproc.
Qed.

Lemma two_in policy t p0 p1 p :
  p ∈ k_procs (two policy t p0 p1) → p = p0 ∨ p = p1 ∨ p = proc0.
Proof.
  intros [i Hi]%list_elem_of_lookup. apply list_lookup_insert_Some in Hi as [(_ & -> & _)|[_ Hi]];
    [by right; left|].
  apply list_lookup_insert_Some in Hi as [(_ & -> & _)|[_ Hi]]; [by left|].
  apply lookup_replicate in Hi as [-> _]. by right; right.
Qed.

Lemma two_runnable policy t p0 p1 i p :
  k_procs (two policy t p0 p1) !! i = Some p → p_state p = RUNNABLE →
  (i = 0%nat ∧ p = p0) ∨ (i = 1%nat ∧ p = p1).
Proof.
  intros Hi Hr. apply list_lookup_insert_Some in Hi as [(<- & <- & _)|[Hi1 Hi]]; [by right|].
  apply list_lookup_insert_Some in Hi as [(<- & <- & _)|[_ Hi]]; [by left|].
  apply lookup_replicate in Hi as [-> _]. discriminate Hr.
Qed.

(** Process 0 enters the empty level 0. *)
Lemma data_with_lock {V} l (s : kstate V) q : mlfq_data s q → mlfq_data (with_lock l s) q.
Proof. intros (H1 & H2 & H3). split; [exact H1|]. split; [exact H2|exact H3]. Qed.

Lemma lookup_with_lock {V} l (s : kstate V) i p :
  k_procs s !! i = Some p → k_procs (with_lock l s) !! i = Some p.
Proof. exact id. Qed.

(** As in [userinit]: mlfq.lock is held. *)
Lemma enqueue_refines_witness :
  ∃ s', enqueue_to_mlfq 0 (with_lock mlfq_lock (boot SCHED_MLFQ 0)) = Ret tt s' ∧
    mlfq_data s' [[0%nat]; []; []] ∧ owned mlfq_lock (k_mach s').
Proof.
  destruct (enqueue_refines 0 proc0 (with_lock mlfq_lock (boot SCHED_MLFQ 0)) (replicate QUEUE_LEVELS []))
    as (s' & Hr & Hi & Hs).
  - apply lookup_with_lock. apply (boot_lookup tt). nproc.
  - nproc.
  - apply data_with_lock. apply boot_inv.
  - exists s'. split; [exact Hr|]. split; [exact Hi|]. rewrite Hs. apply owned_held. exact (boot_global_lock _ ltac:(left)).
Defined.

(** A level with a hole in front of process 5. *)
Definition ex_hole : list (option nat) := <[1%nat := Some 5%nat]> (replicate NPROC None).

Lemma compact_queue_refines_witness :
  ∃ s' row, compact_queue 0 (put_n 0 2 (put_row 0 ex_hole (boot SCHED_MLFQ 0))) = Ret tt s' ∧
    level_is 0 row 1 s' ∧ active 1 row = [Some 5%nat].
Proof.
  assert (active 2 ex_hole = [None; Some 5%nat]) as E.
  { unfold active, ex_hole. assert (∃ n, NPROC = S (S n)) as [n ->]; [|done]. exists (NPROC - 2)%nat. nproc. }
  destruct (compact_queue_refines 0 ex_hole 2 (put_n 0 2 (put_row 0 ex_hole (boot SCHED_MLFQ 0))))
    as (row & Hr & Hl & Ha).
  - split; [reflexivity|]. split; [reflexivity|].
    split; [unfold ex_hole; by rewrite length_insert, length_replicate|nproc].
  - rewrite E in *. eexists _, row. split; [exact Hr|]. split; [exact Hl|exact Ha].
Defined.
