(* ===== verification/Switch.v ===== *)
(** Handing the hart over between the scheduler and processes: what [sched],
    [yield] and [sleep] (kernel/proc.c) leave for the scheduler, what the
    scheduler does with it, and what [wakeup] and [kill] do to sleepers. *)

From Stdlib Require Import FunctionalExtensionality.
From stdpp Require Import base gmap strings numbers list.
From S2P Require Import Prelude Spinlock Kstate Mlfq Sched Boot.
Local Open Scope Z_scope.

Section switch.
Context {V : Type}.
Implicit Types (s : kstate V) (m : machine).

(** The hart changes hands between process [i] and the scheduler: the lock of
    the process is the only one of the table that is taken, it is taken by this
    hart, nothing else is nested, and interrupts are off. *)
Definition handover (i : nat) s : Prop :=
  (∃ c, cpus (k_mach s) !! tp (k_mach s) = Some c ∧ c_noff c = 1 ∧ c_sie c = false) ∧
  owned (LkProc i) (k_mach s) ∧
  (∀ j, (j < NPROC)%nat → j ≠ i → free (LkProc j) (k_mach s)) ∧
  (i < NPROC)%nat ∧ length (k_procs s) = NPROC.

Definition same_but_mach s s' : Prop := s' = on_mach (k_mach s') s.

(** The machine after [resume]. *)
Definition resumed (i : nat) m : machine := unheld (LkProc i) (cpu_runs None m).

Lemma resume_run i s :
  handover i s →
  resume i s = Ret tt (on_mach (resumed i (k_mach s)) s) ∧
  sched_ready (on_mach (resumed i (k_mach s)) s).
Proof.
  intros ((c & Hc & Hn & Hs) & Ho & Hf & Hi & Hl).
  assert (cpus (cpu_runs None (k_mach s)) !! tp (k_mach s) = Some (c <| c_proc := None |>)) as Hc'.
  { simpl. by rewrite list_lookup_alter_eq, Hc. }
  assert (cpus (resumed i (k_mach s)) !! tp (k_mach s) = Some (cpu_pop (c <| c_proc := None |>))) as Hc2.
  { simpl. rewrite list_lookup_alter_eq. simpl in Hc'. by rewrite Hc'. }
  assert (c_noff (cpu_pop (c <| c_proc := None |>)) = 0) as H0 by (simpl; lia).
  split.
  - unfold resume. erewrite bind_Ret; [|by eapply upd_mycpu_mach].
    rewrite (release_run (LkProc i) _ (c <| c_proc := None |>)); [done|done|done|simpl; lia|done].
  - split; [|by eexists]. split; [|split; [|done]].
    + eexists. split; [exact Hc2|]. rewrite H0. lia.
    + intros j Hj. destruct (decide (j = i)) as [->|Hne].
      * destruct Ho as [n Ho]. exists n. simpl. by rewrite lookup_alter_eq, Ho.
      * destruct (Hf j Hj Hne) as [n Hn']. exists n. simpl.
        rewrite lookup_alter_ne; [done|]. by intros [= ->].
Qed.

(** The scheduler enters a process in a hand-over state. *)
Lemma dispatched_handover i p' s :
  sched_ready s → (i < NPROC)%nat → handover i (dispatched i p' s).
Proof.
  intros Hs Hi. destruct (sched_ready_intr s Hs) as [(Hok & Hf & Hl) (c & Hc & Hn)].
  split; [|split; [|split; [|split]]].
  - exists (cpu_push c <| c_proc := Some i |>). simpl in *.
    rewrite !list_lookup_alter_eq. rewrite list_lookup_alter_eq in Hc.
    destruct (cpus (k_mach s) !! tp (k_mach s)) as [c0|]; [|done]. simpl in Hc.
    injection Hc as <-. simpl in *. by rewrite Hn.
  - destruct (Hf i Hi) as [n Hfi]. exists n. simpl in *. by rewrite lookup_alter_eq, Hfi.
  - intros j Hj Hne. destruct (Hf j Hj) as [n Hfj]. exists n. simpl in *.
    rewrite lookup_alter_ne; [done|]. by intros [= ->].
  - done.
  - simpl. by rewrite length_insert.
Qed.

(** * Running the scheduler against processes *)

(** [env i] is what process [i] does from the [swtch] that enters it to the one
    in [sched] that leaves it.  The trace lists the processes entered. *)
Fixpoint drive {A} (env : nat → kstate V → kstate V) (r : res (kstate V) A) :
    list nat * option (A * kstate V) :=
  match r with
  | Ret a s => ([], Some (a, s))
  | Swtch (ToProc i) s k => let '(t, o) := drive env (k (env i s)) in (i :: t, o)
  | _ => ([], None)
  end.

(** A process gives the hart back as [sched] does, and leaves processes that
    wait for the hart waiting. *)
Definition env_ok (env : nat → kstate V → kstate V) : Prop :=
  ∀ i s, handover i s →
    handover i (env i s) ∧
    ∀ j p, j ≠ i → k_procs s !! j = Some p → p_state p = RUNNABLE →
      ∃ p', k_procs (env i s) !! j = Some p' ∧ p_state p' = RUNNABLE.

(** * Giving the hart back *)

(** Process [i] runs on the hart and holds no spin lock. *)
Definition running (i : nat) s : Prop :=
  at_rest s ∧
  ∃ c p, cpus (k_mach s) !! tp (k_mach s) = Some c ∧ c_noff c = 0 ∧ c_proc c = Some i ∧
    k_procs s !! i = Some p ∧ p_state p = RUNNING.

(** [sched] with [p->lock] alone held passes its checks and switches; when the
    process is entered again it restores [intena]. *)
Lemma sched_run i p s c :
  handover i s → cpus (k_mach s) !! tp (k_mach s) = Some c → c_proc c = Some i →
  k_procs s !! i = Some p → p_state p ≠ RUNNING →
  sched s = Swtch ToSched s (upd_mycpu (fun c' => c' <| c_intena := c_intena c |>)).
Proof.
  intros ((c' & Hc' & Hn & Hs) & [n Ho] & _) Hc Hpr Hp Hst.
  assert (c' = c) as -> by congruence. unfold sched.
  assert (hart_ok (k_mach s)) as Hok by (exists c; split; [done|lia || split; [lia|done]]).
  assert (settle (k_mach s) = k_mach s) as Es by (apply (settle_nested _ c); [done|lia]).
  erewrite bind_Ret; [|exact (myproc_run s c Hc Hok)].
  assert (set_mach settle s = s) as ->.
  { simpl. rewrite Es. by destruct s. }
  rewrite Hpr. erewrite bind_Ret; [|done].
  erewrite bind_Ret; [|exact (holding_run (LkProc i) s _ Ho)]. simpl.
  rewrite bool_decide_eq_true_2 by done. simpl.
  erewrite bind_Ret; [|exact (mycpu_run s c Hc)]. rewrite Hn. simpl.
  erewrite bind_Ret; [|by apply get_proc_run]. rewrite decide_False by done.
  erewrite bind_Ret; [|exact (intr_get_run s c Hc)]. rewrite Hs.
  erewrite bind_Ret; [|exact (mycpu_run s c Hc)]. reflexivity.
Qed.

Lemma enqueue_if_run i p s q c :
  cpus (k_mach s) !! tp (k_mach s) = Some c → 0 < c_noff c → c_sie c = false →
  k_procs s !! i = Some p → (i < NPROC)%nat → mlfq_inv s q →
  ∃ s', when (k_policy s =? SCHED_MLFQ) (enqueue_locked i) s = Ret tt s' ∧
    same_but_queues s s' ∧
    mlfq_abs s' (if k_policy s =? SCHED_MLFQ
                 then q_enqueue (Z.to_nat (p_queue_level p)) i q else q).
Proof.
  intros Hc Hn Hs Hp Hi (Hlk & Hlv & Habs & Hwf).
  destruct (k_policy s =? SCHED_MLFQ); [|exists s; split; [done|by destruct s]].
  assert (hart_ok (k_mach s)) as Hok by (exists c; split; [done|split; [lia|done]]).
  pose proof (Hlv p (list_elem_of_lookup_2 _ _ _ Hp)) as Hpl.
  destruct (enqueue_abs i p (Z.to_nat (p_queue_level p)) (with_lock mlfq_lock s) q)
    as (s1 & Hrun & Habs1 & Hsame); [done|lia|unfold QUEUE_LEVELS in *; lia|done..|].
  exists (on_mach (k_mach s) s1). split; [|split].
  - unfold when, enqueue_locked. erewrite bind_Ret; [|by apply acquire_lock].
    erewrite bind_Ret; [|exact Hrun].
    rewrite (release_held mlfq_lock s1 (k_mach s)); [|done..|by rewrite Hsame].
    by rewrite (settle_nested _ c).
  - unfold same_but_queues in *. rewrite Hsame. by destruct s.
  - by eapply mlfq_abs_ext; [..|exact Habs1].
Qed.

(** Taking the own process lock. *)
Lemma running_lock i s :
  running i s →
  (∃ o, myproc s = Ret o (settled s) ∧ o = Some i) ∧
  acquire (LkProc i) (settled s) = Ret tt (with_lock (LkProc i) s) ∧
  handover i (with_lock (LkProc i) s) ∧
  ∃ c, cpus (k_mach s) !! tp (k_mach s) = Some c ∧ c_proc c = Some i ∧
       cpus (k_mach (with_lock (LkProc i) s)) !! tp (k_mach s) =
         Some (mkcpu (Some i) 1 (c_sie c) false).
Proof.
  intros [(Hok & Hf & Hl) (c & p & Hc & Hn & Hpr & Hp & Hst)].
  assert (i < NPROC)%nat as Hi by (apply lookup_lt_Some in Hp; lia).
  assert (cpus (k_mach (with_lock (LkProc i) s)) !! tp (k_mach s) =
            Some (mkcpu (Some i) 1 (c_sie c) false)) as Hc'.
  { simpl. rewrite list_lookup_alter_eq, Hc. simpl. unfold cpu_push. by rewrite Hn, Hpr. }
  split; [|split; [|split]].
  - exists (c_proc c). split; [|done]. exact (myproc_run s c Hc Hok).
  - rewrite acquire_lock.
    + unfold with_lock, settled. simpl. by rewrite held_settle.
    + by apply hart_ok_settle.
    + by apply free_settle, Hf.
  - split; [by eexists|]. split; [by apply owned_held, Hf|]. split; [|done].
    intros j Hj Hne. apply free_held; [by intros [= ->]|by apply Hf].
  - by exists c.
Qed.

(** The end of [sched] in a process that is entered again. *)
Lemma intena_run i b s :
  handover i s →
  ∃ s', upd_mycpu (fun c => c <| c_intena := b |>) s = Ret tt s' ∧ same_but_mach s s' ∧
    handover i s' ∧ locks (k_mach s') = locks (k_mach s) ∧
    ∃ c, cpus (k_mach s') !! tp (k_mach s') = Some c ∧ c_intena c = b.
Proof.
  intros ((c & Hc & Hn & Hs) & Ho & Hf & Hi & Hl). eexists.
  split; [by eapply upd_mycpu_mach|]. split; [done|].
  assert (∃ c', cpus ((k_mach s) <| cpus ::= alter (fun c => c <| c_intena := b |>)
    (tp (k_mach s)) |>) !! tp (k_mach s) = Some c' ∧ c' = c <| c_intena := b |>) as (c' & Hc' & ->).
  { eexists. split; [|reflexivity]. simpl. by rewrite list_lookup_alter_eq, Hc. }
  split; [|split; [done|by eexists]]. split; [by eexists|done].
Qed.

(** The release of [p->lock] then puts interrupts back to what they were. *)
Lemma release_back i c s :
  handover i s → cpus (k_mach s) !! tp (k_mach s) = Some c →
  ∃ s', release (LkProc i) s = Ret tt s' ∧ same_but_mach s s' ∧ at_rest s' ∧
    (∀ l, l ≠ LkProc i → free l (k_mach s) → free l (k_mach s')) ∧
    ∃ c', cpus (k_mach s') !! tp (k_mach s') = Some c' ∧ c_noff c' = 0 ∧
          c_sie c' = c_intena c ∧ c_proc c' = c_proc c.
Proof.
  intros ((c' & Hc' & Hn & Hs) & Ho & Hf & Hi & Hl) Hc. assert (c' = c) as -> by congruence.
  exists (on_mach (unheld (LkProc i) (k_mach s)) s).
  assert (cpus (unheld (LkProc i) (k_mach s)) !! tp (k_mach s) = Some (cpu_pop c)) as Hc2.
  { simpl in *. by rewrite list_lookup_alter_eq, Hc. }
  split; [|split; [done|split; [|split]]].
  - rewrite (release_run (LkProc i) _ c); [done|done|done|lia|done].
  - split; [|split; [|done]].
    + eexists. split; [exact Hc2|]. simpl. rewrite Hn. simpl. lia.
    + intros j Hj. destruct (decide (j = i)) as [->|Hne].
      * destruct Ho as [n Ho]. exists n. simpl. by rewrite lookup_alter_eq, Ho.
      * destruct (Hf j Hj Hne) as [n Hn']. exists n. simpl.
        rewrite lookup_alter_ne; [done|]. by intros [= ->].
  - intros l Hne [n Hfl]. exists n. simpl. by rewrite lookup_alter_ne.
  - eexists. split; [exact Hc2|]. simpl. rewrite Hn, Hs. simpl.
    split; [done|]. split; [|done]. by destruct (c_intena c).
Qed.

Lemma same_but_mach_trans s1 s2 s3 :
  same_but_mach s1 s2 → same_but_mach s2 s3 → same_but_mach s1 s3.
Proof. unfold same_but_mach. intros H1 H2. rewrite H2, H1. by destruct s1. Qed.

End switch.

(** * [yield] *)

(** What the thread finds when it is entered again: no lock held, interrupts as
    before. *)
Definition comes_back {V} (i : nat) (b : bool) (k : kstate V → res (kstate V) unit) : Prop :=
  ∀ s2, handover i s2 →
    ∃ s3 c, k s2 = Ret tt s3 ∧ same_but_mach s2 s3 ∧ at_rest s3 ∧
      cpus (k_mach s3) !! tp (k_mach s3) = Some c ∧ c_noff c = 0 ∧ c_sie c = b.

Lemma yield_run {V} (i : nat) (p : proc) (c : cpu) (s : kstate V) (q : queues) :
  running i s → k_procs s !! i = Some p → cpus (k_mach s) !! tp (k_mach s) = Some c →
  mlfq_inv s q →
  let delta := int (uint (k_ticks s - p_runtime_start_ticks p)) in
  ∃ s1 k, yield s = Swtch ToSched s1 k ∧ handover i s1 ∧
    k_procs s1 = <[i := p <| p_last_runtime := Z.max 1 delta |> <| p_state := RUNNABLE |>]>
                   (k_procs s) ∧
    mlfq_abs s1 (if k_policy s =? SCHED_MLFQ
                 then q_enqueue (Z.to_nat (p_queue_level p)) i q else q) ∧
    comes_back i (c_sie c) k.
Proof.
  intros Hr Hp Hc Hinv delta. destruct (running_lock i s Hr) as ((o & Hmy & ->) & Hacq & Hho & Hcpu).
  destruct Hcpu as (c' & Hc' & Hpr & Hc1). assert (c' = c) as -> by congruence.
  set (s0 := with_lock (LkProc i) s) in *.
  set (p1 := p <| p_last_runtime := Z.max 1 delta |>).
  set (p2 := p1 <| p_state := RUNNABLE |>).
  assert (i < NPROC)%nat as Hi by apply Hho.
  destruct (enqueue_if_run i p2 (put_proc i p2 s0) q (mkcpu (Some i) 1 (c_sie c) false))
    as (s1 & Hrun & Hsame & Habs);
    [exact Hc1|done|done|eapply lookup_put_proc; exact Hp|done|..].
  { destruct Hinv as (Hlk & Hlv & Habs & Hwf). split; [by apply free_held|].
    split; [|by split; [eapply mlfq_abs_ext; [..|exact Habs]|]].
    apply levels_ok_insert; [done|]. apply (Hlv p). by eapply list_elem_of_lookup_2. }
  assert (handover i s1) as Hho1.
  { rewrite Hsame. destruct Hho as (H1 & H2 & H3 & H4 & H5). split_and!; try done.
    simpl. by rewrite length_insert. }
  assert (k_procs s1 = <[i := p2]> (k_procs s)) as Eps by (by rewrite Hsame).
  assert (k_mach s1 = k_mach s0) as Em by (by rewrite Hsame).
  exists s1. eexists. split; [|split; [done|split; [done|split; [exact Habs|]]]].
  - unfold yield. erewrite bind_Ret; [|exact Hmy]. erewrite bind_Ret; [|done].
    erewrite bind_Ret; [|exact Hacq]. erewrite bind_Ret; [|by apply record_runtime_run].
    erewrite bind_Ret; [|eapply upd_proc_put; eapply lookup_put_proc; exact Hp].
    rewrite put_proc_put_proc. erewrite bind_Ret; [|reflexivity].
    erewrite bind_Ret; [|exact Hrun].
    rewrite bind_run. rewrite (sched_run i p2 s1 (mkcpu (Some i) 1 (c_sie c) false)); [reflexivity|done| |done| |done].
    + rewrite Em. exact Hc1.
    + rewrite Eps. apply list_lookup_insert_eq. by eapply lookup_lt_Some.
  - intros s2 H2. cbv beta. cbn [c_intena].
    destruct (intena_run i (c_sie c) s2 H2) as (s2' & Hr2 & Hm2 & H2' & _ & c2 & Hc2 & Hi2).
    destruct (release_back i c2 s2' H2' Hc2) as (s3 & Hr3 & Hm3 & Hat & _ & c3 & Hc3 & Hn3 & Hs3 & _).
    exists s3, c3. rewrite Hr2. simpl. rewrite Hr3, Hs3, Hi2.
    split_and!; [done|by eapply same_but_mach_trans|done..].
Qed.

(** C19. yield of a running process passes all checks of sched and reaches the
    scheduler with p->lock as the only lock held and interrupts off, the process
    RUNNABLE with its last run time recorded and, under MLFQ, last in its level;
    when it is entered again it returns with no lock held and interrupts as they
    were. *)
Theorem yield_hands_over {V} (i : nat) (p : proc) (c : cpu) (s : kstate V) (q : queues) :
  running i s → k_procs s !! i = Some p → cpus (k_mach s) !! tp (k_mach s) = Some c →
  mlfq_inv s q →
  let delta := int (uint (k_ticks s - p_runtime_start_ticks p)) in
  ∃ s1 k, yield s = Swtch ToSched s1 k ∧ handover i s1 ∧
    k_procs s1 = <[i := p <| p_last_runtime := Z.max 1 delta |> <| p_state := RUNNABLE |>]>
                   (k_procs s) ∧
    mlfq_abs s1 (if k_policy s =? SCHED_MLFQ
                 then q_enqueue (Z.to_nat (p_queue_level p)) i q else q) ∧
    comes_back i (c_sie c) k.
Proof. apply yield_run. Qed.

(** Process 0 runs on hart 0, process 1 sleeps. *)
Definition ex_running (policy : Z) : kstate unit :=
  on_mach (cpu_runs (Some 0%nat) boot_mach)
    (two policy 30 (a_proc 1 RUNNING) (a_proc 2 SLEEPING)).

Lemma ex_running_ok policy : running 0 (ex_running policy).
Proof.
  split; [split; [|split]|].
  - exists (mkcpu (Some 0%nat) 0 false false). split; [done|]. simpl. lia.
  - intros i Hi. exact (boot_proc_lock i Hi).
  - exact (proj2 (proj2 (proj1 (two_ready policy 30 (a_proc 1 RUNNING) (a_proc 2 SLEEPING))))).
  - exists (mkcpu (Some 0%nat) 0 false false), (a_proc 1 RUNNING).
    split; [done|]. split; [done|]. split; [done|]. split; [apply two_0|done].
Qed.

Lemma ex_running_inv policy : mlfq_inv (ex_running policy) (replicate QUEUE_LEVELS []).
Proof.
  destruct (two_inv policy 30 (a_proc 1 RUNNING) (a_proc 2 SLEEPING)) as (H1 & H2 & H3 & H4);
    [done..|].
  split; [exact H1|]. split; [exact H2|]. split; [exact H3|exact H4].
Qed.

Lemma yield_hands_over_witness :
  ∃ s1 k, yield (ex_running SCHED_MLFQ) = Swtch ToSched s1 k ∧ mlfq_abs s1 [[0%nat]; []; []].
Proof.
  destruct (yield_hands_over 0 (a_proc 1 RUNNING) (mkcpu (Some 0%nat) 0 false false)
    (ex_running SCHED_MLFQ) (replicate QUEUE_LEVELS [])) as (s1 & k & Hy & _ & _ & Hq & _).
  - apply ex_running_ok.
  - apply two_0.
  - reflexivity.
  - apply ex_running_inv.
  - exists s1, k. split; [exact Hy|exact Hq].
Defined.

(** * [sleep] *)

Lemma handover_put {V} i p (s : kstate V) : handover i s → handover i (put_proc i p s).
Proof. intros (H1 & H2 & H3 & H4 & H5). split_and!; try done. simpl. by rewrite length_insert. Qed.

(** The condition lock is given back for p->lock. *)
Lemma release_under {V} i lk c (s : kstate V) :
  hart_ok (k_mach s) → cpus (k_mach s) !! tp (k_mach s) = Some c → c_noff c = 0 → lk ≠ LkProc i →
  free lk (k_mach s) →
  release lk (with_lock (LkProc i) (set_mach settle (with_lock lk s))) = Ret tt (with_lock (LkProc i) s).
Proof.
  intros Hok Hc Hn Hne Hlk. rewrite (release_run lk _ (cpu_push (cpu_push c))).
  - f_equal. unfold with_lock. simpl. f_equal. rewrite settle_held by done. by apply unheld_swap.
  - simpl. rewrite !list_lookup_alter_eq, Hc. simpl. do 2 f_equal.
    unfold cpu_settle. simpl. rewrite Hn. done.
  - done.
  - simpl. rewrite Hn. done.
  - apply owned_held_ne; [done|]. by apply owned_held.
Qed.

(** C20. sleep with the condition lock held reaches the scheduler with the process
    SLEEPING on its channel, the condition lock free and p->lock as the only lock
    held; when it is entered again with the condition lock free it clears the
    channel and returns holding the condition lock. *)
Theorem sleep_hands_over {V} (i : nat) (p : proc) (chan : kptr) (lk : lockid) (s : kstate V) :
  running i s → k_procs s !! i = Some p → free lk (k_mach s) → (∀ j, lk ≠ LkProc j) →
  ∃ k, sleep chan lk (with_lock lk s) =
         Swtch ToSched
           (with_lock (LkProc i)
              (put_proc i (p <| p_chan := Some chan |> <| p_state := SLEEPING |>) s)) k ∧
    handover i (with_lock (LkProc i)
              (put_proc i (p <| p_chan := Some chan |> <| p_state := SLEEPING |>) s)) ∧
    ∀ s2 p2, handover i s2 → free lk (k_mach s2) → k_procs s2 !! i = Some p2 →
      ∃ s3, k s2 = Ret tt s3 ∧ same_but_mach (put_proc i (p2 <| p_chan := None |>) s2) s3 ∧
        owned lk (k_mach s3).
Proof.
  intros Hr Hp Hlk Hne. pose proof Hr as [(Hok & Hf & Hl) (c & p' & Hc & Hn & Hpr & Hp' & Hst)].
  assert (p' = p) as -> by congruence.
  destruct (running_lock i s Hr) as (_ & _ & Hho & (c' & Hc' & _ & Hc1)).
  assert (c' = c) as -> by congruence. assert (i < NPROC)%nat as Hi by apply Hho.
  set (p1 := p <| p_chan := Some chan |> <| p_state := SLEEPING |>).
  assert (handover i (with_lock (LkProc i) (put_proc i p1 s))) as Hho1.
  { exact (handover_put i p1 _ Hho). }
  assert (cpus (k_mach (with_lock lk s)) !! tp (k_mach s) = Some (cpu_push c)) as Hcl.
  { simpl. by rewrite list_lookup_alter_eq, Hc. }
  assert (hart_ok (k_mach (with_lock lk s))) as Hokl by (by apply hart_ok_held).
  eexists. split; [|split; [exact Hho1|]].
  - unfold sleep. erewrite bind_Ret; [|exact (myproc_run _ _ Hcl Hokl)].
    simpl c_proc. rewrite Hpr. erewrite bind_Ret; [|done].
    erewrite bind_Ret; [|apply acquire_lock; [by apply hart_ok_settle|]].
    2: { apply free_settle. simpl. apply free_held; [done|by apply Hf]. }
    erewrite bind_Ret; [|by eapply release_under].
    erewrite bind_Ret; [|by eapply upd_proc_put].
    erewrite bind_Ret; [|eapply upd_proc_put; by eapply lookup_put_proc].
    rewrite put_proc_put_proc. rewrite bind_run.
    erewrite (sched_run i p1 _ (mkcpu (Some i) 1 (c_sie c) false));
      [reflexivity|done|done|done|by eapply lookup_put_proc|done].
  - intros s2 p2 H2 Hlk2 Hp2. cbv beta. cbn [c_intena].
    destruct (intena_run i (c_sie c) s2 H2) as (s2' & -> & Hm2 & H2' & El & c2 & Hc2 & _). simpl.
    assert (k_procs s2' = k_procs s2) as Eps by (by rewrite Hm2).
    erewrite bind_Ret; [|eapply upd_proc_put; rewrite Eps; exact Hp2].
    set (s2p := put_proc i (p2 <| p_chan := None |>) s2').
    assert (handover i s2p) as H2p.
    { by apply handover_put. }
    destruct (release_back i c2 s2p H2p Hc2) as (s3 & Hr3 & Hm3 & Hat3 & Hf3 & _).
    erewrite bind_Ret; [|exact Hr3].
    assert (free lk (k_mach s3)) as Hlk3.
    { apply Hf3; [done|]. destruct Hlk2 as [n Hlk2]. exists n. simpl. by rewrite El. }
    exists (with_lock lk s3). split; [apply acquire_lock; [apply Hat3|done]|].
    split; [|by apply owned_held]. unfold same_but_mach in *. rewrite Hm3.
    unfold s2p. rewrite Hm2. by destruct s2.
Qed.

Lemma sleep_hands_over_witness :
  ∃ s1 k, sleep PTicks tickslock (with_lock tickslock (ex_running SCHED_RR)) = Swtch ToSched s1 k ∧
    handover 0 s1.
Proof.
  destruct (sleep_hands_over 0 (a_proc 1 RUNNING) PTicks tickslock (ex_running SCHED_RR))
    as (k & Hs & Hh & _).
  - apply ex_running_ok.
  - apply two_0.
  - exists "time"%string. reflexivity.
  - done.
  - eexists _, k. split; [exact Hs|exact Hh].
Defined.

(** * [wakeup] *)

Definition wakes (me : option nat) (chan : option kptr) (i : nat) (p : proc) : bool :=
  bool_decide (me ≠ Some i) && bool_decide (p_state p = SLEEPING ∧ p_chan p = chan).

Definition woken (t : Z) (p : proc) : proc :=
  p <| p_state := RUNNABLE |> <| p_ready_time := int t |>.

Definition wake (me : option nat) (chan : option kptr) (t : Z) (i : nat) (p : proc) : proc :=
  if wakes me chan i p then woken t p else p.

Section wakeup.
Context {V : Type}.
Implicit Types (s : kstate V).

Lemma wakeup_visit_run chan i p c s q :
  hart_ok (k_mach s) → free (LkProc i) (k_mach s) →
  cpus (k_mach s) !! tp (k_mach s) = Some c →
  k_procs s !! i = Some p → (i < NPROC)%nat → mlfq_inv s q →
  ∃ s', wakeup_visit chan i s = Ret tt s' ∧
    k_procs s' = <[i := wake (c_proc c) chan (k_ticks s) i p]> (k_procs s) ∧
    mlfq_abs s' (if (k_policy s =? SCHED_MLFQ) && wakes (c_proc c) chan i p
                 then q_enqueue (Z.to_nat (p_queue_level p)) i q else q) ∧
    same_but_procs_queues (settled s) s'.
Proof.
  intros Hok Hf Hc Hp Hi Hinv. pose proof Hinv as (Hlk & Hlv & Habs & Hwf).
  unfold wakeup_visit, wake, wakes. erewrite bind_Ret; [|exact (myproc_run s c Hc Hok)].
  destruct (decide (c_proc c = Some i)) as [Hme|Hme].
  { rewrite (bool_decide_eq_false_2 (c_proc c ≠ Some i)) by tauto. rewrite andb_false_r.
    exists (settled s). split_and!; [done|by rewrite list_insert_id|done|by destruct s]. }
  rewrite bool_decide_eq_true_2 by done.
  erewrite bind_Ret; [|apply (acquire_lock (LkProc i) (settled s));
    [by apply hart_ok_settle|by apply free_settle]].
  assert (with_lock (LkProc i) (settled s) = with_lock (LkProc i) s) as ->.
  { unfold with_lock, settled. simpl. by rewrite held_settle. }
  erewrite bind_Ret; [|apply get_proc_run; exact Hp].
  destruct (decide (p_state p = SLEEPING ∧ p_chan p = chan)) as [Hsl|Hsl].
  - rewrite (bool_decide_eq_true_2 (_ ∧ _)) by done. rewrite !andb_true_r. cbv iota.
    set (s0 := put_proc i (woken (k_ticks s) p) (with_lock (LkProc i) s)).
    destruct (enqueue_if_run i (woken (k_ticks s) p) s0 q (cpu_push c))
      as (s1 & Hrun & Hsame & Habs1).
    { simpl. by rewrite list_lookup_alter_eq, Hc. }
    { destruct Hok as (c' & Hc' & H0 & _). assert (c' = c) as -> by congruence. simpl. lia. }
    { done. } { eapply lookup_put_proc. exact Hp. } { done. }
    { split; [by apply free_held|]. split; [|done]. apply levels_ok_insert; [done|].
      apply (Hlv p). by eapply list_elem_of_lookup_2. }
    exists (on_mach (settle (k_mach s)) s1). split_and!.
    + erewrite bind_Ret.
      2: { erewrite bind_Ret; [|by eapply upd_proc_put]. erewrite bind_Ret; [|done].
           erewrite bind_Ret; [|eapply upd_proc_put; by eapply lookup_put_proc].
           rewrite put_proc_put_proc. erewrite bind_Ret; [|reflexivity]. exact Hrun. }
      rewrite (release_held (LkProc i) s1 (k_mach s)); [done|done|done|by rewrite Hsame].
    + simpl. by rewrite Hsame.
    + by eapply mlfq_abs_ext; [..|exact Habs1].
    + unfold same_but_procs_queues. rewrite Hsame. by destruct s.
  - rewrite (bool_decide_eq_false_2 (_ ∧ _)) by done. rewrite !andb_false_r. exists (settled s).
    split_and!; [|by rewrite list_insert_id|done|by destruct s].
    erewrite bind_Ret; [|done]. by apply release_lock.
Qed.

(** All of [wakeup], on any state from which the process locks can be taken. *)
Lemma wakeup_run (chan : option kptr) (c : cpu) s (q : queues) :
  at_rest s → cpus (k_mach s) !! tp (k_mach s) = Some c → mlfq_inv s q →
  let q' := if k_policy s =? SCHED_MLFQ
            then fold_left (enqueue_sel (wakes (c_proc c) chan) (k_procs s)) (seq 0 NPROC) q
            else q in
  ∃ s', wakeup chan s = Ret tt s' ∧ at_rest s' ∧ mlfq_inv s' q' ∧
    k_procs s' = imap (wake (c_proc c) chan (k_ticks s)) (k_procs s) ∧
    same_but_procs_queues (on_mach (k_mach s') s) s' ∧ balanced (k_mach s) (k_mach s').
Proof.
  intros (Hok & Hf & Hl) Hc (Hlk & Hlv & Habs & Hwf) q'.
  set (h := if k_policy s =? SCHED_MLFQ
            then enqueue_sel (wakes (c_proc c) chan) (k_procs s) else fun q _ => q).
  assert (fold_left h (seq 0 NPROC) q = q') as Eq.
  { unfold h, q'. destruct (k_policy s =? SCHED_MLFQ); [reflexivity|].
    generalize (seq 0 NPROC). clear. intros l. by induction l. }
  destruct (table_pass (k_procs s) (wakeup_visit chan) (wake (c_proc c) chan (k_ticks s)) h
    (fun s' => same_but_procs_queues (on_mach (k_mach s') s) s' ∧
               balanced (k_mach s) (k_mach s') ∧ levels_ok (k_procs s')) Hl)
    with (s := s) (q := q) as (s' & Hrun & (Hsame & Hbal & Hlv') & Habs' & Hwf' & Hps).
  - intros i p s1 q1 Hi Hp Hp1 Hl1 (Hsame & Hbal & Hlv1) Habs1 Hwf1.
    destruct (balanced_cpu _ _ c Hc Hbal) as (c1 & Hc1 & Epr & _).
    assert (k_ticks s1 = k_ticks s) as Et by (by rewrite Hsame).
    assert (k_policy s1 = k_policy s) as Epol by (by rewrite Hsame).
    destruct (wakeup_visit_run chan i p c1 s1 q1) as (s2 & Hrun & Hps & Habs2 & Hsame2);
      [by eapply balanced_ok|by eapply balanced_free; [apply Hf|]|done..| |].
    { split; [by eapply balanced_free|]. split; [exact Hlv1|]. split; [exact Habs1|exact Hwf1]. }
    rewrite Epr, Et in Hps. rewrite Epr, Epol in Habs2. exists s2.
    split; [exact Hrun|]. split; [|split; [exact Hps|split]].
    + assert (k_mach s2 = settle (k_mach s1)) as Em by (by rewrite Hsame2).
      split_and!.
      * unfold same_but_procs_queues in *. rewrite Em, Hsame2, Hsame. by destruct s.
      * rewrite Em. by apply balanced_settle.
      * rewrite Hps. apply levels_ok_insert; [done|]. unfold wake.
        destruct (wakes _ _ _ _); apply (Hlv p); by eapply list_elem_of_lookup_2.
    + unfold h. destruct (k_policy s =? SCHED_MLFQ); [|exact Habs2].
      unfold enqueue_sel. rewrite Hp. exact Habs2.
    + unfold h. destruct (k_policy s =? SCHED_MLFQ); [by apply enqueue_sel_wf|exact Hwf1].
  - done.
  - split_and!; [by destruct s|by left|done].
  - done.
  - done.
  - rewrite Eq in Habs', Hwf'. exists s'. split_and!; [exact Hrun| | |exact Hps|exact Hsame|exact Hbal].
    + split; [by eapply balanced_ok|]. split.
      * intros i Hi. eapply balanced_free; [by apply Hf|done].
      * rewrite Hps. by rewrite length_imap.
    + split; [by eapply balanced_free|]. split; [exact Hlv'|]. split; [exact Habs'|exact Hwf'].
Qed.

End wakeup.

(** C21. wakeup makes exactly the processes that sleep on the channel, other than
    the caller, RUNNABLE with their ready time set, enters them in their MLFQ levels
    in table order when that policy is active, changes no other entry of the table
    and no other data of the kernel, and leaves the locks of the processes and of
    the queues free. *)
Theorem wakeup_wakes {V} (chan : option kptr) (c : cpu) (s : kstate V) (q : queues) :
  at_rest s → cpus (k_mach s) !! tp (k_mach s) = Some c → mlfq_inv s q →
  let q' := if k_policy s =? SCHED_MLFQ
            then fold_left (enqueue_sel (wakes (c_proc c) chan) (k_procs s)) (seq 0 NPROC) q
            else q in
  ∃ s', wakeup chan s = Ret tt s' ∧ at_rest s' ∧ mlfq_inv s' q' ∧
    k_procs s' = imap (wake (c_proc c) chan (k_ticks s)) (k_procs s) ∧
    same_but_procs_queues (on_mach (k_mach s') s) s'.
Proof.
  intros Hr Hc Hi q'.
  destruct (wakeup_run chan c s q Hr Hc Hi) as (s' & H1 & H2 & H3 & H4 & H5 & _). by exists s'.
Qed.

Lemma wakeup_wakes_witness :
  ∃ s', wakeup None (ex_running SCHED_RR) = Ret tt s' ∧
    k_procs s' !! 1%nat = Some ((a_proc 2 RUNNABLE) <| p_ready_time := 30 |>).
Proof.
  destruct (wakeup_wakes None (mkcpu (Some 0%nat) 0 false false) (ex_running SCHED_RR)
    (replicate QUEUE_LEVELS [])) as (s' & Hr & _ & _ & Hps & _).
  - apply ex_running_ok.
  - reflexivity.
  - apply ex_running_inv.
  - exists s'. split; [exact Hr|]. rewrite Hps, list_lookup_imap.
    assert (k_procs (ex_running SCHED_RR) !! 1%nat = Some (a_proc 2 SLEEPING)) as -> by apply two_1.
    reflexivity.
Defined.

(** * Searches of the process table *)

Section search.
Context {V : Type}.
Implicit Types (s : kstate V).

(** A loop that visits the table under each process lock in turn and leaves at
    the first entry for which [f] gives a result. *)
Context {A : Type} (body : nat → M (kstate V) (option A)) (f : nat → option A).
Context (out : nat → kstate V) (s : kstate V).
Context (Hbody : ∀ i s0, (i < NPROC)%nat → s0 = s ∨ s0 = settled s →
  body i s0 = match f i with Some a => Ret (Some a) (out i) | None => Ret None (settled s) end).

Lemma search_skip (i j : nat) l s0 :
  (j + i <= NPROC)%nat → s0 = s ∨ s0 = settled s → (∀ k, (k < j + i)%nat → f k = None) →
  (0 < i)%nat → for_ret (seq j i ++ l) body s0 = for_ret l body (settled s).
Proof.
  revert j s0. induction i as [|i IH]; intros j s0 Hn Hs Hf Hi; [lia|]. simpl.
  erewrite bind_Ret; [|rewrite (Hbody j s0), Hf by (done || lia); reflexivity]. cbv iota.
  destruct i as [|i]; [done|]. apply IH; [lia|by right|intros; apply Hf; lia|lia].
Qed.

Lemma search_found i a :
  (i < NPROC)%nat → f i = Some a → (∀ j, (j < i)%nat → f j = None) →
  for_ret (seq 0 NPROC) body s = Ret (Some a) (out i).
Proof.
  intros Hi Hfi Hf.
  assert (∃ s0, (s0 = s ∨ s0 = settled s) ∧
    for_ret (seq 0 NPROC) body s = for_ret (seq i (NPROC - i)) body s0) as (s0 & Hs0 & ->).
  { replace (seq 0 NPROC) with (seq 0 i ++ seq i (NPROC - i)).
    2: { rewrite <- seq_app. f_equal. lia. }
    destruct i as [|i]; [exists s; split; [by left|done]|]. exists (settled s).
    split; [by right|]. apply search_skip; [lia|by left|done|lia]. }
  replace (NPROC - i)%nat with (S (NPROC - i - 1)) by lia. simpl.
  erewrite bind_Ret; [|rewrite (Hbody i s0), Hfi by done; reflexivity]. done.
Qed.

Lemma search_none :
  (∀ j, (j < NPROC)%nat → f j = None) → (0 < NPROC)%nat →
  for_ret (seq 0 NPROC) body s = Ret None (settled s).
Proof.
  intros Hf Hn. rewrite <- (app_nil_r (seq 0 NPROC)).
  rewrite search_skip; [done|lia|by left|intros; apply Hf; lia|done].
Qed.

End search.

(** The index of the first process whose pid is [pid]. *)
Definition has_pid {V} (s : kstate V) (pid : Z) (i : nat) : Prop :=
  (∃ p, k_procs s !! i = Some p ∧ p_pid p = pid) ∧
  ∀ j q, (j < i)%nat → k_procs s !! j = Some q → p_pid q ≠ pid.

Definition pid_result {V A} (s : kstate V) (pid : Z) (r : proc → A) (i : nat) : option A :=
  match k_procs s !! i with
  | Some p => if p_pid p =? pid then Some (r p) else None
  | None => None
  end.

Lemma has_pid_result {V A} (s : kstate V) pid (r : proc → A) i p :
  has_pid s pid i → k_procs s !! i = Some p →
  pid_result s pid r i = Some (r p) ∧ ∀ j, (j < i)%nat → pid_result s pid r j = None.
Proof.
  intros [(p' & Hp' & Hpid) Hb] Hp. assert (p' = p) as -> by congruence.
  unfold pid_result. rewrite Hp, Hpid, Z.eqb_refl. split; [done|]. intros j Hj.
  destruct (k_procs s !! j) as [q|] eqn:Hq; [|done].
  by rewrite (proj2 (Z.eqb_neq _ _) (Hb j q Hj Hq)).
Qed.

Lemma no_pid_result {V A} (s : kstate V) pid (r : proc → A) :
  (∀ q, q ∈ k_procs s → p_pid q ≠ pid) → ∀ j, pid_result s pid r j = None.
Proof.
  intros Hn j. unfold pid_result. destruct (k_procs s !! j) as [q|] eqn:Hq; [|done].
  by rewrite (proj2 (Z.eqb_neq _ _) (Hn q (list_elem_of_lookup_2 _ _ _ Hq))).
Qed.

Lemma NPROC_pos : (0 < NPROC)%nat.
Proof. pose proof NPROC_val. lia. Qed.

Lemma visited_state {V} (s s0 : kstate V) i :
  at_rest s → (i < NPROC)%nat → s0 = s ∨ s0 = settled s →
  hart_ok (k_mach s0) ∧ free (LkProc i) (k_mach s0) ∧ k_procs s0 = k_procs s ∧ settled s0 = settled s.
Proof.
  intros (Hok & Hf & _) Hi [->| ->]; split_and!; eauto using settled_settled.
  by apply hart_ok_settle.
Qed.

(** C22. kill marks the first table entry with the given pid as killed, makes it
    RUNNABLE when it sleeps and returns 0, and returns -1 with nothing changed when
    no entry has the pid; it changes neither the MLFQ queues nor the ready time of a
    process it wakes. *)
Theorem kill_marks {V} (pid : Z) (s : kstate V) :
  at_rest s →
  (∀ i p, has_pid s pid i → k_procs s !! i = Some p →
     kill pid s = Ret 0 (settled (put_proc i (killed_proc p) s))) ∧
  ((∀ q, q ∈ k_procs s → p_pid q ≠ pid) → kill pid s = Ret (-1) (settled s)).
Proof.
  intros Hrest. pose proof Hrest as (_ & _ & Hl).
  assert (∀ i s0, (i < NPROC)%nat → s0 = s ∨ s0 = settled s →
    kill_visit pid i s0 = match pid_result s pid (fun _ => 0) i with
      | Some a => Ret (Some a) (settled (match k_procs s !! i with
                    Some p => put_proc i (killed_proc p) s | None => s end))
      | None => Ret None (settled s) end) as Hbody.
  { intros i s0 Hi Hs0.
    destruct (visited_state s s0 i Hrest Hi Hs0) as (Hok & Hf & Eps & Es).
    destruct (lookup_lt_is_Some_2 (k_procs s) i) as [p Hp]; [lia|].
    rewrite (kill_visit_run pid i p) by (done || by rewrite Eps).
    unfold pid_result. rewrite Hp. destruct (p_pid p =? pid); [|by rewrite Es].
    by rewrite settled_put_proc, Es. }
  unfold kill. split.
  - intros i p Hpid Hp. destruct (has_pid_result s pid (fun _ => 0) i p Hpid Hp) as [H1 H2].
    erewrite bind_Ret; [|eapply (search_found _ _ _ _ Hbody i); [|exact H1|exact H2]].
    + simpl. by rewrite Hp.
    + apply lookup_lt_Some in Hp. lia.
  - intros Hn. pose proof (no_pid_result s pid (fun _ => 0) Hn) as H1.
    erewrite bind_Ret; [|eapply (search_none _ _ _ _ Hbody); [by intros|apply NPROC_pos]]. done.
Qed.

(** No process has pid 0, so [kill(0)] marks an unused entry. *)
Lemma kill_marks_witness :
  kill 0 (boot SCHED_RR 0) =
    Ret 0 (settled (put_proc 0 (proc0 <| p_killed := 1 |>) (boot SCHED_RR 0))).
Proof.
  apply (proj1 (kill_marks 0 (boot SCHED_RR 0) (boot_at_rest tt _ _)) 0%nat proc0).
  - split; [|intros j q Hj; lia]. exists proc0. split; [|reflexivity].
    apply (boot_lookup tt), NPROC_pos.
  - apply (boot_lookup tt), NPROC_pos.
Defined.
