(* ===== verification/Policies.v ===== *)
(** What each scheduling policy of kernel/proc.c chooses: one turn of
    [scheduler] under FCFS, priority, HRRN, round robin and MLFQ. *)

From Stdlib Require Import FunctionalExtensionality Sorted.
From stdpp Require Import base gmap strings numbers list.
From S2P Require Import Prelude Spinlock Kstate Mlfq Sched MlfqSched Boot Switch.
Local Open Scope Z_scope.

Section policies.
Context {V : Type}.
Implicit Types s : kstate V.

(** Process [i] waits for the hart. *)
Definition waits s (i : nat) : Prop := run_of (k_procs s) i = true.

Lemma waits_iff s i : waits s i ↔ ∃ p, k_procs s !! i = Some p ∧ p_state p = RUNNABLE.
Proof.
  unfold waits, run_of. destruct (k_procs s !! i) as [p|]; unfold runnable.
  - rewrite bool_decide_eq_true. split; [by exists p|]. by intros (? & [= ->] & ?).
  - split; [done|]. by intros (? & ? & _).
Qed.

(** ** One turn of a scanning policy *)

(** The turn enters process [i], which holds [P], or enters nobody. *)
Definition dispatches (P : nat → proc → Prop) (r : res (kstate V) unit) s : Prop :=
  ∃ i p k, k_procs s !! i = Some p ∧ P i p ∧
    r = Swtch (ToProc i) (dispatched i (dispatch (k_ticks s) p) s) k ∧
    ∀ s', k s' = resume i s'.

Definition idles (r : res (kstate V) unit) s : Prop :=
  ∃ m', r = Ret tt (on_mach m' s).

Lemma scan_policy ok better scan s :
  sched_ready s → WeakOrder ok better (k_procs s) →
  (∀ s1, at_rest s1 → k_procs s1 = k_procs s → k_ticks s1 = k_ticks s →
     let o := best ok better (k_procs s1) (seq 0 NPROC) None in
     ∃ m', scan s1 = Ret o (on_mach m' s1) ∧ scan_mach (k_mach s1) o m') →
  let r := (chosen ← scan; match chosen with Some i => run_chosen i | None => intr_on end)
             (on_mach (intr_enabled (k_mach s)) s) in
  dispatches (fun i p => is_best ok better (k_procs s) NPROC (Some i)) r s ∨
  (is_best ok better (k_procs s) NPROC None ∧ idles r s).
Proof.
  intros Hs W Hscan r. pose proof (sched_ready_intr s Hs) as Hs1.
  set (s1 := on_mach (intr_enabled (k_mach s)) s) in *.
  pose proof (scan_round ok better scan s1 Hs1) as Hr.
  specialize (Hr (Hscan s1 (proj1 Hs1) eq_refl eq_refl) W).
  destruct Hs as [(_ & _ & Hl) _].
  pose proof (best_is_best ok better (k_procs s) NPROC W ltac:(lia)) as Hb.
  change (k_procs s1) with (k_procs s) in Hr.
  destruct (best ok better (k_procs s) (seq 0 NPROC) None) as [i|].
  - destruct Hr as (p & k & Hp & Hr & Hk). left. by exists i, p, k.
  - destruct Hr as (m' & Hr). right. split; [done|]. by exists m'.
Qed.

End policies.

Lemma is_best_all ok better procs i :
  is_best ok better procs (length procs) (Some i) →
  ∀ p, procs !! i = Some p →
  ok p = true ∧
  ∀ j q, procs !! j = Some q → ok q = true →
    better q p = false ∧ ((j < i)%nat → better p q = true).
Proof.
  intros (Hi & pc & Hpc & Hok & Hb) p Hp. assert (pc = p) as -> by congruence.
  split; [done|]. intros j q Hq Hokq. apply Hb; [|done..]. by eapply lookup_lt_Some.
Qed.

Lemma is_best_none ok better procs :
  is_best ok better procs (length procs) None → ∀ q, q ∈ procs → ok q = false.
Proof.
  intros Hb q [j Hj]%list_elem_of_lookup. apply (Hb j); [|done]. by eapply lookup_lt_Some.
Qed.

(** C3. A FCFS turn enters the RUNNABLE process with the smallest arrival time (as
    uint), the first of the table among equals, and enters nobody only when every
    RUNNABLE process has the arrival time 0xffffffff, which the comparison with
    (uint)-1 skips. *)
Theorem fcfs_first_come {V} (s : kstate V) :
  sched_ready s → k_policy s = SCHED_FCFS →
  dispatches (fun i p =>
      p_state p = RUNNABLE ∧
      ∀ j q, k_procs s !! j = Some q → p_state q = RUNNABLE →
        uint (p_arrival_time p) <= uint (p_arrival_time q) ∧
        ((j < i)%nat → uint (p_arrival_time p) < uint (p_arrival_time q)))
    (scheduler_round s) s ∨
  ((∀ q, q ∈ k_procs s → p_state q = RUNNABLE → uint (p_arrival_time q) = 2 ^ 32 - 1) ∧
   idles (scheduler_round s) s).
Proof.
  intros Hs Hpol. pose proof Hs as [(_ & _ & Hl) (c & Hc & _)].
  erewrite round_policy; [|exact Hc|rewrite Hpol; reflexivity]. simpl.
  destruct (scan_policy fcfs_ok fcfs_better fcfs_scan s Hs (fcfs_order _)) as
    [(i & p & k & Hp & Hb & Hr)|[Hb Hr]].
  { intros s1 Hs1 _ _. by apply fcfs_scan_run. }
  - left. exists i, p, k. split; [done|]. split; [|done]. rewrite <- Hl in Hb.
    destruct (is_best_all _ _ _ _ Hb p Hp) as [Hok Hmin].
    unfold fcfs_ok, runnable in Hok. apply andb_true_iff in Hok as [Hrun Hlt].
    apply bool_decide_eq_true in Hrun. split; [done|]. intros j q Hq Hrq.
    destruct (fcfs_ok q) eqn:Eq.
    + destruct (Hmin j q Hq Eq) as [H1 H2]. unfold fcfs_better in *. split; [lia|].
      intros Hj%H2. lia.
    + unfold fcfs_ok, runnable in Eq. rewrite bool_decide_eq_true_2 in Eq by done.
      simpl in Eq. pose proof (uint_range (p_arrival_time q)). lia.
  - right. split; [|done]. rewrite <- Hl in Hb. intros q Hq Hrq.
    pose proof (is_best_none _ _ _ Hb q Hq) as Eq. unfold fcfs_ok, runnable in Eq.
    rewrite bool_decide_eq_true_2 in Eq by done. simpl in Eq.
    pose proof (uint_range (p_arrival_time q)). change (uint (-1)) with (2 ^ 32 - 1) in Eq. lia.
Qed.

(** Two runnable processes that arrived at ticks 20 and 10. *)
Definition ex_fcfs : kstate unit :=
  two SCHED_FCFS 30 ((a_proc 1 RUNNABLE) <| p_arrival_time := 20 |>)
    ((a_proc 2 RUNNABLE) <| p_arrival_time := 10 |>).

Lemma fcfs_first_come_witness :
  sched_ready ex_fcfs ∧ ∃ s1 k, scheduler_round ex_fcfs = Swtch (ToProc 1) s1 k.
Proof.
  split; [apply two_ready|].
  destruct (fcfs_first_come ex_fcfs) as [(i & p & k & Hp & [Hr Hmin] & Hs & _)|[Hn _]];
    [apply two_ready|reflexivity|..].
  - destruct (two_runnable _ _ _ _ _ _ Hp Hr) as [[-> ->]|[-> ->]]; [|by eexists _, _].
    destruct (Hmin 1%nat _ (two_1 _ _ _ _) eq_refl) as [H1 _]. exfalso. by apply H1.
  - specialize (Hn _ (list_elem_of_lookup_2 _ _ _ (two_1 _ _ _ _)) eq_refl).
    vm_compute in Hn. discriminate Hn.
Defined.

(** C4. A priority turn enters the RUNNABLE process with the smallest priority
    number, the first of the table among equals, and enters nobody only when no
    process is RUNNABLE. *)
Theorem priority_lowest_number {V} (s : kstate V) :
  sched_ready s → k_policy s = SCHED_PRIORITY →
  dispatches (fun i p =>
      p_state p = RUNNABLE ∧
      ∀ j q, k_procs s !! j = Some q → p_state q = RUNNABLE →
        p_priority p <= p_priority q ∧ ((j < i)%nat → p_priority p < p_priority q))
    (scheduler_round s) s ∨
  ((∀ q, q ∈ k_procs s → p_state q ≠ RUNNABLE) ∧ idles (scheduler_round s) s).
Proof.
  intros Hs Hpol. pose proof Hs as [(_ & _ & Hl) (c & Hc & _)].
  erewrite round_policy; [|exact Hc|rewrite Hpol; reflexivity]. simpl.
  destruct (scan_policy runnable priority_better priority_scan s Hs (priority_order _)) as
    [(i & p & k & Hp & Hb & Hr)|[Hb Hr]].
  { intros s1 Hs1 _ _. by apply priority_scan_run. }
  - left. exists i, p, k. split; [done|]. split; [|done]. rewrite <- Hl in Hb.
    destruct (is_best_all _ _ _ _ Hb p Hp) as [Hok Hmin].
    split; [by apply bool_decide_eq_true in Hok|]. intros j q Hq Hrq.
    destruct (Hmin j q Hq) as [H1 H2]; [by apply bool_decide_eq_true|].
    unfold priority_better in *. split; [lia|]. intros Hj%H2. lia.
  - right. split; [|done]. rewrite <- Hl in Hb. intros q Hq Hrq.
    pose proof (is_best_none _ _ _ Hb q Hq) as Eq. unfold runnable in Eq.
    by apply bool_decide_eq_false in Eq.
Qed.

Definition ex_priority : kstate unit :=
  two SCHED_PRIORITY 30 ((a_proc 1 RUNNABLE) <| p_priority := 10 |>)
    ((a_proc 2 RUNNABLE) <| p_priority := 5 |>).

Lemma priority_lowest_number_witness :
  sched_ready ex_priority ∧ ∃ i s1 k, scheduler_round ex_priority = Swtch (ToProc i) s1 k.
Proof.
  split; [apply two_ready|].
  destruct (priority_lowest_number ex_priority) as [(i & p & k & Hp & _ & Hs & _)|[Hn _]];
    [apply two_ready|reflexivity|by eexists _, _, _|].
  by specialize (Hn _ (list_elem_of_lookup_2 _ _ _ (two_1 _ _ _ _))).
Defined.

(** C5. An HRRN turn enters a RUNNABLE process whose response ratio (wait + service)
    / service is the highest, compared exactly by cross multiplication as long as
    the products fit an int, the first of the table among equals, and records its
    start; it enters nobody only when no process is RUNNABLE. *)
Theorem hrrn_highest_ratio {V} (s : kstate V) :
  sched_ready s → k_policy s = SCHED_HRRN → hrrn_fits (k_ticks s) (k_procs s) →
  let ratio p := response_ratio (k_ticks s) p in
  (∃ i p k, k_procs s !! i = Some p ∧ p_state p = RUNNABLE ∧
     (∀ j q, k_procs s !! j = Some q → p_state q = RUNNABLE →
        (ratio q).1 * (ratio p).2 <= (ratio p).1 * (ratio q).2 ∧
        ((j < i)%nat → (ratio q).1 * (ratio p).2 < (ratio p).1 * (ratio q).2)) ∧
     scheduler_round s =
       Swtch (ToProc i) (dispatched i (hrrn_dispatch (k_ticks s) p) s) k ∧
     ∀ s', k s' = hrrn_resume i s') ∨
  ((∀ q, q ∈ k_procs s → p_state q ≠ RUNNABLE) ∧ idles (scheduler_round s) s).
Proof.
  intros Hs Hpol Hfit ratio. pose proof Hs as [(_ & _ & Hl) (c & Hc & _)].
  erewrite round_policy; [|exact Hc|rewrite Hpol; reflexivity]. simpl.
  pose proof (sched_ready_intr s Hs) as [Hs1 (c1 & Hc1 & _)].
  set (s1 := on_mach (intr_enabled (k_mach s)) s) in *.
  destruct (hrrn_scan_run s1 Hs1) as (m' & Hr & Hm).
  change (k_procs s1) with (k_procs s) in Hr, Hm.
  change (k_ticks s1) with (k_ticks s) in Hr, Hm.
  pose proof (hrrn_order _ _ Hfit) as W.
  pose proof (best_is_best runnable (hrrn_better (k_ticks s)) (k_procs s) NPROC W
    ltac:(lia)) as Hb. rewrite <- Hl in Hb at 1.
  unfold sched_hrrn. erewrite bind_Ret; [|exact Hr]. cbv beta iota.
  destruct (best runnable (hrrn_better (k_ticks s)) (k_procs s) (seq 0 NPROC) None) as [i|].
  - left. pose proof Hb as (Hi & p & Hp & _). simpl in Hm. subst m'.
    destruct (is_best_all _ _ _ _ Hb p Hp) as [Hok Hmax].
    destruct (hrrn_enter_run i p (on_mach (held (LkProc i) (k_mach s1)) s1) (k_mach s1) c1)
      as (k & Hk & Hres); [done..|].
    exists i, p, k. split; [done|]. split; [by apply bool_decide_eq_true in Hok|].
    split; [|by split]. intros j q Hq Hrq. apply (bool_decide_eq_true_2 _) in Hrq.
    destruct (Hmax j q Hq Hrq) as [H1 H2].
    rewrite <- not_true_iff_false in H1.
    rewrite (hrrn_better_iff _ _ _ _ Hfit) in H1; eauto using list_elem_of_lookup_2.
    rewrite (hrrn_better_iff _ _ _ _ Hfit) in H2; eauto using list_elem_of_lookup_2.
    split; [|done]. by apply Z.nlt_ge.
  - right. split.
    + intros q Hq Hrq. pose proof (is_best_none _ _ _ Hb q Hq) as Eq.
      by apply bool_decide_eq_false in Eq.
    + destruct (scan_mach_ok (k_mach s1) (proj1 Hs1) None m' Hm) as (c' & Hc' & _).
      exists (intr_enabled m'). by erewrite intr_on_run.
Qed.

(** Both processes wait; the second ran for 5 ticks the last time. *)
Definition ex_hrrn : kstate unit :=
  two SCHED_HRRN 30 ((a_proc 1 RUNNABLE) <| p_arrival_time := 20 |>)
    ((a_proc 2 RUNNABLE) <| p_arrival_time := 10 |> <| p_last_runtime := 5 |>).

Lemma ex_hrrn_fits : hrrn_fits (k_ticks ex_hrrn) (k_procs ex_hrrn).
Proof.
  intros p q Hp Hq Hrp Hrq.
  destruct (two_in _ _ _ _ _ Hp) as [->|[->| ->]]; [| |done];
    (destruct (two_in _ _ _ _ _ Hq) as [->|[->| ->]]; [| |done]);
    vm_compute; split; done.
Qed.

Lemma hrrn_highest_ratio_witness :
  sched_ready ex_hrrn ∧ ∃ i s1 k, scheduler_round ex_hrrn = Swtch (ToProc i) s1 k.
Proof.
  split; [apply two_ready|].
  destruct (hrrn_highest_ratio ex_hrrn) as [(i & p & k & _ & _ & _ & Hs & _)|[Hn _]];
    [apply two_ready|reflexivity|apply ex_hrrn_fits|by eexists _, _, _|].
  by specialize (Hn _ (list_elem_of_lookup_2 _ _ _ (two_1 _ _ _ _))).
Defined.

(** ** Round robin *)

Section rr.
Context {V : Type}.
Implicit Types s : kstate V.

(** The rest of a pass, from process [j] on. *)
Definition rr_from (j : nat) (found : bool) : M (kstate V) unit :=
  found ← for_acc (seq j (NPROC - j)) rr_visit found;
  if found : bool then mret tt else intr_on.

Lemma sched_rr_from s : sched_rr s = rr_from 0 false s.
Proof. unfold sched_rr, rr_from. by rewrite Nat.sub_0_r. Qed.

(** A state of the pass: the hart is in the scheduler with interrupts on or off. *)
Lemma rr_skip j found p s :
  sched_ready s → (j < NPROC)%nat → k_procs s !! j = Some p → p_state p ≠ RUNNABLE →
  rr_from j found s = rr_from (S j) found (settled s).
Proof.
  intros [(Hok & Hf & Hl) _] Hj Hp Hr. unfold rr_from.
  replace (NPROC - j)%nat with (S (NPROC - S j)) by lia. cbn [seq for_acc].
  rewrite bind_run. erewrite bind_Ret; [done|]. unfold rr_visit.
  erewrite bind_Ret; [|by apply acquire_lock; [|apply Hf]].
  erewrite bind_Ret; [|by apply get_proc_run]. rewrite decide_False by done.
  erewrite bind_Ret; [|by apply release_lock; [|apply Hf]]. done.
Qed.

(** The pass enters a runnable process, and goes on behind it. *)
Lemma rr_enter j found p s :
  sched_ready s → (j < NPROC)%nat → k_procs s !! j = Some p → p_state p = RUNNABLE →
  ∃ s1 k, rr_from j found s = Swtch (ToProc j) s1 k ∧ handover j s1 ∧
    k_procs s1 = <[j := dispatch (k_ticks s) p]> (k_procs s) ∧
    ∀ s', k s' = (resume j ;; rr_from (S j) true) s'.
Proof.
  intros [(Hok & Hf & Hl) (c & Hc & Hn)] Hj Hp Hr. unfold rr_from at 1.
  replace (NPROC - j)%nat with (S (NPROC - S j)) by lia. cbn [seq for_acc].
  set (s0 := with_lock (LkProc j) s).
  assert (cpus (k_mach s0) !! tp (k_mach s0) = Some (cpu_push c)) as Hc0.
  { simpl. by rewrite list_lookup_alter_eq, Hc. }
  assert (∀ {B} (f : unit → M (kstate V) B),
    (record_wait j ;; upd_proc j (fun p => p <| p_state := RUNNING |>) ;;
     x ← set_cpu_proc (Some j); f x) s0 =
    f tt (on_mach (cpu_runs (Some j) (k_mach s0)) (put_proc j (dispatch (k_ticks s) p) s0))) as Hmark.
  { intros B f. erewrite bind_Ret; [|by eapply record_wait_run].
    erewrite bind_Ret; [|eapply upd_proc_put; by eapply lookup_put_proc].
    rewrite put_proc_put_proc. by erewrite bind_Ret; [|by eapply upd_mycpu_mach]. }
  eexists _, _. split; [|split; [|split]].
  - rewrite !bind_run. unfold rr_visit. erewrite bind_Ret; [|by apply acquire_lock; [|apply Hf]].
    erewrite bind_Ret; [|by apply get_proc_run]. rewrite decide_True by done.
    rewrite Hmark. reflexivity.
  - split; [|split; [|split; [|split; [done|]]]].
    + exists ((cpu_push c) <| c_proc := Some j |>). simpl in *.
      rewrite !list_lookup_alter_eq, Hc. simpl. by rewrite Hn.
    + destruct (Hf j Hj) as [n Hfj]. exists n. simpl. by rewrite lookup_alter_eq, Hfj.
    + intros i Hi Hne. destruct (Hf i Hi) as [n Hfi]. exists n. simpl.
      rewrite lookup_alter_ne; [done|]. by intros [= ->].
    + simpl. by rewrite length_insert.
  - done.
  - intros s'. unfold resume, rr_from. rewrite !bind_run, !res_bind_assoc. f_equal.
    apply functional_extensionality. intros []. apply functional_extensionality. intros s2.
    rewrite (bind_run (release (LkProc j))), res_bind_assoc. reflexivity.
Qed.

Lemma sched_ready_settled s : sched_ready s → sched_ready (settled s).
Proof.
  intros [Hr (c & Hc & Hn)]. split; [by apply at_rest_settled|]. exists (cpu_settle c).
  split; [simpl; by rewrite list_lookup_alter_eq, Hc|]. unfold cpu_settle. by rewrite Hn.
Qed.

(** From [j] on, the pass enters every process that is runnable now, each at
    most once and in table order, and comes to its end. *)
Lemma rr_from_drive env m j found s :
  env_ok env → (j + m = NPROC)%nat → sched_ready s →
  ∃ t s', drive env (rr_from j found s) = (t, Some (tt, s')) ∧ sched_ready s' ∧
    StronglySorted lt t ∧ (∀ i, i ∈ t → (j <= i)%nat) ∧
    ∀ i p, (j <= i)%nat → k_procs s !! i = Some p → p_state p = RUNNABLE → i ∈ t.
Proof.
  intros Henv. revert j found s. induction m as [|m IH]; intros j found s Hjm Hs.
  - assert (j = NPROC) as -> by lia. unfold rr_from. rewrite Nat.sub_diag. simpl.
    assert (∃ s', (if found then mret tt else intr_on) s = Ret tt s' ∧ sched_ready s') as (s' & Hr & Hs').
    { destruct found; [by exists s|]. pose proof Hs as [_ (c & Hc & _)].
      eexists. split; [by eapply intr_on_run|]. by apply sched_ready_intr. }
    exists [], s'. rewrite bind_run. simpl. rewrite Hr. simpl. split_and!; [done|done| | |].
    + constructor.
    + by intros i ?%elem_of_nil.
    + intros i p Hi Hp%lookup_lt_Some. destruct Hs as [(_ & _ & Hl) _]. lia.
  - destruct (at_rest_proc s j) as [p Hp]; [apply Hs|lia|].
    destruct (decide (p_state p = RUNNABLE)) as [Hr|Hr].
    + destruct (rr_enter j found p s) as (s1 & k & -> & Hho & Hps & Hk); [done|lia|done..|].
      destruct (Henv j s1 Hho) as [Hho2 Hkeep]. destruct (resume_run j _ Hho2) as [Hres Hready].
      destruct (IH (S j) true _ ltac:(lia) Hready) as (t & s' & Hd & Hs' & Hso & Hge & Hin).
      exists (j :: t), s'. simpl. rewrite Hk, bind_run, Hres. simpl. rewrite Hd.
      split_and!; [done|done| | |].
      * constructor; [done|]. apply Forall_forall. intros i Hi. specialize (Hge i Hi). lia.
      * intros i [->|Hi%Hge]%elem_of_cons; lia.
      * intros i pi Hi Hpi Hri. destruct (decide (i = j)) as [->|Hne]; [by left|right].
        destruct (Hkeep i pi Hne) as (p' & Hp' & Hr'); [by rewrite Hps, list_lookup_insert_ne|done|].
        apply (Hin i p'); [lia|done|done].
    + rewrite (rr_skip j found p) by (done || lia).
      destruct (IH (S j) found _ ltac:(lia) (sched_ready_settled s Hs))
        as (t & s' & Hd & Hs' & Hso & Hge & Hin).
      exists t, s'. split_and!; [done..| |].
      * intros i Hi%Hge. lia.
      * intros i pi Hi Hpi Hri. destruct (decide (i = j)) as [->|Hne]; [congruence|].
        apply (Hin i pi); [lia|done|done].
Qed.

End rr.

(** C2. One round-robin turn runs to its end and enters every process that is
    RUNNABLE at its start exactly once, in table order, whatever the processes do
    while they run, as long as each gives the hart back with its own lock held and
    leaves RUNNABLE processes RUNNABLE. *)
Theorem rr_fair {V} (s : kstate V) (env : nat → kstate V → kstate V) :
  sched_ready s → k_policy s = SCHED_RR → env_ok env →
  ∃ t s', drive env (scheduler_round s) = (t, Some (tt, s')) ∧ sched_ready s' ∧
    StronglySorted lt t ∧
    ∀ i, waits s i → i ∈ t.
Proof.
  intros Hs Hpol Henv. pose proof Hs as [_ (c & Hc & _)].
  erewrite round_policy; [|exact Hc|rewrite Hpol; reflexivity]. simpl. rewrite sched_rr_from.
  destruct (rr_from_drive env NPROC 0 false _ Henv ltac:(lia) (sched_ready_intr s Hs))
    as (t & s' & Hd & Hs' & Hso & _ & Hin).
  exists t, s'. split_and!; [done..|]. intros i (p & Hp & Hr)%waits_iff.
  apply (Hin i p); [lia|done|done].
Qed.

Lemma rr_fair_witness :
  ∃ t s', drive (fun _ s => s) (scheduler_round (two SCHED_RR 0 (a_proc 1 RUNNABLE) (a_proc 2 RUNNABLE)))
            = (t, Some (tt, s')) ∧ 0%nat ∈ t ∧ 1%nat ∈ t.
Proof.
  destruct (rr_fair (two SCHED_RR 0 (a_proc 1 RUNNABLE) (a_proc 2 RUNNABLE)) (fun _ s => s))
    as (t & s' & Hd & _ & _ & Hin); [apply two_ready|reflexivity| |].
  - intros i s Hs. split; [done|]. intros j p _ Hp Hr. by exists p.
  - exists t, s'. split; [done|]. split.
    + apply Hin, waits_iff. eexists. split; [apply two_0|done].
    + apply Hin, waits_iff. eexists. split; [apply two_1|done].
Defined.

(** ** Multi-level feedback queue *)

Section mlfq.
Context {V : Type}.
Implicit Types (s : kstate V) (q : queues).

Lemma not_waits s i : run_of (k_procs s) i = false ↔ ¬ waits s i.
Proof. unfold waits. by destruct (run_of _ _). Qed.

Lemma q_remove_middle lv l1 i l2 q :
  i ∉ l1 → q !! lv = Some (l1 ++ i :: l2) → q_remove lv i q = <[lv := l1 ++ l2]> q.
Proof.
  intros Hn Hq. unfold q_remove. apply list_eq. intros k.
  destruct (decide (k = lv)) as [->|].
  - rewrite list_lookup_alter_eq, Hq. simpl.
    rewrite list_lookup_insert_eq by (by eapply lookup_lt_Some). f_equal.
    clear Hq. induction l1 as [|j l1 IH]; simpl; [by rewrite decide_True|].
    apply not_elem_of_cons in Hn as [Hne Hn]. rewrite decide_False by congruence. by rewrite IH.
  - by rewrite list_lookup_alter_ne, list_lookup_insert_ne.
Qed.

(** The choice of a turn from the queues [q0], in terms of their entries. *)
Definition first_waiting s q0 (lv : nat) (l1 : list nat) (i : nat) (l2 : list nat) : Prop :=
  q0 !! lv = Some (l1 ++ i :: l2) ∧ waits s i ∧ (∀ j, j ∈ l1 → ¬ waits s j) ∧
  ∀ lv' l' j, (lv' < lv)%nat → q0 !! lv' = Some l' → j ∈ l' → ¬ waits s j.

Lemma pick_first_waiting s q0 lv i :
  pick (run_of (k_procs s)) 0 q0 = Some (lv, i) →
  ∃ l1 l2, first_waiting s q0 lv l1 i l2 ∧ q_remove lv i q0 = <[lv := l1 ++ l2]> q0.
Proof.
  intros (k & l & -> & Hk & Hf & Hb)%pick_Some. simpl.
  apply first_run_Some in Hf as (l1 & l2 & -> & Hi & Hl1). exists l1, l2. split.
  - split_and!; [done|done|intros j Hj; by apply not_waits, Hl1|].
    intros lv' l' j Hlt Hl' Hj. apply not_waits.
    pose proof (proj1 (first_run_None _ _) (Hb lv' l' Hlt Hl')) as H. by apply H.
  - apply q_remove_middle; [|done]. intros Hin. rewrite (Hl1 i Hin) in Hi. done.
Qed.

(** The levels after a refill: the runnable processes of each level in table order. *)
Definition refilled s : queues :=
  (fun lv => filter (fun i => in_level (k_procs s) lv i = true) (seq 0 NPROC))
    <$> seq 0 QUEUE_LEVELS.

Lemma refill_refilled s q :
  levels_ok (k_procs s) → queues_wf q → queues_wf (refill (k_procs s) (seq 0 NPROC) q) →
  concat q = [] → refill (k_procs s) (seq 0 NPROC) q = refilled s.
Proof.
  intros Hlv [Hl _] [Hl' _] He.
  assert (q = replicate QUEUE_LEVELS []) as ->.
  { clear Hl'. destruct q as [|l0 [|l1 [|l2 [|]]]]; try done. simpl in He.
    apply app_eq_nil in He as [-> He]. apply app_eq_nil in He as [-> He].
    by apply app_eq_nil in He as [-> _]. }
  apply list_eq. intros lv. unfold refilled. destruct (decide (lv < QUEUE_LEVELS)%nat) as [Hlt|].
  - rewrite (refill_empty (k_procs s) NPROC lv Hlv Hlt).
    rewrite list_lookup_fmap. rewrite (lookup_seq_lt 0 QUEUE_LEVELS lv Hlt). reflexivity.
  - rewrite !lookup_ge_None_2; [reflexivity|..]; rewrite ?length_fmap, ?length_seq; lia.
Qed.

Lemma waits_refilled s i :
  levels_ok (k_procs s) → length (k_procs s) = NPROC → waits s i → ∃ l, l ∈ refilled s ∧ i ∈ l.
Proof.
  intros Hlv Hl (p & Hp & Hr)%waits_iff.
  pose proof (Hlv p (list_elem_of_lookup_2 _ _ _ Hp)) as Hpl.
  exists (filter (fun j => in_level (k_procs s) (Z.to_nat (p_queue_level p)) j = true) (seq 0 NPROC)).
  split.
  - unfold refilled. apply list_elem_of_fmap. eexists. split; [reflexivity|].
    apply elem_of_seq. lia.
  - apply list_elem_of_filter. split.
    + unfold in_level. rewrite Hp. unfold runnable. rewrite bool_decide_eq_true_2 by done.
      simpl. apply Z.eqb_eq. lia.
    + apply elem_of_seq. apply lookup_lt_Some in Hp. lia.
Qed.

(** A turn that finds nobody leaves the scheduler as it was. *)
Lemma idle_turn s q :
  sched_ready s → k_policy s = SCHED_MLFQ → mlfq_inv s q → concat q ≠ [] →
  (∀ l j, l ∈ q → j ∈ l → ¬ waits s j) →
  ∃ s1, scheduler_round s = Ret tt s1 ∧ k_procs s1 = k_procs s ∧ sched_ready s1 ∧
    k_policy s1 = SCHED_MLFQ ∧ mlfq_inv s1 q.
Proof.
  intros Hs Hpol (Hlk & Hlv & Habs & Hwf) Hne Hnone.
  pose proof (sched_mlfq_run s q Hs Hpol Hlk Hlv Habs Hwf) as Hturn. unfold mlfq_turn in Hturn.
  unfold queues_at_choice, procs_at_choice in Hturn. rewrite !decide_False in Hturn by done.
  rewrite (proj2 (pick_None _ 0 q)) in Hturn by (intros; apply not_waits; eauto).
  destruct Hturn as (s1 & Hr & Hps & Hq & Hm & Hp & Ht). exists s1.
  split; [done|]. split; [done|].
  assert (sched_ready s1 ∧ free mlfq_lock (k_mach s1)) as [Hs1 Hf1].
  { assert (s1 = on_mach (k_mach s1) s1) as Es by (by destruct s1).
    pose proof (sched_ready_intr s Hs) as Hs2.
    assert (∀ m, k_mach s1 = m → sched_ready (on_mach m s) → sched_ready s1) as Hgo.
    { intros m Em [(H1 & H2 & H3) H4]. rewrite <- Em in H1, H2, H4.
      split; [split; [exact H1|]; split; [exact H2|by rewrite Hps]|exact H4]. }
    destruct Hm as [Em|Em].
    - split; [by apply (Hgo _ Em)|by rewrite Em].
    - split; [|by rewrite Em]. apply (Hgo _ Em).
      exact (sched_ready_intr _ (sched_ready_settled _ Hs2)). }
  split; [done|]. split; [by rewrite Hp|]. split; [done|]. unfold mlfq_data. by rewrite Hps.
Qed.

End mlfq.

(** C1. Under MLFQ with non-empty queues, a turn of the scheduler enters the first
    RUNNABLE entry of the lowest-numbered level that has one, takes exactly that
    entry out of its queue and marks the process RUNNING with its waiting time; when
    no queued process is RUNNABLE the turn changes neither table nor queues. *)
Theorem mlfq_serves_first {V} (s : kstate V) (q : queues) :
  sched_ready s → k_policy s = SCHED_MLFQ → mlfq_inv s q → concat q ≠ [] →
  (∃ lv l1 i l2 p s1 k,
     first_waiting s q lv l1 i l2 ∧ k_procs s !! i = Some p ∧
     scheduler_round s = Swtch (ToProc i) s1 k ∧
     k_procs s1 = <[i := dispatch (k_ticks s) p]> (k_procs s) ∧
     mlfq_abs s1 (<[lv := l1 ++ l2]> q) ∧ ∀ s', k s' = resume i s') ∨
  ((∀ l j, l ∈ q → j ∈ l → ¬ waits s j) ∧
   ∃ s1, scheduler_round s = Ret tt s1 ∧ k_procs s1 = k_procs s ∧ mlfq_abs s1 q).
Proof.
  intros Hs Hpol (Hlk & Hlv & Habs & Hwf) Hne.
  pose proof (sched_mlfq_run s q Hs Hpol Hlk Hlv Habs Hwf) as Hturn. unfold mlfq_turn in Hturn.
  unfold queues_at_choice, procs_at_choice in Hturn. rewrite decide_False in Hturn by done.
  rewrite decide_False in Hturn by done.
  destruct (pick (run_of (k_procs s)) 0 q) as [[lv i]|] eqn:Epick.
  - left. destruct Hturn as (p & s1 & k & Hr & Hp & Hps & Hq & _ & Hk).
    destruct (pick_first_waiting s q lv i Epick) as (l1 & l2 & Hfw & Erem).
    rewrite Erem in Hq. exists lv, l1, i, l2, p, s1, k. done.
  - right. destruct Hturn as (s1 & Hr & Hps & Hq & _). split; [|by exists s1].
    intros l j Hl Hj. apply not_waits. by apply (proj1 (pick_None _ _ _) Epick l).
Qed.

(** Process 1 waits in level 0, process 0 sleeps. *)
Definition ex_mlfq : kstate unit :=
  queue_one 1 (two SCHED_MLFQ 30 (a_proc 1 SLEEPING) (a_proc 2 RUNNABLE)).

Lemma ex_mlfq_inv : mlfq_inv ex_mlfq [[1%nat]; []; []].
Proof. apply inv_queue_one; [nproc|]. by apply two_inv. Qed.

Lemma one_entry lv l1 i l2 (x : nat) :
  [[x]; []; []] !! lv = Some (l1 ++ i :: l2) → lv = 0%nat ∧ l1 = [] ∧ i = x ∧ l2 = [].
Proof.
  destruct lv as [|[|[|]]]; simpl; intros [= H]; try (by destruct l1).
  by destruct l1 as [|? [|]]; simpl in H; simplify_eq.
Qed.

Lemma mlfq_serves_first_witness :
  ∃ s1 k, scheduler_round ex_mlfq = Swtch (ToProc 1) s1 k ∧ mlfq_abs s1 [[]; []; []].
Proof.
  destruct (mlfq_serves_first ex_mlfq [[1%nat]; []; []])
    as [(lv & l1 & i & l2 & p & s1 & k & (Hl & _) & _ & Hs & _ & Hq & _)|[Hn _]];
    [apply ready_queue_one, two_ready|reflexivity|apply ex_mlfq_inv|done|..].
  - exists s1, k. destruct (one_entry _ _ _ _ _ Hl) as (-> & -> & -> & ->).
    split; [exact Hs|exact Hq].
  - exfalso. apply (Hn [1%nat] 1%nat); [by left|by left|]. apply waits_iff.
    exists (a_proc 2 RUNNABLE). split; [apply two_1|done].
Defined.

(** C14. Under MLFQ with empty queues, a turn first puts every RUNNABLE process at
    its own level in table order and resets its time slice, then enters the first of
    the lowest-numbered non-empty level; it enters nobody only when no process is
    RUNNABLE. *)
Theorem mlfq_refills {V} (s : kstate V) (q : queues) :
  sched_ready s → k_policy s = SCHED_MLFQ → mlfq_inv s q → concat q = [] →
  (∃ lv l1 i l2 p s1 k,
     first_waiting s (refilled s) lv l1 i l2 ∧ k_procs s !! i = Some p ∧
     scheduler_round s = Swtch (ToProc i) s1 k ∧
     k_procs s1 = <[i := dispatch (k_ticks s) (reset_slice p)]> (reset_slice <$> k_procs s) ∧
     mlfq_abs s1 (<[lv := l1 ++ l2]> (refilled s)) ∧ ∀ s', k s' = resume i s') ∨
  ((∀ j, ¬ waits s j) ∧ ∃ s1, scheduler_round s = Ret tt s1).
Proof.
  intros Hs Hpol (Hlk & Hlv & Habs & Hwf) He. pose proof Hs as [(_ & _ & Hl) _].
  pose proof (sched_mlfq_run s q Hs Hpol Hlk Hlv Habs Hwf) as Hturn. unfold mlfq_turn in Hturn.
  unfold queues_at_choice, procs_at_choice in Hturn. rewrite !decide_True in Hturn by done.
  rewrite refill_refilled in Hturn; [|done|done| |done].
  2: { destruct (mlfq_refill_run s q) as (_ & _ & _ & H & _); [apply Hs|done..]. }
  destruct (pick (run_of (k_procs s)) 0 (refilled s)) as [[lv i]|] eqn:Epick.
  - left. destruct Hturn as (p' & s1 & k & Hr & Hp' & Hps & Hq & _ & Hk).
    destruct (pick_first_waiting s (refilled s) lv i Epick) as (l1 & l2 & Hfw & Erem).
    rewrite Erem in Hq. rewrite list_lookup_fmap in Hp'.
    destruct (k_procs s !! i) as [p|] eqn:Hp; [|done]. simpl in Hp'. injection Hp' as <-.
    exists lv, l1, i, l2, p, s1, k. split_and!; try done.
  - right. destruct Hturn as (s1 & Hr & _). split; [|by exists s1]. intros j Hj.
    destruct (waits_refilled s j Hlv Hl Hj) as (l & Hin & Hjl).
    apply (not_waits s j); [|exact Hj]. exact (proj1 (pick_None _ _ _) Epick l j Hin Hjl).
Qed.

Lemma mlfq_refills_witness :
  ∃ i s1 k, scheduler_round (two SCHED_MLFQ 30 (a_proc 1 SLEEPING) (a_proc 2 RUNNABLE)) =
    Swtch (ToProc i) s1 k.
Proof.
  destruct (mlfq_refills (two SCHED_MLFQ 30 (a_proc 1 SLEEPING) (a_proc 2 RUNNABLE))
    (replicate QUEUE_LEVELS [])) as [(lv & l1 & i & l2 & p & s1 & k & _ & _ & Hs & _)|[Hn _]];
    [apply two_ready|reflexivity|by apply two_inv|done|by eexists _, _, _|].
  exfalso. apply (Hn 1%nat). apply waits_iff. exists (a_proc 2 RUNNABLE). split; [apply two_1|done].
Defined.
