(* ===== verification/Starve.v ===== *)
(** A process that the MLFQ scheduler of kernel/proc.c does not run.  The queues are
    refilled only when they are empty, and the entry of a process that has exited
    stays in its queue; so a process that waits for the hart and is in no queue is
    passed over, whatever wakeups the interrupts bring, until a process changes one or
    the other. *)

From stdpp Require Import base gmap strings numbers list.
From S2P Require Import Prelude Spinlock Kstate Mlfq Sched MlfqSched Boot Switch Policies.
Local Open Scope Z_scope.

(** * Queues *)

Definition queued (q : queues) (j : nat) : Prop := ∃ l, l ∈ q ∧ j ∈ l.

Lemma queued_nonempty q j : queued q j → concat q ≠ [].
Proof.
  intros (l & Hl & Hj) E. apply (in_nil (a := j)). rewrite <- E. apply in_concat. exists l.
  by rewrite <- !list_elem_of_In.
Qed.

Lemma queued_alter q j lv f :
  (∀ l, j ∈ f l → j ∈ l) → queued (alter f lv q) j → queued q j.
Proof.
  intros Hf (l & [k Hk]%list_elem_of_lookup & Hj). rewrite list_lookup_alter in Hk. case_decide.
  - apply fmap_Some in Hk as (l0 & Hk & ->). exists l0. split; [by eapply list_elem_of_lookup_2|by apply Hf].
  - exists l. split; [by eapply list_elem_of_lookup_2|done].
Qed.

Lemma alter_queued q j lv f :
  (∀ l, j ∈ l → j ∈ f l) → queued q j → queued (alter f lv q) j.
Proof.
  intros Hf (l & [k Hk]%list_elem_of_lookup & Hj). destruct (decide (lv = k)) as [->|Hne].
  - exists (f l). split; [|by apply Hf]. apply list_elem_of_lookup. exists k. by rewrite list_lookup_alter_eq, Hk.
  - exists l. split; [|done]. apply list_elem_of_lookup. exists k. by rewrite list_lookup_alter_ne.
Qed.

Lemma queued_enqueue q j lv i : j ≠ i → queued (q_enqueue lv i q) j → queued q j.
Proof.
  intros Hne. apply queued_alter. intros l [H|H]%elem_of_app; [by eapply elem_of_remove_first|].
  by apply list_elem_of_singleton in H.
Qed.

Lemma enqueue_queued q j lv i : queued q j → queued (q_enqueue lv i q) j.
Proof.
  apply alter_queued. intros l Hl. apply elem_of_app. destruct (decide (j = i)) as [->|Hne]; [right; by left|].
  left. by apply elem_of_remove_first_ne.
Qed.

(** What entering the selected processes does to the others. *)
Lemma fold_queued sel procs js q j :
  queued q j → queued (fold_left (enqueue_sel sel procs) js q) j.
Proof.
  revert q. induction js as [|i js IH]; intros q Hq; [done|]. simpl. apply IH. unfold enqueue_sel.
  destruct (procs !! i) as [p|]; [|done]. destruct (sel i p); [by apply enqueue_queued|done].
Qed.

Lemma queued_fold sel procs js q j :
  (∀ p, procs !! j = Some p → sel j p = false) → queued (fold_left (enqueue_sel sel procs) js q) j → queued q j.
Proof.
  intros Hj. revert q. induction js as [|i js IH]; intros q Hq; [done|]. simpl in Hq. apply IH in Hq.
  unfold enqueue_sel in Hq. destruct (procs !! i) as [p|] eqn:Hp; [|done]. destruct (sel i p) eqn:Hs; [|done].
  apply queued_enqueue in Hq; [done|]. intros ->. by rewrite (Hj p Hp) in Hs.
Qed.

(** * Passed over *)

Section starve.
Context {V : Type}.
Implicit Types s : kstate V.

Lemma drive_bind {A B} (env : nat → kstate V → kstate V) (r : res (kstate V) A) (f : A → M (kstate V) B) t a s :
  drive env r = (t, Some (a, s)) →
  drive env (res_bind r f) = (t ++ (drive env (f a s)).1, (drive env (f a s)).2).
Proof.
  revert t. induction r as [a' s'|?| | |tg s' k IH]; intros t; simpl; try done.
  - intros [= <- -> ->]. by destruct (drive env (f a s)).
  - destruct tg as [|i]; [done|]. destruct (drive env (k (env i s'))) as [t' o] eqn:E.
    intros [= <- ->]. by rewrite (IH _ _ E).
Qed.

Lemma resumed_inv i s q : mlfq_inv s q → mlfq_inv (on_mach (resumed i (k_mach s)) s) q.
Proof.
  intros ([n Hn] & H1 & H2 & H3). split; [|split; [exact H1|split; [|exact H3]]].
  - exists n. simpl. by rewrite lookup_alter_ne.
  - by eapply mlfq_abs_ext; [..|exact H2].
Qed.

(** A turn with entries in the queues, in terms of the invariant. *)
Lemma first_or_none s q :
  sched_ready s → k_policy s = SCHED_MLFQ → mlfq_inv s q → concat q ≠ [] →
  (∃ lv i p s1 k, queued q i ∧ waits s i ∧ k_procs s !! i = Some p ∧
     scheduler_round s = Swtch (ToProc i) s1 k ∧ handover i s1 ∧
     k_procs s1 = <[i := dispatch (k_ticks s) p]> (k_procs s) ∧ mlfq_inv s1 (q_remove lv i q) ∧
     k_policy s1 = SCHED_MLFQ ∧ ∀ s', k s' = resume i s') ∨
  (∃ s1, scheduler_round s = Ret tt s1 ∧ k_procs s1 = k_procs s ∧ sched_ready s1 ∧
     k_policy s1 = SCHED_MLFQ ∧ mlfq_inv s1 q).
Proof.
  intros Hs Hpol Hinv Hne. pose proof Hinv as (Hlk & Hlv & Habs & Hwf).
  pose proof (sched_mlfq_run s q Hs Hpol Hlk Hlv Habs Hwf) as Hturn. unfold mlfq_turn in Hturn.
  unfold queues_at_choice, procs_at_choice in Hturn. rewrite !decide_False in Hturn by done.
  destruct (pick (run_of (k_procs s)) 0 q) as [[lv i]|] eqn:Epick.
  - left. destruct Hturn as (p & s1 & k & Hr & Hp & Hps & Hq & [Hm Hp1] & Hk).
    destruct (pick_first_waiting s q lv i Epick) as (l1 & l2 & (Hl & Hi & _) & _).
    exists lv, i, p, s1, k. split; [exists (l1 ++ i :: l2); split; [by eapply list_elem_of_lookup_2|set_solver]|].
    split_and!; try done; [| |by rewrite Hp1].
    + assert (i < NPROC)%nat as Hlt by (apply lookup_lt_Some in Hp; destruct Hs as [(_ & _ & <-) _]; done).
      destruct (dispatched_handover i p s Hs Hlt) as (H1 & H2 & H3 & _ & H5). unfold handover. rewrite Hm, Hps.
      split_and!; [exact H1|exact H2|exact H3|done|]. simpl in H5. by rewrite length_insert in *.
    + split; [rewrite Hm; destruct Hlk as [n Hn]; exists n; simpl; by rewrite lookup_alter_ne|].
      split; [rewrite Hps; apply levels_ok_insert; [done|]; apply (Hlv p); by eapply list_elem_of_lookup_2|].
      split; [done|by apply queues_wf_remove].
  - right. destruct (idle_turn s q Hs Hpol Hinv Hne) as (s1 & H1).
    { intros l j Hl Hj. apply not_waits. by apply (proj1 (pick_None _ _ _) Epick l). }
    exists s1. destruct H1 as (H1 & H2 & H3 & H4 & H5). by split_and!.
Qed.

(** [z] has exited and still has an entry; [w] waits for the hart and has none. *)
Definition passed_over (z w : nat) s : Prop :=
  ∃ q, k_policy s = SCHED_MLFQ ∧ mlfq_inv s q ∧ queued q z ∧
    (∃ p, k_procs s !! z = Some p ∧ p_state p = ZOMBIE) ∧ ¬ queued q w ∧ waits s w.

(** The interrupts that arrive in front of a turn: their handlers change processes by
    calls of [wakeup]. *)
Definition irq (chans : list kptr) : M (kstate V) unit :=
  foldr (fun chan m => wakeup (Some chan) ;; m) (mret tt) chans.

(** The processes, while they run, give the hart back as [sched] does; none revives the
    one or queues the other. *)
Definition leaves_be (z w : nat) (env : nat → kstate V → kstate V) : Prop :=
  ∀ i s, handover i s → passed_over z w s → handover i (env i s) ∧ passed_over z w (env i s).

Lemma wakeup_passed_over z w chan s :
  sched_ready s → passed_over z w s →
  ∃ s', wakeup (Some chan) s = Ret tt s' ∧ sched_ready s' ∧ passed_over z w s'.
Proof.
  intros [Hr (c & Hc & Hn)] (q & Hpol & Hinv & Hz & (pz & Hpz & Ez) & Hw & Hrun).
  destruct (wakeup_run (Some chan) c s q Hr Hc Hinv) as (s' & Hwk & Hr' & Hinv' & Hps & Hsame & Hbal).
  rewrite Hpol in Hinv'. exists s'. split; [done|]. split.
  { split; [done|]. destruct (balanced_cpu _ _ c Hc Hbal) as (c' & Hc' & _ & Hn'). exists c'. by rewrite Hn'. }
  assert (∀ j p, k_procs s !! j = Some p → p_state p ≠ SLEEPING →
    wakes (c_proc c) (Some chan) j p = false ∧ k_procs s' !! j = Some p) as Hstay.
  { intros j p Hp Hne. assert (wakes (c_proc c) (Some chan) j p = false) as E.
    { unfold wakes. rewrite (bool_decide_eq_false_2 (_ ∧ _)) by tauto. apply andb_false_r. }
    split; [done|]. rewrite Hps, list_lookup_imap, Hp. simpl. unfold wake. by rewrite E. }
  apply waits_iff in Hrun as (pw & Hpw & Ew).
  eexists. split; [by rewrite Hsame|]. split; [exact Hinv'|]. split_and!.
  - by apply fold_queued.
  - exists pz. split; [|done]. apply (Hstay z pz Hpz). congruence.
  - intros H. apply Hw. revert H. apply queued_fold. intros p Hp. apply (Hstay w p Hp). congruence.
  - apply waits_iff. exists pw. split; [|done]. apply (Hstay w pw Hpw). congruence.
Qed.

Lemma irq_passed_over z w chans s :
  sched_ready s → passed_over z w s →
  ∃ s', irq chans s = Ret tt s' ∧ sched_ready s' ∧ passed_over z w s'.
Proof.
  revert s. induction chans as [|chan chans IH]; intros s Hs Hp; [by exists s|].
  destruct (wakeup_passed_over z w chan s Hs Hp) as (s1 & H1 & Hs1 & Hp1).
  destruct (IH s1 Hs1 Hp1) as (s2 & H2 & Hs2 & Hp2). exists s2. simpl. erewrite bind_Ret; [|exact H1]. done.
Qed.

(** A turn enters only queued processes, and takes out only the entry of the one it enters. *)
Lemma turn_passes_over z w env s :
  leaves_be z w env → sched_ready s → passed_over z w s →
  ∃ t s', drive env (scheduler_round s) = (t, Some (tt, s')) ∧ w ∉ t ∧ sched_ready s' ∧ passed_over z w s'.
Proof.
  intros Henv Hs Hp. pose proof Hp as (q & Hpol & Hinv & Hz & (pz & Hpz & Ez) & Hw & Hrun).
  assert (¬ waits s z) as Hnz by (rewrite waits_iff; intros (p & ? & ?); congruence).
  destruct (first_or_none s q Hs Hpol Hinv (queued_nonempty q z Hz))
    as [(lv & i & p & s1 & k & Hq & Hi & Hpi & Hr & Hho & Hps & Hinv1 & Hpol1 & Hk)|(s1 & Hr & Hps & Hs1 & Hpol1 & Hinv1)].
  - assert (i ≠ z) as Hiz by (intros ->; done). assert (i ≠ w) as Hiw by (intros ->; done).
    assert (passed_over z w s1) as Hp1.
    { exists (q_remove lv i q). split; [done|]. split; [done|]. split_and!.
      - apply alter_queued; [|done]. intros l Hl. by apply elem_of_remove_first_ne.
      - exists pz. rewrite Hps, list_lookup_insert_ne; done.
      - intros H. apply Hw. revert H. apply queued_alter. intros l. apply elem_of_remove_first.
      - apply waits_iff in Hrun as (pw & Hpw & Ew). apply waits_iff. exists pw. by rewrite Hps, list_lookup_insert_ne. }
    destruct (Henv i s1 Hho Hp1) as [Hho2 (q2 & Hpol2 & Hinv2 & H2)].
    destruct (resume_run i _ Hho2) as [Hres Hready].
    exists [i]. eexists. rewrite Hr. simpl. rewrite Hk, Hres. simpl. split; [done|].
    split; [by intros ->%list_elem_of_singleton|]. split; [done|]. exists q2. split; [done|]. split; [|exact H2].
    by apply resumed_inv.
  - exists [], s1. rewrite Hr. split; [done|]. split; [by intros ?%elem_of_nil|]. split; [done|].
    exists q. split_and!; try done.
    + exists pz. by rewrite Hps.
    + unfold waits. by rewrite Hps.
Qed.

End starve.

(** C16. Under MLFQ, while the entry of a process that has exited is in a queue, a
    RUNNABLE process that is in no queue is not run: over any number of scheduler
    turns, with any wakeups by interrupt handlers in front of each, the scheduler
    runs to the end of each turn and never enters it, and the situation is as
    before, as long as the processes that do run keep the policy and the queues in
    order, do not reap the exited one and do not put the waiting one into a queue. *)
Theorem mlfq_passes_over {V} (z w : nat) (env : nat → kstate V → kstate V) (s : kstate V) (arrivals : list (list kptr)) :
  leaves_be z w env → sched_ready s → passed_over z w s →
  ∃ t s', drive env (scheduler_turns (irq <$> arrivals) s) = (t, Some (tt, s')) ∧ w ∉ t ∧ passed_over z w s'.
Proof.
  intros Henv. revert s. induction arrivals as [|chans arrivals IH]; intros s Hs Hp.
  { exists [], s. split; [done|]. split; [by intros ?%elem_of_nil|done]. }
  destruct (irq_passed_over z w chans s Hs Hp) as (s1 & H1 & Hs1 & Hp1).
  destruct (turn_passes_over z w env s1 Henv Hs1 Hp1) as (t2 & s2 & H2 & Hw2 & Hs2 & Hp2).
  destruct (IH s2 Hs2 Hp2) as (t3 & s3 & H3 & Hw3 & Hp3). exists (t2 ++ t3), s3.
  split; [|split; [by apply not_elem_of_app|done]].
  cbn [fmap list_fmap scheduler_turns]. erewrite bind_Ret; [|exact H1]. rewrite bind_run, (drive_bind _ _ _ _ _ _ H2), H3. done.
Qed.

(** Process 1 has exited with its entry still in level 0; process 0 waits for the hart
    and is in no level; process 2 sleeps until the next clock interrupt. *)
Definition ex_stale : kstate unit :=
  put_proc 2 ((a_proc 3 SLEEPING) <| p_chan := Some PTicks |>)
    (queue_one 1 (two SCHED_MLFQ 30 (a_proc 1 RUNNABLE) (a_proc 2 ZOMBIE))).

Lemma ex_stale_passed_over : passed_over 1 0 ex_stale.
Proof.
  exists [[1%nat]; []; []]. split; [reflexivity|]. split.
  { apply inv_put_proc; [|done]. apply inv_queue_one; [nproc|]. by apply two_inv. }
  split_and!.
  - exists [1%nat]. split; by left.
  - exists (a_proc 2 ZOMBIE). split; [|done]. unfold ex_stale, put_proc. simpl k_procs.
    rewrite list_lookup_insert_ne by done. exact (two_1 SCHED_MLFQ 30 _ _).
  - intros (l & Hl & Hj). rewrite !elem_of_cons, elem_of_nil in Hl.
    destruct Hl as [->|[->|[->|[]]]]; [by apply list_elem_of_singleton in Hj|by apply elem_of_nil in Hj..].
  - apply waits_iff. exists (a_proc 1 RUNNABLE). split; [|done]. unfold ex_stale, put_proc. simpl k_procs.
    rewrite list_lookup_insert_ne by done. exact (two_0 SCHED_MLFQ 30 _ _).
Qed.

Lemma mlfq_passes_over_witness :
  ∃ t s', drive (fun _ s => s) (scheduler_turns (irq <$> [[PTicks]; []; [PTicks; PLog]]) ex_stale) = (t, Some (tt, s')) ∧
    0%nat ∉ t ∧ passed_over 1 0 s'.
Proof.
  destruct (mlfq_passes_over 1 0 (fun _ s => s) ex_stale [[PTicks]; []; [PTicks; PLog]]) as (t & s' & Hd & Hw & Hp).
  - intros i s Hs Hp. split; [exact Hs|exact Hp].
  - apply ready_put_proc, ready_queue_one, two_ready.
  - apply ex_stale_passed_over.
  - exists t, s'. split; [exact Hd|]. split; [exact Hw|exact Hp].
Defined.
