(* ===== verification/CString.v ===== *)
(** kernel/string.c over byte memory.

    A memory maps addresses to bytes; an access to an address that is not there
    makes the function fail ([None]).  [strlen] has no bound in the code; its
    fuel is any number above the length of the string. *)

From stdpp Require Import base gmap numbers list.
From S2P Require Import Prelude.
Local Open Scope Z_scope.

Abbreviation mem := (gmap Z Z).

(** * The functions *)

(** [for(i = 0; i < n; i++) cdst[i] = c;] with [k] bytes to go at [p]. *)
Fixpoint memset_loop (k : nat) (p c : Z) (m : mem) : option mem :=
  match k with
  | O => Some m
  | S k' => _ ← m !! p; memset_loop k' (p + 1) c (<[p := uchar c]> m)
  end.

Definition memset (dst c n : Z) (m : mem) : option mem := memset_loop (Z.to_nat n) dst c m.

Fixpoint memcmp_loop (k : nat) (s1 s2 : Z) (m : mem) : option Z :=
  match k with
  | O => Some 0
  | S k' =>
      a ← m !! s1;
      b ← m !! s2;
      if a =? b then memcmp_loop k' (s1 + 1) (s2 + 1) m else Some (a - b)
  end.

Definition memcmp (v1 v2 n : Z) (m : mem) : option Z := memcmp_loop (Z.to_nat n) v1 v2 m.

(** [while(n-- > 0) *d++ = *s++;] *)
Fixpoint copy_up (k : nat) (d s : Z) (m : mem) : option mem :=
  match k with
  | O => Some m
  | S k' => b ← m !! s; _ ← m !! d; copy_up k' (d + 1) (s + 1) (<[d := b]> m)
  end.

(** [while(n-- > 0) *--d = *--s;] *)
Fixpoint copy_down (k : nat) (d s : Z) (m : mem) : option mem :=
  match k with
  | O => Some m
  | S k' => b ← m !! (s - 1); _ ← m !! (d - 1); copy_down k' (d - 1) (s - 1) (<[d - 1 := b]> m)
  end.

Definition memmove (dst src n : Z) (m : mem) : option mem :=
  if n =? 0 then Some m
  else if (src <? dst) && (dst <? src + n) then
    copy_down (Z.to_nat n) (dst + n) (src + n) m
  else copy_up (Z.to_nat n) dst src m.

Definition memcpy (dst src n : Z) (m : mem) : option mem := memmove dst src n m.

(** [n] counts down; the bytes are compared as [uchar]. *)
Fixpoint strncmp_loop (n : nat) (p q : Z) (m : mem) : option Z :=
  match n with
  | O => Some 0
  | S n' =>
      a ← m !! p;
      b ← m !! q;
      if negb (a =? 0) && (a =? b) then strncmp_loop n' (p + 1) (q + 1) m
      else Some (a - b)
  end.

Definition strncmp (p q n : Z) (m : mem) : option Z := strncmp_loop (Z.to_nat n) p q m.

(** [while(n-- > 0 && ( *s++ = *t++) != 0);] gives the [n] and [s] it ends with. *)
Fixpoint strcpy_loop (n : nat) (s t : Z) (m : mem) : option (nat * Z * mem) :=
  match n with
  | O => Some (O, s, m)
  | S n' =>
      b ← m !! t;
      _ ← m !! s;
      if b =? 0 then Some (n', s + 1, <[s := b]> m)
      else strcpy_loop n' (s + 1) (t + 1) (<[s := b]> m)
  end.

Definition strncpy (s t n : Z) (m : mem) : option mem :=
  r ← strcpy_loop (Z.to_nat n) s t m;
  let '(n', s', m') := r in
  memset_loop n' s' 0 m'.

(** [while(--n > 0 && ( *s++ = *t++) != 0); *s = 0;] *)
Definition safestrcpy (s t n : Z) (m : mem) : option mem :=
  if n <=? 0 then Some m else
  r ← strcpy_loop (Z.to_nat (n - 1)) s t m;
  let '(_, s', m') := r in
  _ ← m' !! s';
  Some (<[s' := 0]> m').

Fixpoint strlen_loop (fuel : nat) (s n : Z) (m : mem) : option Z :=
  match fuel with
  | O => None
  | S fuel' =>
      b ← m !! (s + n);
      if b =? 0 then Some n else strlen_loop fuel' s (n + 1) m
  end.

Definition strlen (fuel : nat) (s : Z) (m : mem) : option Z := strlen_loop fuel s 0 m.

(** * Blocks of bytes *)

(** The [n] bytes at [a] are there. *)
Definition mapped (a n : Z) (m : mem) : Prop := ∀ i, 0 <= i < n → is_Some (m !! (a + i)).

(** The bytes [l] are at [a]. *)
Definition bytes_at (a : Z) (l : list Z) (m : mem) : Prop :=
  ∀ i b, l !! i = Some b → m !! (a + Z.of_nat i) = Some b.

(** The nul-terminated string [l] is at [a]. *)
Definition cstr (a : Z) (l : list Z) (m : mem) : Prop :=
  bytes_at a (l ++ [0]) m ∧ Forall (fun b => b ≠ 0) l.

Lemma mapped_insert a n p v m : mapped a n m → mapped a n (<[p := v]> m).
Proof.
  intros H i Hi. destruct (decide (p = a + i)) as [->|].
  - rewrite lookup_insert_eq. by eexists.
  - rewrite lookup_insert_ne by done. by apply H.
Qed.

Lemma mapped_sub a n b k m : mapped a n m → a <= b → b + k <= a + n → mapped b k m.
Proof. intros H H1 H2 i Hi. replace (b + i) with (a + (b + i - a)) by lia. apply H. lia. Qed.

Lemma mapped_head a n m : mapped a n m → 0 < n → is_Some (m !! a).
Proof. intros H Hn. rewrite <- (Z.add_0_r a). apply H. lia. Qed.

Lemma bytes_at_cons a b l m : bytes_at a (b :: l) m ↔ m !! a = Some b ∧ bytes_at (a + 1) l m.
Proof.
  split.
  - intros H. split; [|intros i x Hi; replace (a + 1 + Z.of_nat i) with (a + Z.of_nat (S i)) by lia;
      by apply H].
    rewrite <- (Z.add_0_r a). by apply (H 0%nat).
  - intros [H0 H1] [|i] x Hi; simpl in Hi.
    + injection Hi as <-. by rewrite Z.add_0_r.
    + replace (a + Z.of_nat (S i)) with (a + 1 + Z.of_nat i) by lia. by apply H1.
Qed.

Lemma bytes_at_insert a l p v m :
  bytes_at a l m → ¬ (a <= p < a + Z.of_nat (length l)) → bytes_at a l (<[p := v]> m).
Proof.
  intros H Hp i b Hi. rewrite lookup_insert_ne; [by apply H|].
  apply lookup_lt_Some in Hi. lia.
Qed.

Lemma bytes_at_app a l1 l2 m :
  bytes_at a (l1 ++ l2) m ↔ bytes_at a l1 m ∧ bytes_at (a + Z.of_nat (length l1)) l2 m.
Proof.
  revert a. induction l1 as [|b l1 IH]; intros a; simpl.
  - rewrite Z.add_0_r. split; [|by intros [_ ?]]. intros H. split; [|done]. by intros i x ?.
  - rewrite !bytes_at_cons, IH.
    replace (a + 1 + Z.of_nat (length l1)) with (a + Z.of_nat (S (length l1))) by lia. tauto.
Qed.

(** * Correctness *)

(** The loops write exactly their destination. *)
Lemma memset_loop_spec k p c m :
  mapped p (Z.of_nat k) m →
  ∃ m', memset_loop k p c m = Some m' ∧
    ∀ a, m' !! a = if decide (p <= a < p + Z.of_nat k) then Some (uchar c) else m !! a.
Proof.
  revert p m. induction k as [|k IH]; intros p m H; simpl.
  { exists m. split; [done|]. intros a. rewrite decide_False by lia. done. }
  destruct (mapped_head _ _ _ H) as [b Hb]; [lia|]. rewrite Hb. simpl.
  destruct (IH (p + 1) (<[p := uchar c]> m)) as (m' & Hr & Hm').
  { apply mapped_insert. eapply mapped_sub; [exact H|lia|lia]. }
  exists m'. split; [exact Hr|]. intros a. rewrite Hm'. destruct (decide (a = p)) as [->|].
  - rewrite decide_False by lia. rewrite decide_True by lia. by rewrite lookup_insert_eq.
  - rewrite lookup_insert_ne by done.
    destruct (decide (p + 1 <= a < _)), (decide (p <= a < _)); done || lia.
Qed.

Lemma copy_up_spec k d s m :
  mapped d (Z.of_nat k) m → mapped s (Z.of_nat k) m → d <= s ∨ s + Z.of_nat k <= d →
  ∃ m', copy_up k d s m = Some m' ∧
    ∀ a, m' !! a = if decide (d <= a < d + Z.of_nat k) then m !! (s + (a - d)) else m !! a.
Proof.
  revert d s m. induction k as [|k IH]; intros d s m Hd Hs Hds; simpl.
  { exists m. split; [done|]. intros a. rewrite decide_False by lia. done. }
  destruct (mapped_head _ _ _ Hd) as [x Hx]; [lia|].
  destruct (mapped_head _ _ _ Hs) as [b Hb]; [lia|]. rewrite Hb, Hx. simpl.
  destruct (IH (d + 1) (s + 1) (<[d := b]> m)) as (m' & Hr & Hm').
  { apply mapped_insert. eapply mapped_sub; [exact Hd|lia|lia]. }
  { apply mapped_insert. eapply mapped_sub; [exact Hs|lia|lia]. }
  { lia. }
  exists m'. split; [exact Hr|]. intros a. rewrite Hm'. destruct (decide (a = d)) as [->|].
  - rewrite decide_False by lia. rewrite decide_True by lia. rewrite lookup_insert_eq.
    rewrite <- Hb. f_equal. lia.
  - rewrite (lookup_insert_ne _ d a) by done.
    destruct (decide (d + 1 <= a < _)), (decide (d <= a < _)); try lia; [|done].
    replace (s + 1 + (a - (d + 1))) with (s + (a - d)) by lia.
    rewrite lookup_insert_ne by lia. done.
Qed.

Lemma copy_down_spec k d s m :
  mapped (d - Z.of_nat k) (Z.of_nat k) m → mapped (s - Z.of_nat k) (Z.of_nat k) m → s < d →
  ∃ m', copy_down k d s m = Some m' ∧
    ∀ a, m' !! a = if decide (d - Z.of_nat k <= a < d) then m !! (s + (a - d)) else m !! a.
Proof.
  revert d s m. induction k as [|k IH]; intros d s m Hd Hs Hds; simpl.
  { exists m. split; [done|]. intros a. rewrite decide_False by lia. done. }
  destruct (Hs (Z.of_nat k)) as [b Hb]; [lia|]. destruct (Hd (Z.of_nat k)) as [x Hx]; [lia|].
  replace (s - Z.of_nat (S k) + Z.of_nat k) with (s - 1) in Hb by lia.
  replace (d - Z.of_nat (S k) + Z.of_nat k) with (d - 1) in Hx by lia.
  rewrite Hb, Hx. simpl.
  destruct (IH (d - 1) (s - 1) (<[d - 1 := b]> m)) as (m' & Hr & Hm').
  { apply mapped_insert. eapply mapped_sub; [exact Hd|lia|lia]. }
  { apply mapped_insert. eapply mapped_sub; [exact Hs|lia|lia]. }
  { lia. }
  exists m'. split; [exact Hr|]. intros a. rewrite Hm'. destruct (decide (a = d - 1)) as [->|].
  - rewrite decide_False by lia. rewrite decide_True by lia. rewrite lookup_insert_eq.
    rewrite <- Hb. f_equal. lia.
  - rewrite (lookup_insert_ne _ (d - 1) a) by done.
    destruct (decide (d - 1 - Z.of_nat k <= a < d - 1)), (decide (d - Z.of_nat (S k) <= a < d));
      try lia; [|done].
    replace (s - 1 + (a - (d - 1))) with (s + (a - d)) by lia.
    rewrite lookup_insert_ne by lia. done.
Qed.

(** memmove copies the source bytes as they were before the call, whether or
    not the ranges overlap, and changes no byte outside the destination. *)
Theorem memmove_moves (dst src n : Z) (m : mem) :
  0 <= n → mapped dst n m → mapped src n m →
  ∃ m', memmove dst src n m = Some m' ∧
    ∀ a, m' !! a = if decide (dst <= a < dst + n) then m !! (src + (a - dst)) else m !! a.
Proof.
  intros Hn Hd Hs. unfold memmove. destruct (Z.eqb_spec n 0) as [->|Hne].
  { exists m. split; [done|]. intros a. rewrite decide_False by lia. done. }
  destruct (Z.ltb_spec src dst); [destruct (Z.ltb_spec dst (src + n))|]; simpl.
  - destruct (copy_down_spec (Z.to_nat n) (dst + n) (src + n) m) as (m' & Hr & Hm').
    { rewrite Z2Nat.id by lia. by replace (dst + n - n) with dst by lia. }
    { rewrite Z2Nat.id by lia. by replace (src + n - n) with src by lia. }
    { lia. }
    rewrite Z2Nat.id in Hm' by lia. exists m'. split; [done|]. intros a. rewrite Hm'.
    replace (dst + n - n) with dst by lia.
    by replace (src + n + (a - (dst + n))) with (src + (a - dst)) by lia.
  - destruct (copy_up_spec (Z.to_nat n) dst src m) as (m' & Hr & Hm');
      rewrite ?Z2Nat.id by lia; [done|done|lia|].
    rewrite Z2Nat.id in Hm' by lia. by exists m'.
  - destruct (copy_up_spec (Z.to_nat n) dst src m) as (m' & Hr & Hm');
      rewrite ?Z2Nat.id by lia; [done|done|lia|].
    rewrite Z2Nat.id in Hm' by lia. by exists m'.
Qed.

(** The overlapping move of 3 bytes by one. *)
Lemma memmove_moves_witness :
  ∃ m', memmove 11 10 3 (list_to_map [(10, 1); (11, 2); (12, 3); (13, 4)]) = Some m' ∧
    m' !! 13 = Some 3.
Proof.
  destruct (memmove_moves 11 10 3 (list_to_map [(10, 1); (11, 2); (12, 3); (13, 4)]))
    as (m' & Hr & Hm').
  - lia.
  - intros i Hi. assert (i = 0 ∨ i = 1 ∨ i = 2) as [->|[->| ->]] by lia; vm_compute; by eexists.
  - intros i Hi. assert (i = 0 ∨ i = 1 ∨ i = 2) as [->|[->| ->]] by lia; vm_compute; by eexists.
  - exists m'. split; [exact Hr|]. rewrite Hm'. vm_compute. reflexivity.
Defined.

(** The copying loop writes the first [w] bytes of the string and its nul. *)
Lemma strcpy_loop_spec k s t l m :
  cstr t l m → mapped s (Z.of_nat k) m →
  s + Z.of_nat k <= t ∨ t + Z.of_nat (length l) + 1 <= s →
  let w := (k `min` (length l + 1))%nat in
  ∃ m', strcpy_loop k s t m = Some ((k - w)%nat, s + Z.of_nat w, m') ∧
    bytes_at s (take w (l ++ [0])) m' ∧
    ∀ a, ¬ (s <= a < s + Z.of_nat w) → m' !! a = m !! a.
Proof.
  revert s t l m. induction k as [|k IH]; intros s t l m Ht Hs Hd w; simpl.
  { exists m. rewrite Z.add_0_r. split; [done|]. split; [by intros i b ?|done]. }
  destruct (mapped_head _ _ _ Hs) as [x Hx]; [lia|]. destruct Ht as [Ht Hl].
  destruct l as [|c l]; simpl app in Ht; apply bytes_at_cons in Ht as [Hc Ht].
  - rewrite Hc, Hx. simpl. exists (<[s := 0]> m). replace w with 1%nat by (unfold w; simpl; lia).
    split; [do 3 f_equal; lia|]. split.
    + rewrite Nat.min_0_r. apply bytes_at_cons.
      split; [apply lookup_insert_eq|by intros i b ?].
    + intros a Ha. apply lookup_insert_ne. lia.
  - apply Forall_cons in Hl as [Hc0 Hl]. rewrite Hc, Hx. simpl.
    rewrite (proj2 (Z.eqb_neq c 0)) by done.
    destruct (IH (s + 1) (t + 1) l (<[s := c]> m)) as (m' & Hr & Hb & Hm').
    { split; [|done]. apply bytes_at_insert; [done|]. rewrite length_app. simpl in *. lia. }
    { apply mapped_insert. eapply mapped_sub; [exact Hs|lia|lia]. }
    { simpl in Hd. lia. }
    simpl in w. exists m'. rewrite Hr.
    assert (w = S (k `min` (length l + 1))) as -> by (unfold w; lia).
    split; [do 3 f_equal; lia|]. split.
    + simpl. apply bytes_at_cons. split; [|done]. rewrite Hm' by lia. apply lookup_insert_eq.
    + intros a Ha. rewrite Hm' by lia. apply lookup_insert_ne. lia.
Qed.

(** safestrcpy copies the string up to n-1 characters, always terminates it
    with a nul, and writes nothing beyond the n bytes of the destination. *)
Theorem safestrcpy_copies (s t n : Z) (l : list Z) (m : mem) :
  0 < n → cstr t l m → mapped s n m → s + n <= t ∨ t + Z.of_nat (length l) + 1 <= s →
  ∃ m', safestrcpy s t n m = Some m' ∧ cstr s (take (Z.to_nat (n - 1)) l) m' ∧
    ∀ a, ¬ (s <= a < s + n) → m' !! a = m !! a.
Proof.
  intros Hn Ht Hs Hd. unfold safestrcpy. destruct (Z.leb_spec n 0); [lia|].
  set (k := Z.to_nat (n - 1)). set (w := (k `min` (length l + 1))%nat).
  destruct (strcpy_loop_spec k s t l m Ht) as (m1 & Hr & Hb & Hm1).
  { eapply mapped_sub; [exact Hs|lia|lia]. } { lia. }
  fold w in Hr, Hb, Hm1. rewrite Hr. simpl. assert (w <= k)%nat as Hwk by lia.
  destruct (Hs (Z.of_nat w)) as [x Hx]; [lia|]. rewrite Hm1, Hx by lia. simpl.
  exists (<[s + Z.of_nat w := 0]> m1). split; [done|]. split.
  - assert (length (take w (l ++ [0])) = w) as Hlw by (rewrite length_take, length_app; simpl; lia).
    split; [|apply Forall_take, Ht].
    assert (bytes_at s (take w (l ++ [0]) ++ [0]) (<[s + Z.of_nat w := 0]> m1)) as Hall.
    { apply bytes_at_app. rewrite Hlw. split; [apply bytes_at_insert; [done|lia]|].
      apply bytes_at_cons. split; [apply lookup_insert_eq|by intros i b ?]. }
    intros i b Hi. apply Hall. rewrite <- Hi.
    destruct (decide (k <= length l)%nat) as [Hle|Hgt].
    + replace w with k by lia. by rewrite take_app_le by lia.
    + replace w with (length l + 1)%nat by lia.
      rewrite (take_ge (l ++ [0])) by (rewrite length_app; simpl; lia).
      rewrite (take_ge l) by lia. rewrite (take_ge l) in Hi by lia.
      rewrite lookup_app_l; [done|]. apply lookup_lt_Some in Hi. done.
  - intros a Ha. rewrite lookup_insert_ne by lia. apply Hm1. lia.
Qed.

Lemma safestrcpy_copies_witness :
  ∃ m', safestrcpy 20 10 3 (list_to_map
      [(10, 104); (11, 105); (12, 33); (13, 0); (20, 9); (21, 9); (22, 9)]) = Some m' ∧
    cstr 20 [104; 105] m'.
Proof.
  destruct (safestrcpy_copies 20 10 3 [104; 105; 33] (list_to_map
      [(10, 104); (11, 105); (12, 33); (13, 0); (20, 9); (21, 9); (22, 9)])) as (m' & Hr & Hc & _).
  - lia.
  - split; [|by repeat constructor].
    intros [|[|[|[|i]]]] b [= <-]; reflexivity.
  - intros i Hi. assert (i = 0 ∨ i = 1 ∨ i = 2) as [->|[->| ->]] by lia; vm_compute; by eexists.
  - right. simpl. lia.
  - exists m'. split; [exact Hr|exact Hc].
Defined.

(** [strlen] of a string is its length. *)
Lemma strlen_loop_spec l s n m fuel :
  cstr (s + n) l m → (length l < fuel)%nat →
  strlen_loop fuel s n m = Some (n + Z.of_nat (length l)).
Proof.
  revert n fuel. induction l as [|c l IH]; intros n fuel [Hb Hl] Hf;
    (destruct fuel as [|fuel]; [simpl in Hf; lia|]); simpl app in Hb;
    apply bytes_at_cons in Hb as [Hc Hb]; simpl; rewrite Hc; simpl.
  - f_equal. lia.
  - apply Forall_cons in Hl as [Hc0 Hl]. rewrite (proj2 (Z.eqb_neq c 0)) by done.
    rewrite IH; [f_equal; lia|by split; [replace (s + (n + 1)) with (s + n + 1) by lia|]|].
    simpl in Hf. lia.
Qed.

(** The first difference of two byte strings, as [memcmp] reports it. *)
Fixpoint first_diff (l1 l2 : list Z) : Z :=
  match l1, l2 with
  | a :: l1', b :: l2' => if a =? b then first_diff l1' l2' else a - b
  | _, _ => 0
  end.

Lemma memcmp_loop_spec l1 l2 s1 s2 m :
  length l1 = length l2 → bytes_at s1 l1 m → bytes_at s2 l2 m →
  memcmp_loop (length l1) s1 s2 m = Some (first_diff l1 l2).
Proof.
  revert l2 s1 s2. induction l1 as [|a l1 IH]; intros [|b l2] s1 s2 Hl H1 H2; try done.
  apply bytes_at_cons in H1 as [Ha H1]. apply bytes_at_cons in H2 as [Hb H2].
  simpl. rewrite Ha, Hb. simpl. destruct (a =? b); [|done]. apply IH; [|done|done].
  simpl in Hl. lia.
Qed.
