(* ===== verification/Globals.v ===== *)
(** The data of the rest of the kernel: memory (kernel/kalloc.c, kernel/vm.c),
    files and inodes (kernel/file.h, kernel/fs.h), buffers (kernel/buf.h), the
    log (kernel/log.c), pipes (kernel/pipe.c), the console (kernel/console.c,
    kernel/uart.c), and the kernel state that contains them.

    Structures that the code keeps in allocated pages (pipes) are tables here,
    keyed by the address of their page; the bytes of the page are not also in
    [g_ram] as that structure. *)

From stdpp Require Import base gmap strings numbers list.
From S2P Require Import Prelude Spinlock Kstate CString.
Local Open Scope Z_scope.

(** * Constants *)

Definition NFILE : nat := 100%nat.
Definition NINODE : nat := 50%nat.
Definition NDEV : Z := 10.
Definition ROOTDEV : Z := 1.
Definition MAXARG : nat := 32%nat.
Definition MAXOPBLOCKS : Z := 10.
Definition LOGSIZE : Z := MAXOPBLOCKS * 3.
Definition NBUF : nat := Z.to_nat (MAXOPBLOCKS * 3).
Definition FSSIZE : Z := 2000.
Definition MAXPATH : Z := 128.
Definition USERSTACK : Z := 1.

Definition KERNBASE : Z := 0x80000000.
Definition PHYSTOP : Z := KERNBASE + 128 * 1024 * 1024.

Definition ROOTINO : Z := 1.
Definition BSIZE : Z := 1024.
Definition NDIRECT : nat := 12%nat.
Definition NINDIRECT : Z := BSIZE / 4.
Definition MAXFILE : Z := Z.of_nat NDIRECT + NINDIRECT.
Definition DIRSIZ : Z := 14.
Definition FSMAGIC : Z := 0x10203040.
Definition BPB : Z := BSIZE * 8.
Definition IPB : Z := BSIZE / 64.

Definition T_DIR : Z := 1.
Definition T_FILE : Z := 2.
Definition T_DEVICE : Z := 3.

Definition PIPESIZE : Z := 512.
Definition INPUT_BUF_SIZE : Z := 128.
Definition UART_TX_BUF_SIZE : Z := 32.

(** * Structures *)

(** [struct sleeplock]; its spin lock is [LkSleep] of the machine. *)
Record sleeplock := mksleeplock { sl_locked : Z; sl_pid : Z }.

#[global] Instance eta_sleeplock : Settable sleeplock :=
  fun l => mksleeplock (sl_locked l) (sl_pid l).

Inductive filetype : Type := FD_NONE | FD_PIPE | FD_INODE | FD_DEVICE.

#[global] Instance filetype_eq_dec : EqDecision filetype.
Proof. solve_decision. Defined.

(** [struct file]: the pipe is the address of its page, the inode an index of
    [itable]. *)
Record file := mkfile {
  f_type : filetype;
  f_ref : Z;
  f_readable : Z;
  f_writable : Z;
  f_pipe : Z;
  f_ip : nat;
  f_off : Z;
  f_major : Z
}.

#[global] Instance eta_file : Settable file := fun f =>
  mkfile (f_type f) (f_ref f) (f_readable f) (f_writable f) (f_pipe f) (f_ip f) (f_off f)
    (f_major f).

(** [struct inode]. *)
Record inode := mkinode {
  i_dev : Z;
  i_inum : Z;
  i_ref : Z;
  i_lock : sleeplock;
  i_valid : Z;
  i_type : Z;
  i_major : Z;
  i_minor : Z;
  i_nlink : Z;
  i_size : Z;
  i_addrs : list Z
}.

#[global] Instance eta_inode : Settable inode := fun i =>
  mkinode (i_dev i) (i_inum i) (i_ref i) (i_lock i) (i_valid i) (i_type i) (i_major i)
    (i_minor i) (i_nlink i) (i_size i) (i_addrs i).

Record superblock := mksuperblock {
  sb_magic : Z; sb_size : Z; sb_nblocks : Z; sb_ninodes : Z; sb_nlog : Z;
  sb_logstart : Z; sb_inodestart : Z; sb_bmapstart : Z
}.

(** [struct buf]; [b_prev] and [b_next] are indices of the buffer array, [NBUF]
    being the list head. *)
Record buf := mkbuf {
  b_valid : Z;
  b_disk : Z;
  b_dev : Z;
  b_blockno : Z;
  b_lock : sleeplock;
  b_refcnt : Z;
  b_prev : nat;
  b_next : nat;
  b_data : list Z
}.

#[global] Instance eta_buf : Settable buf := fun b =>
  mkbuf (b_valid b) (b_disk b) (b_dev b) (b_blockno b) (b_lock b) (b_refcnt b) (b_prev b)
    (b_next b) (b_data b).

(** [struct logheader] and [struct log]. *)
Record logheader := mklogheader { lh_n : Z; lh_block : list Z }.

#[global] Instance eta_logheader : Settable logheader :=
  fun h => mklogheader (lh_n h) (lh_block h).

Record log := mklog {
  log_start : Z;
  log_size : Z;
  log_outstanding : Z;
  log_committing : Z;
  log_dev : Z;
  log_lh : logheader
}.

#[global] Instance eta_log : Settable log := fun l =>
  mklog (log_start l) (log_size l) (log_outstanding l) (log_committing l) (log_dev l) (log_lh l).

(** [struct pipe]. *)
Record pipe := mkpipe {
  pi_data : list Z;
  pi_nread : Z;
  pi_nwrite : Z;
  pi_readopen : Z;
  pi_writeopen : Z
}.

#[global] Instance eta_pipe : Settable pipe := fun p =>
  mkpipe (pi_data p) (pi_nread p) (pi_nwrite p) (pi_readopen p) (pi_writeopen p).

(** [cons] of kernel/console.c. *)
Record console := mkconsole { cons_buf : list Z; cons_r : Z; cons_w : Z; cons_e : Z }.

#[global] Instance eta_console : Settable console :=
  fun c => mkconsole (cons_buf c) (cons_r c) (cons_w c) (cons_e c).

(** The transmit buffer of kernel/uart.c and the device: [uart_out] is what was
    written to the transmit register, [uart_idle] are the device's answers to the
    next reads of LSR_TX_IDLE (it stays idle after them), [uart_in] the bytes
    that wait in the receive register, and [uart_ctl] the writes to the other
    registers. *)
Record uart := mkuart {
  uart_tx_buf : list Z;
  uart_tx_w : Z;
  uart_tx_r : Z;
  uart_idle : list bool;
  uart_out : list Z;
  uart_in : list Z;
  uart_ctl : list (Z * Z)
}.

#[global] Instance eta_uart : Settable uart := fun u =>
  mkuart (uart_tx_buf u) (uart_tx_w u) (uart_tx_r u) (uart_idle u) (uart_out u) (uart_in u)
    (uart_ctl u).

(** Addresses that [struct virtq_desc] may hold. *)
Inductive dma_addr : Type :=
| DmaNull
| DmaOp (i : nat)
| DmaBuf (i : nat)
| DmaStatus (i : nat).

Record virtq_desc := mkdesc { vq_addr : dma_addr; vq_len : Z; vq_flags : Z; vq_next : Z }.

Record virtio_blk_req := mkreq { rq_type : Z; rq_reserved : Z; rq_sector : Z }.

(** [disk] of kernel/virtio_disk.c with the rings it shares with the device;
    [vd_regs] are the registers as last written. *)
Record vdisk := mkvdisk {
  vd_desc : list virtq_desc;
  vd_avail_idx : Z;
  vd_avail_ring : list Z;
  vd_used_ring_idx : Z;
  vd_used_ring : list Z;
  vd_free : list Z;
  vd_used_idx : Z;
  vd_info_b : list (option nat);
  vd_info_status : list Z;
  vd_ops : list virtio_blk_req;
  vd_regs : gmap Z Z
}.

#[global] Instance eta_vdisk : Settable vdisk := fun d =>
  mkvdisk (vd_desc d) (vd_avail_idx d) (vd_avail_ring d) (vd_used_ring_idx d) (vd_used_ring d)
    (vd_free d) (vd_used_idx d) (vd_info_b d) (vd_info_status d) (vd_ops d) (vd_regs d).

(** * The state *)

(** [g_disk] are the blocks of the disk.  [g_devsw] says for which major numbers
    [consoleread] and [consolewrite] are installed.  [g_plic] are the registers of
    the interrupt controller as last written, [g_stvec], [g_satp] and [g_stimecmp]
    the control registers of each hart. *)
Record sub := mksub {
  g_ram : mem;
  g_freelist : Z;
  g_kpgtbl : Z;
  g_files : list file;
  g_inodes : list inode;
  g_sb : superblock;
  g_bufs : list buf;
  g_log : log;
  g_disk : list (list Z);
  g_pipes : gmap Z pipe;
  g_cons : console;
  g_uart : uart;
  g_panicked : bool;
  g_pr_locking : Z;
  g_devsw : list bool;
  g_vdisk : vdisk;
  g_started : Z;
  g_plic : gmap Z Z;
  g_stvec : gmap nat Z;
  g_satp : gmap nat Z;
  g_stimecmp : gmap nat Z
}.

#[global] Instance eta_sub : Settable sub := fun g =>
  mksub (g_ram g) (g_freelist g) (g_kpgtbl g) (g_files g) (g_inodes g) (g_sb g) (g_bufs g)
    (g_log g) (g_disk g) (g_pipes g) (g_cons g) (g_uart g) (g_panicked g)
    (g_pr_locking g) (g_devsw g) (g_vdisk g) (g_started g) (g_plic g)
    (g_stvec g) (g_satp g) (g_stimecmp g).

Abbreviation kst := (kstate sub).
Abbreviation K := (M (kstate sub)).

(** Change the rest of the kernel. *)
Definition upd_sub (f : sub → sub) (s : kst) : kst := s <| k_sub ::= f |>.

Definition kmem_lock : lockid := LkGlobal "kmem".
Definition ftable_lock : lockid := LkGlobal "ftable".
Definition itable_lock : lockid := LkGlobal "itable".
Definition bcache_lock : lockid := LkGlobal "bcache".
Definition log_lock : lockid := LkGlobal "log".
Definition cons_lock : lockid := LkGlobal "cons".
Definition uart_tx_lock : lockid := LkGlobal "uart".
Definition pr_lock : lockid := LkGlobal "pr".
Definition vdisk_lock : lockid := LkGlobal "virtio_disk".

(** * Physical memory *)

(** Bytes of a little-endian number. *)
Fixpoint le_bytes (n : nat) (z : Z) : list Z :=
  match n with
  | O => []
  | S n' => z mod 256 :: le_bytes n' (z / 256)
  end.

Fixpoint le_value (l : list Z) : Z :=
  match l with
  | [] => 0
  | b :: l' => b + 256 * le_value l'
  end.

(** The [n] bytes at [a]. *)
Fixpoint read_bytes (n : nat) (a : Z) (m : mem) : option (list Z) :=
  match n with
  | O => Some []
  | S n' => b ← m !! a; l ← read_bytes n' (a + 1) m; Some (b :: l)
  end.

(** Store the bytes [l] at [a]; all of them must be there. *)
Fixpoint write_bytes (l : list Z) (a : Z) (m : mem) : option mem :=
  match l with
  | [] => Some m
  | b :: l' => _ ← m !! a; write_bytes l' (a + 1) (<[a := b]> m)
  end.

Definition with_ram (f : mem → option mem) : K unit :=
  fun s => match f (g_ram (k_sub s)) with
           | Some m => Ret tt (upd_sub (fun g => g <| g_ram := m |>) s)
           | None => Fault
           end.

(** 64-bit loads and stores. *)
Definition ld64 (a : Z) : K Z :=
  deref (fun s => le_value <$> read_bytes 8 a (g_ram (k_sub s))).

Definition st64 (a v : Z) : K unit := with_ram (write_bytes (le_bytes 8 v) a).

Lemma length_le_bytes n z : length (le_bytes n z) = n.
Proof. revert z. induction n as [|n IH]; intros z; simpl; [done|]. by rewrite IH. Qed.

Lemma le_value_bytes n z : 0 <= z < 256 ^ Z.of_nat n → le_value (le_bytes n z) = z.
Proof.
  revert z. induction n as [|n IH]; intros z Hz.
  - simpl in *. lia.
  - rewrite Nat2Z.inj_succ, Z.pow_succ_r in Hz by lia. simpl.
    rewrite IH; [pose proof (Z.div_mod z 256); lia|].
    split; [apply Z.div_pos; lia|]. apply Z.div_lt_upper_bound; lia.
Qed.

Lemma read_bytes_at n a l m :
  length l = n → bytes_at a l m → read_bytes n a m = Some l.
Proof.
  revert a l. induction n as [|n IH]; intros a [|b l] Hl Hb; try done.
  apply bytes_at_cons in Hb as [Ha Hb]. simpl. rewrite Ha. simpl.
  rewrite (IH (a + 1) l); [done| |done]. simpl in Hl. lia.
Qed.

Lemma read_bytes_Some n a l m : read_bytes n a m = Some l → length l = n ∧ bytes_at a l m.
Proof.
  revert a l. induction n as [|n IH]; intros a l; simpl.
  - intros [= <-]. split; [done|]. by intros i b ?.
  - destruct (m !! a) as [b|] eqn:Ha; [|done]. simpl.
    destruct (read_bytes n (a + 1) m) as [l'|] eqn:E; [|done]. simpl. intros [= <-].
    destruct (IH _ _ E) as [Hl Hb]. split; [simpl; by rewrite Hl|]. by apply bytes_at_cons.
Qed.

Lemma write_bytes_spec l a m :
  mapped a (Z.of_nat (length l)) m →
  ∃ m', write_bytes l a m = Some m' ∧ bytes_at a l m' ∧
    ∀ x, ¬ (a <= x < a + Z.of_nat (length l)) → m' !! x = m !! x.
Proof.
  revert a m. induction l as [|b l IH]; intros a m Hm; simpl.
  - exists m. split; [done|]. split; [by intros i b ?|done].
  - destruct (mapped_head _ _ _ Hm) as [x Hx]; [simpl; lia|]. rewrite Hx. simpl.
    destruct (IH (a + 1) (<[a := b]> m)) as (m' & Hr & Hb & Ho).
    { apply mapped_insert. eapply mapped_sub; [exact Hm|lia|simpl; lia]. }
    exists m'. split; [done|]. split.
    + apply bytes_at_cons. split; [|done]. rewrite Ho by lia. apply lookup_insert_eq.
    + intros y Hy. simpl in Hy. rewrite Ho by lia. apply lookup_insert_ne. lia.
Qed.

Lemma read_bytes_agree n a m m' :
  (∀ x, a <= x < a + Z.of_nat n → m' !! x = m !! x) → read_bytes n a m' = read_bytes n a m.
Proof.
  revert a. induction n as [|n IH]; intros a H; simpl; [done|].
  rewrite H by lia. destruct (m !! a); simpl; [|done]. rewrite IH; [done|].
  intros x Hx. apply H. lia.
Qed.

Lemma read_bytes_mapped n a m : mapped a (Z.of_nat n) m → ∃ l, read_bytes n a m = Some l.
Proof.
  revert a. induction n as [|n IH]; intros a Ha; [by exists []|]. simpl.
  destruct (mapped_head _ _ _ Ha) as [b Hb]; [lia|]. rewrite Hb. simpl.
  destruct (IH (a + 1)) as [l ->]; [|by eexists].
  eapply mapped_sub; [exact Ha|lia|lia].
Qed.

Lemma with_ram_run f m s :
  f (g_ram (k_sub s)) = Some m → with_ram f s = Ret tt (upd_sub (fun g => g <| g_ram := m |>) s).
Proof. intros H. unfold with_ram. by rewrite H. Qed.

#[global] Arguments le_bytes : simpl never.
#[global] Arguments le_value : simpl never.
#[global] Arguments read_bytes : simpl never.
#[global] Arguments write_bytes : simpl never.
