(* ===== verification/Kalloc.v ===== *)
(** The physical page allocator, kernel/kalloc.c: a list of free pages that is
    threaded through the pages themselves, shown to implement a stack of
    pages. *)

From stdpp Require Import base gmap strings numbers list.
From S2P Require Import Prelude Spinlock Kstate Sched Boot CString Globals.
Local Open Scope Z_scope.

(** Addresses that the linker chooses (kernel.ld). *)
Class Layout := mkLayout {
  end_ : Z;
  etext : Z;
  trampoline : Z;
  uservec : Z;
  userret : Z;
  kernelvec : Z;
  forkret_addr : Z;
  usertrap_addr : Z
}.

Definition PGROUNDUP (sz : Z) : Z := Z.land (uint64 (sz + PGSIZE - 1)) (uint64 (Z.lnot (PGSIZE - 1))).
Definition PGROUNDDOWN (a : Z) : Z := Z.land a (uint64 (Z.lnot (PGSIZE - 1))).

Section ops.
Context `{Layout}.

Definition kfree (pa : Z) : K unit :=
  if negb (pa mod PGSIZE =? 0) || (pa <? end_) || (PHYSTOP <=? pa) then panic "kfree" else
  with_ram (memset pa 1 PGSIZE) ;;
  acquire kmem_lock ;;
  next ← gets (fun s => g_freelist (k_sub s));
  st64 pa next ;;
  modify (upd_sub (fun g => g <| g_freelist := pa |>)) ;;
  release kmem_lock.

(** The loop frees the pages [p], [p + PGSIZE], ... that end by [pa_end]. *)
Definition freerange (pa_start pa_end : Z) : K unit :=
  let p := PGROUNDUP pa_start in
  for_acc (seq 0 (Z.to_nat ((pa_end - p) / PGSIZE)))
    (fun i _ => kfree (p + Z.of_nat i * PGSIZE)) tt.

Definition kinit : K unit :=
  initlock kmem_lock "kmem" ;;
  freerange end_ PHYSTOP.

Definition kalloc : K Z :=
  acquire kmem_lock ;;
  r ← gets (fun s => g_freelist (k_sub s));
  when (negb (r =? 0)) (
    next ← ld64 r;
    modify (upd_sub (fun g => g <| g_freelist := next |>))) ;;
  release kmem_lock ;;
  when (negb (r =? 0)) (with_ram (memset r 5 PGSIZE)) ;;
  mret r.

End ops.

(** * The free list *)

Section free_list.
Context `{Layout}.

Definition is_page (pa : Z) : Prop := pa mod PGSIZE = 0 ∧ end_ <= pa < PHYSTOP.

(** The pages [pages] are linked from [head] through their first 8 bytes. *)
Fixpoint linked (m : mem) (head : Z) (pages : list Z) : Prop :=
  match pages with
  | [] => head = 0
  | p :: pages' =>
      head = p ∧ p ≠ 0 ∧
      ∃ next, read_bytes 8 p m = Some (le_bytes 8 next) ∧ 0 <= next < 2 ^ 64 ∧
              linked m next pages'
  end.

(** The allocator holds exactly [pages], top first. *)
Definition kmem_inv (s : kst) (pages : list Z) : Prop :=
  linked (g_ram (k_sub s)) (g_freelist (k_sub s)) pages ∧
  NoDup pages ∧ Forall is_page pages ∧
  (∀ pa, is_page pa → mapped pa PGSIZE (g_ram (k_sub s))) ∧ 0 < end_.

(** [s'] is [s] but for the memory from [pa] on and the head of the free list. *)
Definition same_but_page (pa : Z) (s s' : kst) : Prop :=
  s' = upd_sub (fun g => g <| g_ram := g_ram (k_sub s') |>
                          <| g_freelist := g_freelist (k_sub s') |>) (settled s) ∧
  ∀ a, ¬ (pa <= a < pa + PGSIZE) → g_ram (k_sub s') !! a = g_ram (k_sub s) !! a.

Lemma page_disjoint pa p : pa mod PGSIZE = 0 → p mod PGSIZE = 0 → pa ≠ p →
  pa + PGSIZE <= p ∨ p + PGSIZE <= pa.
Proof.
  unfold PGSIZE. intros H1 H2 Hne.
  pose proof (Z.div_mod pa 4096). pose proof (Z.div_mod p 4096).
  assert (pa / 4096 ≠ p / 4096) by (intros E; apply Hne; lia). lia.
Qed.

Lemma linked_agree m m' head pages :
  (∀ p a, p ∈ pages → p <= a < p + 8 → m' !! a = m !! a) →
  linked m head pages → linked m' head pages.
Proof.
  revert head. induction pages as [|p pages IH]; intros head Hag; simpl; [done|].
  intros (-> & H0 & next & Hr & Hn & Hl). split; [done|]. split; [done|]. exists next.
  split; [|split; [done|]].
  - rewrite <- Hr. apply read_bytes_agree. intros x Hx. apply (Hag p); [by left|lia].
  - apply IH; [|done]. intros q a Hq. apply Hag. by right.
Qed.

Lemma mapped_agree a n m m' : (∀ x, is_Some (m !! x) → is_Some (m' !! x)) → mapped a n m → mapped a n m'.
Proof. intros Hag Hm i Hi. auto. Qed.

(** Filling a page, and storing a link into it. *)
Lemma fill_page c pa m :
  mapped pa PGSIZE m →
  ∃ m', memset pa c PGSIZE m = Some m' ∧
    (∀ a, m' !! a = if decide (pa <= a < pa + PGSIZE) then Some (uchar c) else m !! a) ∧
    ∀ x, is_Some (m !! x) → is_Some (m' !! x).
Proof.
  intros Hm. destruct (memset_loop_spec (Z.to_nat PGSIZE) pa c m Hm) as (m' & Hr & Hm').
  exists m'. split; [exact Hr|]. split; [exact Hm'|]. intros x Hx. rewrite Hm'.
  destruct (decide _); [by eexists|done].
Qed.

Lemma store_link pa next m :
  mapped pa 8 m → ∃ m', write_bytes (le_bytes 8 next) pa m = Some m' ∧
    read_bytes 8 pa m' = Some (le_bytes 8 next) ∧
    (∀ a, ¬ (pa <= a < pa + 8) → m' !! a = m !! a) ∧
    ∀ x, is_Some (m !! x) → is_Some (m' !! x).
Proof.
  intros Hm. destruct (write_bytes_spec (le_bytes 8 next) pa m) as (m' & Hr & Hb & Ho).
  { by rewrite length_le_bytes. }
  rewrite length_le_bytes in Ho. exists m'. split; [done|].
  split; [apply read_bytes_at; [apply length_le_bytes|done]|]. split; [exact Ho|].
  intros x Hx. destruct (decide (pa <= x < pa + 8)) as [Hin|Hout]; [|by rewrite Ho].
  destruct (lookup_lt_is_Some_2 (le_bytes 8 next) (Z.to_nat (x - pa))) as [b Hxb].
  { rewrite length_le_bytes. lia. }
  exists b. replace x with (pa + Z.of_nat (Z.to_nat (x - pa))) by lia. by apply Hb.
Qed.

Lemma free_not_lock_settle l (s : kst) : free l (k_mach s) → free l (k_mach (settled s)).
Proof. done. Qed.

Lemma kfree_run pa pages (s : kst) :
  hart_ok (k_mach s) → free kmem_lock (k_mach s) → kmem_inv s pages →
  is_page pa → pa ∉ pages →
  ∃ s', kfree pa s = Ret tt s' ∧ kmem_inv s' (pa :: pages) ∧ same_but_page pa s s'.
Proof.
  intros Hok Hfree (Hlk & Hnd & Hpg & Hmap & Hend) Hpa Hnin. pose proof Hpa as [Hal Hrg].
  destruct (fill_page 1 pa (g_ram (k_sub s)) (Hmap pa Hpa)) as (m1 & Hm1 & Hv1 & Hk1).
  destruct (store_link pa (g_freelist (k_sub s)) m1) as (m2 & Hm2 & Hr2 & Hv2 & Hk2).
  { eapply (mapped_agree pa 8 (g_ram (k_sub s))); [exact Hk1|].
    eapply mapped_sub; [by apply Hmap|lia|unfold PGSIZE; lia]. }
  assert (∀ a, ¬ (pa <= a < pa + PGSIZE) → m2 !! a = g_ram (k_sub s) !! a) as Hout.
  { intros a Ha. rewrite Hv2 by (unfold PGSIZE in Ha; lia). rewrite Hv1.
    by rewrite decide_False. }
  assert (0 <= g_freelist (k_sub s) < 2 ^ 64) as Hfl.
  { destruct pages as [|p pages']; simpl in Hlk; [lia|]. destruct Hlk as (-> & _).
    apply Forall_cons in Hpg as [[_ Hp] _]. unfold PHYSTOP, KERNBASE in Hp. lia. }
  set (s' := upd_sub (fun g => g <| g_ram := m2 |> <| g_freelist := pa |>) (settled s)).
  exists s'. split; [|split].
  - unfold kfree. rewrite (proj2 (Z.eqb_eq _ _) Hal). simpl.
    rewrite (proj2 (Z.ltb_ge _ _)) by lia. rewrite (proj2 (Z.leb_gt _ _)) by lia. simpl.
    erewrite bind_Ret; [|by apply with_ram_run].
    erewrite bind_Ret; [|by apply acquire_lock].
    erewrite bind_Ret; [|done]. erewrite bind_Ret; [|apply with_ram_run; exact Hm2].
    erewrite bind_Ret; [|done].
    rewrite (release_held kmem_lock _ (k_mach s)); [|done|done|done]. reflexivity.
  - unfold kmem_inv. change (g_ram (k_sub s')) with m2. change (g_freelist (k_sub s')) with pa.
    split; [|split; [by constructor|split; [by constructor|split; [|done]]]].
    + split; [done|]. split; [lia|]. exists (g_freelist (k_sub s)). split; [done|]. split; [done|].
      eapply linked_agree; [|exact Hlk]. intros p a Hp Ha. apply Hout.
      assert (is_page p) as [Hpal _] by (by eapply Forall_forall in Hpg).
      destruct (page_disjoint pa p Hal Hpal); [by intros ->|unfold PGSIZE in *; lia..].
    + intros p Hp. eapply mapped_agree; [exact Hk2|]. eapply mapped_agree; [exact Hk1|]. auto.
  - split; [reflexivity|exact Hout].
Qed.

Lemma kalloc_run p pages (s : kst) :
  hart_ok (k_mach s) → free kmem_lock (k_mach s) → kmem_inv s (p :: pages) →
  ∃ s', kalloc s = Ret p s' ∧ kmem_inv s' pages ∧ same_but_page p s s' ∧
    ∀ a, p <= a < p + PGSIZE → g_ram (k_sub s') !! a = Some 5.
Proof.
  intros Hok Hfree ((Hhd & H0 & next & Hr & Hnx & Hlk) & Hnd & Hpg & Hmap & Hend).
  apply Forall_cons in Hpg as [Hp Hpg]. apply NoDup_cons in Hnd as [Hnin Hnd].
  destruct (fill_page 5 p (g_ram (k_sub s)) (Hmap p Hp)) as (m1 & Hm1 & Hv1 & Hk1).
  set (s' := upd_sub (fun g => g <| g_ram := m1 |> <| g_freelist := next |>) (settled s)).
  exists s'. split; [|split; [|split]].
  - unfold kalloc. erewrite bind_Ret; [|by apply acquire_lock].
    erewrite bind_Ret; [|done]. simpl g_freelist. rewrite Hhd.
    rewrite (proj2 (Z.eqb_neq _ _) H0). simpl negb. unfold when.
    erewrite bind_Ret.
    2: { erewrite bind_Ret; [reflexivity|]. unfold ld64, deref. simpl g_ram. rewrite Hr. simpl fmap.
         rewrite le_value_bytes by (simpl; lia). reflexivity. }
    erewrite bind_Ret.
    2: { rewrite (release_held kmem_lock _ (k_mach s)); [reflexivity|done|done|done]. }
    erewrite bind_Ret; [|apply with_ram_run; exact Hm1]. reflexivity.
  - unfold kmem_inv. change (g_ram (k_sub s')) with m1. change (g_freelist (k_sub s')) with next.
    split; [|split; [done|split; [done|split; [|done]]]].
    + eapply linked_agree; [|exact Hlk]. intros q a Hq Ha. rewrite Hv1. apply decide_False.
      assert (is_page q) as [Hqal _] by (by eapply Forall_forall in Hpg).
      destruct (page_disjoint p q (proj1 Hp) Hqal); [by intros ->|unfold PGSIZE in *; lia..].
    + intros q Hq. eapply mapped_agree; [exact Hk1|]. auto.
  - split; [reflexivity|]. intros a Ha. change (g_ram (k_sub s')) with m1. rewrite Hv1.
    by rewrite decide_False.
  - intros a Ha. change (g_ram (k_sub s')) with m1. rewrite Hv1. by rewrite decide_True.
Qed.

Lemma kalloc_empty (s : kst) :
  hart_ok (k_mach s) → free kmem_lock (k_mach s) → kmem_inv s [] →
  kalloc s = Ret 0 (settled s).
Proof.
  intros Hok Hfree (Hlk & _). simpl in Hlk. unfold kalloc.
  erewrite bind_Ret; [|by apply acquire_lock]. erewrite bind_Ret; [|done].
  simpl g_freelist. rewrite Hlk. simpl. erewrite bind_Ret; [|done].
  erewrite bind_Ret; [|by apply release_lock]. by erewrite bind_Ret.
Qed.

End free_list.

(** * Rounding to pages *)

Lemma mask_page x : 0 <= x < 2 ^ 64 → Z.land x (uint64 (Z.lnot (PGSIZE - 1))) = x / PGSIZE * PGSIZE.
Proof.
  intros Hx. unfold uint64, PGSIZE. rewrite <- (Z.land_ones _ 64) by lia.
  rewrite (Z.land_comm (Z.lnot _)), Z.land_assoc, Z.land_ones by lia.
  rewrite Z.mod_small by lia. change (4096 - 1) with (Z.ones 12).
  rewrite <- Z.ldiff_land, Z.ldiff_ones_r by lia.
  by rewrite Z.shiftl_mul_pow2, Z.shiftr_div_pow2 by lia.
Qed.

Lemma PGROUNDUP_spec sz :
  0 <= sz < 2 ^ 64 - PGSIZE → PGROUNDUP sz = (sz + PGSIZE - 1) / PGSIZE * PGSIZE.
Proof.
  intros H. unfold PGROUNDUP. rewrite uint64_small by (unfold PGSIZE in *; lia).
  apply mask_page. unfold PGSIZE in *. lia.
Qed.

Lemma PGROUNDUP_page sz :
  0 <= sz < 2 ^ 64 - PGSIZE → PGROUNDUP sz mod PGSIZE = 0 ∧ sz <= PGROUNDUP sz < sz + PGSIZE.
Proof.
  intros H. rewrite PGROUNDUP_spec by done. unfold PGSIZE in *. split.
  - apply Z.mod_mul. lia.
  - pose proof (Z.div_mod (sz + 4096 - 1) 4096). pose proof (Z.mod_pos_bound (sz + 4096 - 1) 4096). lia.
Qed.

Section init.
Context `{Layout}.

(** The pages of a range, from [p] on. *)
Definition pages_from (p : Z) (n : nat) : list Z := (fun i => p + Z.of_nat i * PGSIZE) <$> seq 0 n.

Lemma pages_from_S p n : pages_from p (S n) = pages_from p n ++ [p + Z.of_nat n * PGSIZE].
Proof. unfold pages_from. by rewrite seq_S, fmap_app. Qed.

Lemma elem_of_pages_from q p n :
  q ∈ pages_from p n → ∃ i, (i < n)%nat ∧ q = p + Z.of_nat i * PGSIZE.
Proof. intros (i & -> & Hi%elem_of_seq)%list_elem_of_fmap. exists i. split; [lia|done]. Qed.

Lemma freerange_loop p n j (s : kst) :
  hart_ok (k_mach s) → free kmem_lock (k_mach s) → kmem_inv s (reverse (pages_from p j)) →
  (∀ i, (i < j + n)%nat → is_page (p + Z.of_nat i * PGSIZE)) →
  ∃ s', for_acc (seq j n) (fun i _ => kfree (p + Z.of_nat i * PGSIZE)) tt s = Ret tt s' ∧
    kmem_inv s' (reverse (pages_from p (j + n))).
Proof.
  revert j s. induction n as [|n IH]; intros j s Hok Hf Hinv Hpg; cbn [seq for_acc].
  { exists s. by rewrite Nat.add_0_r. }
  destruct (kfree_run (p + Z.of_nat j * PGSIZE) (reverse (pages_from p j)) s)
    as (s1 & Hr & Hinv1 & Hs1 & _); [done|done|done| | |].
  { apply Hpg. lia. }
  { rewrite elem_of_reverse. intros (i & Hi & E)%elem_of_pages_from. unfold PGSIZE in E. lia. }
  assert (k_mach s1 = settle (k_mach s)) as Em by (by rewrite Hs1).
  destruct (IH (S j) s1) as (s' & Hr' & Hinv').
  - rewrite Em. by apply hart_ok_settle.
  - by rewrite Em.
  - by rewrite pages_from_S, reverse_app.
  - intros i Hi. apply Hpg. lia.
  - exists s'. split; [erewrite bind_Ret; [exact Hr'|exact Hr]|].
    by replace (j + S n)%nat with (S j + n)%nat by lia.
Qed.

End init.

(** kinit puts every page between the end of the kernel and PHYSTOP on the free
    list, each once. *)
Theorem kinit_frees_all `{Layout} (s : kst) :
  hart_ok (k_mach s) → 0 < end_ <= PHYSTOP → g_freelist (k_sub s) = 0 →
  (∀ pa, is_page pa → mapped pa PGSIZE (g_ram (k_sub s))) →
  ∃ s', kinit s = Ret tt s' ∧
    kmem_inv s' (reverse (pages_from (PGROUNDUP end_)
                            (Z.to_nat ((PHYSTOP - PGROUNDUP end_) / PGSIZE)))) ∧
    ∀ pa, is_page pa → pa ∈ pages_from (PGROUNDUP end_)
                              (Z.to_nat ((PHYSTOP - PGROUNDUP end_) / PGSIZE)).
Proof.
  intros Hok Hend Hfl Hmap.
  assert (PHYSTOP mod PGSIZE = 0) as Hstop by reflexivity.
  destruct (PGROUNDUP_page end_) as [Hal Hrg]; [unfold PHYSTOP, KERNBASE, PGSIZE in *; lia|].
  set (p := PGROUNDUP end_) in *. set (n := Z.to_nat ((PHYSTOP - p) / PGSIZE)).
  set (s0 := on_mach ((k_mach s) <| locks ::= <[kmem_lock := mkspinlock 0 "kmem" None]> |>) s).
  assert (∃ k, p = k * PGSIZE) as [k Ek] by (by apply Z.mod_divide in Hal as [k ?]; [exists k|]).
  assert (∃ e, PHYSTOP = e * PGSIZE) as [e Ee] by (by apply Z.mod_divide in Hstop as [k' ?]; [exists k'|]).
  assert ((PHYSTOP - p) / PGSIZE = e - k) as Ediv.
  { rewrite Ek, Ee. replace (e * PGSIZE - k * PGSIZE) with ((e - k) * PGSIZE) by lia.
    by apply Z.div_mul. }
  destruct (freerange_loop p n 0 s0) as (s' & Hr & Hinv).
  - destruct Hok as (c & Hc & H0). by exists c.
  - exists "kmem"%string. simpl. apply lookup_insert_eq.
  - split; [done|]. split; [constructor|]. split; [constructor|]. split; [exact Hmap|lia].
  - intros i Hi. split.
    + rewrite Ek. replace (k * PGSIZE + Z.of_nat i * PGSIZE) with ((k + Z.of_nat i) * PGSIZE) by lia.
      by apply Z.mod_mul.
    + unfold PGSIZE in *. lia.
  - exists s'. split; [|split; [exact Hinv|]].
    + unfold kinit. erewrite bind_Ret; [|reflexivity]. exact Hr.
    + intros pa [Hpal Hpr]. apply Z.mod_divide in Hpal as [a Ea]; [|done].
      apply list_elem_of_fmap. exists (Z.to_nat (a - k)). rewrite elem_of_seq.
      unfold PGSIZE in *. split; lia.
Qed.

(** kfree of an allocated page puts it on top of the free list and the next
    kalloc returns it, filled with junk; both change nothing but that page and the
    list. *)
Theorem kalloc_kfree_stack `{Layout} (pages : list Z) (pa : Z) (s : kst) :
  hart_ok (k_mach s) → free kmem_lock (k_mach s) → kmem_inv s pages →
  is_page pa → pa ∉ pages →
  ∃ s1 s2, kfree pa s = Ret tt s1 ∧ kmem_inv s1 (pa :: pages) ∧ same_but_page pa s s1 ∧
    kalloc s1 = Ret pa s2 ∧ kmem_inv s2 pages ∧ same_but_page pa s s2 ∧
    ∀ a, pa <= a < pa + PGSIZE → g_ram (k_sub s2) !! a = Some 5.
Proof.
  intros Hok Hf Hinv Hpa Hnin.
  destruct (kfree_run pa pages s) as (s1 & Hr1 & Hi1 & Hs1 & Ho1); [done..|].
  assert (k_mach s1 = settle (k_mach s)) as Em by (by rewrite Hs1).
  destruct (kalloc_run pa pages s1) as (s2 & Hr2 & Hi2 & [Hs2 Ho2] & Hfill).
  - rewrite Em. by apply hart_ok_settle.
  - by rewrite Em.
  - done.
  - exists s1, s2. split_and!; try done. split.
    + rewrite Hs2, Hs1. unfold settled. simpl. by rewrite settle_settle.
    + intros a Ha. rewrite Ho2, Ho1 by done. done.
Qed.

(** kalloc with an empty free list returns 0 and changes nothing. *)
Theorem kalloc_out_of_memory `{Layout} (s : kst) :
  hart_ok (k_mach s) → free kmem_lock (k_mach s) → kmem_inv s [] → kalloc s = Ret 0 (settled s).
Proof. apply kalloc_empty. Qed.

(** ** A kernel with four pages of memory *)

Definition ex_layout : Layout :=
  mkLayout (PHYSTOP - 4 * PGSIZE) (KERNBASE + 0x8000) (KERNBASE + 0x7000) 0 0x9c
    (KERNBASE + 0x5000) (KERNBASE + 0x1a00) (KERNBASE + 0x1f00).

Definition zero_ram (a : Z) (n : nat) : mem :=
  list_to_map ((fun i => (a + Z.of_nat i, 0)) <$> seq 0 n).

Lemma zero_ram_lookup a n x : a <= x < a + n → zero_ram a (Z.to_nat n) !! x = Some 0.
Proof.
  intros Hx. apply elem_of_list_to_map_1.
  - rewrite <- list_fmap_compose. apply NoDup_fmap_2; [|apply NoDup_seq].
    intros y z. simpl. lia.
  - apply list_elem_of_fmap. exists (Z.to_nat (x - a)). split; [f_equal; lia|]. apply elem_of_seq. lia.
Qed.

Lemma zero_ram_mapped a n : mapped a n (zero_ram a (Z.to_nat n)).
Proof. intros i Hi. exists 0. apply zero_ram_lookup. lia. Qed.

Definition sub0 (m : mem) : sub :=
  mksub m 0 0 (replicate NFILE (mkfile FD_NONE 0 0 0 0 0 0 0))
    (replicate NINODE (mkinode 0 0 0 (mksleeplock 0 0) 0 0 0 0 0 0 (replicate 13 0)))
    (mksuperblock 0 0 0 0 0 0 0 0)
    (replicate (S NBUF) (mkbuf 0 0 0 0 (mksleeplock 0 0) 0 0 0 (replicate (Z.to_nat BSIZE) 0)))
    (mklog 0 0 0 0 0 (mklogheader 0 (replicate (Z.to_nat LOGSIZE) 0)))
    [] ∅ (mkconsole (replicate 128 0) 0 0 0) (mkuart (replicate 32 0) 0 0 [] [] [] []) false
    1 (replicate (Z.to_nat NDEV) false)
    (mkvdisk (replicate 8 (mkdesc DmaNull 0 0 0)) 0 (replicate 8 0) 0 (replicate 8 0) (replicate 8 1) 0
       (replicate 8 None) (replicate 8 0) (replicate 8 (mkreq 0 0 0)) ∅) 1 ∅ ∅ ∅ ∅.

Definition ex_kernel : kst :=
  boot_with (sub0 (zero_ram (PHYSTOP - 4 * PGSIZE) (Z.to_nat (4 * PGSIZE)))) 0 0.

Lemma ex_mapped pa :
  @is_page ex_layout pa → mapped pa PGSIZE (g_ram (k_sub ex_kernel)).
Proof.
  intros [Hal Hr]. simpl end_ in Hr.
  apply (mapped_sub (PHYSTOP - 4 * PGSIZE) (4 * PGSIZE)); [|lia|].
  - apply zero_ram_mapped.
  - assert (PHYSTOP mod PGSIZE = 0) as Hs by reflexivity.
    destruct (page_disjoint pa PHYSTOP Hal Hs); [lia|lia|]. unfold PGSIZE in *. lia.
Qed.

Lemma ex_kmem : @kmem_inv ex_layout ex_kernel [].
Proof.
  split; [done|]. split; [constructor|]. split; [constructor|]. split; [apply ex_mapped|done].
Qed.

Lemma kinit_frees_all_witness :
  ∃ s', @kinit ex_layout ex_kernel = Ret tt s' ∧
    @kmem_inv ex_layout s' [PHYSTOP - PGSIZE; PHYSTOP - 2 * PGSIZE; PHYSTOP - 3 * PGSIZE; PHYSTOP - 4 * PGSIZE].
Proof.
  destruct (@kinit_frees_all ex_layout ex_kernel) as (s' & Hr & Hi & _).
  - apply boot_at_rest.
  - simpl end_. unfold PHYSTOP, KERNBASE, PGSIZE. lia.
  - reflexivity.
  - apply ex_mapped.
  - exists s'. split; [exact Hr|exact Hi].
Defined.

Lemma kalloc_kfree_stack_witness :
  ∃ s1 s2, @kfree ex_layout (PHYSTOP - PGSIZE) ex_kernel = Ret tt s1 ∧
    @kalloc s1 = Ret (PHYSTOP - PGSIZE) s2.
Proof.
  destruct (@kalloc_kfree_stack ex_layout [] (PHYSTOP - PGSIZE) ex_kernel)
    as (s1 & s2 & Hr1 & _ & _ & Hr2 & _).
  - apply boot_at_rest.
  - apply (boot_global_lock "kmem"). by repeat (left || right).
  - apply ex_kmem.
  - split; [reflexivity|]. simpl end_. unfold PHYSTOP, KERNBASE, PGSIZE. lia.
  - apply not_elem_of_nil.
  - exists s1, s2. split; [exact Hr1|exact Hr2].
Defined.

Lemma kalloc_out_of_memory_witness : @kalloc ex_kernel = Ret 0 (settled ex_kernel).
Proof.
  apply (@kalloc_out_of_memory ex_layout).
  - apply boot_at_rest.
  - apply (boot_global_lock "kmem"). by repeat (left || right).
  - apply ex_kmem.
Defined.
