(* ===== verification/Vm.v ===== *)
(** Page tables, kernel/vm.c with the page table macros of kernel/riscv.h.

    Page tables live in physical memory; [walk] reads and writes their 64-bit
    entries there.  Buffers of the caller that are kernel objects are lists of
    bytes: [copyout] takes one, [copyin] and [copyinstr] give one back.  A loop
    over pages has as fuel the number of pages it can visit. *)

From stdpp Require Import base gmap strings numbers list.
From S2P Require Import Prelude Spinlock Kstate Sched CString Globals Kalloc.
Local Open Scope Z_scope.

Definition PTE_V : Z := Z.shiftl 1 0.
Definition PTE_R : Z := Z.shiftl 1 1.
Definition PTE_W : Z := Z.shiftl 1 2.
Definition PTE_X : Z := Z.shiftl 1 3.
Definition PTE_U : Z := Z.shiftl 1 4.

Definition PA2PTE (pa : Z) : Z := uint64 (Z.shiftl (Z.shiftr pa 12) 10).
Definition PTE2PA (pte : Z) : Z := uint64 (Z.shiftl (Z.shiftr pte 10) 12).
Definition PTE_FLAGS (pte : Z) : Z := Z.land pte 0x3FF.
Definition PX (level va : Z) : Z := Z.land (Z.shiftr va (12 + 9 * level)) 0x1FF.

(** [pte & flag]. *)
Definition has (pte flag : Z) : bool := negb (Z.land pte flag =? 0).

(** [&pagetable[PX(level, va)]]. *)
Definition pte_addr (pagetable level va : Z) : Z := pagetable + 8 * PX level va.

Definition UART0 : Z := 0x10000000.
Definition VIRTIO0 : Z := 0x10001000.
Definition PLIC : Z := 0x0c000000.

Definition SATP_SV39 : Z := Z.shiftl 8 60.
Definition MAKE_SATP (pagetable : Z) : Z := Z.lor SATP_SV39 (Z.shiftr pagetable 12).

Section ops.
Context `{Layout}.

(** The [for(int level = 2; level > 0; level--)] of [walk], and its return. *)
Fixpoint walk_from (levels : list Z) (pagetable va : Z) (alloc : bool) : K Z :=
  match levels with
  | [] => mret (pte_addr pagetable 0 va)
  | level :: levels' =>
      let pte := pte_addr pagetable level va in
      e ← ld64 pte;
      if has e PTE_V then walk_from levels' (PTE2PA e) va alloc
      else if negb alloc then mret 0
      else
        page ← kalloc;
        if page =? 0 then mret 0 else
        with_ram (memset page 0 PGSIZE) ;;
        st64 pte (Z.lor (PA2PTE page) PTE_V) ;;
        walk_from levels' page va alloc
  end.

Definition walk (pagetable va : Z) (alloc : bool) : K Z :=
  if MAXVA <=? va then panic "walk" else walk_from [2; 1] pagetable va alloc.

Definition walkaddr (pagetable va : Z) : K Z :=
  if MAXVA <=? va then mret 0 else
  pte ← walk pagetable va false;
  if pte =? 0 then mret 0 else
  e ← ld64 pte;
  if negb (has e PTE_V) then mret 0
  else if negb (has e PTE_U) then mret 0
  else mret (PTE2PA e).

(** The [for(;;)] of [mappages], which ends at [a == last]. *)
Fixpoint map_loop (fuel : nat) (pagetable a last pa perm : Z) : K Z :=
  match fuel with
  | O => spin
  | S fuel' =>
      pte ← walk pagetable a true;
      if pte =? 0 then mret (-1) else
      e ← ld64 pte;
      if has e PTE_V then panic "mappages: remap" else
      st64 pte (Z.lor (Z.lor (PA2PTE pa) perm) PTE_V) ;;
      if a =? last then mret 0
      else map_loop fuel' pagetable (uint64 (a + PGSIZE)) last (uint64 (pa + PGSIZE)) perm
  end.

Definition mappages (pagetable va size pa perm : Z) : K Z :=
  if negb (va mod PGSIZE =? 0) then panic "mappages: va not aligned" else
  if negb (size mod PGSIZE =? 0) then panic "mappages: size not aligned" else
  if size =? 0 then panic "mappages: size" else
  map_loop (Z.to_nat (size / PGSIZE)) pagetable va (uint64 (va + size - PGSIZE)) pa perm.

Definition kvmmap (kpgtbl va pa sz perm : Z) : K unit :=
  r ← mappages kpgtbl va sz pa perm;
  if negb (r =? 0) then panic "kvmmap" else mret tt.

Fixpoint unmap_loop (n : nat) (pagetable a : Z) (do_free : bool) : K unit :=
  match n with
  | O => mret tt
  | S n' =>
      pte ← walk pagetable a false;
      if pte =? 0 then panic "uvmunmap: walk" else
      e ← ld64 pte;
      if negb (has e PTE_V) then panic "uvmunmap: not mapped" else
      if PTE_FLAGS e =? PTE_V then panic "uvmunmap: not a leaf" else
      when do_free (kfree (PTE2PA e)) ;;
      st64 pte 0 ;;
      unmap_loop n' pagetable (uint64 (a + PGSIZE)) do_free
  end.

Definition uvmunmap (pagetable va npages : Z) (do_free : bool) : K unit :=
  if negb (va mod PGSIZE =? 0) then panic "uvmunmap: not aligned" else
  unmap_loop (Z.to_nat npages) pagetable va do_free.

Definition uvmcreate : K Z :=
  pagetable ← kalloc;
  if pagetable =? 0 then mret 0 else
  with_ram (memset pagetable 0 PGSIZE) ;;
  mret pagetable.

Definition uvmfirst (pagetable : Z) (src : list Z) : K unit :=
  if PGSIZE <=? Z.of_nat (length src) then panic "uvmfirst: more than a page" else
  mem ← kalloc;
  with_ram (memset mem 0 PGSIZE) ;;
  mappages pagetable 0 PGSIZE mem (Z.lor (Z.lor (Z.lor PTE_W PTE_R) PTE_X) PTE_U) ;;
  with_ram (write_bytes src mem).

Definition uvmdealloc (pagetable oldsz newsz : Z) : K Z :=
  if oldsz <=? newsz then mret oldsz else
  when (PGROUNDUP newsz <? PGROUNDUP oldsz) (
    let npages := int ((PGROUNDUP oldsz - PGROUNDUP newsz) / PGSIZE) in
    uvmunmap pagetable (PGROUNDUP newsz) npages true) ;;
  mret newsz.

(** The loop of [uvmalloc], with [a] the next address to back with a page. *)
Fixpoint alloc_loop (fuel : nat) (pagetable a oldsz newsz xperm : Z) : K Z :=
  if newsz <=? a then mret newsz else
  match fuel with
  | O => spin
  | S fuel' =>
      mem ← kalloc;
      if mem =? 0 then uvmdealloc pagetable a oldsz ;; mret 0 else
      with_ram (memset mem 0 PGSIZE) ;;
      r ← mappages pagetable a PGSIZE mem (Z.lor (Z.lor PTE_R PTE_U) xperm);
      if negb (r =? 0) then
        kfree mem ;; uvmdealloc pagetable a oldsz ;; mret 0
      else alloc_loop fuel' pagetable (uint64 (a + PGSIZE)) oldsz newsz xperm
  end.

Definition uvmalloc (pagetable oldsz newsz xperm : Z) : K Z :=
  if newsz <? oldsz then mret oldsz else
  let oldsz := PGROUNDUP oldsz in
  alloc_loop (Z.to_nat ((newsz - oldsz) / PGSIZE + 1)) pagetable oldsz oldsz newsz xperm.

(** [depth] is the number of levels below [pagetable] that may be page tables. *)
Fixpoint freewalk (depth : nat) (pagetable : Z) : K unit :=
  for_acc (seq 0 512)
    (fun i _ =>
       pte ← ld64 (pagetable + 8 * Z.of_nat i);
       if has pte PTE_V && (Z.land pte (Z.lor (Z.lor PTE_R PTE_W) PTE_X) =? 0) then
         let child := PTE2PA pte in
         match depth with
         | O => spin
         | S depth' => freewalk depth' child
         end ;;
         st64 (pagetable + 8 * Z.of_nat i) 0
       else if has pte PTE_V then panic "freewalk: leaf"
       else mret tt) tt ;;
  kfree pagetable.

Definition uvmfree (pagetable sz : Z) : K unit :=
  when (0 <? sz) (uvmunmap pagetable 0 (PGROUNDUP sz / PGSIZE) true) ;;
  freewalk 3 pagetable.

(** The loop of [uvmcopy]; on failure the pages copied so far are given back. *)
Fixpoint copy_loop (fuel : nat) (old new i sz : Z) : K Z :=
  if sz <=? i then mret 0 else
  match fuel with
  | O => spin
  | S fuel' =>
      pte ← walk old i false;
      if pte =? 0 then panic "uvmcopy: pte should exist" else
      e ← ld64 pte;
      if negb (has e PTE_V) then panic "uvmcopy: page not present" else
      let pa := PTE2PA e in
      let flags := PTE_FLAGS e in
      mem ← kalloc;
      if mem =? 0 then uvmunmap new 0 (i / PGSIZE) true ;; mret (-1) else
      with_ram (memmove mem pa PGSIZE) ;;
      r ← mappages new i PGSIZE mem flags;
      if negb (r =? 0) then
        kfree mem ;; uvmunmap new 0 (i / PGSIZE) true ;; mret (-1)
      else copy_loop fuel' old new (uint64 (i + PGSIZE)) sz
  end.

Definition uvmcopy (old new sz : Z) : K Z :=
  copy_loop (Z.to_nat (sz / PGSIZE + 1)) old new 0 sz.

Definition uvmclear (pagetable va : Z) : K unit :=
  pte ← walk pagetable va false;
  if pte =? 0 then panic "uvmclear" else
  e ← ld64 pte;
  st64 pte (Z.land e (uint64 (Z.lnot PTE_U))).

(** The loop of [copyout]: [src] is what is left to copy. *)
Fixpoint copyout_loop (fuel : nat) (pagetable dstva : Z) (src : list Z) : K Z :=
  if Z.of_nat (length src) =? 0 then mret 0 else
  match fuel with
  | O => spin
  | S fuel' =>
      let va0 := PGROUNDDOWN dstva in
      if MAXVA <=? va0 then mret (-1) else
      pte ← walk pagetable va0 false;
      if pte =? 0 then mret (-1) else
      e ← ld64 pte;
      if negb (has e PTE_V) || negb (has e PTE_U) || negb (has e PTE_W) then mret (-1) else
      let pa0 := PTE2PA e in
      let n := Z.min (PGSIZE - (dstva - va0)) (Z.of_nat (length src)) in
      with_ram (write_bytes (take (Z.to_nat n) src) (pa0 + (dstva - va0))) ;;
      copyout_loop fuel' pagetable (uint64 (va0 + PGSIZE)) (drop (Z.to_nat n) src)
  end.

Definition copyout (pagetable dstva : Z) (src : list Z) : K Z :=
  copyout_loop (S (length src)) pagetable dstva src.

(** The status and the bytes that were copied. *)
Fixpoint copyin_loop (fuel : nat) (pagetable srcva len : Z) : K (Z * list Z) :=
  if len =? 0 then mret (0, []) else
  match fuel with
  | O => spin
  | S fuel' =>
      let va0 := PGROUNDDOWN srcva in
      pa0 ← walkaddr pagetable va0;
      if pa0 =? 0 then mret (-1, []) else
      let n := Z.min (PGSIZE - (srcva - va0)) len in
      bytes ← deref (fun s => read_bytes (Z.to_nat n) (pa0 + (srcva - va0)) (g_ram (k_sub s)));
      r ← copyin_loop fuel' pagetable (uint64 (va0 + PGSIZE)) (len - n);
      mret (r.1, bytes ++ r.2)
  end.

Definition copyin (pagetable srcva len : Z) : K (Z * list Z) :=
  copyin_loop (S (Z.to_nat len)) pagetable srcva len.

(** The bytes of one page up to and including a nul, and whether there was one. *)
Fixpoint copy_until_nul (l : list Z) : list Z * bool :=
  match l with
  | [] => ([], false)
  | b :: l' => if b =? 0 then ([0], true) else let '(r, z) := copy_until_nul l' in (b :: r, z)
  end.

Fixpoint copyinstr_loop (fuel : nat) (pagetable srcva max : Z) : K (Z * list Z) :=
  if max =? 0 then mret (-1, []) else
  match fuel with
  | O => spin
  | S fuel' =>
      let va0 := PGROUNDDOWN srcva in
      pa0 ← walkaddr pagetable va0;
      if pa0 =? 0 then mret (-1, []) else
      let n := Z.min (PGSIZE - (srcva - va0)) max in
      bytes ← deref (fun s => read_bytes (Z.to_nat n) (pa0 + (srcva - va0)) (g_ram (k_sub s)));
      let '(got, got_null) := copy_until_nul bytes in
      if got_null : bool then mret (0, got) else
      r ← copyinstr_loop fuel' pagetable (uint64 (va0 + PGSIZE)) (max - n);
      mret (r.1, got ++ r.2)
  end.

Definition copyinstr (pagetable srcva max : Z) : K (Z * list Z) :=
  copyinstr_loop (S (Z.to_nat max)) pagetable srcva max.

(** The kernel's own page table; the stacks of the processes are mapped last, in
    the order of the table. *)
Definition proc_mapstacks (kpgtbl : Z) : K unit :=
  for_acc (seq 0 NPROC)
    (fun i _ =>
       pa ← kalloc;
       if pa =? 0 then panic "kalloc" else
       kvmmap kpgtbl (KSTACK (Z.of_nat i)) pa PGSIZE (Z.lor PTE_R PTE_W)) tt.

Definition kvmmake : K Z :=
  kpgtbl ← kalloc;
  with_ram (memset kpgtbl 0 PGSIZE) ;;
  kvmmap kpgtbl UART0 UART0 PGSIZE (Z.lor PTE_R PTE_W) ;;
  kvmmap kpgtbl VIRTIO0 VIRTIO0 PGSIZE (Z.lor PTE_R PTE_W) ;;
  kvmmap kpgtbl PLIC PLIC 0x4000000 (Z.lor PTE_R PTE_W) ;;
  kvmmap kpgtbl KERNBASE KERNBASE (etext - KERNBASE) (Z.lor PTE_R PTE_X) ;;
  kvmmap kpgtbl etext etext (PHYSTOP - etext) (Z.lor PTE_R PTE_W) ;;
  kvmmap kpgtbl TRAMPOLINE trampoline PGSIZE (Z.lor PTE_R PTE_X) ;;
  proc_mapstacks kpgtbl ;;
  mret kpgtbl.

Definition kvminit : K unit :=
  kpgtbl ← kvmmake;
  modify (upd_sub (fun g => g <| g_kpgtbl := kpgtbl |>)).

(** [w_satp(MAKE_SATP(kernel_pagetable))]. *)
Definition kvminithart : K unit :=
  hart ← cpuid;
  modify (upd_sub (fun g => g <| g_satp ::= <[hart := MAKE_SATP (g_kpgtbl g)]> |>)).

End ops.
