(* ===== verification/VmProofs.v ===== *)
(** Page tables as trees: [walk], [mappages] and [walkaddr] (kernel/vm.c) keep
    the tree, and change the translation of exactly the mapped page. *)

From stdpp Require Import base gmap strings numbers list.
From S2P Require Import Prelude Spinlock Kstate Sched Boot CString Globals Kalloc Vm.
Local Open Scope Z_scope.

(** * Entries *)

(** Entry [i] of the page table page [p]. *)
Definition entry (m : mem) (p i : Z) : Z :=
  default 0 (le_value <$> read_bytes 8 (p + 8 * i) m).

Lemma PX_range level va : 0 <= PX level va < 512.
Proof.
  unfold PX. change 0x1FF with (Z.ones 9). rewrite Z.land_ones by lia.
  apply Z.mod_pos_bound. lia.
Qed.

Lemma has_valid a : has (Z.lor a PTE_V) PTE_V = true.
Proof.
  unfold has. rewrite Z.land_lor_distr_l. change (Z.land PTE_V PTE_V) with 1.
  destruct (Z.eqb_spec (Z.lor (Z.land a PTE_V) 1) 0) as [E|]; [|done].
  by apply Z.lor_eq_0_iff in E as [_ ?].
Qed.

Lemma PTE2PA_entry pa f :
  pa mod PGSIZE = 0 → 0 <= pa < 2 ^ 56 → 0 <= f < 2 ^ 10 →
  PTE2PA (Z.lor (PA2PTE pa) f) = pa.
Proof.
  unfold PTE2PA, PA2PTE, PGSIZE. intros Hal Hpa Hf.
  assert (Z.shiftr pa 12 = pa / 4096) as E by (by rewrite Z.shiftr_div_pow2 by lia).
  assert (0 <= pa / 4096 < 2 ^ 44) as Hq.
  { split; [apply Z.div_pos; lia|apply Z.div_lt_upper_bound; lia]. }
  rewrite E. rewrite (uint64_small (Z.shiftl (pa / 4096) 10)).
  2: { rewrite Z.shiftl_mul_pow2 by lia. lia. }
  rewrite Z.shiftr_lor, Z.shiftr_shiftl_l, Z.sub_diag, Z.shiftl_0_r by lia.
  rewrite (Z.shiftr_div_pow2 f) by lia. rewrite (Z.div_small f) by lia. rewrite Z.lor_0_r.
  rewrite Z.shiftl_mul_pow2 by lia. pose proof (Z.div_mod pa 4096).
  rewrite uint64_small by lia. lia.
Qed.

Lemma entry_range m p i e :
  read_bytes 8 (p + 8 * i) m = Some (le_bytes 8 e) → 0 <= e < 2 ^ 64 → entry m p i = e.
Proof. intros Hr He. unfold entry. rewrite Hr. simpl. by apply le_value_bytes. Qed.

Lemma entry_agree m m' p i :
  (∀ a, p + 8 * i <= a < p + 8 * i + 8 → m' !! a = m !! a) → entry m' p i = entry m p i.
Proof. intros H. unfold entry. by rewrite (read_bytes_agree 8 _ m m'). Qed.

(** The entries of a zeroed page. *)
Lemma entry_zero m p i :
  (∀ a, p <= a < p + PGSIZE → m !! a = Some 0) → 0 <= i < 512 → entry m p i = 0.
Proof.
  intros Hz Hi. unfold entry. rewrite (read_bytes_at 8 _ (replicate 8 0)); [done|done|].
  intros j b [-> Hj]%lookup_replicate. apply Hz. unfold PGSIZE. lia.
Qed.

(** Entries of different pages, or of different indices, do not overlap. *)
Lemma entry_disjoint p i p' i' a :
  p mod PGSIZE = 0 → p' mod PGSIZE = 0 → 0 <= i < 512 → 0 <= i' < 512 → (p, i) ≠ (p', i') →
  p + 8 * i <= a < p + 8 * i + 8 → ¬ (p' + 8 * i' <= a < p' + 8 * i' + 8).
Proof.
  intros Hp Hp' Hi Hi' Hne Ha Ha'. destruct (decide (p = p')) as [->|Hpp].
  - apply Hne. f_equal. lia.
  - destruct (page_disjoint p p' Hp Hp' Hpp); unfold PGSIZE in *; lia.
Qed.

Lemma entry_in_page p i a : 0 <= i < 512 → p + 8 * i <= a < p + 8 * i + 8 → p <= a < p + PGSIZE.
Proof. unfold PGSIZE. lia. Qed.

(** * The tree *)

(** The entry that translates [va], from the page [pt] on; 0 when there is none. *)
Fixpoint leaf_from (m : mem) (levels : list Z) (pt va : Z) : Z :=
  match levels with
  | [] => entry m pt (PX 0 va)
  | lv :: ls =>
      let e := entry m pt (PX lv va) in
      if has e PTE_V then leaf_from m ls (PTE2PA e) va else 0
  end.

Definition leaf (m : mem) (root va : Z) : Z := leaf_from m [2; 1] root va.

(** The level 0 page on the way to [va]. *)
Fixpoint path_from (m : mem) (levels : list Z) (pt va : Z) : option Z :=
  match levels with
  | [] => Some pt
  | lv :: ls =>
      let e := entry m pt (PX lv va) in
      if has e PTE_V then path_from m ls (PTE2PA e) va else None
  end.

Section tree.
Context `{Layout}.

(** [tbl] gives the pages of the tree under [root] with their level: they are
    allocated pages, a valid entry of a page of level [l + 1] points to a page of
    level [l], and no page has two parents. *)
Record pt_inv (m : mem) (root : Z) (tbl : gmap Z nat) (free_pages : list Z) : Prop := {
  pt_root : tbl !! root = Some 2%nat;
  pt_pages : ∀ p l, tbl !! p = Some l → is_page p ∧ p ∉ free_pages;
  pt_down : ∀ p l i, tbl !! p = Some (S l) → 0 <= i < 512 → has (entry m p i) PTE_V = true →
    tbl !! PTE2PA (entry m p i) = Some l;
  pt_inj : ∀ p p' l l' i i', tbl !! p = Some (S l) → tbl !! p' = Some (S l') →
    0 <= i < 512 → 0 <= i' < 512 →
    has (entry m p i) PTE_V = true → has (entry m p' i') PTE_V = true →
    PTE2PA (entry m p i) = PTE2PA (entry m p' i') → p = p' ∧ i = i'
}.

(** [m'] is [m] with the entry [i] of [p] set to [e]. *)
Definition sets_entry (m m' : mem) (p i e : Z) : Prop :=
  entry m' p i = e ∧ ∀ a, ¬ (p + 8 * i <= a < p + 8 * i + 8) → m' !! a = m !! a.

Lemma sets_entry_other m m' p i e p' i' :
  sets_entry m m' p i e → p mod PGSIZE = 0 → p' mod PGSIZE = 0 →
  0 <= i < 512 → 0 <= i' < 512 → (p', i') ≠ (p, i) → entry m' p' i' = entry m p' i'.
Proof.
  intros [_ Ho] Hp Hp' Hi Hi' Hne. apply entry_agree. intros a Ha. apply Ho.
  by apply (entry_disjoint p' i' p i).
Qed.

Lemma page_below pa : is_page pa → pa mod PGSIZE = 0 ∧ 0 <= pa < 2 ^ 56 ∨ end_ < 0.
Proof. intros [H1 H2]. unfold PHYSTOP, KERNBASE in H2. lia. Qed.

(** ** A new page in the tree *)

Section extend.
Context (m m1 m2 : mem) (root : Z) (tbl : gmap Z nat) (fp : list Z).
Context (p i q : Z) (l : nat) (Hend : 0 < end_).
Context (Hinv : pt_inv m root tbl (q :: fp)) (Hp : tbl !! p = Some (S l)) (Hi : 0 <= i < 512).
Context (Hinvalid : has (entry m p i) PTE_V = false).
Context (Hq : is_page q) (Hqfp : q ∉ fp) (Hzero : ∀ a, q <= a < q + PGSIZE → m1 !! a = Some 0).
Context (Hout : ∀ a, ¬ (q <= a < q + PGSIZE) → m1 !! a = m !! a).
Context (Hset : sets_entry m1 m2 p i (Z.lor (PA2PTE q) PTE_V)).

Lemma extend_fresh : tbl !! q = None.
Proof.
  destruct (tbl !! q) as [k|] eqn:E; [|done].
  destruct (pt_pages _ _ _ _ Hinv q k E) as [_ Hn]. exfalso. apply Hn. by left.
Qed.

Lemma extend_ne p' k : tbl !! p' = Some k → p' ≠ q.
Proof. intros E ->. by rewrite extend_fresh in E. Qed.

Lemma extend_page_ok p' k : tbl !! p' = Some k → p' mod PGSIZE = 0.
Proof. intros E. apply (pt_pages _ _ _ _ Hinv p' k E). Qed.

Lemma extend_pa : PTE2PA (Z.lor (PA2PTE q) PTE_V) = q.
Proof.
  destruct Hq as [H1 H2]. apply PTE2PA_entry; [done|unfold PHYSTOP, KERNBASE in *; lia|done].
Qed.

Lemma extend_same p' k i' :
  tbl !! p' = Some k → 0 <= i' < 512 → (p', i') ≠ (p, i) → entry m2 p' i' = entry m p' i'.
Proof.
  intros E Hi' Hne. rewrite (sets_entry_other m1 m2 p i _ p' i' Hset); eauto using extend_page_ok.
  apply entry_agree. intros a Ha. apply Hout. intros Hqa.
  pose proof (entry_in_page p' i' a Hi' Ha) as Hpa.
  destruct (page_disjoint p' q (extend_page_ok p' k E) (proj1 Hq) (extend_ne p' k E)); lia.
Qed.

Lemma extend_new i' : 0 <= i' < 512 → entry m2 q i' = 0.
Proof.
  intros Hi'. rewrite (sets_entry_other m1 m2 p i _ q i' Hset); eauto using extend_page_ok.
  - by apply entry_zero.
  - apply Hq.
  - intros [= <- <-]. by rewrite extend_fresh in Hp.
Qed.

Lemma extend_at : entry m2 p i = Z.lor (PA2PTE q) PTE_V.
Proof. apply Hset. Qed.

Lemma extend_down p' k i' :
  <[q := l]> tbl !! p' = Some (S k) → 0 <= i' < 512 → has (entry m2 p' i') PTE_V = true →
  (p' = p ∧ i' = i ∧ k = l ∧ PTE2PA (entry m2 p' i') = q) ∨
  (tbl !! p' = Some (S k) ∧ entry m2 p' i' = entry m p' i' ∧ (p', i') ≠ (p, i)).
Proof.
  intros E Hi' Hv. apply lookup_insert_Some in E as [[<- _]|[Hne E]].
  { rewrite extend_new in Hv by done. done. }
  destruct (decide ((p', i') = (p, i))) as [[= -> ->]|Hpi].
  - left. rewrite extend_at, extend_pa. split_and!; [done..| |done]. congruence.
  - right. split; [done|]. split; [|done]. by eapply extend_same.
Qed.

Lemma extend_inv : pt_inv m2 root (<[q := l]> tbl) fp.
Proof.
  split.
  - rewrite lookup_insert_ne; [apply Hinv|]. intros E.
    pose proof (pt_root _ _ _ _ Hinv) as Er. rewrite <- E in Er. by rewrite extend_fresh in Er.
  - intros p' k [[<- <-]|[Hne E]]%lookup_insert_Some; [done|].
    destruct (pt_pages _ _ _ _ Hinv p' k E) as [H1 H2]. split; [done|].
    intros Hin. apply H2. by right.
  - intros p' k i' E Hi' Hv.
    destruct (extend_down p' k i' E Hi' Hv) as [(-> & -> & -> & ->)|(E' & Ee & _)].
    + apply lookup_insert_eq.
    + rewrite Ee in *. pose proof (pt_down _ _ _ _ Hinv p' k i' E' Hi' Hv) as Hd.
      rewrite lookup_insert_ne; [done|]. intros Eq. rewrite <- Eq in Hd.
      by rewrite extend_fresh in Hd.
  - intros p1 p2 k1 k2 i1 i2 E1 E2 Hi1 Hi2 Hv1 Hv2 Heq.
    destruct (extend_down p1 k1 i1 E1 Hi1 Hv1) as [(-> & -> & -> & Q1)|(E1' & Ee1 & N1)];
      destruct (extend_down p2 k2 i2 E2 Hi2 Hv2) as [(-> & -> & -> & Q2)|(E2' & Ee2 & N2)].
    + done.
    + exfalso. rewrite Q1, Ee2 in Heq. rewrite Ee2 in Hv2.
      pose proof (pt_down _ _ _ _ Hinv p2 k2 i2 E2' Hi2 Hv2) as Hd. rewrite <- Heq in Hd.
      by rewrite extend_fresh in Hd.
    + exfalso. rewrite Q2, Ee1 in Heq. rewrite Ee1 in Hv1.
      pose proof (pt_down _ _ _ _ Hinv p1 k1 i1 E1' Hi1 Hv1) as Hd. rewrite Heq in Hd.
      by rewrite extend_fresh in Hd.
    + rewrite Ee1 in Hv1, Heq. rewrite Ee2 in Hv2, Heq.
      by eapply (pt_inj _ _ _ _ Hinv p1 p2 k1 k2).
Qed.

Lemma extend_leaf_new levels va : leaf_from m2 levels q va = 0.
Proof.
  destruct levels as [|lv ls]; simpl; rewrite extend_new by apply PX_range; done.
Qed.

(** No translation changes. *)
Lemma extend_leaf levels pt va :
  tbl !! pt = Some (length levels) → leaf_from m2 levels pt va = leaf_from m levels pt va.
Proof.
  revert pt. induction levels as [|lv ls IH]; intros pt Hpt; simpl in *.
  - eapply extend_same; [done|apply PX_range|]. intros [= -> _]. congruence.
  - destruct (decide ((pt, PX lv va) = (p, i))) as [[= -> E]|Hne].
    + rewrite E, extend_at, has_valid, extend_pa, Hinvalid. apply extend_leaf_new.
    + rewrite (extend_same pt (S (length ls))) by (done || apply PX_range).
      destruct (has (entry m pt (PX lv va)) PTE_V) eqn:Hv; [|done].
      apply IH. eapply (pt_down _ _ _ _ Hinv); [done|apply PX_range|done].
Qed.

End extend.
(** ** Paths *)

Lemma path_level m root tbl fp levels pt va p0 :
  pt_inv m root tbl fp → tbl !! pt = Some (length levels) →
  path_from m levels pt va = Some p0 → tbl !! p0 = Some 0%nat.
Proof.
  intros Hinv. revert pt. induction levels as [|lv ls IH]; intros pt Hpt; simpl.
  - by intros [= <-].
  - destruct (has (entry m pt (PX lv va)) PTE_V) eqn:Hv; [|done]. apply IH.
    eapply (pt_down _ _ _ _ Hinv); [done|apply PX_range|done].
Qed.

Lemma path_unique m root tbl fp levels pt pt' va va' p0 :
  pt_inv m root tbl fp → tbl !! pt = Some (length levels) → tbl !! pt' = Some (length levels) →
  path_from m levels pt va = Some p0 → path_from m levels pt' va' = Some p0 →
  pt = pt' ∧ ∀ lv, lv ∈ levels → PX lv va = PX lv va'.
Proof.
  intros Hinv. revert pt pt'. induction levels as [|lv ls IH]; intros pt pt' Hpt Hpt'; simpl.
  - intros [= ->] [= ->]. split; [done|]. by intros lv ?%elem_of_nil.
  - destruct (has (entry m pt (PX lv va)) PTE_V) eqn:Hv; [|done].
    destruct (has (entry m pt' (PX lv va')) PTE_V) eqn:Hv'; [|done]. intros H1 H2.
    destruct (IH _ _ (pt_down _ _ _ _ Hinv pt _ _ Hpt (PX_range lv va) Hv)
                (pt_down _ _ _ _ Hinv pt' _ _ Hpt' (PX_range lv va') Hv') H1 H2) as [Ec Hrest].
    destruct (pt_inj _ _ _ _ Hinv pt pt' _ _ _ _ Hpt Hpt' (PX_range lv va) (PX_range lv va')
      Hv Hv' Ec) as [-> Elv].
    split; [done|]. intros lv' [->|?]%elem_of_cons; auto.
Qed.

Lemma leaf_path m levels pt va p0 :
  path_from m levels pt va = Some p0 → leaf_from m levels pt va = entry m p0 (PX 0 va).
Proof.
  revert pt. induction levels as [|lv ls IH]; intros pt; simpl; [by intros [= ->]|].
  destruct (has _ _); [|done]. apply IH.
Qed.

Lemma leaf_no_path m levels pt va :
  path_from m levels pt va = None → leaf_from m levels pt va = 0.
Proof.
  revert pt. induction levels as [|lv ls IH]; intros pt; simpl; [done|].
  destruct (has _ _); [|done]. apply IH.
Qed.

(** ** A new leaf *)

Section set_leaf.
Context (m m' : mem) (root : Z) (tbl : gmap Z nat) (fp : list Z) (p0 i e : Z).
Context (Hinv : pt_inv m root tbl fp) (Hp0 : tbl !! p0 = Some 0%nat) (Hi : 0 <= i < 512).
Context (Hset : sets_entry m m' p0 i e).

Lemma set_leaf_same p k j :
  tbl !! p = Some k → 0 <= j < 512 → (p, j) ≠ (p0, i) → entry m' p j = entry m p j.
Proof.
  intros E Hj Hne. eapply (sets_entry_other m m' p0 i e); eauto.
  - apply (pt_pages _ _ _ _ Hinv p0 _ Hp0).
  - apply (pt_pages _ _ _ _ Hinv p _ E).
Qed.

Lemma set_leaf_inv : pt_inv m' root tbl fp.
Proof.
  assert (∀ p l j, tbl !! p = Some (S l) → 0 <= j < 512 → entry m' p j = entry m p j) as Hs.
  { intros p l j E Hj. eapply set_leaf_same; [done..|]. intros [= -> _]. congruence. }
  split.
  - apply Hinv.
  - apply Hinv.
  - intros p l j E Hj. rewrite (Hs p l j) by done. by apply (pt_down _ _ _ _ Hinv).
  - intros p p' l l' j j' E E' Hj Hj'. rewrite (Hs p l j), (Hs p' l' j') by done.
    by eapply (pt_inj _ _ _ _ Hinv).
Qed.

Lemma set_leaf_path levels pt va :
  tbl !! pt = Some (length levels) → path_from m' levels pt va = path_from m levels pt va.
Proof.
  revert pt. induction levels as [|lv ls IH]; intros pt Hpt; simpl in *; [done|].
  rewrite (set_leaf_same pt (S (length ls))); [|done|apply PX_range|intros [= -> _]; congruence].
  destruct (has (entry m pt (PX lv va)) PTE_V) eqn:Hv; [|done]. apply IH.
  eapply (pt_down _ _ _ _ Hinv); [done|apply PX_range|done].
Qed.

(** Exactly the addresses of one page change their translation. *)
Lemma set_leaf_leaf va va' :
  path_from m [2; 1] root va = Some p0 → PX 0 va = i →
  leaf m' root va' =
    if decide (PX 2 va' = PX 2 va ∧ PX 1 va' = PX 1 va ∧ PX 0 va' = PX 0 va) then e
    else leaf m root va'.
Proof.
  intros Hva Ei. unfold leaf. pose proof (pt_root _ _ _ _ Hinv) as Hroot.
  destruct (path_from m [2; 1] root va') as [p|] eqn:Hva'.
  - rewrite (leaf_path m' _ _ _ p) by (by rewrite set_leaf_path).
    rewrite (leaf_path m _ _ _ p Hva').
    destruct (decide (p = p0)) as [->|Hne].
    + destruct (path_unique m root tbl fp [2; 1] root root va' va p0 Hinv Hroot Hroot Hva' Hva)
        as [_ Hpx].
      pose proof (Hpx 2 ltac:(by left)). pose proof (Hpx 1 ltac:(by right; left)).
      destruct (decide (PX 0 va' = PX 0 va)) as [E0|E0].
      * rewrite decide_True by done. rewrite E0, Ei. apply Hset.
      * rewrite decide_False by tauto. eapply set_leaf_same; [done|apply PX_range|].
        intros [= E]. congruence.
    + rewrite decide_False.
      * pose proof (path_level m root tbl fp [2; 1] root va' p Hinv Hroot Hva') as Hlp.
        eapply set_leaf_same; [done|apply PX_range|]. congruence.
      * intros (E2 & E1 & _). apply Hne. simpl in Hva, Hva'. rewrite E2 in Hva'.
        destruct (has (entry m root (PX 2 va)) PTE_V); [|done]. rewrite E1 in Hva'. congruence.
  - rewrite (leaf_no_path m' _ _ _) by (by rewrite set_leaf_path).
    rewrite (leaf_no_path m _ _ _ Hva'). rewrite decide_False; [done|].
    intros (E2 & E1 & _). simpl in Hva, Hva'. rewrite E2 in Hva'.
    destruct (has (entry m root (PX 2 va)) PTE_V); [|done]. rewrite E1 in Hva'. congruence.
Qed.

End set_leaf.

(** * The code *)

(** Loads and stores of entries. *)
Lemma ld_entry (s : kst) p i :
  mapped p PGSIZE (g_ram (k_sub s)) → 0 <= i < 512 →
  ld64 (p + 8 * i) s = Ret (entry (g_ram (k_sub s)) p i) s.
Proof.
  intros Hm Hi. unfold ld64, deref, entry.
  destruct (read_bytes 8 (p + 8 * i) (g_ram (k_sub s))) as [l|] eqn:E; [done|].
  destruct (read_bytes_mapped 8 (p + 8 * i) (g_ram (k_sub s))) as [l El]; [|congruence].
  eapply mapped_sub; [exact Hm|lia|unfold PGSIZE; lia].
Qed.

Lemma st_entry (s : kst) p i e :
  mapped p PGSIZE (g_ram (k_sub s)) → 0 <= i < 512 → 0 <= e < 2 ^ 64 →
  ∃ m', st64 (p + 8 * i) e s = Ret tt (upd_sub (fun g => g <| g_ram := m' |>) s) ∧
    sets_entry (g_ram (k_sub s)) m' p i e ∧
    ∀ x, is_Some (g_ram (k_sub s) !! x) → is_Some (m' !! x).
Proof.
  intros Hm Hi He.
  destruct (store_link (p + 8 * i) e (g_ram (k_sub s))) as (m' & Hw & Hr & Ho & Hk).
  { eapply mapped_sub; [exact Hm|lia|unfold PGSIZE; lia]. }
  exists m'. split; [by apply with_ram_run|]. split; [|done].
  split; [by apply entry_range|]. exact Ho.
Qed.

(** The allocator and the tree under [root] together. *)
Record vm_inv (s : kst) (root : Z) (tbl : gmap Z nat) (pages : list Z) : Prop := {
  vm_hart : hart_ok (k_mach s);
  vm_lock : free kmem_lock (k_mach s);
  vm_kmem : kmem_inv s pages;
  vm_tree : pt_inv (g_ram (k_sub s)) root tbl pages
}.

Lemma vm_mapped s root tbl pages p :
  vm_inv s root tbl pages → is_page p → mapped p PGSIZE (g_ram (k_sub s)).
Proof. intros Hv. destruct (vm_kmem _ _ _ _ Hv) as (_ & _ & _ & Hm & _). apply Hm. Qed.

Lemma vm_table_mapped s root tbl pages p l :
  vm_inv s root tbl pages → tbl !! p = Some l → mapped p PGSIZE (g_ram (k_sub s)).
Proof.
  intros Hv E. eapply vm_mapped; [done|].
  apply (pt_pages _ _ _ _ (vm_tree _ _ _ _ Hv) p l E).
Qed.

(** Stores into an allocated page keep the free list. *)
Lemma kmem_store s pages p m' :
  kmem_inv s pages → is_page p → p ∉ pages →
  (∀ a, ¬ (p <= a < p + PGSIZE) → m' !! a = g_ram (k_sub s) !! a) →
  (∀ x, is_Some (g_ram (k_sub s) !! x) → is_Some (m' !! x)) →
  kmem_inv (upd_sub (fun g => g <| g_ram := m' |>) s) pages.
Proof.
  intros (Hlk & Hnd & Hpg & Hmap & Hend) [Hal Hr] Hnin Hout Hk.
  split; [|split; [done|split; [done|split; [|done]]]].
  - eapply linked_agree; [|exact Hlk]. intros q a Hq Ha. apply Hout.
    assert (is_page q) as [Hqal _] by (by eapply Forall_forall in Hpg).
    destruct (page_disjoint p q Hal Hqal); [by intros ->|unfold PGSIZE in *; lia..].
  - intros q Hq. eapply mapped_agree; [exact Hk|]. auto.
Qed.

Lemma sets_entry_page m m' p i e a :
  sets_entry m m' p i e → 0 <= i < 512 → ¬ (p <= a < p + PGSIZE) → m' !! a = m !! a.
Proof. intros [_ Ho] Hi Ha. apply Ho. intros Hin. apply Ha. by eapply entry_in_page. Qed.

Lemma walk_pure_run levels pt va s root tbl pages :
  vm_inv s root tbl pages → tbl !! pt = Some (length levels) →
  walk_from levels pt va false s =
    Ret (match path_from (g_ram (k_sub s)) levels pt va with
         | Some p0 => pte_addr p0 0 va | None => 0 end) s.
Proof.
  intros Hv. revert pt. induction levels as [|lv ls IH]; intros pt Hpt; simpl; [done|].
  erewrite bind_Ret; [|apply ld_entry; [by eapply vm_table_mapped|apply PX_range]].
  destruct (has (entry (g_ram (k_sub s)) pt (PX lv va)) PTE_V) eqn:E; [|done].
  apply IH. eapply (pt_down _ _ _ _ (vm_tree _ _ _ _ Hv)); [done|apply PX_range|done].
Qed.

(** A page for the tree: taken from the allocator, zeroed and linked. *)
Lemma new_table s root tbl q pages p i l :
  vm_inv s root tbl (q :: pages) → tbl !! p = Some (S l) → 0 <= i < 512 →
  has (entry (g_ram (k_sub s)) p i) PTE_V = false →
  ∃ s1 s2 s3, kalloc s = Ret q s1 ∧ q ≠ 0 ∧ with_ram (memset q 0 PGSIZE) s1 = Ret tt s2 ∧
    st64 (p + 8 * i) (Z.lor (PA2PTE q) PTE_V) s2 = Ret tt s3 ∧
    vm_inv s3 root (<[q := l]> tbl) pages ∧
    s3 = upd_sub (fun g => g <| g_ram := g_ram (k_sub s3) |> <| g_freelist := g_freelist (k_sub s3) |>)
           (settled s) ∧
    entry (g_ram (k_sub s3)) p i = Z.lor (PA2PTE q) PTE_V ∧
    (∀ p' k j, tbl !! p' = Some k → 0 <= j < 512 → (p', j) ≠ (p, i) →
       entry (g_ram (k_sub s3)) p' j = entry (g_ram (k_sub s)) p' j) ∧
    ∀ levels pt va, tbl !! pt = Some (length levels) →
      leaf_from (g_ram (k_sub s3)) levels pt va = leaf_from (g_ram (k_sub s)) levels pt va.
Proof.
  intros [Hok Hf Hk Ht] Hp Hi Hinvalid.
  destruct (kalloc_run q pages s Hok Hf Hk) as (s1 & Hr1 & Hk1 & [Hs1 Ho1] & _).
  pose proof Hk as ((_ & Hq0 & _) & Hnd & Hpg & _ & Hend).
  apply NoDup_cons in Hnd as [Hqn _]. apply Forall_cons in Hpg as [Hq _].
  destruct (fill_page 0 q (g_ram (k_sub s1))) as (m2 & Hm2 & Hv2 & Hkeep2).
  { destruct Hk1 as (_ & _ & _ & Hmap & _). by apply Hmap. }
  set (s2 := upd_sub (fun g => g <| g_ram := m2 |>) s1).
  assert (kmem_inv s2 pages) as Hk2.
  { apply (kmem_store s1 pages q); [done..| |done]. intros a Ha. rewrite Hv2. by rewrite decide_False. }
  destruct (pt_pages _ _ _ _ Ht p _ Hp) as [Hpp Hpn].
  assert (0 <= Z.lor (PA2PTE q) PTE_V < 2 ^ 64) as Hrange.
  { assert (0 <= PA2PTE q < 2 ^ 64) as [HP1 HP2] by apply uint64_range.
    split; [apply Z.lor_nonneg; done|]. apply Z.log2_lt_cancel.
    rewrite Z.log2_lor by done. change (Z.log2 (2 ^ 64)) with 64. apply Z.max_lub_lt; [|done].
    destruct (decide (PA2PTE q = 0)) as [->|]; [done|]. apply Z.log2_lt_pow2; lia. }
  destruct (st_entry s2 p i (Z.lor (PA2PTE q) PTE_V)) as (m3 & Hr3 & Hset & Hkeep3); [|done|done|].
  { destruct Hk2 as (_ & _ & _ & Hmap & _). by apply Hmap. }
  set (s3 := upd_sub (fun g => g <| g_ram := m3 |>) s2).
  assert (∀ a, ¬ (q <= a < q + PGSIZE) → m2 !! a = g_ram (k_sub s) !! a) as Hout.
  { intros a Ha. rewrite Hv2, decide_False by done. by apply Ho1. }
  assert (∀ a, q <= a < q + PGSIZE → m2 !! a = Some 0) as Hzero.
  { intros a Ha. by rewrite Hv2, decide_True by done. }
  exists s1, s2, s3. split; [exact Hr1|]. split; [done|]. split; [by apply with_ram_run|].
  split; [exact Hr3|].
  assert (k_mach s3 = settle (k_mach s)) as Em by (unfold s3, s2; simpl; by rewrite Hs1).
  split; [split|].
  - rewrite Em. by apply hart_ok_settle.
  - rewrite Em. by apply free_settle.
  - apply (kmem_store s2 pages p); [done|done| |intros; by eapply sets_entry_page|done].
    intros Hin. apply Hpn. by right.
  - by eapply (extend_inv (g_ram (k_sub s)) m2 m3 root tbl pages p i q l).
  - split; [unfold s3, s2; rewrite Hs1; reflexivity|]. split; [apply Hset|]. split.
    { intros p' k j Hp' Hj Hne.
      by eapply (extend_same (g_ram (k_sub s)) m2 m3 root tbl pages p i q). }
    intros levels pt va Hpt.
    by eapply (extend_leaf (g_ram (k_sub s)) m2 m3 root tbl pages p i q l).
Qed.

(** [s'] is [s] up to memory, the free list and balanced use of locks. *)
Definition same_but_mem (s s' : kst) : Prop :=
  s' = upd_sub (fun g => g <| g_ram := g_ram (k_sub s') |> <| g_freelist := g_freelist (k_sub s') |>)
         (on_mach (k_mach s') s) ∧
  balanced (k_mach s) (k_mach s').

Lemma same_but_mem_refl s : same_but_mem s s.
Proof. split; [by destruct s as [? ? ? ? ? ? ? ? ? []]|apply balanced_refl]. Qed.

Lemma same_but_mem_trans s1 s2 s3 : same_but_mem s1 s2 → same_but_mem s2 s3 → same_but_mem s1 s3.
Proof.
  intros [H1 B1] [H2 B2]. split; [|by eapply balanced_trans].
  rewrite H2, H1. by destruct s1.
Qed.

(** What [walk] with [alloc] keeps: the tree grows, valid entries stay, and no
    translation changes. *)
Record grows (s s' : kst) (tbl tbl' : gmap Z nat) : Prop := {
  grows_tbl : tbl ⊆ tbl';
  grows_valid : ∀ p k j, tbl !! p = Some k → 0 <= j < 512 →
    has (entry (g_ram (k_sub s)) p j) PTE_V = true →
    entry (g_ram (k_sub s')) p j = entry (g_ram (k_sub s)) p j;
  grows_leaf : ∀ levels pt va, tbl !! pt = Some (length levels) →
    leaf_from (g_ram (k_sub s')) levels pt va = leaf_from (g_ram (k_sub s)) levels pt va;
  grows_same : same_but_mem s s'
}.

Lemma grows_trans s1 s2 s3 t1 t2 t3 : grows s1 s2 t1 t2 → grows s2 s3 t2 t3 → grows s1 s3 t1 t3.
Proof.
  intros [A1 A2 A3 A4] [B1 B2 B3 B4]. split.
  - by etrans.
  - intros p k j Hp Hj Hv. rewrite (B2 p k j); [by apply (A2 p k)|by eapply lookup_weaken|done|].
    by rewrite (A2 p k j).
  - intros levels pt va Hpt. rewrite B3; [by apply A3|by eapply lookup_weaken].
  - by eapply same_but_mem_trans.
Qed.

(** New table pages come from the free pages. *)
Definition takes (tbl tbl' : gmap Z nat) (pages pages' : list Z) : Prop :=
  (∀ p, is_Some (tbl' !! p) → is_Some (tbl !! p) ∨ p ∈ pages) ∧ (∀ p, p ∈ pages' → p ∈ pages).

Lemma takes_refl tbl pages : takes tbl tbl pages pages.
Proof. split; auto. Qed.

Lemma takes_trans tbl1 tbl2 tbl3 pages1 pages2 pages3 :
  takes tbl1 tbl2 pages1 pages2 → takes tbl2 tbl3 pages2 pages3 → takes tbl1 tbl3 pages1 pages3.
Proof. intros [A1 A2] [B1 B2]. split; [|auto]. intros p [?|?]%B1; auto. Qed.

Lemma walk_alloc_run levels pt va s root tbl pages :
  vm_inv s root tbl pages → tbl !! pt = Some (length levels) →
  ∃ r s' tbl' pages', walk_from levels pt va true s = Ret r s' ∧
    vm_inv s' root tbl' pages' ∧ grows s s' tbl tbl' ∧
    (length pages <= length pages' + length levels)%nat ∧ takes tbl tbl' pages pages' ∧
    (r = 0 ∧ (length pages < length levels)%nat ∨
     ∃ p0, r = pte_addr p0 0 va ∧ path_from (g_ram (k_sub s')) levels pt va = Some p0).
Proof.
  revert pt s tbl pages. induction levels as [|lv ls IH]; intros pt s tbl pages Hv Hpt; simpl.
  { exists (pte_addr pt 0 va), s, tbl, pages. split_and!; [done..| | | |].
    - split; [done|done|done|apply same_but_mem_refl].
    - lia.
    - apply takes_refl.
    - right. by exists pt. }
  simpl in Hpt. pose proof (PX_range lv va) as Hpx.
  erewrite bind_Ret; [|apply ld_entry; [by eapply vm_table_mapped|done]].
  destruct (has (entry (g_ram (k_sub s)) pt (PX lv va)) PTE_V) eqn:E.
  - pose proof (pt_down _ _ _ _ (vm_tree _ _ _ _ Hv) pt _ _ Hpt Hpx E) as Hc.
    destruct (IH _ s tbl pages Hv Hc) as (r & s' & tbl' & pages' & Hr & Hv' & Hg & Hlen & Htk & Hres).
    exists r, s', tbl', pages'. split_and!; [done|done|done|simpl; lia|done|].
    destruct Hres as [[? ?]|Hres]; [left; split; [done|lia]|right].
    by rewrite (grows_valid _ _ _ _ Hg pt _ _ Hpt Hpx E), E.
  - destruct pages as [|q pages].
    { exists 0, (settled s), tbl, []. erewrite bind_Ret; [|by apply kalloc_empty; apply Hv].
      split_and!; [done| | |simpl; lia|apply takes_refl|left; split; [done|simpl; lia]].
      - destruct Hv as [H1 H2 H3 H4]. split; [by apply hart_ok_settle|done|done|done].
      - split; [done|done|done|]. split; [by destruct s as [? ? ? ? ? ? ? ? ? []]|by right]. }
    destruct (new_table s root tbl q pages pt (PX lv va) (length ls) Hv Hpt Hpx E)
      as (s1 & s2 & s3 & Hr1 & Hq0 & Hr2 & Hr3 & Hv3 & Hs3 & He3 & Hsame & Hleaf).
    assert (grows s s3 tbl (<[q := length ls]> tbl)) as Hg3.
    { split; [|intros; eapply Hsame; [done..|congruence]|exact Hleaf|].
      - apply insert_subseteq. destruct (tbl !! q) eqn:Eq; [|done].
        destruct (pt_pages _ _ _ _ (vm_tree _ _ _ _ Hv) q _ Eq) as [_ Hn]. exfalso. apply Hn. by left.
      - split; [|right; by rewrite Hs3]. rewrite Hs3. by destruct s as [? ? ? ? ? ? ? ? ? []]. }
    destruct (IH q s3 (<[q := length ls]> tbl) pages Hv3) as (r & s' & tbl' & pages' & Hr & Hv' & Hg & Hlen & Htk & Hres);
      [apply lookup_insert_eq|].
    exists r, s', tbl', pages'. split_and!; [|done|by eapply grows_trans|simpl; lia| |].
    + erewrite bind_Ret; [|exact Hr1]. rewrite (proj2 (Z.eqb_neq _ _) Hq0).
      erewrite bind_Ret; [|exact Hr2]. erewrite bind_Ret; [|exact Hr3]. exact Hr.
    + eapply takes_trans; [|exact Htk]. split; [|by right]. intros p [k Hk].
      apply lookup_insert_Some in Hk as [[<- _]|[_ Hk]]; [right; by left|left; by eexists].
    + destruct Hres as [[? ?]|Hres]; [left; split; [done|simpl; lia]|right].
      rewrite (grows_valid _ _ _ _ Hg pt (S (length ls)) (PX lv va)).
      * rewrite He3, has_valid. rewrite PTE2PA_entry; [done|..];
          destruct (vm_kmem _ _ _ _ Hv) as (_ & _ & Hpg & _ & Hend);
          apply Forall_cons in Hpg as [[Hq1 Hq2] _]; [done| |done].
        unfold PHYSTOP, KERNBASE in Hq2. lia.
      * eapply lookup_weaken; [exact Hpt|apply (grows_tbl _ _ _ _ Hg3)].
      * done.
      * rewrite He3. apply has_valid.
Qed.

(** ** Pages of virtual addresses *)

(** Addresses are on one page when their indices agree at every level. *)
Lemma PX_div lv va : 0 <= lv → PX lv va = va / 2 ^ (12 + 9 * lv) mod 512.
Proof.
  intros Hlv. unfold PX. change 0x1FF with (Z.ones 9). rewrite Z.land_ones by lia.
  by rewrite Z.shiftr_div_pow2 by lia.
Qed.

Lemma PX_page va va' :
  0 <= va < MAXVA → 0 <= va' < MAXVA →
  (PX 2 va' = PX 2 va ∧ PX 1 va' = PX 1 va ∧ PX 0 va' = PX 0 va ↔ va' / PGSIZE = va / PGSIZE).
Proof.
  change MAXVA with (2 ^ 38). unfold PGSIZE. intros Hva Hva'. rewrite !PX_div by lia.
  change (2 ^ (12 + 9 * 2)) with (4096 * (512 * 512)). change (2 ^ (12 + 9 * 1)) with (4096 * 512).
  change (2 ^ (12 + 9 * 0)) with 4096. rewrite <- !Z.div_div by lia.
  assert (∀ v, 0 <= v < 2 ^ 38 → 0 <= v / 4096 < 2 ^ 26) as Hb.
  { intros v Hv. split; [apply Z.div_pos; lia|apply Z.div_lt_upper_bound; lia]. }
  pose proof (Hb va Hva). pose proof (Hb va' Hva').
  set (x := va / 4096) in *. set (y := va' / 4096) in *. clearbody x y. clear Hb Hva Hva'.
  split; [|by intros ->]. intros (E2 & E1 & E0).
  rewrite !Z.mod_small in E2
    by (split; [repeat apply Z.div_pos; lia|repeat apply Z.div_lt_upper_bound; lia]).
  pose proof (Z.div_mod x 512). pose proof (Z.div_mod y 512).
  pose proof (Z.div_mod (x / 512) 512). pose proof (Z.div_mod (y / 512) 512). lia.
Qed.

(** The leaf that [mappages] writes. *)
Definition map_entry (pa perm : Z) : Z := Z.lor (Z.lor (PA2PTE pa) perm) PTE_V.

Lemma lor_below a b n : 0 <= n → 0 <= a < 2 ^ n → 0 <= b < 2 ^ n → 0 <= Z.lor a b < 2 ^ n.
Proof.
  intros Hn Ha Hb. assert (0 <= Z.lor a b) by (apply Z.lor_nonneg; lia). split; [done|].
  apply Z.bounded_iff_bits_nonneg; [lia|done|]. intros k Hk. rewrite Z.lor_spec.
  rewrite (proj1 (Z.bounded_iff_bits_nonneg n a ltac:(lia) ltac:(lia))) by lia.
  by rewrite (proj1 (Z.bounded_iff_bits_nonneg n b ltac:(lia) ltac:(lia))) by lia.
Qed.

Lemma map_entry_range pa perm : 0 <= perm < 2 ^ 10 → 0 <= map_entry pa perm < 2 ^ 64.
Proof.
  intros Hp. unfold map_entry. apply lor_below; [lia|apply lor_below; [lia| |lia]|done].
  unfold PA2PTE. apply Z.mod_pos_bound. lia.
Qed.

Lemma map_entry_pa pa perm :
  pa mod PGSIZE = 0 → 0 <= pa < 2 ^ 56 → 0 <= perm < 2 ^ 10 → PTE2PA (map_entry pa perm) = pa.
Proof.
  intros Hal Hpa Hp. unfold map_entry. rewrite <- Z.lor_assoc. apply PTE2PA_entry; [done..|].
  apply lor_below; [lia|lia|done].
Qed.

(** ** [mappages] *)

(** Storing a leaf in the tree. *)
Lemma store_leaf s root tbl pages va p0 e :
  vm_inv s root tbl pages → path_from (g_ram (k_sub s)) [2; 1] root va = Some p0 →
  0 <= va < MAXVA → 0 <= e < 2 ^ 64 →
  ∃ s', st64 (pte_addr p0 0 va) e s = Ret tt s' ∧ vm_inv s' root tbl pages ∧ same_but_mem s s' ∧
    ∀ va', 0 <= va' < MAXVA →
      leaf (g_ram (k_sub s')) root va' =
        if decide (va' / PGSIZE = va / PGSIZE) then e else leaf (g_ram (k_sub s)) root va'.
Proof.
  intros Hv Hp Hva He.
  pose proof (path_level _ _ _ _ [2; 1] root va p0 (vm_tree _ _ _ _ Hv)
                (pt_root _ _ _ _ (vm_tree _ _ _ _ Hv)) Hp) as Hp0.
  destruct (pt_pages _ _ _ _ (vm_tree _ _ _ _ Hv) p0 _ Hp0) as [Hpage Hnin].
  destruct (st_entry s p0 (PX 0 va) e) as (m' & Hr & Hset & Hk);
    [by eapply vm_mapped|apply PX_range|done|].
  exists (upd_sub (fun g => g <| g_ram := m' |>) s). split; [exact Hr|].
  split; [|split; [split; [by destruct s as [? ? ? ? ? ? ? ? ? []]|apply balanced_refl]|]].
  - destruct Hv as [H1 H2 H3 H4]. split; [done|done| |].
    + eapply kmem_store; [done|exact Hpage|done| |done].
      intros a Ha. by eapply sets_entry_page; [|apply PX_range|].
    + by eapply set_leaf_inv; [|exact Hp0|apply PX_range|exact Hset].
  - intros va' Hva'. change (g_ram (k_sub (upd_sub _ s))) with m'.
    assert (leaf m' root va' = if decide (PX 2 va' = PX 2 va ∧ PX 1 va' = PX 1 va ∧ PX 0 va' = PX 0 va)
      then e else leaf (g_ram (k_sub s)) root va') as ->.
    { eapply set_leaf_leaf; [apply Hv|exact Hp0|apply PX_range|exact Hset|done|done]. }
    by rewrite (decide_ext _ _ _ _ (PX_page va va' Hva Hva')).
Qed.

(** The translations after [k] pages from [va] on were mapped to [pa] on. *)
Definition maps (m m' : mem) (root va pa perm : Z) (k : nat) : Prop :=
  ∀ va', 0 <= va' < MAXVA →
    leaf m' root va' =
      if decide (va <= va' < va + Z.of_nat k * PGSIZE)
      then map_entry (pa + (va' - va) / PGSIZE * PGSIZE) perm else leaf m root va'.

Lemma map_one s root tbl pages a pa perm :
  vm_inv s root tbl pages → 0 <= a < MAXVA → a mod PGSIZE = 0 → 0 <= perm < 2 ^ 10 →
  has (leaf (g_ram (k_sub s)) root a) PTE_V = false →
  ∃ r s' tbl' pages', walk root a true s = Ret r s' ∧ vm_inv s' root tbl' pages' ∧
    same_but_mem s s' ∧ maps (g_ram (k_sub s)) (g_ram (k_sub s')) root a pa perm 0 ∧
    (length pages <= length pages' + 2)%nat ∧ takes tbl tbl' pages pages' ∧
    (r = 0 ∧ (length pages < 2)%nat ∨
     r ≠ 0 ∧ ∃ e, ld64 r s' = Ret e s' ∧ has e PTE_V = false ∧
     ∃ s'', st64 r (map_entry pa perm) s' = Ret tt s'' ∧ vm_inv s'' root tbl' pages' ∧
       same_but_mem s s'' ∧ maps (g_ram (k_sub s)) (g_ram (k_sub s'')) root a pa perm 1).
Proof.
  intros Hv Ha Hal Hperm Hn. pose proof (pt_root _ _ _ _ (vm_tree _ _ _ _ Hv)) as Hroot.
  destruct (walk_alloc_run [2; 1] root a s root tbl pages Hv Hroot)
    as (r & s' & tbl' & pages' & Hr & Hv' & Hg & Hlen & Htk & Hres).
  exists r, s', tbl', pages'. split.
  { unfold walk. by rewrite (proj2 (Z.leb_gt _ _)) by lia. }
  split; [done|]. split; [apply Hg|]. split; [|split; [exact Hlen|split; [exact Htk|]]].
  { intros va' Hva'. rewrite decide_False by lia. by apply (grows_leaf _ _ _ _ Hg [2; 1]). }
  destruct Hres as [?|(p0 & -> & Hp)]; [by left|right].
  pose proof (path_level _ _ _ _ [2; 1] root a p0 (vm_tree _ _ _ _ Hv')
                (pt_root _ _ _ _ (vm_tree _ _ _ _ Hv')) Hp) as Hp0.
  destruct (pt_pages _ _ _ _ (vm_tree _ _ _ _ Hv') p0 _ Hp0) as [[_ Hpg] _].
  destruct (vm_kmem _ _ _ _ Hv) as (_ & _ & _ & _ & Hend). pose proof (PX_range 0 a) as Hpx.
  split; [unfold pte_addr; lia|]. exists (entry (g_ram (k_sub s')) p0 (PX 0 a)).
  split; [apply ld_entry; [by eapply vm_table_mapped|done]|]. split.
  { rewrite <- (leaf_path _ _ _ _ _ Hp). by rewrite (grows_leaf _ _ _ _ Hg [2; 1]). }
  destruct (store_leaf s' root tbl' pages' a p0 (map_entry pa perm)) as (s'' & Hr2 & Hv2 & Hs2 & Hl2);
    [done|done|done|by apply map_entry_range|].
  exists s''. split; [exact Hr2|]. split; [done|]. split; [by eapply same_but_mem_trans; [apply Hg|]|].
  intros va' Hva'. rewrite Hl2 by done.
  assert (va' / PGSIZE = a / PGSIZE ↔ a <= va' < a + Z.of_nat 1 * PGSIZE) as Hiff.
  { unfold PGSIZE in *. pose proof (Z.div_mod va' 4096). pose proof (Z.div_mod a 4096).
    pose proof (Z.mod_pos_bound va' 4096). lia. }
  destruct (decide (va' / PGSIZE = a / PGSIZE)) as [E|E].
  - rewrite decide_True by tauto. apply Hiff in E. rewrite Z.div_small by lia.
    by rewrite Z.mul_0_l, Z.add_0_r.
  - rewrite decide_False by tauto. by apply (grows_leaf _ _ _ _ Hg [2; 1]).
Qed.

Lemma maps_trans m m1 m2 root va pa perm j k :
  va mod PGSIZE = 0 →
  maps m m1 root va pa perm j →
  maps m1 m2 root (va + Z.of_nat j * PGSIZE) (pa + Z.of_nat j * PGSIZE) perm k →
  maps m m2 root va pa perm (j + k).
Proof.
  intros Hal H1 H2 va' Hva'. rewrite H2, H1 by done. rewrite Nat2Z.inj_add.
  unfold PGSIZE in *. destruct (decide (va + _ <= va' < _)) as [E|E].
  - rewrite decide_True by lia. f_equal.
    replace (va' - va) with (va' - (va + Z.of_nat j * 4096) + Z.of_nat j * 4096) by lia.
    rewrite Z.div_add by lia. lia.
  - destruct (decide (va <= va' < va + Z.of_nat j * 4096)).
    + by rewrite decide_True by lia.
    + by rewrite decide_False by lia.
Qed.

Lemma map_loop_step fuel root a last pa perm s s1 s2 pte e :
  walk root a true s = Ret pte s1 → pte ≠ 0 → ld64 pte s1 = Ret e s1 → has e PTE_V = false →
  st64 pte (map_entry pa perm) s1 = Ret tt s2 →
  map_loop (S fuel) root a last pa perm s =
    (if a =? last then mret 0
     else map_loop fuel root (uint64 (a + PGSIZE)) last (uint64 (pa + PGSIZE)) perm) s2.
Proof.
  intros Hr H0 Hld He Hst. cbn [map_loop]. erewrite bind_Ret by exact Hr.
  rewrite (proj2 (Z.eqb_neq _ _) H0). erewrite bind_Ret by exact Hld. rewrite He.
  by erewrite bind_Ret by exact Hst.
Qed.

Lemma map_loop_run n s root tbl pages a pa perm :
  vm_inv s root tbl pages → 0 <= a → a mod PGSIZE = 0 → 0 <= perm < 2 ^ 10 →
  a + Z.of_nat (S n) * PGSIZE <= MAXVA → 0 <= pa → pa + Z.of_nat (S n) * PGSIZE <= 2 ^ 56 →
  (∀ va, a <= va < a + Z.of_nat (S n) * PGSIZE → has (leaf (g_ram (k_sub s)) root va) PTE_V = false) →
  ∃ r s' tbl' pages' k, map_loop (S n) root a (a + Z.of_nat n * PGSIZE) pa perm s = Ret r s' ∧
    vm_inv s' root tbl' pages' ∧ same_but_mem s s' ∧
    maps (g_ram (k_sub s)) (g_ram (k_sub s')) root a pa perm k ∧ takes tbl tbl' pages pages' ∧
    (r = 0 ∧ k = S n ∨ r = -1 ∧ (k <= n)%nat ∧ (length pages < 2 * S n)%nat).
Proof.
  revert s tbl pages a pa. induction n as [|n IH]; intros s tbl pages a pa Hv Ha Hal Hperm Hmax Hpa Hpa2 Hn.
  all: destruct (map_one s root tbl pages a pa perm) as (r & s1 & tbl1 & pages1 & Hr & Hv1 & Hs1 & Hm1 & Hl1 & Htk & Hres);
    [done|unfold PGSIZE in *; lia|done|done|apply Hn; unfold PGSIZE in *; lia|].
  all: destruct Hres as [[-> Hlt]|(Hr0 & e & Hld & He & s2 & Hst & Hv2 & Hs2 & Hm2)];
    [exists (-1), s1, tbl1, pages1, 0%nat; split;
      [cbn [map_loop]; erewrite bind_Ret by exact Hr; reflexivity|
       split_and!; [done|done|done|done|right; split_and!; [done|lia|lia]]]|].
  all: rewrite (map_loop_step _ _ _ _ _ _ s s1 s2 r e Hr Hr0 Hld He Hst).
  - rewrite Z.mul_0_l, Z.add_0_r, Z.eqb_refl. exists 0, s2, tbl1, pages1, 1%nat.
    split_and!; [done|done|done|done|done|by left].
  - rewrite (proj2 (Z.eqb_neq a _)) by (unfold PGSIZE; lia).
    assert (MAXVA = 2 ^ 38) as HM by done. unfold PGSIZE in Hmax.
    rewrite !uint64_small by (unfold PGSIZE in *; lia).
    destruct (IH s2 tbl1 pages1 (a + PGSIZE) (pa + PGSIZE)) as (r' & s' & tbl' & pages' & k & Hr' & Hv' & Hs' & Hm' & Htk' & Hres').
    + done.
    + unfold PGSIZE; lia.
    + rewrite <- (Z.mul_1_l PGSIZE), Z.mod_add by done. done.
    + done.
    + unfold PGSIZE; lia.
    + unfold PGSIZE; lia.
    + unfold PGSIZE in *; lia.
    + intros va Hva. rewrite Hm2 by (unfold PGSIZE in *; lia). rewrite decide_False by (unfold PGSIZE in *; lia).
      apply Hn. unfold PGSIZE in *; lia.
    + exists r', s', tbl', pages', (S k).
      replace (a + Z.of_nat (S n) * PGSIZE) with (a + PGSIZE + Z.of_nat n * PGSIZE) by (unfold PGSIZE; lia).
      split_and!; [exact Hr'|done|by eapply same_but_mem_trans| |by eapply takes_trans|].
      * apply (maps_trans _ (g_ram (k_sub s2)) _ _ _ _ _ 1 k); [done|done|].
        by rewrite Z.mul_1_l.
      * destruct Hres' as [[-> ->]|(-> & ? & ?)]; [by left|right]. split_and!; [done|lia|lia].
Qed.

(** [walk] without [alloc] finds the entry that translates [va]. *)
Lemma walk_run s root tbl pages va :
  vm_inv s root tbl pages → 0 <= va < MAXVA →
  ∃ pte, walk root va false s = Ret pte s ∧
    (pte = 0 ∧ leaf (g_ram (k_sub s)) root va = 0 ∨
     pte ≠ 0 ∧ ld64 pte s = Ret (leaf (g_ram (k_sub s)) root va) s).
Proof.
  intros Hv Hva. pose proof (pt_root _ _ _ _ (vm_tree _ _ _ _ Hv)) as Hroot.
  unfold walk. rewrite (proj2 (Z.leb_gt _ _)) by lia.
  rewrite (walk_pure_run [2; 1] root va s root tbl pages Hv Hroot). eexists. split; [reflexivity|].
  destruct (path_from _ _ _ _) as [p0|] eqn:Hp; [right|left].
  - pose proof (path_level _ _ _ _ [2; 1] root va p0 (vm_tree _ _ _ _ Hv) Hroot Hp) as Hp0.
    destruct (pt_pages _ _ _ _ (vm_tree _ _ _ _ Hv) p0 _ Hp0) as [[_ Hpg] _].
    destruct (vm_kmem _ _ _ _ Hv) as (_ & _ & _ & _ & Hend). pose proof (PX_range 0 va).
    split; [unfold pte_addr; lia|]. unfold leaf. rewrite (leaf_path _ _ _ _ _ Hp).
    apply ld_entry; [by eapply vm_table_mapped|done].
  - split; [done|]. by apply leaf_no_path.
Qed.

(** Addresses of one page have one entry. *)
Lemma leaf_page m root va va' :
  0 <= va < MAXVA → 0 <= va' < MAXVA → va / PGSIZE = va' / PGSIZE → leaf m root va = leaf m root va'.
Proof.
  intros Hva Hva' E. destruct (proj2 (PX_page va' va Hva' Hva) E) as (E2 & E1 & E0).
  unfold leaf. simpl. by rewrite E2, E1, E0.
Qed.

End tree.

(** C34. mappages on a page table tree maps the pages in order and changes no other
    translation: it returns 0 with every page of the range mapped to consecutive
    physical pages, or -1 only when the allocator has less than two pages for each
    page to map; page tables stay a tree of distinct allocated pages that the free
    list does not contain. *)
Theorem mappages_maps `{Layout} s root tbl pages va pa perm (n : nat) :
  vm_inv s root tbl pages → (0 < n)%nat → 0 <= va → va mod PGSIZE = 0 →
  va + Z.of_nat n * PGSIZE <= MAXVA → 0 <= pa → pa + Z.of_nat n * PGSIZE <= 2 ^ 56 →
  0 <= perm < 2 ^ 10 →
  (∀ a, va <= a < va + Z.of_nat n * PGSIZE → has (leaf (g_ram (k_sub s)) root a) PTE_V = false) →
  ∃ r s' tbl' pages' k, mappages root va (Z.of_nat n * PGSIZE) pa perm s = Ret r s' ∧
    vm_inv s' root tbl' pages' ∧ same_but_mem s s' ∧
    maps (g_ram (k_sub s)) (g_ram (k_sub s')) root va pa perm k ∧ takes tbl tbl' pages pages' ∧
    (r = 0 ∧ k = n ∨ r = -1 ∧ (k < n)%nat ∧ (length pages < 2 * n)%nat).
Proof.
  intros Hv Hn Hva Hal Hmax Hpa Hpa2 Hperm Hun. destruct n as [|n]; [lia|].
  destruct (map_loop_run n s root tbl pages va pa perm) as (r & s' & tbl' & pages' & k & Hr & Hv' & Hs' & Hm & Htk & Hres);
    [done..|].
  exists r, s', tbl', pages', k. split_and!; [|done|done|done|done|].
  - unfold mappages. rewrite Hal, Z.mod_mul, Z.div_mul by done. cbn [Z.eqb negb].
    rewrite (proj2 (Z.eqb_neq _ 0)) by (unfold PGSIZE; lia). rewrite Nat2Z.id.
    assert (MAXVA = 2 ^ 38) by done. rewrite uint64_small by (unfold PGSIZE in *; lia).
    rewrite <- Hr. f_equal. unfold PGSIZE. lia.
  - destruct Hres as [?|(? & ? & ?)]; [by left|right]. split_and!; [done|lia|done].
Qed.

(** ** A page table of one page *)

Definition ex_root : Z := PHYSTOP - PGSIZE.
Definition ex_table : gmap Z nat := {[ ex_root := 2%nat ]}.

Lemma ex_is_page k : 1 <= k <= 4 → @is_page ex_layout (PHYSTOP - k * PGSIZE).
Proof.
  intros Hk. split.
  - change PHYSTOP with (0x88000 * PGSIZE).
    replace (0x88000 * PGSIZE - k * PGSIZE) with ((0x88000 - k) * PGSIZE) by lia. by apply Z.mod_mul.
  - simpl end_. unfold PGSIZE. lia.
Qed.

Lemma ex_zero a : PHYSTOP - 4 * PGSIZE <= a < PHYSTOP → g_ram (k_sub ex_kernel) !! a = Some 0.
Proof.
  intros Ha. change (g_ram (k_sub ex_kernel)) with (zero_ram (PHYSTOP - 4 * PGSIZE) (Z.to_nat (4 * PGSIZE))).
  apply zero_ram_lookup. lia.
Qed.

(** Two pages are free, and the top page is an empty page table. *)
Lemma ex_vm : ∃ s, @vm_inv ex_layout s ex_root ex_table [PHYSTOP - 3 * PGSIZE; PHYSTOP - 2 * PGSIZE] ∧
  (∀ i, 0 <= i < 512 → entry (g_ram (k_sub s)) ex_root i = 0).
Proof.
  destruct (@kfree_run ex_layout (PHYSTOP - 2 * PGSIZE) [] ex_kernel) as (s1 & _ & Hk1 & E1 & Ho1).
  { apply boot_at_rest. }
  { apply (boot_global_lock "kmem"). by repeat (left || right). }
  { apply ex_kmem. }
  { by apply ex_is_page. }
  { apply not_elem_of_nil. }
  destruct (@kfree_run ex_layout (PHYSTOP - 3 * PGSIZE) [PHYSTOP - 2 * PGSIZE] s1)
    as (s2 & _ & Hk2 & E2 & Ho2).
  { rewrite E1. apply hart_ok_settle, boot_at_rest. }
  { rewrite E1. apply (boot_global_lock "kmem"). by repeat (left || right). }
  { done. }
  { by apply ex_is_page. }
  { by intros ?%list_elem_of_singleton. }
  assert (∀ i, 0 <= i < 512 → entry (g_ram (k_sub s2)) ex_root i = 0) as H0.
  { intros i Hi. apply entry_zero; [|done]. intros a Ha. unfold ex_root in Ha.
    rewrite Ho2, Ho1 by (unfold PGSIZE in *; lia). apply ex_zero. unfold PGSIZE in *; lia. }
  exists s2. split; [|exact H0]. unfold ex_table. split.
  - rewrite E2, E1. apply hart_ok_settle, hart_ok_settle, boot_at_rest.
  - rewrite E2, E1. apply (boot_global_lock "kmem"). by repeat (left || right).
  - exact Hk2.
  - split.
    + apply lookup_singleton_eq.
    + intros p l [<- _]%lookup_singleton_Some. split; [by apply (ex_is_page 1)|].
      by intros [?|?%list_elem_of_singleton]%elem_of_cons.
    + intros p l i [<- _]%lookup_singleton_Some Hi. by rewrite H0.
    + intros p p' l l' i i' [<- _]%lookup_singleton_Some _ Hi _. by rewrite H0.
Qed.

Lemma mappages_maps_witness :
  ∃ s s', mappages ex_root 0 PGSIZE (PHYSTOP - 4 * PGSIZE) PTE_R s = Ret 0 s' ∧
    leaf (g_ram (k_sub s')) ex_root 5 = map_entry (PHYSTOP - 4 * PGSIZE) PTE_R.
Proof.
  destruct ex_vm as (s & Hv & H0).
  destruct (@mappages_maps ex_layout s ex_root ex_table [PHYSTOP - 3 * PGSIZE; PHYSTOP - 2 * PGSIZE]
    0 (PHYSTOP - 4 * PGSIZE) PTE_R 1) as (r & s' & tbl' & pages' & k & Hr & _ & _ & Hm & _ & Hres).
  - exact Hv.
  - lia.
  - lia.
  - done.
  - done.
  - done.
  - done.
  - done.
  - intros a _. unfold leaf. cbn [leaf_from]. rewrite H0 by apply PX_range. done.
  - destruct Hres as [[-> ->]|(_ & _ & Hl)]; [|simpl in Hl; lia].
    exists s, s'. split; [exact Hr|]. by rewrite (Hm 5).
Defined.
