(* ===== verification/UserMem.v ===== *)
(** User memory through a page table: [copyout], [copyin] and [copyinstr]
    (kernel/vm.c) write and read exactly the bytes a user program would see, and
    stop at the first address the program could not access. *)

From stdpp Require Import base gmap strings numbers list.
From S2P Require Import Prelude Spinlock Kstate Sched Boot CString Globals Kalloc Vm VmProofs.
Local Open Scope Z_scope.

(** The entry lets the user access the page. *)
Definition user_entry (e : Z) : bool := has e PTE_V && has e PTE_U.

(** The byte at [va] as the user sees it. *)
Definition uread (m : mem) (root va : Z) : option Z :=
  if decide (0 <= va < MAXVA) then
    let e := leaf m root va in
    if user_entry e then m !! (PTE2PA e + va mod PGSIZE) else None
  else None.

(** The user may write at [va]. *)
Definition uwritable (m : mem) (root va : Z) : Prop :=
  0 <= va < MAXVA ∧ user_entry (leaf m root va) = true ∧ has (leaf m root va) PTE_W = true.

Section user.
Context `{Layout}.

(** User pages are allocated pages that are no page tables, each mapped at one
    place. *)
Record user_inv (m : mem) (root : Z) (tbl : gmap Z nat) (pages : list Z) : Prop := {
  u_page : ∀ va, 0 <= va < MAXVA → user_entry (leaf m root va) = true →
    is_page (PTE2PA (leaf m root va)) ∧ tbl !! PTE2PA (leaf m root va) = None ∧
    PTE2PA (leaf m root va) ∉ pages;
  u_inj : ∀ va va', 0 <= va < MAXVA → 0 <= va' < MAXVA →
    user_entry (leaf m root va) = true → user_entry (leaf m root va') = true →
    PTE2PA (leaf m root va) = PTE2PA (leaf m root va') → va / PGSIZE = va' / PGSIZE
}.

(** A store that misses the page tables changes no translation. *)
Lemma leaf_from_agree m m' root tbl pages levels pt va :
  pt_inv m root tbl pages →
  (∀ p l i, tbl !! p = Some l → 0 <= i < 512 → entry m' p i = entry m p i) →
  tbl !! pt = Some (length levels) → leaf_from m' levels pt va = leaf_from m levels pt va.
Proof.
  intros Hinv He. revert pt. induction levels as [|lv ls IH]; intros pt Hpt; simpl in *.
  - eapply He; [done|apply PX_range].
  - rewrite (He pt _ _ Hpt) by apply PX_range.
    destruct (has (entry m pt (PX lv va)) PTE_V) eqn:Hv; [|done]. apply IH.
    eapply (pt_down _ _ _ _ Hinv); [done|apply PX_range|done].
Qed.

Lemma pt_inv_agree m m' root tbl pages :
  pt_inv m root tbl pages →
  (∀ p l i, tbl !! p = Some l → 0 <= i < 512 → entry m' p i = entry m p i) →
  pt_inv m' root tbl pages.
Proof.
  intros Hinv He. split; [apply Hinv|apply Hinv| |].
  - intros p l i E Hi. rewrite (He p _ i E Hi). by apply (pt_down _ _ _ _ Hinv).
  - intros p p' l l' i i' E E' Hi Hi'. rewrite (He p _ i E Hi), (He p' _ i' E' Hi').
    by eapply (pt_inj _ _ _ _ Hinv).
Qed.

(** Storing bytes inside a user page. *)
Lemma store_user s root tbl pages p off l :
  vm_inv s root tbl pages → is_page p → tbl !! p = None → p ∉ pages →
  0 <= off → off + Z.of_nat (length l) <= PGSIZE →
  ∃ m', with_ram (write_bytes l (p + off)) s = Ret tt (upd_sub (fun g => g <| g_ram := m' |>) s) ∧
    vm_inv (upd_sub (fun g => g <| g_ram := m' |>) s) root tbl pages ∧
    (∀ va, leaf m' root va = leaf (g_ram (k_sub s)) root va) ∧
    bytes_at (p + off) l m' ∧
    ∀ a, ¬ (p + off <= a < p + off + Z.of_nat (length l)) → m' !! a = g_ram (k_sub s) !! a.
Proof.
  intros Hv Hp Htbl Hnin Hoff Hlen.
  destruct (write_bytes_spec l (p + off) (g_ram (k_sub s))) as (m' & Hw & Hb & Ho).
  { eapply mapped_sub; [by eapply vm_mapped|lia|unfold PGSIZE in *; lia]. }
  assert (∀ a, ¬ (p <= a < p + PGSIZE) → m' !! a = g_ram (k_sub s) !! a) as Hout.
  { intros a Ha. apply Ho. lia. }
  assert (∀ p' k i, tbl !! p' = Some k → 0 <= i < 512 →
    entry m' p' i = entry (g_ram (k_sub s)) p' i) as He.
  { intros p' k i E Hi. apply entry_agree. intros a Ha. apply Hout. intros Hin.
    pose proof (entry_in_page p' i a Hi Ha).
    destruct (pt_pages _ _ _ _ (vm_tree _ _ _ _ Hv) p' k E) as [[Hal _] _].
    destruct (page_disjoint p' p Hal (proj1 Hp)); [congruence|lia|lia]. }
  exists m'. split; [by apply with_ram_run|]. split; [|split; [|split; [done|exact Ho]]].
  - destruct Hv as [H1 H2 H3 H4]. split; [done|done| |by eapply pt_inv_agree].
    eapply kmem_store; [done|exact Hp|done|done|].
    intros x Hx. destruct (decide (p + off <= x < p + off + Z.of_nat (length l))) as [Hin|Hn].
    + destruct (lookup_lt_is_Some_2 l (Z.to_nat (x - (p + off)))) as [b Hxb]; [lia|].
      exists b. replace x with (p + off + Z.of_nat (Z.to_nat (x - (p + off)))) by lia. by apply Hb.
    + by rewrite Ho.
  - intros va. eapply (leaf_from_agree _ _ _ _ _ [2; 1]); [apply Hv|done|apply Hv].
Qed.

(** * [copyout] *)

Lemma PGROUNDDOWN_spec a : 0 <= a < 2 ^ 64 → PGROUNDDOWN a = a - a mod PGSIZE.
Proof.
  intros Ha. unfold PGROUNDDOWN. rewrite mask_page by done. unfold PGSIZE.
  pose proof (Z.div_mod a 4096). lia.
Qed.

Lemma PGROUNDDOWN_below a : 0 <= a < 2 ^ 64 → PGROUNDDOWN a < MAXVA ↔ a < MAXVA.
Proof.
  intros Ha. rewrite PGROUNDDOWN_spec by done. assert (MAXVA = 2 ^ 26 * PGSIZE) as -> by done.
  unfold PGSIZE. pose proof (Z.div_mod a 4096). pose proof (Z.mod_pos_bound a 4096). lia.
Qed.

(** The first [k] bytes of [src] are written from [dstva] on, where the user may write,
    and the user sees no other change. *)
Definition uwritten (m m' : mem) (root dstva : Z) (src : list Z) (k : nat) : Prop :=
  (∀ va, leaf m' root va = leaf m root va) ∧
  (∀ va, dstva <= va < dstva + Z.of_nat k → uwritable m root va) ∧
  ∀ va, uread m' root va =
    if decide (dstva <= va < dstva + Z.of_nat k) then src !! Z.to_nat (va - dstva)
    else uread m root va.

Lemma uwritable_leaf m m' root va :
  (∀ a, leaf m' root a = leaf m root a) → uwritable m' root va ↔ uwritable m root va.
Proof. intros Hl. unfold uwritable. by rewrite Hl. Qed.

(** One iteration of the loop. *)
Lemma copyout_page s root tbl pages dstva l :
  vm_inv s root tbl pages → user_inv (g_ram (k_sub s)) root tbl pages →
  uwritable (g_ram (k_sub s)) root dstva →
  dstva mod PGSIZE + Z.of_nat (length l) <= PGSIZE → dstva + Z.of_nat (length l) <= MAXVA →
  ∃ s', with_ram (write_bytes l (PTE2PA (leaf (g_ram (k_sub s)) root dstva) + dstva mod PGSIZE)) s = Ret tt s' ∧
    vm_inv s' root tbl pages ∧ user_inv (g_ram (k_sub s')) root tbl pages ∧ same_but_mem s s' ∧
    uwritten (g_ram (k_sub s)) (g_ram (k_sub s')) root dstva l (length l).
Proof.
  intros Hv Hu (Hd & He & HW) Hlen Hmax. pose proof (Z.mod_pos_bound dstva PGSIZE eq_refl) as Hoff.
  destruct (u_page _ _ _ _ Hu dstva Hd He) as (Hp & Ht & Hn).
  destruct (store_user s root tbl pages _ (dstva mod PGSIZE) l Hv Hp Ht Hn) as (m' & Hr & Hv' & Hl & Hb & Ho);
    [lia|done|].
  eexists. split; [exact Hr|]. split; [done|]. split; [|split; [|split; [done|split]]].
  - destruct Hu as [U1 U2]. split; intros va; [|intros va']; simpl; rewrite ?Hl; auto.
  - split; [by destruct s as [? ? ? ? ? ? ? ? ? []]|apply balanced_refl].
  - intros va Hva. assert (leaf (g_ram (k_sub s)) root va = leaf (g_ram (k_sub s)) root dstva) as E.
    { pose proof (Z.div_mod va PGSIZE). pose proof (Z.div_mod dstva PGSIZE). pose proof (Z.mod_pos_bound va PGSIZE eq_refl).
      apply leaf_page; unfold PGSIZE in *; lia. }
    unfold uwritable. rewrite E. split; [lia|done].
  - intros va. simpl. unfold uread. destruct (decide (0 <= va < MAXVA)) as [Hva|Hva].
    2: { rewrite decide_False by lia. done. }
    rewrite Hl. set (e := leaf (g_ram (k_sub s)) root dstva) in *.
    assert (va / PGSIZE = dstva / PGSIZE → leaf (g_ram (k_sub s)) root va = e) as Hsame.
    { intros E. by apply leaf_page. }
    pose proof (Z.div_mod va PGSIZE). pose proof (Z.div_mod dstva PGSIZE).
    pose proof (Z.mod_pos_bound va PGSIZE eq_refl).
    destruct (decide (dstva <= va < _)) as [Hin|Hout].
    + assert (va / PGSIZE = dstva / PGSIZE) as E by (unfold PGSIZE in *; lia).
      rewrite (Hsame E), He.
      destruct (lookup_lt_is_Some_2 l (Z.to_nat (va - dstva))) as [b Hxb]; [lia|]. rewrite Hxb.
      rewrite <- (Hb _ _ Hxb). f_equal. unfold PGSIZE in *. lia.
    + destruct (user_entry (leaf (g_ram (k_sub s)) root va)) eqn:Eu; [|done]. apply Ho.
      destruct (decide (va / PGSIZE = dstva / PGSIZE)) as [E|E].
      * rewrite (Hsame E). unfold PGSIZE in *. lia.
      * destruct (u_page _ _ _ _ Hu va Hva Eu) as ([Hal _] & _ & _).
        destruct (page_disjoint _ _ Hal (proj1 Hp)) as [?|?];
          [intros Eq; by apply E, (u_inj _ _ _ _ Hu)|unfold PGSIZE in *; lia..].
Qed.

Lemma uwritten_nil m root dstva src : uwritten m m root dstva src 0.
Proof. split; [done|]. split; [lia|]. intros va. by rewrite decide_False by lia. Qed.

Lemma uwritten_trans m m1 m2 root dstva src n k :
  (n <= length src)%nat →
  uwritten m m1 root dstva (take n src) n →
  uwritten m1 m2 root (dstva + Z.of_nat n) (drop n src) k →
  uwritten m m2 root dstva src (n + k).
Proof.
  intros Hn (L1 & A1 & W1) (L2 & A2 & W2). split; [intros va; by rewrite L2, L1|]. split.
  { intros va Hva. destruct (decide (va < dstva + Z.of_nat n)); [apply A1; lia|].
    apply (uwritable_leaf m m1 root va L1), A2. lia. }
  intros va.
  rewrite W2, W1. destruct (decide (_ + _ <= va < _)) as [E|E].
  - rewrite decide_True by lia. rewrite lookup_drop. f_equal. lia.
  - destruct (decide (dstva <= va < dstva + Z.of_nat n)).
    + rewrite decide_True by lia. apply lookup_take_lt. lia.
    + by rewrite decide_False by lia.
Qed.

(** The checks of one iteration. *)
Lemma copyout_step fuel s root tbl pages dstva src :
  vm_inv s root tbl pages → 0 <= dstva < 2 ^ 64 → src ≠ [] →
  let n := Z.to_nat (Z.min (PGSIZE - dstva mod PGSIZE) (Z.of_nat (length src))) in
  copyout_loop (S fuel) root dstva src s = Ret (-1) s ∧ ¬ uwritable (g_ram (k_sub s)) root dstva ∨
  uwritable (g_ram (k_sub s)) root dstva ∧
  copyout_loop (S fuel) root dstva src s =
    (with_ram (write_bytes (take n src) (PTE2PA (leaf (g_ram (k_sub s)) root dstva) + dstva mod PGSIZE)) ;;
     copyout_loop fuel root (uint64 (dstva - dstva mod PGSIZE + PGSIZE)) (drop n src)) s.
Proof.
  intros Hv Hd Hne n. cbn [copyout_loop].
  rewrite (proj2 (Z.eqb_neq _ 0)) by (destruct src; [done|simpl; lia]).
  pose proof (PGROUNDDOWN_below dstva Hd) as Hbelow. rewrite PGROUNDDOWN_spec in * by done.
  pose proof (Z.mod_pos_bound dstva PGSIZE eq_refl) as Hoff.
  destruct (Z.leb_spec MAXVA (dstva - dstva mod PGSIZE)) as [Hge|Hlt].
  { left. split; [done|]. intros [? _]. lia. }
  assert (dstva < MAXVA) as Hlt' by lia.
  assert (0 <= dstva - dstva mod PGSIZE) as H0.
  { pose proof (Z.div_mod dstva PGSIZE). pose proof (Z.div_pos dstva PGSIZE). unfold PGSIZE in *. lia. }
  assert (leaf (g_ram (k_sub s)) root (dstva - dstva mod PGSIZE) = leaf (g_ram (k_sub s)) root dstva) as El.
  { apply leaf_page; [lia|lia|].
    replace (dstva - dstva mod PGSIZE) with (dstva / PGSIZE * PGSIZE)
      by (pose proof (Z.div_mod dstva PGSIZE); unfold PGSIZE in *; lia). by apply Z.div_mul. }
  destruct (walk_run s root tbl pages (dstva - dstva mod PGSIZE) Hv) as (pte & Hw & Hres); [lia|].
  rewrite El in Hres. erewrite bind_Ret by exact Hw.
  destruct Hres as [[-> Hz]|[Hp Hld]].
  { left. split; [done|]. unfold uwritable, user_entry. rewrite Hz. by intros (_ & ? & _). }
  rewrite (proj2 (Z.eqb_neq _ 0) Hp). erewrite bind_Ret by exact Hld.
  replace (dstva - (dstva - dstva mod PGSIZE)) with (dstva mod PGSIZE) by lia. fold n.
  unfold uwritable, user_entry. set (e := leaf (g_ram (k_sub s)) root dstva).
  destruct (has e PTE_V), (has e PTE_U), (has e PTE_W); simpl;
    first [right; split; [split_and!; [lia|lia|done|done]|reflexivity]|left; split; [done|by intros (_ & ? & ?)]].
Qed.

Lemma copyout_loop_run fuel s root tbl pages dstva src :
  (length src < fuel)%nat →
  vm_inv s root tbl pages → user_inv (g_ram (k_sub s)) root tbl pages → 0 <= dstva < 2 ^ 64 →
  ∃ r k s', copyout_loop fuel root dstva src s = Ret r s' ∧
    vm_inv s' root tbl pages ∧ user_inv (g_ram (k_sub s')) root tbl pages ∧ same_but_mem s s' ∧
    uwritten (g_ram (k_sub s)) (g_ram (k_sub s')) root dstva src k ∧
    (r = 0 ∧ k = length src ∨
     r = -1 ∧ (k < length src)%nat ∧ ¬ uwritable (g_ram (k_sub s)) root (dstva + Z.of_nat k)).
Proof.
  revert s dstva src. induction fuel as [|fuel IH]; intros s dstva src Hf Hv Hu Hd; [lia|].
  destruct (decide (src = [])) as [->|Hne].
  { exists 0, 0%nat, s. split_and!; [done|done|done|apply same_but_mem_refl|apply uwritten_nil|by left]. }
  assert (0 < length src)%nat as Hpos by (destruct src; [done|simpl; lia]).
  destruct (copyout_step fuel s root tbl pages dstva src Hv Hd Hne) as [[Hr Hw]|[Hw Hr]].
  { exists (-1), 0%nat, s.
    split_and!; [done|done|done|apply same_but_mem_refl|apply uwritten_nil|right].
    rewrite Z.add_0_r. done. }
  set (n := Z.to_nat (Z.min (PGSIZE - dstva mod PGSIZE) (Z.of_nat (length src)))) in *.
  pose proof (Z.mod_pos_bound dstva PGSIZE eq_refl) as Hoff.
  assert (0 < n <= length src)%nat as Hn by lia. pose proof Hw as (Hlt & _ & _).
  assert (MAXVA = 2 ^ 26 * PGSIZE) as HM by done.
  pose proof (Z.div_mod dstva PGSIZE) as Hdiv.
  destruct (copyout_page s root tbl pages dstva (take n src)) as (s1 & Hr1 & Hv1 & Hu1 & Hs1 & Hw1);
    [done|done|done|rewrite length_take; lia|rewrite length_take; unfold PGSIZE in *; lia|].
  rewrite length_take, Nat.min_l in Hw1 by lia.
  rewrite Hr. erewrite bind_Ret by exact Hr1.
  destruct (decide (n = length src)) as [E|E].
  - rewrite E, drop_all. exists 0, (length src), s1.
    split_and!; [destruct fuel; done|done|done|done| |by left].
    rewrite E, firstn_all in Hw1. exact Hw1.
  - replace (dstva - dstva mod PGSIZE + PGSIZE) with (dstva + Z.of_nat n) by lia.
    rewrite uint64_small by (unfold PGSIZE in *; lia).
    destruct (IH s1 (dstva + Z.of_nat n) (drop n src)) as (r & k & s' & Hr' & Hv' & Hu' & Hs' & Hw' & Hres);
      [rewrite length_drop; lia|done|done|unfold PGSIZE in *; lia|].
    exists r, (n + k)%nat, s'. split_and!; [done|done|done|by eapply same_but_mem_trans| |].
    + eapply uwritten_trans; [lia|done|done].
    + rewrite length_drop in Hres. rewrite Nat2Z.inj_add, Z.add_assoc.
      rewrite (uwritable_leaf _ _ _ _ (proj1 Hw1)) in Hres.
      destruct Hres as [[-> ->]|(-> & Hk & Hnw)]; [left; split; [done|lia]|right].
      split_and!; [done|lia|done].
Qed.

(** * [copyin] *)

(** [walkaddr] gives the page of a user address. *)
Lemma walkaddr_run s root tbl pages va :
  vm_inv s root tbl pages → 0 <= va →
  walkaddr root va s =
    Ret (if (va <? MAXVA) && user_entry (leaf (g_ram (k_sub s)) root va)
         then PTE2PA (leaf (g_ram (k_sub s)) root va) else 0) s.
Proof.
  intros Hv Hva. unfold walkaddr. rewrite Z.leb_antisym.
  destruct (Z.ltb_spec va MAXVA) as [Hlt|]; [|done]. cbn [negb andb].
  destruct (walk_run s root tbl pages va Hv) as (pte & Hw & Hres); [lia|].
  erewrite bind_Ret by exact Hw. unfold user_entry. destruct Hres as [[-> ->]|[Hp Hld]]; [done|].
  rewrite (proj2 (Z.eqb_neq _ 0) Hp). erewrite bind_Ret by exact Hld.
  by destruct (has _ PTE_V), (has _ PTE_U).
Qed.

(** The user bytes from [va] on start with [l]. *)
Definition ubytes (m : mem) (root va : Z) (l : list Z) : Prop :=
  ∀ i b, l !! i = Some b → uread m root (va + Z.of_nat i) = Some b.

(** One page of the loops: the bytes are there, or the first one is not. *)
Lemma read_page s root tbl pages va (n : nat) :
  vm_inv s root tbl pages → user_inv (g_ram (k_sub s)) root tbl pages → 0 <= va < 2 ^ 64 →
  va mod PGSIZE + Z.of_nat n <= PGSIZE →
  walkaddr root (PGROUNDDOWN va) s = Ret 0 s ∧ uread (g_ram (k_sub s)) root va = None ∨
  ∃ pa0 l, walkaddr root (PGROUNDDOWN va) s = Ret pa0 s ∧ pa0 ≠ 0 ∧ va < MAXVA ∧
    read_bytes n (pa0 + (va - PGROUNDDOWN va)) (g_ram (k_sub s)) = Some l ∧ length l = n ∧
    ubytes (g_ram (k_sub s)) root va l.
Proof.
  intros Hv Hu Hva Hn. pose proof (Z.mod_pos_bound va PGSIZE eq_refl) as Hoff.
  pose proof (Z.div_mod va PGSIZE) as Hdm. pose proof (Z.div_pos va PGSIZE) as Hdp.
  pose proof (PGROUNDDOWN_below va Hva) as Hbelow. rewrite PGROUNDDOWN_spec in * by done.
  rewrite (walkaddr_run s root tbl pages) by (done || (unfold PGSIZE in *; lia)).
  replace (va - (va - va mod PGSIZE)) with (va mod PGSIZE) by lia.
  destruct (Z.ltb_spec (va - va mod PGSIZE) MAXVA) as [Hlt|Hge].
  2: { left. split; [done|]. unfold uread. rewrite decide_False; [done|lia]. }
  assert (va < MAXVA) as Hlt' by tauto.
  assert (∀ x, va - va mod PGSIZE <= x < va - va mod PGSIZE + PGSIZE → x / PGSIZE = va / PGSIZE) as Hpg.
  { intros x Hx. pose proof (Z.div_mod x PGSIZE). pose proof (Z.mod_pos_bound x PGSIZE eq_refl).
    unfold PGSIZE in *. lia. }
  rewrite (leaf_page _ _ (va - va mod PGSIZE) va); [|unfold PGSIZE in *; lia..|apply Hpg; unfold PGSIZE in *; lia].
  cbn [andb]. destruct (user_entry (leaf (g_ram (k_sub s)) root va)) eqn:Eu.
  2: { left. split; [done|]. unfold uread. rewrite decide_True by lia. by rewrite Eu. }
  right. destruct (u_page _ _ _ _ Hu va ltac:(lia) Eu) as ([Hal Hp] & _).
  destruct (read_bytes_mapped n (PTE2PA (leaf (g_ram (k_sub s)) root va) + va mod PGSIZE) (g_ram (k_sub s)))
    as [l Hl].
  { eapply mapped_sub; [by eapply vm_mapped|lia|unfold PGSIZE in *; lia]. }
  destruct (read_bytes_Some _ _ _ _ Hl) as [Hlen Hb]. eexists _, l. split; [done|].
  destruct (vm_kmem _ _ _ _ Hv) as (_ & _ & _ & _ & Hend).
  split_and!; [lia|done|done|done|]. intros i b Hi. pose proof (lookup_lt_Some _ _ _ Hi).
  assert (MAXVA = 2 ^ 26 * PGSIZE) as HM by done.
  assert (va + Z.of_nat i < MAXVA) by (unfold PGSIZE in *; lia).
  unfold uread. rewrite decide_True by lia.
  rewrite (leaf_page _ _ (va + Z.of_nat i) va); [|unfold PGSIZE in *; lia..|apply Hpg; unfold PGSIZE in *; lia].
  rewrite Eu, <- (Hb i b Hi). f_equal.
  pose proof (Hpg (va + Z.of_nat i) ltac:(unfold PGSIZE in *; lia)) as E.
  pose proof (Z.div_mod (va + Z.of_nat i) PGSIZE). unfold PGSIZE in *. lia.
Qed.

Lemma ubytes_app m root va l1 l2 :
  ubytes m root va l1 → ubytes m root (va + Z.of_nat (length l1)) l2 → ubytes m root va (l1 ++ l2).
Proof.
  intros H1 H2 i b [Hi|[Hge Hi]]%lookup_app_Some; [by apply H1|].
  rewrite <- (H2 _ _ Hi). f_equal. lia.
Qed.

(** The page of [va] ends where the next iteration starts. *)
Lemma next_page va n :
  0 <= va < MAXVA → n = PGSIZE - va mod PGSIZE →
  uint64 (PGROUNDDOWN va + PGSIZE) = va + n ∧ 0 <= va + n < 2 ^ 64 ∧ 0 < n.
Proof.
  intros Hva ->. pose proof (Z.mod_pos_bound va PGSIZE eq_refl).
  assert (MAXVA = 2 ^ 38) as HM by done. rewrite PGROUNDDOWN_spec by lia.
  rewrite uint64_small by (unfold PGSIZE in *; pose proof (Z.mod_le va 4096); lia).
  unfold PGSIZE in *. lia.
Qed.

Lemma page_offset va : 0 <= va < 2 ^ 64 → va - PGROUNDDOWN va = va mod PGSIZE.
Proof. intros Hva. rewrite PGROUNDDOWN_spec by done. lia. Qed.

Lemma copyin_loop_run fuel s root tbl pages srcva (len : nat) :
  (len < fuel)%nat →
  vm_inv s root tbl pages → user_inv (g_ram (k_sub s)) root tbl pages → 0 <= srcva < 2 ^ 64 →
  ∃ r l, copyin_loop fuel root srcva (Z.of_nat len) s = Ret (r, l) s ∧
    ubytes (g_ram (k_sub s)) root srcva l ∧
    (r = 0 ∧ length l = len ∨
     r = -1 ∧ (length l < len)%nat ∧
     uread (g_ram (k_sub s)) root (srcva + Z.of_nat (length l)) = None).
Proof.
  intros Hf Hv Hu. revert srcva len Hf. induction fuel as [|fuel IH]; intros srcva len Hf Hsrc; [lia|].
  cbn [copyin_loop]. destruct (Z.eqb_spec (Z.of_nat len) 0) as [E|E].
  { exists 0, []. split_and!; [done|by intros i b ?|left; split; [done|simpl; lia]]. }
  rewrite page_offset by done.
  pose proof (Z.mod_pos_bound srcva PGSIZE eq_refl) as Hoff.
  set (n := Z.min (PGSIZE - srcva mod PGSIZE) (Z.of_nat len)).
  destruct (read_page s root tbl pages srcva (Z.to_nat n)) as [[Hw Hn]|(pa0 & l & Hw & Hpa & Hlt & Hrd & Hlen & Hub)];
    [done|done|done|lia| |].
  { erewrite bind_Ret by exact Hw. exists (-1), []. split_and!; [done|by intros i b ?|right].
    split_and!; [done|simpl; lia|]. by rewrite Z.add_0_r. }
  rewrite page_offset in Hrd by done. erewrite bind_Ret by exact Hw.
  rewrite (proj2 (Z.eqb_neq _ 0) Hpa).
  erewrite bind_Ret; [|by apply deref_Some].
  destruct (decide (n = Z.of_nat len)) as [En|En].
  - rewrite En, Z.sub_diag. exists 0, l.
    rewrite (bind_Ret _ _ s (0, []) s) by (by destruct fuel). cbn [fst snd]. rewrite app_nil_r.
    split_and!; [done|done|left; split; [done|lia]].
  - destruct (next_page srcva n) as (-> & Hb & Hpos); [lia|lia|].
    replace (Z.of_nat len - n) with (Z.of_nat (len - Z.to_nat n)) by lia.
    destruct (IH (srcva + n) (len - Z.to_nat n)%nat) as (r & l' & Hr & Hub' & Hres); [lia|done|].
    replace n with (Z.of_nat (length l)) in Hub', Hres by lia.
    erewrite bind_Ret by exact Hr. exists r, (l ++ l').
    split_and!; [done|by apply ubytes_app|]. rewrite length_app, Nat2Z.inj_add, Z.add_assoc.
    destruct Hres as [[-> Hl]|(-> & Hl & Hn)]; [left; split; [done|lia]|right].
    split_and!; [done|lia|done].
Qed.

(** ** [copyinstr] *)

Lemma copy_until_nul_spec l :
  let '(r, z) := copy_until_nul l in
  if z : bool then ∃ l1 l2, l = l1 ++ (0 :: l2) ∧ 0 ∉ l1 ∧ r = l1 ++ [0] else r = l ∧ 0 ∉ l.
Proof.
  induction l as [|b l IH]; simpl; [split; [done|apply not_elem_of_nil]|].
  destruct (Z.eqb_spec b 0) as [->|Hb].
  { exists [], l. split_and!; [done|apply not_elem_of_nil|done]. }
  destruct (copy_until_nul l) as [r [|]].
  - destruct IH as (l1 & l2 & -> & Hn & ->). exists (b :: l1), l2.
    split_and!; [done| |done]. by apply not_elem_of_cons.
  - destruct IH as [-> Hn]. split; [done|]. by apply not_elem_of_cons.
Qed.

Lemma ubytes_prefix m root va l1 l2 : ubytes m root va (l1 ++ l2) → ubytes m root va l1.
Proof. intros H1 i b Hi. apply H1. by apply lookup_app_l_Some. Qed.

Lemma copyinstr_loop_run fuel s root tbl pages srcva (max : nat) :
  (max < fuel)%nat →
  vm_inv s root tbl pages → user_inv (g_ram (k_sub s)) root tbl pages → 0 <= srcva < 2 ^ 64 →
  ∃ r l, copyinstr_loop fuel root srcva (Z.of_nat max) s = Ret (r, l) s ∧
    ubytes (g_ram (k_sub s)) root srcva l ∧ (length l <= max)%nat ∧
    ((r = 0 ∧ ∃ l0, l = l0 ++ [0] ∧ 0 ∉ l0) ∨
     r = -1 ∧ 0 ∉ l ∧
     (length l = max ∨ uread (g_ram (k_sub s)) root (srcva + Z.of_nat (length l)) = None)).
Proof.
  intros Hf Hv Hu. revert srcva max Hf. induction fuel as [|fuel IH]; intros srcva max Hf Hsrc; [lia|].
  cbn [copyinstr_loop]. destruct (Z.eqb_spec (Z.of_nat max) 0) as [E|E].
  { exists (-1), []. split_and!; [done|by intros i b ?|simpl; lia|right].
    split_and!; [done|apply not_elem_of_nil|left; simpl; lia]. }
  rewrite page_offset by done.
  pose proof (Z.mod_pos_bound srcva PGSIZE eq_refl) as Hoff.
  set (n := Z.min (PGSIZE - srcva mod PGSIZE) (Z.of_nat max)).
  destruct (read_page s root tbl pages srcva (Z.to_nat n)) as [[Hw Hn]|(pa0 & l & Hw & Hpa & Hlt & Hrd & Hlen & Hub)];
    [done|done|done|lia| |].
  { erewrite bind_Ret by exact Hw. exists (-1), []. split_and!; [done|by intros i b ?|simpl; lia|right].
    split_and!; [done|apply not_elem_of_nil|right]. by rewrite Z.add_0_r. }
  rewrite page_offset in Hrd by done. erewrite bind_Ret by exact Hw.
  rewrite (proj2 (Z.eqb_neq _ 0) Hpa). erewrite bind_Ret; [|by apply deref_Some].
  pose proof (copy_until_nul_spec l) as Hc. destruct (copy_until_nul l) as [got [|]].
  { destruct Hc as (l1 & l2 & El & Hnz & ->). exists 0, (l1 ++ [0]).
    assert (l = (l1 ++ [0]) ++ l2) as El' by (by rewrite <- app_assoc).
    split_and!; [done|rewrite El' in Hub; by eapply ubytes_prefix| |left; split; [done|by exists l1]].
    rewrite El', length_app in Hlen. lia. }
  destruct Hc as [-> Hnz]. destruct (decide (n = Z.of_nat max)) as [En|En].
  - rewrite En, Z.sub_diag. exists (-1), l.
    rewrite (bind_Ret _ _ s (-1, []) s) by (by destruct fuel). cbn [fst snd]. rewrite app_nil_r.
    split_and!; [done|done|lia|right].
    split_and!; [done|done|left; lia].
  - destruct (next_page srcva n) as (-> & Hb & Hpos); [lia|lia|].
    replace (Z.of_nat max - n) with (Z.of_nat (max - Z.to_nat n)) by lia.
    destruct (IH (srcva + n) (max - Z.to_nat n)%nat) as (r & l' & Hr & Hub' & Hle & Hres); [lia|done|].
    replace n with (Z.of_nat (length l)) in Hub', Hres by lia.
    erewrite bind_Ret by exact Hr. exists r, (l ++ l').
    split_and!; [done|by apply ubytes_app|rewrite length_app; lia|].
    rewrite length_app, Nat2Z.inj_add, Z.add_assoc.
    destruct Hres as [[-> (l0 & -> & Hl0)]|(-> & Hnz' & Hend)]; [left|right].
    + split; [done|]. exists (l ++ l0). split; [by rewrite app_assoc|].
      by rewrite not_elem_of_app.
    + split_and!; [done|by rewrite not_elem_of_app|]. destruct Hend; [left; lia|by right].
Qed.

End user.

(** C35. copyout writes the bytes at consecutive user addresses all of which the
    user may write, until the first address the user could not write: it returns 0
    when there is none and -1 otherwise, and changes no other user byte, no
    translation and no free page. *)
Theorem copyout_writes `{Layout} s root tbl pages dstva (src : list Z) :
  vm_inv s root tbl pages → user_inv (g_ram (k_sub s)) root tbl pages → 0 <= dstva < 2 ^ 64 →
  ∃ r k s', copyout root dstva src s = Ret r s' ∧
    vm_inv s' root tbl pages ∧ user_inv (g_ram (k_sub s')) root tbl pages ∧ same_but_mem s s' ∧
    uwritten (g_ram (k_sub s)) (g_ram (k_sub s')) root dstva src k ∧
    (r = 0 ∧ k = length src ∨
     r = -1 ∧ (k < length src)%nat ∧ ¬ uwritable (g_ram (k_sub s)) root (dstva + Z.of_nat k)).
Proof. intros Hv Hu Hd. apply copyout_loop_run; [lia|done..]. Qed.

(** copyin returns exactly the bytes the user sees at consecutive addresses, 0
    when all are accessible, and -1 with the bytes in front of the first address the
    user could not read otherwise; the kernel state is unchanged. *)
Theorem copyin_reads `{Layout} s root tbl pages srcva (len : nat) :
  vm_inv s root tbl pages → user_inv (g_ram (k_sub s)) root tbl pages → 0 <= srcva < 2 ^ 64 →
  ∃ r l, copyin root srcva (Z.of_nat len) s = Ret (r, l) s ∧
    ubytes (g_ram (k_sub s)) root srcva l ∧
    (r = 0 ∧ length l = len ∨
     r = -1 ∧ (length l < len)%nat ∧
     uread (g_ram (k_sub s)) root (srcva + Z.of_nat (length l)) = None).
Proof. intros Hv Hu Hd. unfold copyin. rewrite Nat2Z.id. eapply copyin_loop_run; [lia|done..]. Qed.

(** copyinstr returns 0 with the user's string up to and including its first
    nul, which lies in the first max bytes, and -1 when there is no nul in the
    accessible part of the first max bytes. *)
Theorem copyinstr_reads `{Layout} s root tbl pages srcva (max : nat) :
  vm_inv s root tbl pages → user_inv (g_ram (k_sub s)) root tbl pages → 0 <= srcva < 2 ^ 64 →
  ∃ r l, copyinstr root srcva (Z.of_nat max) s = Ret (r, l) s ∧
    ubytes (g_ram (k_sub s)) root srcva l ∧ (length l <= max)%nat ∧
    ((r = 0 ∧ ∃ l0, l = l0 ++ [0] ∧ 0 ∉ l0) ∨
     r = -1 ∧ 0 ∉ l ∧
     (length l = max ∨ uread (g_ram (k_sub s)) root (srcva + Z.of_nat (length l)) = None)).
Proof. intros Hv Hu Hd. unfold copyinstr. rewrite Nat2Z.id. eapply copyinstr_loop_run; [lia|done..]. Qed.

(** ** Other states with the same memory *)

(** [m] reads memory and changes nothing. *)
Definition looks {A} (m : K A) : Prop :=
  ∀ s a t, m s = Ret a t → t = s ∧ ∀ s', g_ram (k_sub s') = g_ram (k_sub s) → m s' = Ret a s'.

Lemma looks_ret {A} (a : A) : looks (mret a).
Proof. by intros s b t [= -> ->]. Qed.

Lemma looks_bind {A B} (m : K A) (f : A → K B) : looks m → (∀ a, looks (f a)) → looks (m ≫= f).
Proof.
  intros Hm Hf s b t. cbv [mbind M_bind]. destruct (m s) as [a s1| | | |] eqn:E; try done. destruct (Hm s a s1 E) as [-> H1].
  intros H. destruct (Hf a s b t H) as [-> H2]. split; [done|]. intros s' Hs'. rewrite (H1 s' Hs'). by apply H2.
Qed.

Lemma looks_if {A} (b : bool) (m m' : K A) : looks m → looks m' → looks (if b then m else m').
Proof. by destruct b. Qed.

Lemma looks_deref {A} (f : mem → option A) : looks (deref (fun s : kst => f (g_ram (k_sub s)))).
Proof.
  intros s a t. unfold deref. destruct (f (g_ram (k_sub s))) eqn:E; [|done]. intros [= -> ->]. split; [done|].
  intros s' ->. by rewrite E.
Qed.

Lemma looks_ld64 a : looks (ld64 a).
Proof. apply (looks_deref (fun m => le_value <$> read_bytes 8 a m)). Qed.

Lemma looks_walk `{Layout} root va : looks (walk root va false).
Proof.
  apply looks_if; [by intros s a t|]. generalize [2; 1]. intros levels. revert root.
  induction levels as [|level levels IH]; intros root; cbn [walk_from]; [apply looks_ret|].
  apply looks_bind; [apply looks_ld64|]. intros e. apply looks_if; [apply IH|apply looks_ret].
Qed.

Lemma looks_walkaddr `{Layout} root va : looks (walkaddr root va).
Proof.
  repeat first [apply looks_walk|apply looks_ld64|apply looks_if|apply looks_bind; [|intros ?]|apply looks_ret].
Qed.

Lemma looks_copyin `{Layout} root va len : looks (copyin root va len).
Proof.
  unfold copyin. generalize (S (Z.to_nat len)). intros fuel. revert va len.
  induction fuel as [|fuel IH]; intros va len; cbn [copyin_loop]; (apply looks_if; [apply looks_ret|]); [by intros s a t|].
  apply looks_bind; [apply looks_walkaddr|]. intros pa. apply looks_if; [apply looks_ret|].
  apply looks_bind; [apply (looks_deref (fun m => read_bytes _ _ m))|]. intros l. apply looks_bind; [apply IH|]. intros r. apply looks_ret.
Qed.

(** [m] reads and writes memory, and nothing else. *)
Definition stores {A} (m : K A) : Prop :=
  ∀ s a t, m s = Ret a t → ∀ s', g_ram (k_sub s') = g_ram (k_sub s) →
    m s' = Ret a (upd_sub (fun g => g <| g_ram := g_ram (k_sub t) |>) s').

Lemma looks_stores {A} (m : K A) : looks m → stores m.
Proof.
  intros Hm s a t E s' Hs'. destruct (Hm s a t E) as [-> H]. rewrite (H s' Hs'), <- Hs'. f_equal.
  by destruct s' as [? ? ? ? ? ? ? ? ? []].
Qed.

Lemma stores_bind {A B} (m : K A) (f : A → K B) : stores m → (∀ a, stores (f a)) → stores (m ≫= f).
Proof.
  intros Hm Hf s b t. cbv [mbind M_bind]. destruct (m s) as [a s1| | | |] eqn:E; try done. intros H s' Hs'.
  rewrite (Hm s a s1 E s' Hs'). cbn [res_bind]. by rewrite (Hf a s1 b t H).
Qed.

Lemma stores_if {A} (b : bool) (m m' : K A) : stores m → stores m' → stores (if b then m else m').
Proof. by destruct b. Qed.

Lemma stores_ret {A} (a : A) : stores (mret a).
Proof. apply looks_stores, looks_ret. Qed.

Lemma stores_with_ram f : stores (with_ram f).
Proof. intros s a t. unfold with_ram. destruct (f (g_ram (k_sub s))) eqn:E; [|done]. intros [= <- <-] s' ->. by rewrite E. Qed.

Lemma stores_copyout `{Layout} root va src : stores (copyout root va src).
Proof.
  unfold copyout. generalize (S (length src)). intros fuel. revert va src.
  induction fuel as [|fuel IH]; intros va src; cbn [copyout_loop]; (apply stores_if; [apply stores_ret|]); [by intros s a t|].
  apply stores_if; [apply stores_ret|]. apply stores_bind; [apply looks_stores, looks_walk|]. intros pte.
  apply stores_if; [apply stores_ret|]. apply stores_bind; [apply looks_stores, looks_ld64|]. intros e.
  apply stores_if; [apply stores_ret|]. apply stores_bind; [apply stores_with_ram|]. intros []. apply IH.
Qed.

(** ** A user page at address 0 *)

Lemma ex_user : ∃ s tbl pages, @vm_inv ex_layout s ex_root tbl pages ∧
  @user_inv ex_layout (g_ram (k_sub s)) ex_root tbl pages ∧
  (∀ va, 0 <= va < PGSIZE → uwritable (g_ram (k_sub s)) ex_root va) ∧
  ∀ va, PGSIZE <= va → ¬ uwritable (g_ram (k_sub s)) ex_root va.
Proof.
  destruct ex_vm as (s0 & Hv0 & H0).
  set (perm := Z.lor (Z.lor PTE_W PTE_R) PTE_U).
  assert (∀ va, leaf (g_ram (k_sub s0)) ex_root va = 0) as Hz.
  { intros va. unfold leaf. cbn [leaf_from]. rewrite H0 by apply PX_range. done. }
  destruct (@map_loop_run ex_layout 0 s0 ex_root ex_table _ 0 (PHYSTOP - 4 * PGSIZE) perm Hv0)
    as (r & s & tbl & pages & k & _ & Hv & _ & Hm & [Htk Hpg] & Hres); try done.
  { intros va _. by rewrite Hz. }
  destruct Hres as [[_ ->]|(_ & _ & Hl)]; [|simpl in Hl; lia].
  assert (∀ va, 0 <= va < MAXVA → leaf (g_ram (k_sub s)) ex_root va =
    if decide (0 <= va < PGSIZE) then map_entry (PHYSTOP - 4 * PGSIZE) perm else 0) as Hleaf.
  { intros va Hva. rewrite Hm by done. rewrite Z.mul_1_l, Z.add_0_l, Z.sub_0_r.
    destruct (decide _) as [E|]; [|apply Hz]. rewrite Z.div_small by done. done. }
  assert (∀ va, 0 <= va < MAXVA → user_entry (leaf (g_ram (k_sub s)) ex_root va) = true →
    0 <= va < PGSIZE ∧ PTE2PA (leaf (g_ram (k_sub s)) ex_root va) = PHYSTOP - 4 * PGSIZE) as Hu.
  { intros va Hva. rewrite Hleaf by done. destruct (decide _); [|done]. intros _.
    split; [done|]. by apply map_entry_pa. }
  assert (PHYSTOP - 4 * PGSIZE ∉ [PHYSTOP - 3 * PGSIZE; PHYSTOP - 2 * PGSIZE]) as Hnin.
  { intros [?|?%list_elem_of_singleton]%elem_of_cons; done. }
  unfold ex_table in Htk. exists s, tbl, pages. split; [done|]. split.
  - split.
    + intros va Hva He. destruct (Hu va Hva He) as [_ ->].
      split; [by apply ex_is_page|]. split; [|by intros ?%Hpg].
      destruct (tbl !! _) eqn:Et; [|done]. exfalso.
      destruct (Htk (PHYSTOP - 4 * PGSIZE)) as [[? [? _]%lookup_singleton_Some]|?]; [by eexists|done..].
    + intros va va' Hva Hva' He He' _. destruct (Hu va Hva He) as [? _], (Hu va' Hva' He') as [? _].
      by rewrite !Z.div_small by done.
  - assert (MAXVA = 2 ^ 38) by done. split.
    + intros va Hva. unfold uwritable.
      rewrite Hleaf, decide_True by (unfold PGSIZE in *; lia). split; [unfold PGSIZE in *; lia|done].
    + intros va Hva (Hmax & He & _). destruct (Hu va Hmax He). lia.
Qed.

Lemma copyout_writes_witness :
  ∃ s s', copyout ex_root 8 [104; 105; 0] s = Ret 0 s' ∧ uread (g_ram (k_sub s')) ex_root 9 = Some 105.
Proof.
  destruct ex_user as (s & tbl & pages & Hv & Hu & Hw & _).
  destruct (@copyout_writes ex_layout s ex_root tbl pages 8 [104; 105; 0]) as
    (r & k & s' & Hr & _ & _ & _ & (_ & _ & Hwr) & Hres); [exact Hv|exact Hu|lia|].
  exists s, s'. destruct Hres as [[-> ->]|(_ & Hk & Hn)].
  - split; [exact Hr|]. by rewrite Hwr.
  - exfalso. apply Hn, Hw. simpl in Hk. unfold PGSIZE. lia.
Defined.

Lemma copyin_reads_witness :
  ∃ s l, copyin ex_root 8 3 s = Ret (0, l) s ∧ length l = 3%nat.
Proof.
  destruct ex_user as (s & tbl & pages & Hv & Hu & Hw & _).
  destruct (@copyin_reads ex_layout s ex_root tbl pages 8 3) as (r & l & Hr & Hub & Hres);
    [exact Hv|exact Hu|lia|].
  exists s, l. destruct Hres as [[-> Hl]|(_ & Hl & Hn)]; [split; [exact Hr|exact Hl]|].
  exfalso. destruct (Hw (8 + Z.of_nat (length l))) as (Hva & He & _); [unfold PGSIZE; lia|].
  unfold uread in Hn. rewrite decide_True, He in Hn by exact Hva.
  destruct (u_page _ _ _ _ Hu _ Hva He) as (Hp & _).
  pose proof (Z.mod_pos_bound (8 + Z.of_nat (length l)) PGSIZE eq_refl) as Hb.
  destruct (vm_mapped _ _ _ _ _ Hv Hp _ Hb) as [x Hx]. congruence.
Defined.

Lemma copyinstr_reads_witness :
  ∃ s r l, copyinstr ex_root MAXVA 16 s = Ret (r, l) s ∧ r = -1.
Proof.
  destruct ex_user as (s & tbl & pages & Hv & Hu & Hw & _).
  destruct (@copyinstr_reads ex_layout s ex_root tbl pages MAXVA 16) as (r & l & Hr & Hub & _ & Hres);
    [exact Hv|exact Hu|done|].
  exists s, r, l. split; [exact Hr|]. destruct Hres as [[_ (l0 & -> & _)]|[? _]]; [|done].
  destruct l0 as [|b l0]; specialize (Hub 0%nat); [specialize (Hub 0 eq_refl)|specialize (Hub b eq_refl)];
    unfold uread in Hub; rewrite decide_False in Hub by lia; done.
Defined.
