(* ===== verification/Printf.v ===== *)
(** Kernel output, kernel/printf.c, with the polled output path of kernel/uart.c
    and kernel/console.c it uses. *)

From Stdlib Require Import Ascii.
From stdpp Require Import base gmap strings numbers list.
From S2P Require Import Prelude Spinlock Kstate CString Globals.
Local Open Scope Z_scope.

Definition chr (a : Ascii.ascii) : Z := Z.of_N (Ascii.N_of_ascii a).
#[global] Arguments chr a%_char_scope.

(** The bytes of a literal, without the nul. *)
Fixpoint chars (s : string) : list Z :=
  match s with
  | EmptyString => []
  | String.String a s' => chr a :: chars s'
  end.

Definition upd_uart (f : uart → uart) : K unit := modify (upd_sub (fun g => g <| g_uart ::= f |>)).

Definition LSR_TX_IDLE : Z := Z.shiftl 1 5.

(** [ReadReg(LSR) & LSR_TX_IDLE], which consumes an answer of the device. *)
Definition tx_idle : K bool :=
  u ← gets (fun s => g_uart (k_sub s));
  upd_uart (fun u => u <| uart_idle ::= tail |>) ;;
  mret (default true (head (uart_idle u))).

(** [WriteReg(THR, c)]. *)
Definition write_thr (c : Z) : K unit := upd_uart (fun u => u <| uart_out ::= fun o => o ++ [uchar c] |>).

(** The [while] of [uartputc_sync]: one turn for each busy answer. *)
Fixpoint wait_idle (answers : list bool) : K unit :=
  i ← tx_idle;
  if i : bool then mret tt else
  match answers with
  | [] => spin
  | _ :: answers' => wait_idle answers'
  end.

Definition uartputc_sync (c : Z) : K unit :=
  push_off ;;
  p ← gets (fun s => g_panicked (k_sub s));
  if p : bool then spin else
  answers ← gets (fun s => uart_idle (g_uart (k_sub s)));
  wait_idle answers ;;
  write_thr c ;;
  pop_off.

Definition BACKSPACE : Z := 0x100.

Definition consputc (c : Z) : K unit :=
  if c =? BACKSPACE then
    uartputc_sync 8 ;; uartputc_sync (chr " ") ;; uartputc_sync 8
  else uartputc_sync c.

(** * [printf] *)

Definition digits : list Z := chars "0123456789abcdef".

(** The [do ... while] of [printint] with the table of digits [tbl]; 64 digits are
    enough for any base. *)
Fixpoint int_digits (tbl : list Z) (fuel : nat) (x base : Z) : list Z :=
  match fuel with
  | O => []
  | S fuel' =>
      default 0 (tbl !! Z.to_nat (x mod base)) ::
      (if x / base =? 0 then [] else int_digits tbl fuel' (x / base) base)
  end.

(** The characters that [printint] puts into [buf], in the order of the array;
    [xx] is a [long long]. *)
Definition printint_buf (xx base sign : Z) : list Z :=
  let neg := negb (sign =? 0) && (xx <? 0) in
  let x := if neg then uint64 (- xx) else uint64 xx in
  int_digits digits 64 x base ++ (if neg then [chr "-"] else []).

Fixpoint put_chars (l : list Z) : K unit :=
  match l with
  | [] => mret tt
  | c :: l' => consputc c ;; put_chars l'
  end.

(** [char buf[16]]: a store past its end is undefined. *)
Definition printint (xx base sign : Z) : K unit :=
  let buf := printint_buf xx base sign in
  if (16 <? length buf)%nat then fault else put_chars (rev buf).

Fixpoint ptr_digits (n : nat) (x : Z) : K unit :=
  match n with
  | O => mret tt
  | S n' =>
      consputc (default 0 (digits !! Z.to_nat (Z.shiftr x 60))) ;;
      ptr_digits n' (uint64 (Z.shiftl x 4))
  end.

Definition printptr (x : Z) : K unit :=
  consputc (chr "0") ;; consputc (chr "x") ;; ptr_digits 16 x.

(** Arguments of [printf]: numbers, and strings or the null pointer. *)
Inductive arg : Type :=
| ANum (z : Z)
| AStr (s : option (list Z)).

Definition int64 (z : Z) : Z := (z + 2 ^ 63) mod 2 ^ 64 - 2 ^ 63.

(** [va_arg]; reading past the arguments is undefined. *)
Definition num_arg (ap : list arg) (k : Z → list arg → K unit) : K unit :=
  match ap with
  | ANum z :: ap' => k z ap'
  | _ => fault
  end.

Definition str_arg (ap : list arg) (k : option (list Z) → list arg → K unit) : K unit :=
  match ap with
  | AStr o :: ap' => k o ap'
  | _ => fault
  end.

Definition ischar (c : Z) (a : Ascii.ascii) : bool := c =? chr a.
#[global] Arguments ischar c a%_char_scope.

(** The loop over [fmt], from the character at [i] on. *)
Fixpoint format (fmt : list Z) (ap : list arg) : K unit :=
  match fmt with
  | [] => mret tt
  | cx :: f0 =>
    if negb (ischar cx "%") then consputc cx ;; format f0 ap else
    match f0 with
    | [] => mret tt
    | c0 :: f1 =>
      let c1 := default 0 (head f1) in
      let c2 := if c1 =? 0 then 0 else default 0 (head (tail f1)) in
      if ischar c0 "d" then
        num_arg ap (fun z ap => printint (int z) 10 1 ;; format f1 ap)
      else if ischar c0 "l" && ischar c1 "d" then
        num_arg ap (fun z ap => printint (int64 z) 10 1 ;;
          match f1 with _ :: f2 => format f2 ap | [] => mret tt end)
      else if ischar c0 "l" && ischar c1 "l" && ischar c2 "d" then
        num_arg ap (fun z ap => printint (int64 z) 10 1 ;;
          match f1 with _ :: _ :: f3 => format f3 ap | _ => mret tt end)
      else if ischar c0 "u" then
        num_arg ap (fun z ap => printint (int z) 10 0 ;; format f1 ap)
      else if ischar c0 "l" && ischar c1 "u" then
        num_arg ap (fun z ap => printint (int64 z) 10 0 ;;
          match f1 with _ :: f2 => format f2 ap | [] => mret tt end)
      else if ischar c0 "l" && ischar c1 "l" && ischar c2 "u" then
        num_arg ap (fun z ap => printint (int64 z) 10 0 ;;
          match f1 with _ :: _ :: f3 => format f3 ap | _ => mret tt end)
      else if ischar c0 "x" then
        num_arg ap (fun z ap => printint (int z) 16 0 ;; format f1 ap)
      else if ischar c0 "l" && ischar c1 "x" then
        num_arg ap (fun z ap => printint (int64 z) 16 0 ;;
          match f1 with _ :: f2 => format f2 ap | [] => mret tt end)
      else if ischar c0 "l" && ischar c1 "l" && ischar c2 "x" then
        num_arg ap (fun z ap => printint (int64 z) 16 0 ;;
          match f1 with _ :: _ :: f3 => format f3 ap | _ => mret tt end)
      else if ischar c0 "p" then
        num_arg ap (fun z ap => printptr (uint64 z) ;; format f1 ap)
      else if ischar c0 "s" then
        str_arg ap (fun o ap => put_chars (default (chars "(null)") o) ;; format f1 ap)
      else if ischar c0 "%" then consputc (chr "%") ;; format f1 ap
      else consputc (chr "%") ;; consputc c0 ;; format f1 ap
    end
  end.

Definition printf (fmt : string) (ap : list arg) : K Z :=
  locking ← gets (fun s => g_pr_locking (k_sub s));
  when (negb (locking =? 0)) (acquire pr_lock) ;;
  format (chars fmt) ap ;;
  when (negb (locking =? 0)) (release pr_lock) ;;
  mret 0.

Definition printfinit : K unit :=
  initlock pr_lock "pr" ;;
  modify (upd_sub (fun g => g <| g_pr_locking := 1 |>)).

(** The buffer of [printint] has room for 16 characters.  The l conversions let longer
    numbers through: every number of at least 17 digits is stored past its end. *)
Lemma int_digits_length tbl fuel x n :
  10 ^ Z.of_nat n <= x → (n < fuel)%nat → (n < length (int_digits tbl fuel x 10))%nat.
Proof.
  revert x n. induction fuel as [|fuel IH]; intros x n Hx Hn; [lia|]. cbn [int_digits length].
  destruct n as [|n]; [lia|]. rewrite Nat2Z.inj_succ, Z.pow_succ_r in Hx by lia.
  assert (Hq : 10 ^ Z.of_nat n <= x / 10) by (apply Z.div_le_lower_bound; lia).
  assert (0 < 10 ^ Z.of_nat n) by (apply Z.pow_pos_nonneg; lia).
  destruct (Z.eqb_spec (x / 10) 0) as [H0|_]; [lia|].
  specialize (IH (x / 10) n Hq ltac:(lia)). lia.
Qed.

Theorem printint_overflows x s : 10 ^ 16 <= x < 2 ^ 64 → printint x 10 0 s = Fault.
Proof.
  intros Hx. unfold printint, printint_buf. change (negb (0 =? 0)) with false. cbn [andb].
  rewrite uint64_small by lia. rewrite app_nil_r.
  pose proof (int_digits_length digits 64 x 16 ltac:(simpl; lia) ltac:(lia)) as Hl.
  destruct (Nat.ltb_spec 16 (length (int_digits digits 64 x 10))); [done|lia].
Qed.

(** Numbers below [base ^ n] have at most [n] digits. *)
Lemma int_digits_short tbl fuel x base n :
  1 < base → 0 ≤ x < base ^ Z.of_nat n → (0 < n)%nat → (length (int_digits tbl fuel x base) ≤ n)%nat.
Proof.
  intros Hb. revert x n. induction fuel as [|fuel IH]; intros x n Hx Hn; [simpl; lia|].
  cbn [int_digits length]. destruct (Z.eqb_spec (x / base) 0) as [H0|H0]; [simpl; lia|].
  destruct n as [|n]; [lia|]. rewrite Nat2Z.inj_succ, Z.pow_succ_r in Hx by lia.
  assert (Hq : 0 ≤ x / base < base ^ Z.of_nat n).
  { split; [apply Z.div_pos; lia|]. apply Z.div_lt_upper_bound; lia. }
  destruct n as [|n].
  - change (base ^ Z.of_nat 0) with 1 in Hq. lia.
  - specialize (IH (x / base) (S n) Hq). lia.
Qed.

