(* ===== verification/Sleeplock.v ===== *)
(** Sleep locks, kernel/sleeplock.c.

    A loop that sleeps until a condition holds may be woken any number of times
    before it does: [patience] bounds the number of wakeups that are followed, and
    a run that needs more ends in [Spin]. *)

From stdpp Require Import base gmap strings numbers list.
From S2P Require Import Prelude Spinlock Kstate Sched CString Globals.
Local Open Scope Z_scope.

Class Patience := patience : nat.

Fixpoint sleep_while_n (n : nat) (cond : K bool) (body : K unit) : K unit :=
  b ← cond;
  if b : bool then
    match n with
    | O => spin
    | S n' => body ;; sleep_while_n n' cond body
    end
  else mret tt.

(** [while (cond) body], where [body] sleeps. *)
Definition sleep_while `{Patience} (cond : K bool) (body : K unit) : K unit :=
  sleep_while_n patience cond body.

(** The sleep locks of the kernel are in buffers and inodes. *)
Inductive slid : Type := SlBuf (i : nat) | SlInode (i : nat).

#[global] Instance slid_eq_dec : EqDecision slid.
Proof. solve_decision. Defined.

Definition sl_spin (l : slid) : lockid :=
  match l with SlBuf i => LkSleep "buffer" i | SlInode i => LkSleep "inode" i end.

Definition sl_chan (l : slid) : kptr :=
  match l with SlBuf i => PSleeplock "buffer" i | SlInode i => PSleeplock "inode" i end.

Definition get_sl (l : slid) (g : sub) : option sleeplock :=
  match l with SlBuf i => b_lock <$> g_bufs g !! i | SlInode i => i_lock <$> g_inodes g !! i end.

Definition set_sl (l : slid) (v : sleeplock) (g : sub) : sub :=
  match l with
  | SlBuf i => g <| g_bufs ::= alter (fun b => b <| b_lock := v |>) i |>
  | SlInode i => g <| g_inodes ::= alter (fun ip => ip <| i_lock := v |>) i |>
  end.

Definition read_sl (l : slid) : K sleeplock := deref (fun s => get_sl l (k_sub s)).

(** Assignment to both fields of the lock. *)
Definition write_sl (l : slid) (locked pid : Z) : K unit :=
  read_sl l ;; modify (upd_sub (set_sl l (mksleeplock locked pid))).

Definition initsleeplock (l : slid) : K unit :=
  initlock (sl_spin l) "sleep lock" ;;
  write_sl l 0 0.

(** [myproc()->pid]. *)
Definition mypid : K Z :=
  o ← myproc;
  i ← non_null o;
  p ← get_proc i;
  mret (p_pid p).

Section ops.
Context `{Patience}.

Definition acquiresleep (l : slid) : K unit :=
  acquire (sl_spin l) ;;
  sleep_while (lk ← read_sl l; mret (negb (sl_locked lk =? 0))) (sleep (sl_chan l) (sl_spin l)) ;;
  pid ← mypid;
  write_sl l 1 pid ;;
  release (sl_spin l).

Definition releasesleep (l : slid) : K unit :=
  acquire (sl_spin l) ;;
  write_sl l 0 0 ;;
  wakeup (Some (sl_chan l)) ;;
  release (sl_spin l).

Definition holdingsleep (l : slid) : K bool :=
  acquire (sl_spin l) ;;
  lk ← read_sl l;
  r ← (if negb (sl_locked lk =? 0) then pid ← mypid; mret (sl_pid lk =? pid) else mret false);
  release (sl_spin l) ;;
  mret r.

End ops.
