(* ===== verification/Virtio.v ===== *)
(** The disk driver, kernel/virtio_disk.c, with the constants of
    kernel/virtio.h.  Register reads are answered by the device. *)

From stdpp Require Import base gmap strings numbers list.
From S2P Require Import Prelude Spinlock Kstate Sched CString Globals Kalloc Sleeplock.
Local Open Scope Z_scope.

Definition VIRTIO_MMIO_MAGIC_VALUE : Z := 0x000.
Definition VIRTIO_MMIO_VERSION : Z := 0x004.
Definition VIRTIO_MMIO_DEVICE_ID : Z := 0x008.
Definition VIRTIO_MMIO_VENDOR_ID : Z := 0x00c.
Definition VIRTIO_MMIO_DEVICE_FEATURES : Z := 0x010.
Definition VIRTIO_MMIO_DRIVER_FEATURES : Z := 0x020.
Definition VIRTIO_MMIO_QUEUE_SEL : Z := 0x030.
Definition VIRTIO_MMIO_QUEUE_NUM_MAX : Z := 0x034.
Definition VIRTIO_MMIO_QUEUE_NUM : Z := 0x038.
Definition VIRTIO_MMIO_QUEUE_READY : Z := 0x044.
Definition VIRTIO_MMIO_QUEUE_NOTIFY : Z := 0x050.
Definition VIRTIO_MMIO_INTERRUPT_STATUS : Z := 0x060.
Definition VIRTIO_MMIO_INTERRUPT_ACK : Z := 0x064.
Definition VIRTIO_MMIO_STATUS : Z := 0x070.
Definition VIRTIO_MMIO_QUEUE_DESC_LOW : Z := 0x080.
Definition VIRTIO_MMIO_QUEUE_DESC_HIGH : Z := 0x084.
Definition VIRTIO_MMIO_DRIVER_DESC_LOW : Z := 0x090.
Definition VIRTIO_MMIO_DRIVER_DESC_HIGH : Z := 0x094.
Definition VIRTIO_MMIO_DEVICE_DESC_LOW : Z := 0x0a0.
Definition VIRTIO_MMIO_DEVICE_DESC_HIGH : Z := 0x0a4.

Definition VIRTIO_CONFIG_S_ACKNOWLEDGE : Z := 1.
Definition VIRTIO_CONFIG_S_DRIVER : Z := 2.
Definition VIRTIO_CONFIG_S_DRIVER_OK : Z := 4.
Definition VIRTIO_CONFIG_S_FEATURES_OK : Z := 8.

Definition VIRTIO_BLK_F_RO : Z := 5.
Definition VIRTIO_BLK_F_SCSI : Z := 7.
Definition VIRTIO_BLK_F_CONFIG_WCE : Z := 11.
Definition VIRTIO_BLK_F_MQ : Z := 12.
Definition VIRTIO_F_ANY_LAYOUT : Z := 27.
Definition VIRTIO_RING_F_INDIRECT_DESC : Z := 28.
Definition VIRTIO_RING_F_EVENT_IDX : Z := 29.

Definition NUM : nat := 8%nat.
Definition VRING_DESC_F_NEXT : Z := 1.
Definition VRING_DESC_F_WRITE : Z := 2.
Definition VIRTIO_BLK_T_IN : Z := 0.
Definition VIRTIO_BLK_T_OUT : Z := 1.

(** The device: its answer to the read of a register, given the registers as
    the driver last wrote them. *)
Class VirtioDev := mmio_read : gmap Z Z → Z → Z.

Definition upd_disk (f : vdisk → vdisk) : K unit := modify (upd_sub (fun g => g <| g_vdisk ::= f |>)).
Definition get_disk {A} (f : vdisk → A) : K A := gets (fun s => f (g_vdisk (k_sub s))).

(** [*R(r) = v]. *)
Definition write_R (r v : Z) : K unit := upd_disk (fun d => d <| vd_regs ::= <[r := uint v]> |>).

(** Assignment to an element of an array of the driver. *)
Definition upd_desc (i : Z) (f : virtq_desc → virtq_desc) : K unit :=
  deref (fun s => at_idx (vd_desc (g_vdisk (k_sub s))) i) ;;
  upd_disk (fun d => d <| vd_desc ::= alter f (Z.to_nat i) |>).

Definition set_free (i : Z) (v : Z) : K unit :=
  deref (fun s => at_idx (vd_free (g_vdisk (k_sub s))) i) ;;
  upd_disk (fun d => d <| vd_free ::= <[Z.to_nat i := v]> |>).

Section ops.
Context `{Layout} `{Patience} `{VirtioDev}.

(** [*R(r)]. *)
Definition read_R (r : Z) : K Z := get_disk (fun d => uint (mmio_read (vd_regs d) r)).

Definition clear_feature (features bit : Z) : Z :=
  Z.land features (uint64 (Z.lnot (Z.shiftl 1 bit))).

Definition virtio_disk_init : K unit :=
  initlock vdisk_lock "virtio_disk" ;;
  magic ← read_R VIRTIO_MMIO_MAGIC_VALUE;
  version ← read_R VIRTIO_MMIO_VERSION;
  device ← read_R VIRTIO_MMIO_DEVICE_ID;
  vendor ← read_R VIRTIO_MMIO_VENDOR_ID;
  if negb (magic =? 0x74726976) || negb (version =? 2) || negb (device =? 2) ||
     negb (vendor =? 0x554d4551)
  then panic "could not find virtio disk" else
  write_R VIRTIO_MMIO_STATUS 0 ;;
  let status := VIRTIO_CONFIG_S_ACKNOWLEDGE in
  write_R VIRTIO_MMIO_STATUS status ;;
  let status := Z.lor status VIRTIO_CONFIG_S_DRIVER in
  write_R VIRTIO_MMIO_STATUS status ;;
  features ← read_R VIRTIO_MMIO_DEVICE_FEATURES;
  let features := fold_left clear_feature
    [VIRTIO_BLK_F_RO; VIRTIO_BLK_F_SCSI; VIRTIO_BLK_F_CONFIG_WCE; VIRTIO_BLK_F_MQ;
     VIRTIO_F_ANY_LAYOUT; VIRTIO_RING_F_EVENT_IDX; VIRTIO_RING_F_INDIRECT_DESC] features in
  write_R VIRTIO_MMIO_DRIVER_FEATURES features ;;
  let status := Z.lor status VIRTIO_CONFIG_S_FEATURES_OK in
  write_R VIRTIO_MMIO_STATUS status ;;
  status ← read_R VIRTIO_MMIO_STATUS;
  if Z.land status VIRTIO_CONFIG_S_FEATURES_OK =? 0
  then panic "virtio disk FEATURES_OK unset" else
  write_R VIRTIO_MMIO_QUEUE_SEL 0 ;;
  ready ← read_R VIRTIO_MMIO_QUEUE_READY;
  if negb (ready =? 0) then panic "virtio disk should not be ready" else
  max ← read_R VIRTIO_MMIO_QUEUE_NUM_MAX;
  if max =? 0 then panic "virtio disk has no queue 0" else
  if max <? Z.of_nat NUM then panic "virtio disk max queue too short" else
  desc ← kalloc;
  avail ← kalloc;
  used ← kalloc;
  if (desc =? 0) || (avail =? 0) || (used =? 0) then panic "virtio disk kalloc" else
  with_ram (memset desc 0 PGSIZE) ;;
  with_ram (memset avail 0 PGSIZE) ;;
  with_ram (memset used 0 PGSIZE) ;;
  upd_disk (fun d => d <| vd_desc := replicate NUM (mkdesc DmaNull 0 0 0) |>
                       <| vd_avail_idx := 0 |> <| vd_avail_ring := replicate NUM 0 |>
                       <| vd_used_ring_idx := 0 |> <| vd_used_ring := replicate NUM 0 |>) ;;
  write_R VIRTIO_MMIO_QUEUE_NUM (Z.of_nat NUM) ;;
  write_R VIRTIO_MMIO_QUEUE_DESC_LOW desc ;;
  write_R VIRTIO_MMIO_QUEUE_DESC_HIGH (Z.shiftr desc 32) ;;
  write_R VIRTIO_MMIO_DRIVER_DESC_LOW avail ;;
  write_R VIRTIO_MMIO_DRIVER_DESC_HIGH (Z.shiftr avail 32) ;;
  write_R VIRTIO_MMIO_DEVICE_DESC_LOW used ;;
  write_R VIRTIO_MMIO_DEVICE_DESC_HIGH (Z.shiftr used 32) ;;
  write_R VIRTIO_MMIO_QUEUE_READY 1 ;;
  for_acc (seq 0 NUM) (fun i _ => set_free (Z.of_nat i) 1) tt ;;
  write_R VIRTIO_MMIO_STATUS (Z.lor status VIRTIO_CONFIG_S_DRIVER_OK).

Definition alloc_desc : K Z :=
  r ← for_ret (seq 0 NUM)
        (fun i =>
           f ← deref (fun s => vd_free (g_vdisk (k_sub s)) !! i);
           if negb (f =? 0) then set_free (Z.of_nat i) 0 ;; mret (Some (Z.of_nat i))
           else mret None);
  mret (default (-1) r).

Definition free_desc (i : Z) : K unit :=
  if Z.of_nat NUM <=? i then panic "free_desc 1" else
  f ← deref (fun s => at_idx (vd_free (g_vdisk (k_sub s))) i);
  if negb (f =? 0) then panic "free_desc 2" else
  upd_desc i (fun _ => mkdesc DmaNull 0 0 0) ;;
  set_free i 1 ;;
  wakeup (Some PDiskFree).

(** A chain has at most [NUM] descriptors. *)
Fixpoint free_chain_n (n : nat) (i : Z) : K unit :=
  d ← deref (fun s => at_idx (vd_desc (g_vdisk (k_sub s))) i);
  let flag := vq_flags d in
  let nxt := vq_next d in
  free_desc i ;;
  if negb (Z.land flag VRING_DESC_F_NEXT =? 0) then
    match n with
    | O => spin
    | S n' => free_chain_n n' nxt
    end
  else mret tt.

Definition free_chain (i : Z) : K unit := free_chain_n NUM i.

(** The indices that were allocated, [None] on failure. *)
Fixpoint alloc_descs (n : nat) (idx : list Z) : K (option (list Z)) :=
  match n with
  | O => mret (Some idx)
  | S n' =>
      i ← alloc_desc;
      if i <? 0 then
        for_acc (seq 0 (length idx)) (fun j _ => i ← non_null (idx !! j); free_desc i) tt ;;
        mret None
      else alloc_descs n' (idx ++ [i])
  end.

Definition alloc3_desc : K (option (list Z)) := alloc_descs 3 [].

(** The first [while] of [virtio_disk_rw]. *)
Fixpoint alloc3_loop (n : nat) : K (list Z) :=
  r ← alloc3_desc;
  match r with
  | Some idx => mret idx
  | None =>
      sleep PDiskFree vdisk_lock ;;
      match n with
      | O => spin
      | S n' => alloc3_loop n'
      end
  end.

(** [virtio_disk_rw(&bcache.buf[b], write)]. *)
Definition virtio_disk_rw (b : nat) (write : bool) : K unit :=
  bf ← deref (fun s => g_bufs (k_sub s) !! b);
  let sector := uint (b_blockno bf * (BSIZE / 512)) in
  acquire vdisk_lock ;;
  idx ← alloc3_loop patience;
  idx0 ← non_null (idx !! 0%nat);
  idx1 ← non_null (idx !! 1%nat);
  idx2 ← non_null (idx !! 2%nat);
  upd_disk (fun d => d <| vd_ops ::=
    <[Z.to_nat idx0 := mkreq (if write then VIRTIO_BLK_T_OUT else VIRTIO_BLK_T_IN) 0 sector]> |>) ;;
  upd_desc idx0 (fun _ => mkdesc (DmaOp (Z.to_nat idx0)) 16 VRING_DESC_F_NEXT idx1) ;;
  upd_desc idx1 (fun _ => mkdesc (DmaBuf b) BSIZE
    (Z.lor (if write then 0 else VRING_DESC_F_WRITE) VRING_DESC_F_NEXT) idx2) ;;
  upd_disk (fun d => d <| vd_info_status ::= <[Z.to_nat idx0 := 0xff]> |>) ;;
  upd_desc idx2 (fun _ => mkdesc (DmaStatus (Z.to_nat idx0)) 1 VRING_DESC_F_WRITE 0) ;;
  modify (upd_sub (fun g => g <| g_bufs ::= alter (fun bf => bf <| b_disk := 1 |>) b |>)) ;;
  upd_disk (fun d => d <| vd_info_b ::= <[Z.to_nat idx0 := Some b]> |>) ;;
  upd_disk (fun d => d <| vd_avail_ring ::= <[Z.to_nat (vd_avail_idx d mod Z.of_nat NUM) := idx0]> |>) ;;
  upd_disk (fun d => d <| vd_avail_idx ::= fun i => ushort (i + 1) |>) ;;
  write_R VIRTIO_MMIO_QUEUE_NOTIFY 0 ;;
  sleep_while (bf ← deref (fun s => g_bufs (k_sub s) !! b); mret (b_disk bf =? 1))
    (sleep (PBuf b) vdisk_lock) ;;
  upd_disk (fun d => d <| vd_info_b ::= <[Z.to_nat idx0 := None]> |>) ;;
  free_chain idx0 ;;
  release vdisk_lock.

(** The loop of [virtio_disk_intr], at most [n] completions. *)
Fixpoint intr_loop (n : nat) : K unit :=
  used_idx ← get_disk vd_used_idx;
  ring_idx ← get_disk vd_used_ring_idx;
  if used_idx =? ring_idx then mret tt else
  match n with
  | O => spin
  | S n' =>
      id ← deref (fun s => let d := g_vdisk (k_sub s) in
                           vd_used_ring d !! Z.to_nat (vd_used_idx d mod Z.of_nat NUM));
      st ← deref (fun s => at_idx (vd_info_status (g_vdisk (k_sub s))) id);
      if negb (st =? 0) then panic "virtio_disk_intr status" else
      o ← deref (fun s => at_idx (vd_info_b (g_vdisk (k_sub s))) id);
      b ← non_null o;
      deref (fun s => g_bufs (k_sub s) !! b) ;;
      modify (upd_sub (fun g => g <| g_bufs ::= alter (fun bf => bf <| b_disk := 0 |>) b |>)) ;;
      wakeup (Some (PBuf b)) ;;
      upd_disk (fun d => d <| vd_used_idx ::= fun i => ushort (i + 1) |>) ;;
      intr_loop n'
  end.

Definition virtio_disk_intr : K unit :=
  acquire vdisk_lock ;;
  st ← read_R VIRTIO_MMIO_INTERRUPT_STATUS;
  write_R VIRTIO_MMIO_INTERRUPT_ACK (Z.land st 3) ;;
  intr_loop NUM ;;
  release vdisk_lock.

End ops.
