(* ===== verification/Bio.v ===== *)
(** The buffer cache, kernel/bio.c: the buffers are in a doubly linked ring
    through [b_prev] and [b_next], with [head] the element [NBUF] of the array. *)

From stdpp Require Import base gmap strings numbers list.
From S2P Require Import Prelude Spinlock Kstate Sched CString Globals Kalloc Sleeplock Virtio.
Local Open Scope Z_scope.

Definition head : nat := NBUF.

Definition get_buf (b : nat) : K buf := deref (fun s => g_bufs (k_sub s) !! b).

(** Assignment to fields of a buffer. *)
Definition upd_buf (b : nat) (f : buf → buf) : K unit :=
  get_buf b ;; modify (upd_sub (fun g => g <| g_bufs ::= alter f b |>)).

(** Insert [b] behind [head]. *)
Definition link_first (b : nat) : K unit :=
  h ← get_buf head;
  upd_buf b (fun bf => bf <| b_next := b_next h |>) ;;
  upd_buf b (fun bf => bf <| b_prev := head |>) ;;
  upd_buf (b_next h) (fun bf => bf <| b_prev := b |>) ;;
  upd_buf head (fun bf => bf <| b_next := b |>).

Definition binit : K unit :=
  initlock bcache_lock "bcache" ;;
  upd_buf head (fun bf => bf <| b_prev := head |>) ;;
  upd_buf head (fun bf => bf <| b_next := head |>) ;;
  for_acc (seq 0 NBUF)
    (fun b _ =>
       h ← get_buf head;
       upd_buf b (fun bf => bf <| b_next := b_next h |>) ;;
       upd_buf b (fun bf => bf <| b_prev := head |>) ;;
       initsleeplock (SlBuf b) ;;
       h ← get_buf head;
       upd_buf (b_next h) (fun bf => bf <| b_prev := b |>) ;;
       upd_buf head (fun bf => bf <| b_next := b |>)) tt.

(** The first buffer from [b] on, along [next], that satisfies [ok]; the ring
    has [NBUF] buffers. *)
Fixpoint ring_find (fuel : nat) (next : buf → nat) (ok : buf → bool) (b : nat) : K (option nat) :=
  if decide (b = head) then mret None else
  bf ← get_buf b;
  if ok bf then mret (Some b) else
  match fuel with
  | O => spin
  | S fuel' => ring_find fuel' next ok (next bf)
  end.

Section ops.
Context `{Layout} `{Patience} `{VirtioDev}.

Definition bget (dev blockno : Z) : K nat :=
  acquire bcache_lock ;;
  h ← get_buf head;
  o ← ring_find NBUF b_next (fun b => (b_dev b =? dev) && (b_blockno b =? blockno)) (b_next h);
  match o with
  | Some b =>
      upd_buf b (fun b => b <| b_refcnt ::= fun n => uint (n + 1) |>) ;;
      release bcache_lock ;;
      acquiresleep (SlBuf b) ;;
      mret b
  | None =>
      h ← get_buf head;
      o ← ring_find NBUF b_prev (fun b => b_refcnt b =? 0) (b_prev h);
      match o with
      | Some b =>
          upd_buf b (fun b => b <| b_dev := dev |> <| b_blockno := blockno |> <| b_valid := 0 |>
                                <| b_refcnt := 1 |>) ;;
          release bcache_lock ;;
          acquiresleep (SlBuf b) ;;
          mret b
      | None => panic "bget: no buffers"
      end
  end.

Definition bread (dev blockno : Z) : K nat :=
  b ← bget dev blockno;
  bf ← get_buf b;
  (if b_valid bf =? 0 then
     virtio_disk_rw b false ;;
     upd_buf b (fun b => b <| b_valid := 1 |>)
   else mret tt) ;;
  mret b.

Definition bwrite (b : nat) : K unit :=
  h ← holdingsleep (SlBuf b);
  if negb h then panic "bwrite" else virtio_disk_rw b true.

Definition brelse (b : nat) : K unit :=
  h ← holdingsleep (SlBuf b);
  if negb h then panic "brelse" else
  releasesleep (SlBuf b) ;;
  acquire bcache_lock ;;
  upd_buf b (fun b => b <| b_refcnt ::= fun n => uint (n - 1) |>) ;;
  bf ← get_buf b;
  when (b_refcnt bf =? 0) (
    bf ← get_buf b;
    upd_buf (b_next bf) (fun x => x <| b_prev := b_prev bf |>) ;;
    bf ← get_buf b;
    upd_buf (b_prev bf) (fun x => x <| b_next := b_next bf |>) ;;
    link_first b) ;;
  release bcache_lock.

Definition bpin (b : nat) : K unit :=
  acquire bcache_lock ;;
  upd_buf b (fun b => b <| b_refcnt ::= fun n => uint (n + 1) |>) ;;
  release bcache_lock.

Definition bunpin (b : nat) : K unit :=
  acquire bcache_lock ;;
  upd_buf b (fun b => b <| b_refcnt ::= fun n => uint (n - 1) |>) ;;
  release bcache_lock.

End ops.
