(* ===== verification/Log.v ===== *)
(** The log, kernel/log.c.  The header block holds [n] and [LOGSIZE] block
    numbers as little-endian 32-bit words. *)

From stdpp Require Import base gmap strings numbers list.
From S2P Require Import Prelude Spinlock Kstate Sched CString Globals Kalloc Sleeplock Virtio Bio.
Local Open Scope Z_scope.

(** The [i]th 32-bit word of a block, and a store to it. *)
Definition word (data : list Z) (i : nat) : Z := le_value (take 4 (drop (4 * i) data)).

Definition set_word (i : nat) (v : Z) (data : list Z) : list Z :=
  take (4 * i) data ++ le_bytes 4 v ++ drop (4 * i + 4) data.

Definition get_log {A} (f : log → A) : K A := gets (fun s => f (g_log (k_sub s))).
Definition upd_log (f : log → log) : K unit := modify (upd_sub (fun g => g <| g_log ::= f |>)).

(** [log.lh.block[i]]. *)
Definition lh_get (i : nat) : K Z := deref (fun s => lh_block (log_lh (g_log (k_sub s))) !! i).

Definition lh_set (i : nat) (v : Z) : K unit :=
  lh_get i ;; upd_log (fun l => l <| log_lh ::= fun h => h <| lh_block ::= <[i := v]> |> |>).

Definition set_lh_n (n : Z) : K unit := upd_log (fun l => l <| log_lh ::= fun h => h <| lh_n := n |> |>).

Section ops.
Context `{Layout} `{Patience} `{VirtioDev}.

(** [for (tail = 0; tail < log.lh.n; tail++)]; [n] does not change in the body. *)
Definition for_lh (body : nat → K unit) : K unit :=
  n ← get_log (fun l => lh_n (log_lh l));
  for_acc (seq 0 (Z.to_nat n)) (fun tail _ => body tail) tt.

Definition install_trans (recovering : bool) : K unit :=
  for_lh (fun tail =>
    dev ← get_log log_dev;
    start ← get_log log_start;
    lbuf ← bread (uint dev) (uint (start + Z.of_nat tail + 1));
    blk ← lh_get tail;
    dbuf ← bread (uint dev) (uint blk);
    lb ← get_buf lbuf;
    upd_buf dbuf (fun b => b <| b_data := b_data lb |>) ;;
    bwrite dbuf ;;
    when (negb recovering) (bunpin dbuf) ;;
    brelse lbuf ;;
    brelse dbuf).

Definition read_head : K unit :=
  dev ← get_log log_dev;
  start ← get_log log_start;
  b ← bread (uint dev) (uint start);
  bf ← get_buf b;
  set_lh_n (int (word (b_data bf) 0)) ;;
  for_lh (fun i => lh_set i (int (word (b_data bf) (S i)))) ;;
  brelse b.

Definition write_head : K unit :=
  dev ← get_log log_dev;
  start ← get_log log_start;
  b ← bread (uint dev) (uint start);
  n ← get_log (fun l => lh_n (log_lh l));
  upd_buf b (fun bf => bf <| b_data ::= set_word 0 (uint n) |>) ;;
  for_lh (fun i =>
    v ← lh_get i;
    upd_buf b (fun bf => bf <| b_data ::= set_word (S i) (uint v) |>)) ;;
  bwrite b ;;
  brelse b.

Definition recover_from_log : K unit :=
  read_head ;;
  install_trans true ;;
  set_lh_n 0 ;;
  write_head.

Definition initlog (dev : Z) (sb : superblock) : K unit :=
  if BSIZE <=? 4 + 4 * LOGSIZE then panic "initlog: too big logheader" else
  initlock log_lock "log" ;;
  upd_log (fun l => l <| log_start := int (sb_logstart sb) |>) ;;
  upd_log (fun l => l <| log_size := int (sb_nlog sb) |>) ;;
  upd_log (fun l => l <| log_dev := dev |>) ;;
  recover_from_log.

(** [log.committing], or too little room for one more operation. *)
Definition op_must_wait (l : log) : bool :=
  negb (log_committing l =? 0) ||
  (LOGSIZE <? int (lh_n (log_lh l) + (log_outstanding l + 1) * MAXOPBLOCKS)).

Definition begin_op : K unit :=
  acquire log_lock ;;
  sleep_while (get_log op_must_wait) (sleep PLog log_lock) ;;
  upd_log (fun l => l <| log_outstanding ::= fun n => int (n + 1) |>) ;;
  release log_lock.

Definition write_log : K unit :=
  for_lh (fun tail =>
    dev ← get_log log_dev;
    start ← get_log log_start;
    to ← bread (uint dev) (uint (start + Z.of_nat tail + 1));
    blk ← lh_get tail;
    from ← bread (uint dev) (uint blk);
    fb ← get_buf from;
    upd_buf to (fun b => b <| b_data := b_data fb |>) ;;
    bwrite to ;;
    brelse from ;;
    brelse to).

Definition commit : K unit :=
  n ← get_log (fun l => lh_n (log_lh l));
  when (0 <? n) (
    write_log ;;
    write_head ;;
    install_trans false ;;
    set_lh_n 0 ;;
    write_head).

Definition end_op : K unit :=
  acquire log_lock ;;
  upd_log (fun l => l <| log_outstanding ::= fun n => int (n - 1) |>) ;;
  committing ← get_log log_committing;
  if negb (committing =? 0) then panic "log.committing" else
  outstanding ← get_log log_outstanding;
  let do_commit := outstanding =? 0 in
  (if do_commit then upd_log (fun l => l <| log_committing := 1 |>) else wakeup (Some PLog)) ;;
  release log_lock ;;
  when do_commit (
    commit ;;
    acquire log_lock ;;
    upd_log (fun l => l <| log_committing := 0 |>) ;;
    wakeup (Some PLog) ;;
    release log_lock).

(** The index of [v] in the first [n] elements, or [n]. *)
Fixpoint find_block (v : Z) (block : list Z) (n : nat) : nat :=
  match n, block with
  | S n', b :: block' => if b =? v then 0%nat else S (find_block v block' n')
  | _, _ => 0%nat
  end.

Definition log_write (b : nat) : K unit :=
  acquire log_lock ;;
  n ← get_log (fun l => lh_n (log_lh l));
  size ← get_log log_size;
  if (LOGSIZE <=? n) || (size - 1 <=? n) then panic "too big a transaction" else
  outstanding ← get_log log_outstanding;
  if outstanding <? 1 then panic "log_write outside of trans" else
  bf ← get_buf b;
  block ← get_log (fun l => lh_block (log_lh l));
  let i := find_block (int (b_blockno bf)) block (Z.to_nat n) in
  lh_set i (int (b_blockno bf)) ;;
  when (Z.of_nat i =? n) (
    bpin b ;;
    set_lh_n (int (n + 1))) ;;
  release log_lock.

End ops.
