(* ===== verification/Fs.v ===== *)
(** The file system, kernel/fs.c with the layout of kernel/fs.h: block and inode
    allocation, inode contents, directories and path names.  [either_copyout] and
    [either_copyin] of kernel/proc.c move the data.

    A destination or source in the kernel is either physical memory or a local
    variable of the caller, whose bytes are passed as a list. *)

From Stdlib Require Import Ascii.
From stdpp Require Import base gmap strings numbers list.
From S2P Require Import Prelude Spinlock Kstate Sched CString Globals Kalloc Vm Printf Sleeplock Virtio Bio Log.
Local Open Scope Z_scope.

(** * Layout (kernel/fs.h) *)

Definition IBLOCK (i : Z) (sb : superblock) : Z := uint (i / IPB + sb_inodestart sb).
Definition BBLOCK (b : Z) (sb : superblock) : Z := uint (b / BPB + sb_bmapstart sb).

Definition short (z : Z) : Z := (z + 2 ^ 15) mod 2 ^ 16 - 2 ^ 15.

Record dinode := mkdinode {
  d_type : Z; d_major : Z; d_minor : Z; d_nlink : Z; d_size : Z; d_addrs : list Z
}.

Definition half (data : list Z) (off : nat) : Z := le_value (take 2 (drop off data)).
Definition word_at (data : list Z) (off : nat) : Z := le_value (take 4 (drop off data)).

(** The inode in slot [k] of a block, and a store of it. *)
Definition read_dinode (data : list Z) (k : nat) : dinode :=
  let d := drop (64 * k) data in
  mkdinode (short (half d 0)) (short (half d 2)) (short (half d 4)) (short (half d 6))
    (word_at d 8) ((fun i => word_at d (12 + 4 * i)) <$> seq 0 (S NDIRECT)).

Definition dinode_bytes (d : dinode) : list Z :=
  le_bytes 2 (ushort (d_type d)) ++ le_bytes 2 (ushort (d_major d)) ++
  le_bytes 2 (ushort (d_minor d)) ++ le_bytes 2 (ushort (d_nlink d)) ++
  le_bytes 4 (uint (d_size d)) ++ mjoin ((fun a => le_bytes 4 (uint a)) <$> d_addrs d).

Definition write_dinode (k : nat) (d : dinode) (data : list Z) : list Z :=
  take (64 * k) data ++ dinode_bytes d ++ drop (64 * k + 64) data.

(** [struct dirent]. *)
Definition de_inum (de : list Z) : Z := half de 0.
Definition de_name (de : list Z) : list Z := drop 2 de.

Definition get_inode (ip : nat) : K inode := deref (fun s => g_inodes (k_sub s) !! ip).
Definition upd_inode (ip : nat) (f : inode → inode) : K unit :=
  get_inode ip ;; modify (upd_sub (fun g => g <| g_inodes ::= alter f ip |>)).
Definition get_sb {A} (f : superblock → A) : K A := gets (fun s => f (g_sb (k_sub s))).

Definition set_data (b : nat) (f : list Z → list Z) : K unit := upd_buf b (fun bf => bf <| b_data ::= f |>).

(** * Copies *)

(** A destination is a user address, a kernel address of a page, or a variable of the
    caller, which takes its bytes from the result of [readi]. *)
Inductive iodst : Type := DUser (va : Z) | DRam (pa : Z) | DLocal.
Inductive iosrc : Type := SUser (va : Z) | SLocal (bytes : list Z).

Definition mypagetable : K Z :=
  o ← myproc;
  i ← non_null o;
  p ← get_proc i;
  mret (p_pagetable p).

(** [dst + off]. *)
Definition either_copyout (dst : iodst) (off : Z) (src : list Z) : K Z :=
  pagetable ← mypagetable;
  match dst with
  | DUser va => copyout pagetable (uint64 (va + off)) src
  | DRam pa => with_ram (write_bytes src (uint64 (pa + off))) ;; mret 0
  | DLocal => mret 0
  end.

Definition either_copyin (src : iosrc) (off len : Z) : K (Z * list Z) :=
  pagetable ← mypagetable;
  match src with
  | SUser va => copyin pagetable (uint64 (va + off)) len
  | SLocal bytes => mret (0, take (Z.to_nat len) (drop (Z.to_nat off) bytes))
  end.

Section ops.
Context `{Layout} `{Patience} `{VirtioDev}.

(** * The super block *)

Definition readsb (dev : Z) : K unit :=
  bp ← bread (uint dev) 1;
  bf ← get_buf bp;
  let w := word (b_data bf) in
  modify (upd_sub (fun g => g <| g_sb := mksuperblock (w 0%nat) (w 1%nat) (w 2%nat) (w 3%nat)
                                           (w 4%nat) (w 5%nat) (w 6%nat) (w 7%nat) |>)) ;;
  brelse bp.

Definition fsinit (dev : Z) : K unit :=
  readsb dev ;;
  magic ← get_sb sb_magic;
  if negb (magic =? FSMAGIC) then panic "invalid file system" else
  sb ← get_sb id;
  initlog dev sb.

(** * Blocks *)

Definition bzero (dev bno : Z) : K unit :=
  bp ← bread (uint dev) (uint bno);
  set_data bp (fun _ => replicate (Z.to_nat BSIZE) 0) ;;
  log_write bp ;;
  brelse bp.

Definition bit_set (data : list Z) (bi : Z) : bool :=
  negb (Z.land (default 0 (data !! Z.to_nat (bi / 8))) (Z.shiftl 1 (bi mod 8)) =? 0).

(** The first free bit [bi] of a bitmap block, below [BPB] and with [b + bi]
    below [size]. *)
Fixpoint first_clear (n : nat) (data : list Z) (b bi size : Z) : option Z :=
  match n with
  | O => None
  | S n' =>
      if size <=? b + bi then None
      else if bit_set data bi then first_clear n' data b (bi + 1) size
      else Some bi
  end.

Definition set_bit (bi : Z) (data : list Z) : list Z :=
  alter (fun x => Z.lor x (Z.shiftl 1 (bi mod 8))) (Z.to_nat (bi / 8)) data.

Definition clear_bit (bi : Z) (data : list Z) : list Z :=
  alter (fun x => uchar (Z.land x (Z.lnot (Z.shiftl 1 (bi mod 8))))) (Z.to_nat (bi / 8)) data.

Definition balloc (dev : Z) : K Z :=
  size ← get_sb sb_size;
  r ← for_ret (seq 0 (Z.to_nat ((size + BPB - 1) / BPB)))
        (fun k =>
           let b := Z.of_nat k * BPB in
           sb ← get_sb id;
           bp ← bread dev (BBLOCK b sb);
           bf ← get_buf bp;
           match first_clear (Z.to_nat BPB) (b_data bf) b 0 (sb_size sb) with
           | Some bi =>
               set_data bp (set_bit bi) ;;
               log_write bp ;;
               brelse bp ;;
               bzero dev (b + bi) ;;
               mret (Some (b + bi))
           | None => brelse bp ;; mret None
           end);
  match r with
  | Some b => mret b
  | None => printf "balloc: out of blocks
" [] ;; mret 0
  end.

Definition bfree (dev b : Z) : K unit :=
  sb ← get_sb id;
  bp ← bread (uint dev) (BBLOCK b sb);
  let bi := b mod BPB in
  bf ← get_buf bp;
  if negb (bit_set (b_data bf) bi) then panic "freeing free block" else
  set_data bp (clear_bit bi) ;;
  log_write bp ;;
  brelse bp.

(** * Inodes *)

Definition iinit : K unit :=
  initlock itable_lock "itable" ;;
  for_acc (seq 0 NINODE) (fun i _ => initsleeplock (SlInode i)) tt.

(** The scan of [iget] and what follows it. *)
Fixpoint iget_scan (l : list nat) (dev inum : Z) (empty : option nat) : K nat :=
  match l with
  | i :: l' =>
      ip ← get_inode i;
      if (0 <? i_ref ip) && (i_dev ip =? dev) && (i_inum ip =? inum) then
        upd_inode i (fun ip => ip <| i_ref ::= fun n => int (n + 1) |>) ;;
        release itable_lock ;;
        mret i
      else
        iget_scan l' dev inum
          (match empty with None => if i_ref ip =? 0 then Some i else None | Some e => Some e end)
  | [] =>
      match empty with
      | None => panic "iget: no inodes"
      | Some i =>
          upd_inode i (fun ip => ip <| i_dev := dev |> <| i_inum := inum |> <| i_ref := 1 |>
                                   <| i_valid := 0 |>) ;;
          release itable_lock ;;
          mret i
      end
  end.

Definition iget (dev inum : Z) : K nat :=
  acquire itable_lock ;;
  iget_scan (seq 0 NINODE) dev inum None.

Definition slot (inum : Z) : nat := Z.to_nat (inum mod IPB).

Definition ialloc (dev type : Z) : K (option nat) :=
  ninodes ← get_sb sb_ninodes;
  r ← for_ret (seq 1 (Z.to_nat (ninodes - 1)))
        (fun k =>
           let inum := Z.of_nat k in
           sb ← get_sb id;
           bp ← bread dev (IBLOCK inum sb);
           bf ← get_buf bp;
           if d_type (read_dinode (b_data bf) (slot inum)) =? 0 then
             set_data bp (write_dinode (slot inum) (mkdinode type 0 0 0 0 (replicate (S NDIRECT) 0))) ;;
             log_write bp ;;
             brelse bp ;;
             i ← iget dev inum;
             mret (Some i)
           else brelse bp ;; mret None);
  match r with
  | Some i => mret (Some i)
  | None => printf "ialloc: no inodes
" [] ;; mret None
  end.

Definition iupdate (i : nat) : K unit :=
  ip ← get_inode i;
  sb ← get_sb id;
  bp ← bread (i_dev ip) (IBLOCK (i_inum ip) sb);
  ip ← get_inode i;
  set_data bp (write_dinode (slot (i_inum ip))
    (mkdinode (i_type ip) (i_major ip) (i_minor ip) (i_nlink ip) (i_size ip) (i_addrs ip))) ;;
  log_write bp ;;
  brelse bp.

Definition idup (i : nat) : K nat :=
  acquire itable_lock ;;
  upd_inode i (fun ip => ip <| i_ref ::= fun n => int (n + 1) |>) ;;
  release itable_lock ;;
  mret i.

Definition ilock (i : nat) : K unit :=
  ip ← get_inode i;
  if i_ref ip <? 1 then panic "ilock" else
  acquiresleep (SlInode i) ;;
  ip ← get_inode i;
  when (i_valid ip =? 0) (
    sb ← get_sb id;
    bp ← bread (i_dev ip) (IBLOCK (i_inum ip) sb);
    bf ← get_buf bp;
    let d := read_dinode (b_data bf) (slot (i_inum ip)) in
    upd_inode i (fun ip => ip <| i_type := d_type d |> <| i_major := d_major d |>
      <| i_minor := d_minor d |> <| i_nlink := d_nlink d |> <| i_size := d_size d |>
      <| i_addrs := d_addrs d |>) ;;
    brelse bp ;;
    upd_inode i (fun ip => ip <| i_valid := 1 |>) ;;
    ip ← get_inode i;
    if i_type ip =? 0 then panic "ilock: no type" else mret tt).

Definition iunlock (i : nat) : K unit :=
  h ← holdingsleep (SlInode i);
  if negb h then panic "iunlock" else
  ip ← get_inode i;
  if i_ref ip <? 1 then panic "iunlock" else
  releasesleep (SlInode i).

Definition get_addr (i n : nat) : K Z :=
  ip ← get_inode i; non_null (i_addrs ip !! n).

Definition set_addr (i n : nat) (v : Z) : K unit :=
  upd_inode i (fun ip => ip <| i_addrs ::= <[n := v]> |>).

Definition bmap (i : nat) (bn : Z) : K Z :=
  ip ← get_inode i;
  if bn <? Z.of_nat NDIRECT then
    addr ← get_addr i (Z.to_nat bn);
    if addr =? 0 then
      addr ← balloc (i_dev ip);
      if addr =? 0 then mret 0 else
      set_addr i (Z.to_nat bn) addr ;;
      mret addr
    else mret addr
  else
    let bn := bn - Z.of_nat NDIRECT in
    if bn <? NINDIRECT then
      addr ← get_addr i NDIRECT;
      addr ← (if addr =? 0 then
                addr ← balloc (i_dev ip);
                (if addr =? 0 then mret tt else set_addr i NDIRECT addr) ;;
                mret addr
              else mret addr);
      if addr =? 0 then mret 0 else
      bp ← bread (i_dev ip) addr;
      bf ← get_buf bp;
      let addr := word (b_data bf) (Z.to_nat bn) in
      addr ← (if addr =? 0 then
                addr ← balloc (i_dev ip);
                (if addr =? 0 then mret tt else
                 set_data bp (set_word (Z.to_nat bn) addr) ;;
                 log_write bp) ;;
                mret addr
              else mret addr);
      brelse bp ;;
      mret addr
    else panic "bmap: out of range".

Definition itrunc (i : nat) : K unit :=
  for_acc (seq 0 NDIRECT)
    (fun n _ =>
       a ← get_addr i n;
       if a =? 0 then mret tt else
       ip ← get_inode i;
       bfree (i_dev ip) a ;;
       set_addr i n 0) tt ;;
  a ← get_addr i NDIRECT;
  (if a =? 0 then mret tt else
   ip ← get_inode i;
   bp ← bread (i_dev ip) a;
   for_acc (seq 0 (Z.to_nat NINDIRECT))
     (fun j _ =>
        bf ← get_buf bp;
        let aj := word (b_data bf) j in
        if aj =? 0 then mret tt else bfree (i_dev ip) aj) tt ;;
   brelse bp ;;
   bfree (i_dev ip) a ;;
   set_addr i NDIRECT 0) ;;
  upd_inode i (fun ip => ip <| i_size := 0 |>) ;;
  iupdate i.

Definition iput (i : nat) : K unit :=
  acquire itable_lock ;;
  ip ← get_inode i;
  when ((i_ref ip =? 1) && negb (i_valid ip =? 0) && (i_nlink ip =? 0)) (
    acquiresleep (SlInode i) ;;
    release itable_lock ;;
    itrunc i ;;
    upd_inode i (fun ip => ip <| i_type := 0 |>) ;;
    iupdate i ;;
    upd_inode i (fun ip => ip <| i_valid := 0 |>) ;;
    releasesleep (SlInode i) ;;
    acquire itable_lock) ;;
  upd_inode i (fun ip => ip <| i_ref ::= fun n => int (n - 1) |>) ;;
  release itable_lock.

Definition iunlockput (i : nat) : K unit := iunlock i ;; iput i.

(** [struct stat]: dev, ino, type, nlink, padding, size. *)
Definition stati (i : nat) : K (list Z) :=
  ip ← get_inode i;
  mret (le_bytes 4 (uint (i_dev ip)) ++ le_bytes 4 (uint (i_inum ip)) ++
        le_bytes 2 (ushort (i_type ip)) ++ le_bytes 2 (ushort (i_nlink ip)) ++
        le_bytes 4 0 ++ le_bytes 8 (i_size ip)).

(** * Contents *)

(** The loop of [readi]: the result and the bytes that were read. *)
Fixpoint readi_loop (fuel : nat) (i : nat) (dst : iodst) (off tot n : Z) : K (Z * list Z) :=
  if n <=? tot then mret (tot, []) else
  match fuel with
  | O => spin
  | S fuel' =>
      ip ← get_inode i;
      addr ← bmap i (off / BSIZE);
      if addr =? 0 then mret (tot, []) else
      bp ← bread (i_dev ip) addr;
      let m := Z.min (n - tot) (BSIZE - off mod BSIZE) in
      bf ← get_buf bp;
      let bytes := take (Z.to_nat m) (drop (Z.to_nat (off mod BSIZE)) (b_data bf)) in
      r ← either_copyout dst tot bytes;
      if r =? -1 then brelse bp ;; mret (-1, []) else
      brelse bp ;;
      rest ← readi_loop fuel' i dst (off + m) (tot + m) n;
      mret (rest.1, bytes ++ rest.2)
  end.

Definition readi (i : nat) (dst : iodst) (off n : Z) : K (Z * list Z) :=
  ip ← get_inode i;
  if (i_size ip <? off) || (uint (off + n) <? off) then mret (0, []) else
  let n := if i_size ip <? uint (off + n) then uint (i_size ip - off) else n in
  r ← readi_loop (Z.to_nat (n / BSIZE + 2)) i dst off 0 n;
  mret (int r.1, r.2).

(** The loop of [writei]: the bytes written and the offset reached. *)
Fixpoint writei_loop (fuel : nat) (i : nat) (src : iosrc) (off tot n : Z) : K (Z * Z) :=
  if n <=? tot then mret (tot, off) else
  match fuel with
  | O => spin
  | S fuel' =>
      ip ← get_inode i;
      addr ← bmap i (off / BSIZE);
      if addr =? 0 then mret (tot, off) else
      bp ← bread (i_dev ip) addr;
      let m := Z.min (n - tot) (BSIZE - off mod BSIZE) in
      r ← either_copyin src tot m;
      set_data bp (fun data => take (Z.to_nat (off mod BSIZE)) data ++ r.2 ++
                               drop (Z.to_nat (off mod BSIZE) + length r.2) data) ;;
      if r.1 =? -1 then brelse bp ;; mret (tot, off) else
      log_write bp ;;
      brelse bp ;;
      writei_loop fuel' i src (off + m) (tot + m) n
  end.

Definition writei (i : nat) (src : iosrc) (off n : Z) : K Z :=
  ip ← get_inode i;
  if (i_size ip <? off) || (uint (off + n) <? off) then mret (-1) else
  if MAXFILE * BSIZE <? uint (off + n) then mret (-1) else
  r ← writei_loop (Z.to_nat (n / BSIZE + 2)) i src off 0 n;
  ip ← get_inode i;
  when (i_size ip <? r.2) (upd_inode i (fun ip => ip <| i_size := r.2 |>)) ;;
  iupdate i ;;
  mret (int r.1).

(** * Directories *)

(** [strncmp] on buffers that are kernel objects; past its end a string is nul. *)
Fixpoint strncmp_list (n : nat) (p q : list Z) : Z :=
  match n with
  | O => 0
  | S n' =>
      let a := default 0 (List.hd_error p) in
      let b := default 0 (List.hd_error q) in
      if negb (a =? 0) && (a =? b) then strncmp_list n' (tail p) (tail q)
      else int (uchar a - uchar b)
  end.

Definition namecmp (s t : list Z) : Z := strncmp_list (Z.to_nat DIRSIZ) s t.

Definition DIRENT : Z := 16.

(** The offset and the number of the entry [name]. *)
Fixpoint dirlookup_loop (fuel : nat) (dp : nat) (name : list Z) (off : Z) : K (option (Z * Z)) :=
  ip ← get_inode dp;
  if i_size ip <=? off then mret None else
  match fuel with
  | O => spin
  | S fuel' =>
      r ← readi dp DLocal off DIRENT;
      if negb (r.1 =? DIRENT) then panic "dirlookup read" else
      if de_inum r.2 =? 0 then dirlookup_loop fuel' dp name (uint (off + DIRENT))
      else if namecmp name (de_name r.2) =? 0 then mret (Some (off, de_inum r.2))
      else dirlookup_loop fuel' dp name (uint (off + DIRENT))
  end.

Definition dirlookup (dp : nat) (name : list Z) : K (option (nat * Z)) :=
  ip ← get_inode dp;
  if negb (i_type ip =? T_DIR) then panic "dirlookup not DIR" else
  r ← dirlookup_loop (Z.to_nat (i_size ip / DIRENT + 1)) dp name 0;
  match r with
  | Some (off, inum) => i ← iget (i_dev ip) inum; mret (Some (i, off))
  | None => mret None
  end.

(** The offset of the first empty entry, or the size. *)
Fixpoint dirlink_loop (fuel : nat) (dp : nat) (off : Z) : K Z :=
  ip ← get_inode dp;
  if i_size ip <=? off then mret off else
  match fuel with
  | O => spin
  | S fuel' =>
      r ← readi dp DLocal off DIRENT;
      if negb (r.1 =? DIRENT) then panic "dirlink read" else
      if de_inum r.2 =? 0 then mret off else dirlink_loop fuel' dp (off + DIRENT)
  end.

(** [strncpy(de.name, name, DIRSIZ)]. *)
Fixpoint strncpy_list (n : nat) (t : list Z) : list Z :=
  match n with
  | O => []
  | S n' =>
      let c := default 0 (List.hd_error t) in
      if c =? 0 then replicate n 0 else c :: strncpy_list n' (tail t)
  end.

Definition dirlink (dp : nat) (name : list Z) (inum : Z) : K Z :=
  o ← dirlookup dp name;
  match o with
  | Some (i, _) => iput i ;; mret (-1)
  | None =>
      ip ← get_inode dp;
      off ← dirlink_loop (Z.to_nat (i_size ip / DIRENT + 1)) dp 0;
      let de := le_bytes 2 (ushort inum) ++ strncpy_list (Z.to_nat DIRSIZ) name in
      r ← writei dp (SLocal de) off DIRENT;
      mret (if r =? DIRENT then 0 else -1)
  end.

(** * Paths *)

Definition slash : Z := chr "/".

Fixpoint skip_slashes (path : list Z) : list Z :=
  match path with
  | c :: path' => if c =? slash then skip_slashes path' else path
  | [] => []
  end.

(** The element in front of the next slash, and the rest. *)
Fixpoint elem (path : list Z) : list Z * list Z :=
  match path with
  | c :: path' => if c =? slash then ([], path) else let '(e, r) := elem path' in (c :: e, r)
  | [] => ([], [])
  end.

(** [name] is the buffer of [DIRSIZ] bytes, before and after. *)
Definition skipelem (path name : list Z) : option (list Z * list Z) :=
  let path := skip_slashes path in
  match path with
  | [] => None
  | _ =>
      let '(s, path) := elem path in
      let name := if DIRSIZ <=? Z.of_nat (length s) then take (Z.to_nat DIRSIZ) s
                  else s ++ [0] ++ drop (length s + 1) name in
      Some (skip_slashes path, name)
  end.

Fixpoint namex_loop (fuel : nat) (path : list Z) (nameiparent : bool) (name : list Z) (i : nat) :
    K (option nat * list Z) :=
  match skipelem path name with
  | None =>
      if nameiparent then iput i ;; mret (None, name) else mret (Some i, name)
  | Some (path, name) =>
      ilock i ;;
      ip ← get_inode i;
      if negb (i_type ip =? T_DIR) then iunlockput i ;; mret (None, name) else
      if nameiparent && bool_decide (path = []) then iunlock i ;; mret (Some i, name) else
      o ← dirlookup i name;
      match o with
      | None => iunlockput i ;; mret (None, name)
      | Some (next, _) =>
          iunlockput i ;;
          match fuel with
          | O => spin
          | S fuel' => namex_loop fuel' path nameiparent name next
          end
      end
  end.

Definition namex (path : list Z) (nameiparent : bool) (name : list Z) : K (option nat * list Z) :=
  i ← (if bool_decide (List.hd_error path = Some slash) then iget ROOTDEV ROOTINO
       else o ← myproc; me ← non_null o; p ← get_proc me; cwd ← non_null (p_cwd p); idup cwd);
  namex_loop (length path) path nameiparent name i.

Definition namei (path : list Z) : K (option nat) :=
  r ← namex path false (replicate (Z.to_nat DIRSIZ) 0);
  mret r.1.

Definition nameiparent (path name : list Z) : K (option nat * list Z) := namex path true name.

End ops.
