(* ===== verification/FsProofs.v ===== *)
(** The layout of inodes, directory entries and the free map on disk: what
    kernel/fs.c writes is what it reads back. *)

From stdpp Require Import base gmap strings numbers list.
From S2P Require Import Prelude Kstate CString Globals Log Fs.
Local Open Scope Z_scope.

(** * Fields of a structure *)

(** The bytes [b] after [a] are found at the length of [a]. *)
Lemma field_at {A} (a b c : list A) off n :
  length a = off → length b = n → take n (drop off (a ++ b ++ c)) = b.
Proof.
  intros <- <-. rewrite drop_app_ge, Nat.sub_diag, drop_0, take_app_le, take_ge by lia. done.
Qed.

Lemma short_ushort z : - 2 ^ 15 ≤ z < 2 ^ 15 → short (ushort z) = z.
Proof.
  intros Hz. unfold short, ushort. rewrite Zplus_mod_idemp_l.
  rewrite Z.mod_small; lia.
Qed.

Lemma ushort_range z : 0 ≤ ushort z < 2 ^ 16.
Proof. apply Z.mod_pos_bound. lia. Qed.

Lemma half_at a v c off :
  length a = off → - 2 ^ 15 ≤ v < 2 ^ 15 → short (half (a ++ le_bytes 2 (ushort v) ++ c) off) = v.
Proof.
  intros Ha Hv. unfold half. rewrite (field_at a) by (done || apply length_le_bytes).
  rewrite le_value_bytes; [by apply short_ushort|apply ushort_range].
Qed.

Lemma word_at_at a v c off :
  length a = off → 0 ≤ v < 2 ^ 32 → word_at (a ++ le_bytes 4 v ++ c) off = v.
Proof.
  intros Ha Hv. unfold word_at. rewrite (field_at a) by (done || apply length_le_bytes).
  by apply le_value_bytes.
Qed.

Lemma words_cons x l :
  mjoin ((fun x => le_bytes 4 (uint x)) <$> x :: l) =
  le_bytes 4 (uint x) ++ mjoin ((fun x => le_bytes 4 (uint x)) <$> l).
Proof. reflexivity. Qed.

(** An array of 32-bit words. *)
Lemma words_at a l c off i v :
  length a = off → l !! i = Some v → 0 ≤ v < 2 ^ 32 →
  word_at (a ++ mjoin ((fun x => le_bytes 4 (uint x)) <$> l) ++ c) (off + 4 * i) = v.
Proof.
  revert a off i. induction l as [|x l IH]; intros a off i Ha Hi Hv; [done|].
  rewrite words_cons, <- app_assoc. destruct i as [|i].
  - simpl in Hi. injection Hi as ->. rewrite uint_small by done. rewrite Nat.add_0_r.
    by apply word_at_at.
  - rewrite app_assoc. replace (off + 4 * S i)%nat with ((off + 4) + 4 * i)%nat by lia.
    apply IH; [|done|done]. rewrite length_app, length_le_bytes, Ha. done.
Qed.

(** * Inodes *)

(** The fields of an inode are in the ranges of their types. *)
Definition dinode_ok (d : dinode) : Prop :=
  (- 2 ^ 15 ≤ d_type d < 2 ^ 15) ∧ (- 2 ^ 15 ≤ d_major d < 2 ^ 15) ∧
  (- 2 ^ 15 ≤ d_minor d < 2 ^ 15) ∧ (- 2 ^ 15 ≤ d_nlink d < 2 ^ 15) ∧ (0 ≤ d_size d < 2 ^ 32) ∧
  length (d_addrs d) = S NDIRECT ∧ Forall (fun a => 0 ≤ a < 2 ^ 32) (d_addrs d).

Lemma length_words l : length (mjoin ((fun x => le_bytes 4 (uint x)) <$> l)) = (4 * length l)%nat.
Proof.
  induction l as [|x l IH]; [done|]. rewrite words_cons.
  rewrite length_app, length_le_bytes, IH. simpl. lia.
Qed.

Lemma length_dinode_bytes d : dinode_ok d → length (dinode_bytes d) = 64%nat.
Proof.
  intros (_ & _ & _ & _ & _ & Hl & _). unfold dinode_bytes.
  rewrite !length_app, !length_le_bytes, length_words, Hl. done.
Qed.

(** The addresses are read in the order of the array. *)
Lemma read_addrs a l c off :
  length a = off → length l = S NDIRECT → Forall (fun a => 0 ≤ a < 2 ^ 32) l →
  (fun i => word_at (a ++ mjoin ((fun x => le_bytes 4 (uint x)) <$> l) ++ c) (off + 4 * i)) <$>
    seq 0 (S NDIRECT) = l.
Proof.
  intros Ha Hl Hr. apply list_eq. intros i. rewrite list_lookup_fmap.
  destruct (decide (i < S NDIRECT)%nat) as [Hi|Hi].
  - rewrite lookup_seq_lt by done. simpl fmap. destruct (lookup_lt_is_Some_2 l i) as [v Hv]; [lia|].
    rewrite Hv. f_equal. apply words_at; [done|done|]. by apply (Forall_lookup_1 _ _ _ _ Hr Hv).
  - rewrite lookup_seq_ge, lookup_ge_None_2 by lia. done.
Qed.

Lemma read_dinode_bytes d c : dinode_ok d → read_dinode (dinode_bytes d ++ c) 0 = d.
Proof.
  intros (Ht & Hma & Hmi & Hn & Hs & Hl & Ha). destruct d as [t ma mi n z addrs]. cbn in *.
  unfold read_dinode. rewrite drop_0. unfold dinode_bytes. cbn. rewrite <- !app_assoc.
  set (T := le_bytes 2 (ushort t)). set (MA := le_bytes 2 (ushort ma)).
  set (MI := le_bytes 2 (ushort mi)). set (N := le_bytes 2 (ushort n)).
  set (Sz := le_bytes 4 (uint z)).
  assert (HT : length T = 2%nat) by apply length_le_bytes.
  assert (HMA : length MA = 2%nat) by apply length_le_bytes.
  assert (HMI : length MI = 2%nat) by apply length_le_bytes.
  assert (HN : length N = 2%nat) by apply length_le_bytes.
  assert (HSz : length Sz = 4%nat) by apply length_le_bytes.
  f_equal.
  - by apply (half_at []).
  - by apply (half_at T).
  - rewrite (app_assoc T). apply (half_at (T ++ MA)); [rewrite length_app; lia|done].
  - rewrite (app_assoc T), (app_assoc (T ++ MA)).
    apply (half_at ((T ++ MA) ++ MI)); [rewrite !length_app; lia|done].
  - rewrite (app_assoc T), (app_assoc (T ++ MA)), (app_assoc ((T ++ MA) ++ MI)).
    rewrite <- (uint_small z Hs).
    apply (word_at_at (((T ++ MA) ++ MI) ++ N)); [rewrite !length_app; lia|apply uint_range].
  - rewrite !app_assoc. rewrite <- (app_assoc _ _ c). apply (read_addrs _ addrs c 12); [|done|done].
    rewrite !length_app. lia.
Qed.

Lemma read_dinode_drop data k : read_dinode data k = read_dinode (drop (64 * k) data) 0.
Proof. unfold read_dinode. by rewrite drop_0. Qed.

(** Bytes outside the slot that is written. *)
Lemma write_dinode_elsewhere d data j k :
  dinode_ok d → j ≠ k → (64 * k + 64 ≤ length data)%nat →
  take 64 (drop (64 * j) (write_dinode k d data)) = take 64 (drop (64 * j) data).
Proof.
  intros Hd Hne Hl. pose proof (length_dinode_bytes d Hd) as Hb. unfold write_dinode.
  apply list_eq. intros i. destruct (decide (i < 64)%nat) as [Hi|Hi].
  2: { rewrite !lookup_take_ge by lia. done. }
  rewrite !lookup_take_lt, !lookup_drop by lia. destruct (decide (j < k)%nat) as [Hjk|Hjk].
  - rewrite lookup_app_l, lookup_take_lt by (rewrite ?length_take; lia). done.
  - rewrite lookup_app_r by (rewrite length_take; lia). rewrite length_take.
    rewrite lookup_app_r by lia. rewrite lookup_drop, Hb. f_equal. lia.
Qed.

(** [read_dinode] looks at 64 bytes. *)
Lemma read_dinode_take data : read_dinode data 0 = read_dinode (take 64 data) 0.
Proof.
  assert (Hh : ∀ off n, (off + n ≤ 64)%nat →
            take n (drop off data) = take n (drop off (take 64 data))).
  { intros off n Hle. apply list_eq. intros i. destruct (decide (i < n)%nat).
    - rewrite !lookup_take_lt, !lookup_drop, lookup_take_lt by lia. done.
    - rewrite !lookup_take_ge by lia. done. }
  unfold read_dinode. change (64 * 0)%nat with 0%nat. rewrite !drop_0. unfold half, word_at.
  f_equal; [f_equal; f_equal; apply Hh; lia..|f_equal; apply Hh; lia|].
  apply list_fmap_ext. intros i x Hx. apply lookup_seq in Hx as [-> Hlt]. unfold NDIRECT in Hlt.
  f_equal. apply Hh. lia.
Qed.

(** Storing an inode with fields in the ranges of their types into a slot of a
    block and loading it back gives the same inode, and leaves the other slots and
    the size of the block as they were. *)
Theorem dinode_round_trip d data k :
  dinode_ok d → (64 * k + 64 ≤ length data)%nat →
  length (write_dinode k d data) = length data ∧
  read_dinode (write_dinode k d data) k = d ∧
  ∀ j, j ≠ k → read_dinode (write_dinode k d data) j = read_dinode data j.
Proof.
  intros Hd Hl. pose proof (length_dinode_bytes d Hd) as Hb. split_and!.
  - unfold write_dinode. rewrite !length_app, length_take, length_drop, Hb. lia.
  - rewrite read_dinode_drop. unfold write_dinode.
    rewrite drop_app_length' by (rewrite length_take; lia). by apply read_dinode_bytes.
  - intros j Hj. rewrite (read_dinode_drop data j), (read_dinode_drop (write_dinode k d data) j).
    rewrite read_dinode_take, (read_dinode_take (drop _ data)). by rewrite write_dinode_elsewhere.
Qed.

Lemma dinode_round_trip_witness :
  read_dinode (write_dinode 3 (mkdinode 1 0 0 (-2) 2000 (replicate 13 77)) (replicate 1024 255)) 3 =
  mkdinode 1 0 0 (-2) 2000 (replicate 13 77).
Proof.
  apply (dinode_round_trip (mkdinode 1 0 0 (-2) 2000 (replicate 13 77)) (replicate 1024 255) 3).
  - unfold dinode_ok. cbn. split_and!; try lia; [done|]. repeat constructor; lia.
  - vm_compute. lia.
Defined.

(** * The free map *)

Lemma testbit_land_pow2 x j : 0 ≤ j → negb (Z.land x (Z.shiftl 1 j) =? 0) = Z.testbit x j.
Proof.
  intros Hj. rewrite Z.shiftl_1_l. destruct (Z.testbit x j) eqn:Hb.
  - destruct (Z.eqb_spec (Z.land x (2 ^ j)) 0) as [H0|]; [|done].
    assert (Ht := f_equal (fun z => Z.testbit z j) H0). simpl in Ht.
    rewrite Z.land_spec, Hb, Z.pow2_bits_true, Z.testbit_0_l in Ht by done. done.
  - destruct (Z.eqb_spec (Z.land x (2 ^ j)) 0) as [|Hn]; [done|]. exfalso. apply Hn.
    apply Z.bits_inj'. intros i Hi. rewrite Z.land_spec, Z.testbit_0_l.
    destruct (decide (i = j)) as [->|Hne]; [by rewrite Hb|].
    rewrite Z.pow2_bits_false by lia. apply andb_false_r.
Qed.

(** Bit [bi] of a block of the free map. *)
Lemma bit_set_testbit data bi :
  bit_set data bi = Z.testbit (default 0 (data !! Z.to_nat (bi / 8))) (bi mod 8).
Proof. apply testbit_land_pow2. apply Z.mod_pos_bound. lia. Qed.

(** Two bits of a block are the same, or are in different bytes, or are different bits
    of a byte. *)
Lemma set_bit_bits data i j :
  0 ≤ i → 0 ≤ j → (Z.to_nat (i / 8) < length data)%nat →
  bit_set (set_bit i data) j = bit_set data j || (i =? j).
Proof.
  intros Hi Hj Hl. rewrite !bit_set_testbit. unfold set_bit.
  pose proof (Z.div_mod i 8 ltac:(lia)) as Hdi. pose proof (Z.div_mod j 8 ltac:(lia)) as Hdj.
  pose proof (Z.mod_pos_bound i 8 ltac:(lia)). pose proof (Z.mod_pos_bound j 8 ltac:(lia)).
  assert (0 ≤ i / 8) by (apply Z.div_pos; lia). assert (0 ≤ j / 8) by (apply Z.div_pos; lia).
  destruct (decide (i / 8 = j / 8)) as [He|Hne].
  - rewrite <- He, list_lookup_alter_eq.
    destruct (lookup_lt_is_Some_2 data (Z.to_nat (i / 8)) Hl) as [x ->]. simpl.
    rewrite Z.lor_spec, Z.shiftl_1_l. f_equal. destruct (Z.eqb_spec i j) as [->|].
    + apply Z.pow2_bits_true; lia.
    + rewrite Z.pow2_bits_false; [done|lia].
  - rewrite list_lookup_alter_ne by lia. destruct (Z.eqb_spec i j) as [->|]; [done|].
    by rewrite orb_false_r.
Qed.

(** [first_clear] finds the first bit that is not set. *)
Lemma first_clear_spec n data b bi size k :
  (∀ i, bi ≤ i < k → bit_set data i = true) → bit_set data k = false →
  bi ≤ k < bi + Z.of_nat n → b + k < size →
  first_clear n data b bi size = Some k.
Proof.
  revert bi. induction n as [|n IH]; intros bi Hset Hclr Hk Hsz; [lia|]. cbn [first_clear].
  destruct (Z.leb_spec size (b + bi)); [lia|]. destruct (decide (bi = k)) as [->|].
  - by rewrite Hclr.
  - rewrite Hset by lia. apply IH; [|done|lia|done]. intros i Hi. apply Hset. lia.
Qed.

(** ... and finds none when all bits below [size] are set. *)
Lemma first_clear_full n data b bi size :
  (∀ i, bi ≤ i → b + i < size → bit_set data i = true) → first_clear n data b bi size = None.
Proof.
  revert bi. induction n as [|n IH]; intros bi Hset; [done|]. cbn [first_clear].
  destruct (Z.leb_spec size (b + bi)); [done|]. rewrite Hset by lia. apply IH. intros i Hi. apply Hset. lia.
Qed.
