(* ===== verification/Runs.v ===== *)
(** Running kernel code of one process against its surroundings: when the process
    gives the hart away, [env] is what the rest of the system does until it is
    entered again.  Triples over [calm] states keep track of the locks the process
    holds and of the data of the kernel, and record the disk at every point where
    the process waits. *)

From stdpp Require Import base gmap strings numbers list.
From S2P Require Import Prelude Spinlock Kstate Mlfq Sched Boot Switch CString Globals Kalloc Vm VmProofs Sleeplock.
Local Open Scope Z_scope.

Abbreviation disk := (list (list Z)).

(** The run of a process with surroundings [env]: the disk at each switch, and
    the outcome. *)
Fixpoint play {A} (env : kst → kst) (r : res kst A) : list disk * option (A * kst) :=
  match r with
  | Ret a s => ([], Some (a, s))
  | Swtch ToSched s k => let '(t, o) := play env (k (env s)) in (g_disk (k_sub s) :: t, o)
  | _ => ([], None)
  end.

Lemma play_bind {A B} env (r : res kst A) (f : A → K B) t a s :
  play env r = (t, Some (a, s)) →
  play env (res_bind r f) = (t ++ (play env (f a s)).1, (play env (f a s)).2).
Proof.
  revert t. induction r as [a' s'|?| | |tg s' k IH]; intros t; simpl; try done.
  - intros [= <- -> ->]. by destruct (play env (f a s)).
  - destruct tg as [|i]; [|done]. destruct (play env (k (env s'))) as [t' o] eqn:E.
    intros [= <- ->]. rewrite (IH _ _ E). done.
Qed.

Lemma play_bind_None {A B} env (r : res kst A) (f : A → K B) t :
  play env r = (t, None) → play env (res_bind r f) = (t, None).
Proof.
  revert t. induction r as [a' s'|?| | |tg s' k IH]; intros t; simpl; [discriminate|by intros [= <-]..|].
  destruct tg as [|i]; [|by intros [= <-]]. destruct (play env (k (env s'))) as [t' o] eqn:E.
  intros [= <- ->]. by rewrite (IH _ _ E).
Qed.

(** What a process has of its own. *)
Definition user_view (p : proc) : Z * Z * Z * list (option nat) * option nat * trapframe :=
  (p_pid p, p_pagetable p, p_sz p, p_ofile p, p_cwd p, p_tf p).

(** The process [me] whose code is run, with [mine] its own data; [env] is what
    the rest of the system does while it waits, [known] the locks of the kernel. *)
Class World := {
  env : kst → kst;
  known : gset lockid;
  me : nat;
  mine : Z * Z * Z * list (option nat) * option nat * trapframe;
  known_procs : ∀ i, (i < NPROC)%nat → LkProc i ∈ known;
  known_mlfq : mlfq_lock ∈ known;
  me_range : (me < NPROC)%nat
}.

Section calm.
Context `{W : World}.

(** The process runs, or sleeps on [chan]. *)
Definition awake (p : proc) : Prop := p_state p = RUNNING ∧ user_view p = mine.

Definition asleep (chan : kptr) (p : proc) : Prop :=
  p_state p = SLEEPING ∧ p_chan p = Some chan ∧ user_view p = mine.

(** Process [me] runs on the hart and holds exactly the locks [L] of the locks
    [known]; its table entry satisfies [P], and the data of the kernel is [g]. *)
Record calm (P : proc → Prop) (L : gset lockid) (g : sub) (s : kst) : Prop := {
  calm_hart : ∃ c, cpus (k_mach s) !! tp (k_mach s) = Some c ∧ c_noff c = Z.of_nat (size L) ∧
    c_proc c = Some me ∧ (L ≠ ∅ → c_sie c = false);
  calm_held : ∀ l, l ∈ L → owned l (k_mach s);
  calm_free : ∀ l, l ∈ known → l ∉ L → free l (k_mach s);
  calm_len : length (k_procs s) = NPROC;
  calm_me : ∃ p, k_procs s !! me = Some p ∧ P p;
  calm_levels : levels_ok (k_procs s);
  calm_mlfq : ∃ q, mlfq_abs s q ∧ queues_wf q;
  calm_sub : k_sub s = g
}.

(** From [Pre], [m] runs to its end, the disk at its switches being [tr]. *)
Definition triple {A} (Pre : kst → Prop) (m : K A) (tr : list disk) (Post : A → kst → Prop) : Prop :=
  ∀ s, Pre s → ∃ a s', play env (m s) = (tr, Some (a, s')) ∧ Post a s'.

(** [m] gives [a] and changes the data from [g] to [g']. *)
Definition does {A} (L : gset lockid) (g : sub) (m : K A) (tr : list disk)
    (L' : gset lockid) (a : A) (g' : sub) : Prop :=
  triple (calm awake L g) m tr (fun a' s' => a' = a ∧ calm awake L' g' s').

Lemma triple_bind {A B} Pre (m : K A) (f : A → K B) tr1 tr2 Mid Post :
  triple Pre m tr1 Mid → (∀ a, triple (Mid a) (f a) tr2 Post) →
  triple Pre (m ≫= f) (tr1 ++ tr2) Post.
Proof.
  intros Hm Hf s Hs. destruct (Hm s Hs) as (a & s1 & E1 & K1).
  destruct (Hf a s1 K1) as (b & s2 & E2 & K2). exists b, s2. split; [|done].
  unfold mbind, M_bind. rewrite (play_bind _ _ _ _ _ _ E1), E2. done.
Qed.

Lemma does_bind {A B} L g (m : K A) (f : A → K B) tr1 tr2 L1 a g1 L2 b g2 :
  does L g m tr1 L1 a g1 → does L1 g1 (f a) tr2 L2 b g2 →
  does L g (m ≫= f) (tr1 ++ tr2) L2 b g2.
Proof.
  intros Hm Hf. eapply triple_bind; [exact Hm|]. intros a' s [-> Hs]. by apply Hf.
Qed.

(** A step that waits for nothing. *)
Lemma does_step {A B} L g (m : K A) (f : A → K B) tr L1 a g1 L2 b g2 :
  does L g m [] L1 a g1 → does L1 g1 (f a) tr L2 b g2 → does L g (m ≫= f) tr L2 b g2.
Proof. apply does_bind. Qed.

Lemma triple_Ret {A} (Pre : kst → Prop) (m : K A) (Post : A → kst → Prop) :
  (∀ s, Pre s → ∃ a s', m s = Ret a s' ∧ Post a s') → triple Pre m [] Post.
Proof. intros H s Hs. destruct (H s Hs) as (a & s' & -> & Hp). by exists a, s'. Qed.

Lemma does_ret {A} L g (a : A) : does L g (mret a) [] L a g.
Proof. apply triple_Ret. intros s Hs. by exists a, s. Qed.

Lemma does_gets {A} L g (f : sub → A) : does L g (gets (fun s => f (k_sub s))) [] L (f g) g.
Proof.
  apply triple_Ret. intros s Hs. exists (f g), s. split; [|done].
  unfold gets. by rewrite (calm_sub _ _ _ _ Hs).
Qed.

Lemma does_deref {A} L g (f : sub → option A) a :
  f g = Some a → does L g (deref (fun s => f (k_sub s))) [] L a g.
Proof.
  intros E. apply triple_Ret. intros s Hs. exists a, s. split; [|done]. apply deref_Some.
  by rewrite (calm_sub _ _ _ _ Hs).
Qed.

Lemma does_non_null {A} L g (o : option A) a : o = Some a → does L g (non_null o) [] L a g.
Proof. intros ->. apply triple_Ret. intros s Hs. by exists a, s. Qed.

Lemma calm_upd P L g s f : calm P L g s → calm P L (f g) (upd_sub f s).
Proof.
  intros [K1 K2 K3 K4 K5 K6 (q & K7 & K8) K9]. split; try done.
  - exists q. split; [|done]. by eapply mlfq_abs_ext; [..|exact K7].
  - simpl. by rewrite K9.
Qed.

Lemma does_modify L g f : does L g (modify (upd_sub f)) [] L tt (f g).
Proof.
  apply triple_Ret. intros s Hs. exists tt, (upd_sub f s). split; [done|]. split; [done|].
  by apply calm_upd.
Qed.

Lemma does_when L g b m L' g' tr :
  (if b : bool then does L g m tr L' tt g' else tr = [] ∧ L' = L ∧ g' = g) →
  does L g (when b m) tr L' tt g'.
Proof. destruct b; [done|]. intros (-> & -> & ->). apply does_ret. Qed.

(** ** Panics *)

Lemma does_nil {A} L g (m : K A) L' a g' s :
  does L g m [] L' a g' → calm awake L g s → ∃ s', m s = Ret a s' ∧ calm awake L' g' s'.
Proof.
  intros Hm Hs. destruct (Hm s Hs) as (a' & s' & Hp & -> & Hs'). exists s'. split; [|done].
  destruct (m s) as [a0 s0| | | |[|i] s0 k]; simpl in Hp; try done.
  - by injection Hp as -> ->.
  - by destruct (play env (k (env s0))).
Qed.

(** [m] ends in a panic. *)
Definition fails {A} (L : gset lockid) (g : sub) (m : K A) (msg : string) : Prop :=
  ∀ s, calm awake L g s → m s = Panic msg.

Lemma fails_step {A B} L g (m : K A) (f : A → K B) L1 a g1 msg :
  does L g m [] L1 a g1 → fails L1 g1 (f a) msg → fails L g (m ≫= f) msg.
Proof.
  intros Hm Hf s Hs. destruct (does_nil _ _ _ _ _ _ s Hm Hs) as (s' & Hr & Hs').
  unfold mbind, M_bind. rewrite Hr. simpl. by apply Hf.
Qed.

Lemma fails_bind {A B} L g (m : K A) (f : A → K B) msg : fails L g m msg → fails L g (m ≫= f) msg.
Proof. intros Hm s Hs. unfold mbind, M_bind. by rewrite (Hm s Hs). Qed.

Lemma fails_panic {A} L g msg : fails L g (panic msg : K A) msg.
Proof. by intros s _. Qed.

(** ** Locks *)

Lemma calm_hart_ok P L g s : calm P L g s → hart_ok (k_mach s).
Proof.
  intros Hs. destruct (calm_hart _ _ _ _ Hs) as (c & Hc & Hn & _ & Hi). exists c.
  split; [done|]. split; [lia|]. intros Hp. apply Hi. intros ->. rewrite size_empty in Hn. lia.
Qed.

Lemma calm_held_lock P L g s l :
  l ∈ known → l ∉ L → calm P L g s → calm P ({[l]} ∪ L) g (with_lock l s).
Proof.
  intros HD HL Hs. pose proof (calm_free _ _ _ _ Hs l HD HL) as Hf.
  destruct Hs as [(c & Hc & Hn & Hp & Hi) K2 K3 K4 K5 K6 (q & K7 & K8) K9]. split; try done.
  - exists (cpu_push c). simpl. rewrite list_lookup_alter_eq, Hc. split; [done|]. split; [|done].
    simpl. rewrite Hn, size_union, size_singleton by set_solver. lia.
  - intros l' [->%elem_of_singleton|Hl']%elem_of_union; [by apply owned_held|].
    apply owned_held_ne; [set_solver|by apply K2].
  - intros l' HD' [Hne HL']%not_elem_of_union. apply free_held; [set_solver|by apply K3].
  - exists q. split; [|done]. by eapply mlfq_abs_ext; [..|exact K7].
Qed.

Lemma does_acquire L g l :
  l ∈ known → l ∉ L → does L g (acquire l) [] ({[l]} ∪ L) tt g.
Proof.
  intros HD HL. apply triple_Ret. intros s Hs. exists tt, (with_lock l s).
  split; [|split; [done|by apply calm_held_lock]].
  apply acquire_lock; [by eapply calm_hart_ok|by apply (calm_free _ _ _ _ Hs)].
Qed.

Lemma does_release L g l : l ∈ L → does L g (release l) [] (L ∖ {[l]}) tt g.
Proof.
  intros HL. apply triple_Ret. intros s Hs.
  pose proof (calm_held _ _ _ _ Hs l HL) as Ho.
  destruct Hs as [(c & Hc & Hn & Hp & Hi) K2 K3 K4 K5 K6 (q & K7 & K8) K9].
  assert (L ≠ ∅) as Hne by set_solver. assert (1 <= size L)%nat as Hsz.
  { destruct (decide (size L = 0)%nat) as [E|]; [|lia]. by apply size_empty_inv, leibniz_equiv in E. }
  exists tt, (set_mach (unheld l) s). split.
  { apply (release_run l s c); [done|by apply Hi|simpl in *; lia|done]. }
  assert (∀ l', l' ≠ l → locks (unheld l (k_mach s)) !! l' = locks (k_mach s) !! l') as Hother.
  { intros l' Hl'. simpl. by rewrite lookup_alter_ne. }
  assert (size (L ∖ {[l]}) = size L - 1)%nat as Hsz'.
  { rewrite size_difference by set_solver. by rewrite size_singleton. }
  split; [done|]. split; try done.
  - exists (cpu_pop c). simpl. rewrite list_lookup_alter_eq, Hc. split; [done|].
    split; [|split; [done|]].
    + simpl. rewrite Hn, Hsz'. lia.
    + intros HL'. simpl. rewrite (Hi Hne).
      destruct (Z.eqb_spec (c_noff c - 1) 0) as [E|]; [|done]. exfalso. apply HL'.
      apply leibniz_equiv, size_empty_inv. lia.
  - intros l' [Hl' Hne']%elem_of_difference. destruct (K2 l' Hl') as [n Hn'].
    exists n. rewrite <- (Hother l') in Hn' by set_solver. exact Hn'.
  - intros l' HD' Hl'. destruct (decide (l' = l)) as [->|Hne'].
    + destruct Ho as [n Ho]. exists n. simpl. by rewrite lookup_alter_eq, Ho.
    + destruct (K3 l' HD') as [n Hn']; [set_solver|]. exists n.
      rewrite <- (Hother l') in Hn' by done. exact Hn'.
  - exists q. split; [|done]. by eapply mlfq_abs_ext; [..|exact K7].
Qed.

Lemma calm_settled P L g s : calm P L g s → calm P L g (settled s).
Proof.
  intros [(c & Hc & Hn & Hp & Hi) K2 K3 K4 K5 K6 (q & K7 & K8) K9]. split; try done.
  - exists (cpu_settle c). simpl. rewrite list_lookup_alter_eq, Hc. split; [done|].
    unfold cpu_settle. destruct (_ =? 0); done.
  - exists q. split; [|done]. by eapply mlfq_abs_ext; [..|exact K7].
Qed.

Lemma does_myproc L g : does L g myproc [] L (Some me) g.
Proof.
  apply triple_Ret. intros s Hs. pose proof (calm_hart_ok _ _ _ _ Hs) as Hok.
  destruct (calm_hart _ _ _ _ Hs) as (c & Hc & _ & Hp & _). exists (Some me), (settled s).
  split; [|split; [done|by apply calm_settled]]. rewrite <- Hp.
  exact (myproc_run s c Hc Hok).
Qed.

(** Reading the own table entry. *)
Lemma triple_get_proc P L g :
  triple (calm P L g) (get_proc me) [] (fun p s => P p ∧ calm P L g s).
Proof.
  apply triple_Ret. intros s Hs. destruct (calm_me _ _ _ _ Hs) as (p & Hp & HP).
  exists p, s. split; [by apply get_proc_run|done].
Qed.

(** A value that [P] determines. *)
Lemma does_my {A} L g (f : proc → A) a :
  (∀ p, awake p → f p = a) →
  does L g (o ← myproc; i ← non_null o; p ← get_proc i; mret (f p)) [] L a g.
Proof.
  intros Hf. eapply does_step; [apply does_myproc|].
  eapply does_step; [by apply does_non_null|]. unfold does.
  apply (triple_bind _ _ _ [] [] _ _ (triple_get_proc awake L g)). intros p.
  apply triple_Ret. intros s [HP Hs]. exists (f p), s. by rewrite (Hf p HP).
Qed.

Lemma triple_upd_proc (P P' : proc → Prop) L g f :
  (∀ p, P p → P' (f p)) → (∀ p, p_queue_level (f p) = p_queue_level p) →
  triple (calm P L g) (upd_proc me f) [] (fun _ s => calm P' L g s).
Proof.
  intros HP Hq. apply triple_Ret. intros s Hs. destruct (calm_me _ _ _ _ Hs) as (p & Hp & HPp).
  exists tt, (put_proc me (f p) s). split; [by apply upd_proc_put|].
  destruct Hs as [K1 K2 K3 K4 K5 K6 (q & K7 & K8) K9]. split; try done.
  - simpl. by rewrite length_insert.
  - exists (f p). split; [|by apply HP]. by eapply lookup_put_proc.
  - apply levels_ok_insert; [done|]. rewrite Hq. apply (K6 p). by eapply list_elem_of_lookup_2.
  - exists q. split; [|done]. by eapply mlfq_abs_ext; [..|exact K7].
Qed.

(** ** Waking others *)

(** No process lock and not the lock of the queues. *)
Definition quiet (L : gset lockid) : Prop := (∀ i, LkProc i ∉ L) ∧ mlfq_lock ∉ L.

Lemma calm_at_rest P L g s : quiet L → calm P L g s → at_rest s.
Proof.
  intros [Hq _] Hs. split; [by eapply calm_hart_ok|]. split; [|by apply Hs].
  intros i Hi. apply (calm_free _ _ _ _ Hs); [by apply known_procs|apply Hq].
Qed.

Lemma wake_me chan t p : wake (Some me) chan t me p = p.
Proof. unfold wake, wakes. by rewrite (bool_decide_eq_false_2 (Some me ≠ Some me)) by tauto. Qed.

Lemma calm_balanced P L g s s' :
  balanced (k_mach s) (k_mach s') → calm P L g s →
  length (k_procs s') = NPROC → k_procs s' !! me = k_procs s !! me → levels_ok (k_procs s') →
  (∃ q, mlfq_abs s' q ∧ queues_wf q) → k_sub s' = g → calm P L g s'.
Proof.
  intros Hb Hs K4 Hme K6 K7 K9. split; try done.
  - destruct (calm_hart _ _ _ _ Hs) as (c & Hc & Hn & Hp & Hi).
    destruct Hb as [->| ->]; [by exists c|]. exists (cpu_settle c). simpl.
    rewrite list_lookup_alter_eq, Hc. split; [done|]. unfold cpu_settle. destruct (_ =? 0); done.
  - intros l Hl. destruct (calm_held _ _ _ _ Hs l Hl) as [n Hn]. exists n.
    by destruct Hb as [->| ->].
  - intros l HD HL. eapply balanced_free; [by apply (calm_free _ _ _ _ Hs)|done].
  - rewrite Hme. apply Hs.
Qed.

Lemma does_wakeup L g chan : quiet L → does L g (wakeup chan) [] L tt g.
Proof.
  intros Hq. apply triple_Ret. intros s Hs.
  destruct (calm_hart _ _ _ _ Hs) as (c & Hc & _ & Hp & _).
  destruct (calm_mlfq _ _ _ _ Hs) as (q & Habs & Hwf).
  destruct (wakeup_run chan c s q) as (s' & Hr & (_ & _ & Hl) & (_ & Hlv & Habs' & Hwf') & Hps & Hsame & Hb).
  { by eapply calm_at_rest. }
  { done. }
  { split; [apply (calm_free _ _ _ _ Hs); [apply known_mlfq|apply Hq]|]. split; [apply Hs|done]. }
  exists tt, s'. split; [done|]. split; [done|]. eapply calm_balanced; [done|done|done| |done|by eexists|].
  - rewrite Hps, list_lookup_imap, Hp.
    destruct (k_procs s !! me) as [p|]; [|done]. simpl. by rewrite wake_me.
  - rewrite Hsame. apply Hs.
Qed.

(** ** Sleeping *)

(** The surroundings wake the process that sleeps on [chan], and change the data
    from [g] to [g'] before it runs again. *)
Definition wakes_to (chan : kptr) (g g' : sub) : Prop :=
  ∀ s, calm (asleep chan) {[LkProc me]} g s → calm awake {[LkProc me]} g' (env s).

Lemma calm_handover P g s : calm P {[LkProc me]} g s → handover me s.
Proof.
  intros Hs. destruct (calm_hart _ _ _ _ Hs) as (c & Hc & Hn & Hp & Hi).
  rewrite size_singleton in Hn. destruct (calm_me _ _ _ _ Hs) as (p & Hp' & _).
  pose proof (calm_len _ _ _ _ Hs) as Hl. pose proof (lookup_lt_Some _ _ _ Hp') as Hlt.
  split; [exists c; split; [done|split; [done|apply Hi; set_solver]]|].
  split; [apply (calm_held _ _ _ _ Hs); set_solver|]. split; [|split; [lia|done]].
  intros j Hj Hne. apply (calm_free _ _ _ _ Hs); [by apply known_procs|]. set_solver.
Qed.

Lemma calm_intena P L g s b :
  calm P L g s →
  ∃ s', upd_mycpu (fun c => c <| c_intena := b |>) s = Ret tt s' ∧ calm P L g s'.
Proof.
  intros Hs. destruct (calm_hart _ _ _ _ Hs) as (c & Hc & Hn & Hp & Hi). eexists.
  split; [by eapply upd_mycpu_mach|].
  destruct Hs as [_ K2 K3 K4 K5 K6 (q & K7 & K8) K9]. split; try done.
  - exists (c <| c_intena := b |>). simpl. by rewrite list_lookup_alter_eq, Hc.
  - exists q. split; [|done]. by eapply mlfq_abs_ext; [..|exact K7].
Qed.

Lemma triple_sched chan g g' :
  wakes_to chan g g' →
  triple (calm (asleep chan) {[LkProc me]} g) sched [g_disk g]
    (fun _ s => calm awake {[LkProc me]} g' s).
Proof.
  intros Hw s Hs. destruct (calm_hart _ _ _ _ Hs) as (c & Hc & _ & Hp & _).
  destruct (calm_me _ _ _ _ Hs) as (p & Hp' & Hst & _).
  destruct (calm_intena _ _ _ _ (c_intena c) (Hw s Hs)) as (s' & Hr & Hs').
  exists tt, s'. split; [|done].
  rewrite (sched_run me p s c) by (done || (by eapply calm_handover) || (by rewrite Hst)).
  cbn [play]. rewrite Hr. cbn [play]. by rewrite (calm_sub _ _ _ _ Hs).
Qed.

Lemma does_sleep lk chan g g' :
  lk ∈ known → (∀ i, lk ≠ LkProc i) → wakes_to chan g g' →
  does ({[lk]} ∪ ∅) g (sleep chan lk) [g_disk g] ({[lk]} ∪ ∅) tt g'.
Proof.
  intros HD Hne Hw. rewrite !(right_id_L ∅ (∪) {[lk]}). unfold sleep.
  assert (LkProc me ∉ ({[lk]} : gset lockid)) as Hn by (specialize (Hne me); set_solver).
  eapply does_step; [apply does_myproc|]. eapply does_step; [by apply does_non_null|].
  eapply does_step; [apply does_acquire; [apply known_procs, me_range|done]|].
  eapply does_step; [apply does_release; set_solver|].
  assert (({[LkProc me]} ∪ {[lk]}) ∖ {[lk]} = ({[LkProc me]} : gset lockid)) as ->.
  { specialize (Hne me). set_solver. }
  set (chosen := fun p => p_chan p = Some chan ∧ user_view p = mine).
  pose proof (triple_upd_proc awake chosen {[LkProc me]} g (fun p => p <| p_chan := Some chan |>)) as S1.
  pose proof (triple_upd_proc chosen (asleep chan) {[LkProc me]} g (fun p => p <| p_state := SLEEPING |>)) as S2.
  pose proof (triple_upd_proc awake awake {[LkProc me]} g' (fun p => p <| p_chan := None |>)) as S3.
  unfold does. apply (triple_bind _ _ _ [] [g_disk g] _ _ (S1 ltac:(by intros p []) ltac:(done))).
  intros _. apply (triple_bind _ _ _ [] [g_disk g] _ _ (S2 ltac:(by intros p []) ltac:(done))).
  intros _. apply (triple_bind _ _ _ [g_disk g] [] _ _ (triple_sched chan g g' Hw)).
  intros _. apply (triple_bind _ _ _ [] [] _ _ (S3 ltac:(by intros p []) ltac:(done))). intros _.
  fold (does {[LkProc me]} g' (release (LkProc me) ≫= fun _ => acquire lk) [] {[lk]} tt g').
  eapply does_step; [apply does_release; set_solver|]. 
  assert ({[LkProc me]} ∖ {[LkProc me]} = (∅ : gset lockid)) as -> by set_solver.
  rewrite <- (right_id_L ∅ (∪) {[lk]}). apply does_acquire; [done|set_solver].
Qed.

(** [while (cond) sleep(chan, lk)], when one wakeup is enough, or none. *)
Lemma does_sleep_while `{Patience} lk chan cond g g' b :
  lk ∈ known → (∀ i, lk ≠ LkProc i) → (0 < patience)%nat →
  does ({[lk]} ∪ ∅) g cond [] ({[lk]} ∪ ∅) true g → wakes_to chan g g' →
  does ({[lk]} ∪ ∅) g' cond [] ({[lk]} ∪ ∅) b g' → b = false →
  does ({[lk]} ∪ ∅) g (sleep_while cond (sleep chan lk)) [g_disk g] ({[lk]} ∪ ∅) tt g'.
Proof.
  intros HD Hne Hpat Hc Hw Hc' ->. unfold sleep_while. destruct patience as [|n]; [lia|].
  simpl. eapply does_step; [exact Hc|]. cbv beta iota.
  apply (does_bind _ _ _ _ [g_disk g] [] ({[lk]} ∪ ∅) tt g'); [by apply does_sleep|].
  destruct n; simpl; (eapply does_step; [exact Hc'|]); apply does_ret.
Qed.

(** The same for any number of wakeups: [others] is what the surroundings do with the
    data while the process sleeps, [b] the value of the condition.  The loop sleeps
    exactly as long as the condition holds, and goes on waiting only while it does. *)
Lemma play_sleep_while (others : sub → sub) (Inv : sub → Prop) (b : sub → bool) lk chan cond n g s :
  lk ∈ known → (∀ i, lk ≠ LkProc i) →
  (∀ g, does ({[lk]} ∪ ∅) g cond [] ({[lk]} ∪ ∅) (b g) g) →
  (∀ g, Inv g → wakes_to chan g (others g) ∧ Inv (others g)) → Inv g →
  calm awake ({[lk]} ∪ ∅) g s →
  match play env (sleep_while_n n cond (sleep chan lk) s) with
  | (tr, Some (_, s')) =>
      tr = (fun i => g_disk (Nat.iter i others g)) <$> seq 0 (length tr) ∧
      (∀ i, (i < length tr)%nat → b (Nat.iter i others g) = true) ∧
      b (Nat.iter (length tr) others g) = false ∧
      calm awake ({[lk]} ∪ ∅) (Nat.iter (length tr) others g) s'
  | (_, None) => ∀ i, (i <= n)%nat → b (Nat.iter i others g) = true
  end.
Proof.
  intros HD Hne Hc Hw. revert g s. induction n as [|n IH]; intros g s HI Hs; cbn [sleep_while_n];
    destruct (Hc g s Hs) as (b1 & s1 & Hp & -> & Hs1); unfold mbind, M_bind;
    rewrite (play_bind _ _ _ _ _ _ Hp); destruct (b g) eqn:Hb; cbn [app fst snd].
  - intros i Hi. assert (i = 0%nat) as -> by lia. done.
  - split; [done|]. split; [|done]. simpl. lia.
  - destruct (Hw g HI) as [Hwake HI']. destruct (does_sleep lk chan g (others g) HD Hne Hwake s1 Hs1) as ([] & s2 & Hp2 & _ & Hs2).
    rewrite (play_bind _ _ _ _ _ _ Hp2). specialize (IH (others g) s2 HI' Hs2).
    destruct (play env (sleep_while_n n cond (sleep chan lk) s2)) as [tr [[u s']|]]; cbn [app fst snd].
    + destruct IH as (E & H1 & H2 & H3). cbn [length]. rewrite Nat.iter_succ_r. split_and!; [|intros [|i] Hi; [done|]|done|done].
      * rewrite E at 1. cbn [seq fmap list_fmap]. f_equal. rewrite <- fmap_S_seq, <- list_fmap_compose.
        apply list_fmap_ext. intros i x _. cbn [compose]. by rewrite Nat.iter_succ_r.
      * rewrite Nat.iter_succ_r. apply H1. lia.
    + intros [|i] Hi; [done|]. rewrite Nat.iter_succ_r. apply IH. lia.
  - split; [done|]. split; [|done]. simpl. lia.
Qed.

Lemma does_no_sleep `{Patience} L cond body g :
  does L g cond [] L false g → does L g (sleep_while cond body) [] L tt g.
Proof.
  intros Hc. unfold sleep_while. destruct patience; simpl; (eapply does_step; [exact Hc|]); apply does_ret.
Qed.

(** ** Sleep locks *)

Definition upid : Z := mine.1.1.1.1.1.

Lemma does_mypid L g : does L g mypid [] L upid g.
Proof. apply does_my. intros p [_ E]. unfold upid. by rewrite <- E. Qed.

Lemma does_release_last L g l : l ∉ L → does ({[l]} ∪ L) g (release l) [] L tt g.
Proof.
  intros Hl. assert (({[l]} ∪ L) ∖ {[l]} = L) as E by set_solver.
  rewrite <- E at 2. apply does_release. set_solver.
Qed.

Lemma get_set_sl l v g x : get_sl l g = Some x → get_sl l (set_sl l v g) = Some v.
Proof.
  destruct l; simpl; intros E; rewrite list_lookup_alter_eq;
    [by destruct (g_bufs g !! i)|by destruct (g_inodes g !! i)].
Qed.

Lemma does_read_sl L g l v : get_sl l g = Some v → does L g (read_sl l) [] L v g.
Proof. apply does_deref. Qed.

Lemma does_write_sl L g l v a b :
  get_sl l g = Some v → does L g (write_sl l a b) [] L tt (set_sl l (mksleeplock a b) g).
Proof.
  intros E. eapply does_step; [by apply does_read_sl|]. apply does_modify.
Qed.

Lemma does_acquiresleep `{Patience} L g l pid0 :
  sl_spin l ∈ known → sl_spin l ∉ L → get_sl l g = Some (mksleeplock 0 pid0) →
  does L g (acquiresleep l) [] L tt (set_sl l (mksleeplock 1 upid) g).
Proof.
  intros HD HL Hl. unfold acquiresleep. eapply does_step; [by apply does_acquire|].
  eapply does_step; [apply does_no_sleep; eapply does_step; [by apply does_read_sl|apply does_ret]|].
  eapply does_step; [apply does_mypid|]. eapply does_step; [by eapply does_write_sl|].
  by apply does_release_last.
Qed.

Lemma does_releasesleep L g l v :
  sl_spin l ∈ known → sl_spin l ∉ L → quiet L → get_sl l g = Some v →
  does L g (releasesleep l) [] L tt (set_sl l (mksleeplock 0 0) g).
Proof.
  intros HD HL [Hq1 Hq2] Hl. unfold releasesleep. eapply does_step; [by apply does_acquire|].
  eapply does_step; [by eapply does_write_sl|].
  eapply does_step; [apply does_wakeup; destruct l; split; set_solver|].
  by apply does_release_last.
Qed.

Lemma does_holdingsleep L g l :
  sl_spin l ∈ known → sl_spin l ∉ L → get_sl l g = Some (mksleeplock 1 upid) →
  does L g (holdingsleep l) [] L true g.
Proof.
  intros HD HL Hl. unfold holdingsleep. eapply does_step; [by apply does_acquire|].
  eapply does_step; [by apply does_read_sl|]. simpl.
  eapply does_step; [eapply does_step; [apply does_mypid|apply does_ret]|].
  rewrite Z.eqb_refl. eapply does_step; [by apply does_release_last|]. apply does_ret.
Qed.

End calm.

(** ** A concrete world: process 0 runs, and is made RUNNING again as soon as it
    sleeps, the data being changed by [f] meanwhile *)

Definition ex_known : gset lockid :=
  list_to_set ((LkProc <$> seq 0 NPROC) ++ (LkGlobal <$> lock_names) ++
    ((fun i => sl_spin (SlBuf i)) <$> seq 0 NBUF) ++ ((fun i => sl_spin (SlInode i)) <$> seq 0 NINODE)).

(** Process 0, whose page table is the one of the examples on user memory. *)
Definition ex_proc : proc := (a_proc 1 RUNNING) <| p_pagetable := ex_root |>.

Definition ex_env (f : sub → sub) (s : kst) : kst :=
  upd_sub f (s <| k_procs ::= alter (fun p => p <| p_state := RUNNING |>) 0%nat |>).

Lemma ex_known_spec l :
  l ∈ ex_known ↔ (∃ i, l = LkProc i ∧ (i < NPROC)%nat) ∨ (∃ n, l = LkGlobal n ∧ n ∈ lock_names) ∨
    (∃ i, l = sl_spin (SlBuf i) ∧ (i < NBUF)%nat) ∨ (∃ i, l = sl_spin (SlInode i) ∧ (i < NINODE)%nat).
Proof.
  unfold ex_known. rewrite elem_of_list_to_set, !elem_of_app, !list_elem_of_fmap.
  setoid_rewrite elem_of_seq. split; intros [(i & ? & ?)|[?|[(i & ? & ?)|(i & ? & ?)]]]; eauto 6 with lia.
Qed.

Definition ex_world (f : sub → sub) : World.
Proof.
  refine {| env := ex_env f; known := ex_known; me := 0; mine := user_view ex_proc |}.
  - intros i Hi. apply ex_known_spec. by left; exists i.
  - apply ex_known_spec. right; left. exists "mlfq"%string. split; [done|]. by left.
  - apply NPROC_pos.
Defined.

Lemma ex_wakes_to f chan g : @wakes_to (ex_world f) chan g (f g).
Proof.
  intros s [K1 K2 K3 K4 (p & Hp & HP) K6 (q & K7 & K8) K9]. apply (@calm_upd (ex_world f)).
  simpl in Hp. split; [exact K1|exact K2|exact K3|..|exact K9].
  - exact (eq_trans (length_alter _ _ _) K4).
  - exists (p <| p_state := RUNNING |>). simpl. rewrite list_lookup_alter_eq, Hp. split; [done|].
    destruct HP as (_ & _ & HP). by split.
  - simpl. intros p' [i Hi]%list_elem_of_lookup. rewrite list_lookup_alter in Hi. case_decide.
    + apply fmap_Some in Hi as (p0 & Hi & ->). apply (K6 p0). by eapply list_elem_of_lookup_2.
    + apply K6. by eapply list_elem_of_lookup_2.
  - exists q. split; [|done]. by eapply mlfq_abs_ext; [..|exact K7].
Qed.

Definition ex_state (g : sub) : kst :=
  on_mach (mkmachine (replicate NCPU (mkcpu (Some 0%nat) 0 false false)) 0
    (gset_to_gmap (mkspinlock 0 "lock" None) ex_known))
    (put_proc 0 ex_proc (boot_with g SCHED_RR 0)).

Lemma k_procs_on_mach {V} m (s : kstate V) : k_procs (on_mach m s) = k_procs s.
Proof. reflexivity. Qed.

Lemma mlfq_abs_on_mach {V} m (s : kstate V) q : mlfq_abs s q → mlfq_abs (on_mach m s) q.
Proof. intros H. by eapply mlfq_abs_ext; [..|exact H]. Qed.

Lemma ex_calm f g : @calm (ex_world f) (@awake (ex_world f)) ∅ g (ex_state g).
Proof.
  destruct (inv_put_proc 0 ex_proc (boot_with g SCHED_RR 0) _ (boot_inv _ _ _)) as (_ & H1 & H2 & H3); [done|].
  unfold ex_state. split; [..|reflexivity]; rewrite ?k_procs_on_mach; [..|exact H1|].
  - exists (mkcpu (Some 0%nat) 0 false false). split; [done|]. split; [by rewrite size_empty|done].
  - intros l Hl. by apply not_elem_of_empty in Hl.
  - intros l Hl _. exists "lock"%string. apply lookup_gset_to_gmap_Some.
    split; [exact Hl|reflexivity].
  - exact (eq_trans (length_insert _ _ _) (length_replicate _ _)).
  - exists ex_proc. split; [|by split]. eapply lookup_put_proc. apply boot_lookup, NPROC_pos.
  - eexists. split; [|exact H3]. apply mlfq_abs_on_mach, H2.
Qed.
