(* ===== verification/VirtioProofs.v ===== *)
(** The disk driver against a device that follows the rings: what one request
    does to the disk and the buffer, and what the interrupt handler completes. *)

From stdpp Require Import base gmap strings numbers list.
From S2P Require Import Prelude Spinlock Kstate Mlfq Sched Boot Switch CString Globals Kalloc Sleeplock Virtio Bio Runs.
Local Open Scope Z_scope.

Lemma alter_insert {A} (f : A → A) (i : nat) (l : list A) x : l !! i = Some x → alter f i l = <[i := f x]> l.
Proof.
  intros H. apply list_eq. intros j. destruct (decide (j = i)) as [->|Hne].
  - rewrite list_lookup_alter_eq, H, list_lookup_insert_eq; [done|]. by eapply lookup_lt_Some.
  - by rewrite list_lookup_alter_ne, list_lookup_insert_ne.
Qed.

(** * The device *)

(** The three descriptors of a request: the header, which the device reads, a block of
    data, and the status byte, which the device writes and which ends the chain. *)
Definition well_formed (d0 d1 d2 : virtq_desc) (rq : virtio_blk_req) : bool :=
  let has d f := negb (Z.land (vq_flags d) f =? 0) in
  (vq_len d0 =? 16) && has d0 VRING_DESC_F_NEXT && negb (has d0 VRING_DESC_F_WRITE) &&
  (vq_len d1 =? BSIZE) && has d1 VRING_DESC_F_NEXT &&
  (vq_len d2 =? 1) && negb (has d2 VRING_DESC_F_NEXT) && has d2 VRING_DESC_F_WRITE &&
  (rq_sector rq mod (BSIZE / 512) =? 0).

(** One request, as the device processes it: it takes the oldest entry of the
    available ring that it has not served, follows the three descriptors from it, moves
    the block, stores the status 0 and adds the chain to the used ring. *)
Definition device_step (g : sub) : option sub :=
  let d := g_vdisk g in
  if vd_avail_idx d =? vd_used_ring_idx d then None else
  h ← vd_avail_ring d !! Z.to_nat (vd_used_ring_idx d mod Z.of_nat NUM);
  d0 ← at_idx (vd_desc d) h;
  d1 ← at_idx (vd_desc d) (vq_next d0);
  d2 ← at_idx (vd_desc d) (vq_next d1);
  match vq_addr d0, vq_addr d1, vq_addr d2 with
  | DmaOp k, DmaBuf b, DmaStatus j =>
      rq ← vd_ops d !! k;
      if negb (well_formed d0 d1 d2 rq) then None else
      bf ← g_bufs g !! b;
      old ← at_idx (g_disk g) (rq_sector rq / (BSIZE / 512));
      let out := rq_type rq =? VIRTIO_BLK_T_OUT in
      let device_writes := negb (Z.land (vq_flags d1) VRING_DESC_F_WRITE =? 0) in
      if eqb out device_writes then None else
      let g' := if out then g <| g_disk ::= <[Z.to_nat (rq_sector rq / (BSIZE / 512)) := b_data bf]> |>
                else g <| g_bufs ::= <[b := bf <| b_data := old |>]> |> in
      Some (g' <| g_vdisk := d <| vd_info_status ::= <[j := 0]> |>
        <| vd_used_ring ::= <[Z.to_nat (vd_used_ring_idx d mod Z.of_nat NUM) := h]> |>
        <| vd_used_ring_idx ::= fun i => ushort (i + 1) |> |>)
  | _, _, _ => None
  end.

(** What the handler of the interrupt does to the data for one completed request. *)
Definition intr_step (g : sub) : option sub :=
  let d := g_vdisk g in
  id ← vd_used_ring d !! Z.to_nat (vd_used_idx d mod Z.of_nat NUM);
  st ← at_idx (vd_info_status d) id;
  o ← at_idx (vd_info_b d) id;
  b ← o;
  _ ← g_bufs g !! b;
  if st =? 0 then
    Some (g <| g_bufs ::= alter (fun bf => bf <| b_disk := 0 |>) b |>
            <| g_vdisk ::= fun d => d <| vd_used_idx ::= fun i => ushort (i + 1) |> |>)
  else None.

(** While a process waits for buffer [b], the device serves the request and the
    interrupt handler completes it. *)
Class DiskWorld `{W : World} := {
  disk_serves : ∀ b g g1 g2,
    device_step g = Some g1 → intr_step g1 = Some g2 → wakes_to (PBuf b) g g2;
  known_vdisk : vdisk_lock ∈ known;
  known_bcache : bcache_lock ∈ known;
  known_log : log_lock ∈ known;
  known_bufs : ∀ b, (b < NBUF)%nat → sl_spin (SlBuf b) ∈ known
}.

(** * States by their buffers, disk and driver *)

Definition gput (g : sub) (B : list buf) (d : disk) (v : vdisk) : sub :=
  g <| g_bufs := B |> <| g_disk := d |> <| g_vdisk := v |>.

(** The driver with no request under way. *)
Record idle (v : vdisk) : Prop := {
  idle_desc : vd_desc v = replicate NUM (mkdesc DmaNull 0 0 0);
  idle_free : vd_free v = replicate NUM 1;
  idle_info : vd_info_b v = replicate NUM None;
  idle_avail : length (vd_avail_ring v) = NUM;
  idle_used : length (vd_used_ring v) = NUM;
  idle_status : length (vd_info_status v) = NUM;
  idle_ops : length (vd_ops v) = NUM;
  idle_idx : vd_used_idx v = vd_used_ring_idx v;
  idle_served : vd_avail_idx v = vd_used_ring_idx v
}.

Section driver.
Context `{DW : DiskWorld}.

Lemma does_upd_disk L g B d v f :
  does L (gput g B d v) (upd_disk f) [] L tt (gput g B d (f v)).
Proof. exact (does_modify L (gput g B d v) (fun g => g <| g_vdisk ::= f |>)). Qed.

Lemma does_get_disk {A} L g B d v (f : vdisk → A) :
  does L (gput g B d v) (get_disk f) [] L (f v) (gput g B d v).
Proof. exact (does_gets L (gput g B d v) (fun g => f (g_vdisk g))). Qed.

Lemma does_get_buf L g B d v b bf :
  B !! b = Some bf → does L (gput g B d v) (get_buf b) [] L bf (gput g B d v).
Proof. intros H. by apply (does_deref L (gput g B d v) (fun g => g_bufs g !! b)). Qed.

Lemma does_mod_buf L g B d v b bf f :
  B !! b = Some bf →
  does L (gput g B d v) (modify (upd_sub (fun g => g <| g_bufs ::= alter f b |>))) [] L tt
    (gput g (<[b := f bf]> B) d v).
Proof.
  intros H. rewrite <- (alter_insert f b B bf H).
  exact (does_modify L (gput g B d v) (fun g => g <| g_bufs ::= alter f b |>)).
Qed.

Lemma does_upd_buf L g B d v b bf f :
  B !! b = Some bf →
  does L (gput g B d v) (upd_buf b f) [] L tt (gput g (<[b := f bf]> B) d v).
Proof.
  intros H. eapply does_step; [by apply does_get_buf|]. by apply does_mod_buf.
Qed.

Lemma does_upd_desc L g B d v i f x :
  at_idx (vd_desc v) i = Some x →
  does L (gput g B d v) (upd_desc i f) [] L tt
    (gput g B d (v <| vd_desc := <[Z.to_nat i := f x]> (vd_desc v) |>)).
Proof.
  intros H. unfold upd_desc.
  eapply does_step; [by apply (does_deref L (gput g B d v) (fun g => at_idx (vd_desc (g_vdisk g)) i))|].
  assert (vd_desc v !! Z.to_nat i = Some x) as H'.
  { unfold at_idx in H. by destruct (i <? 0). }
  rewrite <- (alter_insert _ _ _ _ H').
  exact (does_upd_disk L g B d v (fun d => d <| vd_desc ::= alter f (Z.to_nat i) |>)).
Qed.

Lemma does_set_free L g B d v i y x :
  at_idx (vd_free v) i = Some x →
  does L (gput g B d v) (set_free i y) [] L tt
    (gput g B d (v <| vd_free := <[Z.to_nat i := y]> (vd_free v) |>)).
Proof.
  intros H. unfold set_free.
  eapply does_step; [by apply (does_deref L (gput g B d v) (fun g => at_idx (vd_free (g_vdisk g)) i))|].
  exact (does_upd_disk L g B d v (fun d => d <| vd_free ::= <[Z.to_nat i := y]> |>)).
Qed.

Lemma does_read_free L g B d v k x :
  vd_free v !! k = Some x →
  does L (gput g B d v) (deref (fun s => vd_free (g_vdisk (k_sub s)) !! k)) [] L x (gput g B d v).
Proof. intros E. by apply (does_deref L (gput g B d v) (fun g => vd_free (g_vdisk g) !! k)). Qed.

(** The free descriptor of least number is taken. *)
Lemma does_alloc_desc L g B d v k x :
  (∀ j, (j < k)%nat → vd_free v !! j = Some 0) → vd_free v !! k = Some x → x ≠ 0 → (k < NUM)%nat →
  does L (gput g B d v) alloc_desc [] L (Z.of_nat k)
    (gput g B d (v <| vd_free := <[k := 0]> (vd_free v) |>)).
Proof.
  intros Hz Hk Hx Hn. unfold alloc_desc.
  eapply (does_step _ _ _ _ _ L (Some (Z.of_nat k))); [|apply does_ret].
  replace NUM with (k + S (NUM - S k))%nat by lia. rewrite seq_app.
  assert (∀ m, (m <= k)%nat →
    (∀ j, j ∈ seq m (k - m) → vd_free v !! j = Some 0)) as Hz' by (intros m Hm j ?%elem_of_seq; apply Hz; lia).
  specialize (Hz' 0%nat ltac:(lia)). rewrite Nat.sub_0_r in Hz'. revert Hz'.
  induction (seq 0 k) as [|j l IH]; intros Hl.
  - simpl. eapply (does_step _ _ _ _ _ L (Some (Z.of_nat k))); [|apply does_ret].
    eapply does_step; [by apply does_read_free|].
    rewrite (proj2 (Z.eqb_neq x 0) Hx). simpl.
    eapply does_step; [|apply does_ret]. rewrite <- (Nat2Z.id k) at 2.
    eapply does_set_free. by rewrite at_idx_nat.
  - simpl. eapply does_step; [eapply does_step; [apply does_read_free, Hl; by left|apply does_ret]|].
    apply IH. intros j' Hj'. apply Hl. by right.
Qed.

Lemma quiet_vdisk : quiet ({[vdisk_lock]} ∪ ∅).
Proof. split; set_solver. Qed.

Lemma does_free_desc L g B d v i x :
  quiet L → at_idx (vd_free v) i = Some 0 → at_idx (vd_desc v) i = Some x → i < Z.of_nat NUM →
  does L (gput g B d v) (free_desc i) [] L tt
    (gput g B d (v <| vd_desc := <[Z.to_nat i := mkdesc DmaNull 0 0 0]> (vd_desc v) |>
                   <| vd_free := <[Z.to_nat i := 1]> (vd_free v) |>)).
Proof.
  intros Hq Hf Hd Hi. unfold free_desc. destruct (Z.leb_spec (Z.of_nat NUM) i); [lia|].
  eapply does_step; [by apply (does_deref L (gput g B d v) (fun g => at_idx (vd_free (g_vdisk g)) i))|].
  simpl. eapply does_step; [by eapply does_upd_desc|]. eapply does_step; [by eapply does_set_free|].
  by apply does_wakeup.
Qed.

(** A chain of three is freed. *)
Lemma does_free_chain L g B d v d0 d1 d2 ds fs :
  quiet L → vd_desc v = d0 :: d1 :: d2 :: ds → vd_free v = 0 :: 0 :: 0 :: fs →
  Z.land (vq_flags d0) VRING_DESC_F_NEXT ≠ 0 → vq_next d0 = 1 →
  Z.land (vq_flags d1) VRING_DESC_F_NEXT ≠ 0 → vq_next d1 = 2 →
  Z.land (vq_flags d2) VRING_DESC_F_NEXT = 0 →
  does L (gput g B d v) (free_chain 0) [] L tt
    (gput g B d (v <| vd_desc := replicate 3 (mkdesc DmaNull 0 0 0) ++ ds |>
                   <| vd_free := replicate 3 1 ++ fs |>)).
Proof.
  intros Hq Hd Hf E0 N0 E1 N1 E2. unfold free_chain, NUM.
  assert (∀ v' i x n, at_idx (vd_desc v') i = Some x → at_idx (vd_free v') i = Some 0 →
    i < Z.of_nat NUM → ∀ tr b g',
    does L (gput g B d (v' <| vd_desc := <[Z.to_nat i := mkdesc DmaNull 0 0 0]> (vd_desc v') |>
                   <| vd_free := <[Z.to_nat i := 1]> (vd_free v') |>))
      (if negb (Z.land (vq_flags x) VRING_DESC_F_NEXT =? 0)
       then match n with O => spin | S n' => free_chain_n n' (vq_next x) end else mret tt) tr L b g' →
    does L (gput g B d v') (free_chain_n n i) tr L b g') as Hstep.
  { intros v' i x n Hx Hz Hi tr b g' Hk. destruct n; simpl;
      (eapply does_step; [by apply (does_deref L (gput g B d v') (fun g => at_idx (vd_desc (g_vdisk g)) i))|]);
      (eapply does_step; [by eapply does_free_desc|exact Hk]). }
  eapply (Hstep v 0 d0); [by rewrite Hd|by rewrite Hf|done|]. rewrite (proj2 (Z.eqb_neq _ _) E0), N0.
  eapply (Hstep _ 1 d1); [simpl; by rewrite Hd|simpl; by rewrite Hf|done|].
  rewrite (proj2 (Z.eqb_neq _ _) E1), N1.
  eapply (Hstep _ 2 d2); [simpl; by rewrite Hd|simpl; by rewrite Hf|done|].
  rewrite E2. simpl. rewrite Hd, Hf. apply does_ret.
Qed.

Lemma does_alloc3 L g B d v :
  vd_free v = replicate NUM 1 →
  does L (gput g B d v) alloc3_desc [] L (Some [0; 1; 2])
    (gput g B d (v <| vd_free := 0 :: 0 :: 0 :: replicate 5 1 |>)).
Proof.
  intros Hf. unfold alloc3_desc, alloc_descs.
  eapply does_step; [apply (does_alloc_desc _ _ _ _ _ 0 1); [lia|by rewrite Hf|done|unfold NUM; lia]|].
  rewrite Hf. simpl.
  eapply does_step; [apply (does_alloc_desc _ _ _ _ _ 1 1); [|done|done|unfold NUM; lia]|].
  { by intros [|[]] ?; [|lia|lia]. }
  simpl. eapply does_step; [apply (does_alloc_desc _ _ _ _ _ 2 1); [|done|done|unfold NUM; lia]|].
  { by intros [|[|[]]] ?; [| |lia|lia]. }
  simpl. apply does_ret.
Qed.

(** The driver after a request for buffer [b] was put into the rings. *)
Definition submitted (b : nat) (w : bool) (sector : Z) (v : vdisk) : vdisk :=
  mkvdisk
    (mkdesc (DmaOp 0) 16 VRING_DESC_F_NEXT 1 ::
     mkdesc (DmaBuf b) BSIZE (Z.lor (if w then 0 else VRING_DESC_F_WRITE) VRING_DESC_F_NEXT) 2 ::
     mkdesc (DmaStatus 0) 1 VRING_DESC_F_WRITE 0 :: replicate 5 (mkdesc DmaNull 0 0 0))
    (ushort (vd_avail_idx v + 1))
    (<[Z.to_nat (vd_avail_idx v mod Z.of_nat NUM) := 0]> (vd_avail_ring v))
    (vd_used_ring_idx v) (vd_used_ring v) (0 :: 0 :: 0 :: replicate 5 1) (vd_used_idx v)
    (Some b :: replicate 7 None) (<[0%nat := 0xff]> (vd_info_status v))
    (<[0%nat := mkreq (if w then VIRTIO_BLK_T_OUT else VIRTIO_BLK_T_IN) 0 sector]> (vd_ops v))
    (<[VIRTIO_MMIO_QUEUE_NOTIFY := uint 0]> (vd_regs v)).

(** The driver after the device and the interrupt handler have completed it. *)
Definition completed (v : vdisk) : vdisk :=
  v <| vd_info_status ::= <[0%nat := 0]> |>
    <| vd_used_ring ::= <[Z.to_nat (vd_used_ring_idx v mod Z.of_nat NUM) := 0]> |>
    <| vd_used_ring_idx ::= fun i => ushort (i + 1) |>
    <| vd_used_idx ::= fun i => ushort (i + 1) |>.

(** The buffer and the disk after the request. *)
Definition moved (w : bool) (old : list Z) (bf : buf) : buf :=
  bf <| b_data := if w then b_data bf else old |> <| b_disk := 0 |>.

Definition stored (w : bool) (n : Z) (bf : buf) (d : disk) : disk :=
  if w then <[Z.to_nat n := b_data bf]> d else d.

Lemma ushort_succ_ne i : ushort (i + 1) ≠ i.
Proof.
  unfold ushort. intros E. pose proof (Z.mod_pos_bound (i + 1) (2 ^ 16) ltac:(done)).
  destruct (decide (i = 2 ^ 16 - 1)) as [->|]; [done|]. rewrite Z.mod_small in E; lia.
Qed.

Lemma mod_NUM_lt {A} (l : list A) i : length l = NUM → (Z.to_nat (i mod Z.of_nat NUM) < length l)%nat.
Proof. intros ->. unfold NUM. pose proof (Z.mod_pos_bound i 8). lia. Qed.

Lemma request_well_formed (b : nat) (w : bool) n :
  0 <= n < 2 ^ 31 →
  well_formed (mkdesc (DmaOp 0) 16 VRING_DESC_F_NEXT 1)
    (mkdesc (DmaBuf b) BSIZE (Z.lor (if w then 0 else VRING_DESC_F_WRITE) VRING_DESC_F_NEXT) 2)
    (mkdesc (DmaStatus 0) 1 VRING_DESC_F_WRITE 0)
    (mkreq (if w then VIRTIO_BLK_T_OUT else VIRTIO_BLK_T_IN) 0 (uint (n * (BSIZE / 512)))) = true.
Proof.
  intros Hn. assert (uint (n * (BSIZE / 512)) mod (BSIZE / 512) = 0) as E.
  { unfold uint, BSIZE. change (1024 / 512) with 2. rewrite (Z.mod_small _ (2 ^ 32)) by lia. apply Z_mod_mult. }
  unfold well_formed. cbn [rq_sector]. rewrite E. by destruct w.
Qed.

#[local] Arguments well_formed : simpl never.

Lemma disk_request b w g B d v bf old :
  idle v → B !! b = Some bf → at_idx d (b_blockno bf) = Some old → 0 <= b_blockno bf < 2 ^ 31 →
  ∃ g1, device_step (gput g B d (submitted b w (uint (b_blockno bf * (BSIZE / 512))) v)) = Some g1 ∧
    intr_step g1 = Some (gput g (<[b := moved w old bf]> B) (stored w (b_blockno bf) bf d)
      (completed (submitted b w (uint (b_blockno bf * (BSIZE / 512))) v))).
Proof.
  intros Hv Hb Hd Hr. unfold device_step. simpl. rewrite <- (idle_served v Hv).
  rewrite (proj2 (Z.eqb_neq _ _) (ushort_succ_ne _)), list_lookup_insert_eq by (apply mod_NUM_lt, Hv). simpl.
  rewrite list_lookup_insert_eq by (rewrite (idle_ops v Hv); unfold NUM; lia). simpl.
  rewrite (request_well_formed b w (b_blockno bf) Hr), Hb. simpl.
  assert (uint (b_blockno bf * (BSIZE / 512)) / (BSIZE / 512) = b_blockno bf) as E.
  { unfold uint, BSIZE. change (1024 / 512) with 2. rewrite Z.mod_small by lia. apply Z.div_mul. lia. }
  rewrite E, Hd. simpl. pose proof (lookup_lt_Some _ _ _ Hb) as Hlt.
  assert (∀ x, (<[0%nat:=x]> (<[0%nat:=255]> (vd_info_status v))) !! 0%nat = Some x) as Hst.
  { intros x. apply list_lookup_insert_eq. rewrite length_insert, (idle_status v Hv). unfold NUM. lia. }
  destruct w; simpl; (eexists; split; [done|]); unfold intr_step, completed; simpl;
    rewrite (idle_idx v Hv), <- (idle_served v Hv), list_lookup_insert_eq by (apply mod_NUM_lt, Hv); simpl;
    unfold at_idx; simpl; rewrite Hst; simpl.
  - rewrite Hb. simpl. rewrite (alter_insert _ _ _ _ Hb). by destruct bf.
  - rewrite list_lookup_insert_eq by done. simpl.
    erewrite alter_insert by (by apply list_lookup_insert_eq). by rewrite list_insert_insert_eq.
Qed.

Lemma idle_freed b w sector v :
  idle v →
  idle (completed (submitted b w sector v)
    <| vd_info_b := replicate NUM None |> <| vd_desc := replicate NUM (mkdesc DmaNull 0 0 0) |>
    <| vd_free := replicate NUM 1 |>).
Proof.
  intros [? ? ? ? ? ? ? E E']. split; simpl; rewrite ?length_insert; try done; [by rewrite E|by rewrite E'].
Qed.

Lemma does_b_disk L g B d v b bf x :
  B !! b = Some bf → (b_disk bf =? 1) = x →
  does L (gput g B d v) (bf ← deref (fun s => g_bufs (k_sub s) !! b); mret (b_disk bf =? 1)) [] L x
    (gput g B d v).
Proof. intros Hb <-. eapply does_step; [by apply does_get_buf|]. apply does_ret. Qed.

(** A request moves the block between the buffer and the disk, waits once, and
    leaves the driver idle. *)
Lemma does_virtio_disk_rw `{Patience} b w g B d v bf old :
  idle v → B !! b = Some bf → at_idx d (b_blockno bf) = Some old → 0 <= b_blockno bf < 2 ^ 31 →
  (0 < patience)%nat →
  ∃ v', idle v' ∧ does ∅ (gput g B d v) (virtio_disk_rw b w) [d] ∅ tt
    (gput g (<[b := moved w old bf]> B) (stored w (b_blockno bf) bf d) v').
Proof.
  intros Hv Hb Hd Hr Hp. eexists. split; [by apply (idle_freed b w (uint (b_blockno bf * (BSIZE / 512))) v)|].
  pose proof (lookup_lt_Some _ _ _ Hb) as Hlt.
  destruct (disk_request b w g (<[b := bf <| b_disk := 1 |>]> B) d v (bf <| b_disk := 1 |>) old)
    as (g1 & Hdev & Hintr); [done|by apply list_lookup_insert_eq|done|done|].
  destruct v as [de ai ar uri ur fr ui ib st ops regs].
  pose proof Hv as [E1 E2 E3 _ _ _ _ _ _]. simpl in E1, E2, E3. subst de fr ib. unfold virtio_disk_rw.
  eapply does_step; [by apply does_get_buf|]. eapply does_step; [apply does_acquire; [apply known_vdisk|done]|].
  eapply (does_step _ _ _ _ _ _ [0; 1; 2]).
  { destruct patience as [|n]; [lia|]. simpl. eapply does_step; [by apply does_alloc3|]. apply does_ret. }
  do 3 (eapply does_step; [by apply does_non_null|]).
  eapply does_step; [apply does_upd_disk|]. do 2 (eapply does_step; [by eapply does_upd_desc|]).
  eapply does_step; [apply does_upd_disk|]. eapply does_step; [by eapply does_upd_desc|].
  eapply does_step; [by eapply does_mod_buf|]. eapply does_step; [apply does_upd_disk|].
  do 3 (eapply does_step; [apply does_upd_disk|]).
  eapply (does_bind _ _ _ _ [d] []).
  { eapply does_sleep_while; [apply known_vdisk|done|done| |by eapply disk_serves| |reflexivity];
      eapply does_b_disk; try (by apply list_lookup_insert_eq); done || (by rewrite list_lookup_insert_eq by (by rewrite length_insert)). }
  eapply does_step; [apply does_upd_disk|].
  eapply does_step; [eapply does_free_chain; [apply quiet_vdisk|reflexivity|reflexivity|done|done|by destruct w|done|done]|].
  rewrite list_insert_insert_eq. apply does_release_last. set_solver.
Qed.

(** C32. Against a device that serves the entries of the available ring in order,
    and only chains of a header, a block and a status byte with their lengths and
    directions, virtio_disk_rw on an idle driver writes the buffer to its block or
    fills the buffer from it, waits exactly once, changes no other block and no
    other buffer, and leaves the driver idle with all descriptors free. *)
Theorem virtio_disk_rw_moves `{Patience} b w g B d v bf old :
  idle v → B !! b = Some bf → at_idx d (b_blockno bf) = Some old → 0 <= b_blockno bf < 2 ^ 31 →
  (0 < patience)%nat →
  ∃ v', idle v' ∧ does ∅ (gput g B d v) (virtio_disk_rw b w) [d] ∅ tt
    (gput g (<[b := moved w old bf]> B) (stored w (b_blockno bf) bf d) v').
Proof. apply does_virtio_disk_rw. Qed.

(** ** The interrupt *)

(** The acknowledgement of the interrupt, in the registers. *)
Definition acked `{VirtioDev} (g : sub) : sub :=
  g <| g_vdisk ::= fun d => d <| vd_regs ::=
    <[VIRTIO_MMIO_INTERRUPT_ACK := uint (Z.land (uint (mmio_read (vd_regs d) VIRTIO_MMIO_INTERRUPT_STATUS)) 3)]> |> |>.

Lemma does_vd {A} L g (f : vdisk → A) : does L g (get_disk f) [] L (f (g_vdisk g)) g.
Proof. apply (does_gets L g (fun g => f (g_vdisk g))). Qed.

Lemma does_intr_done `{VirtioDev} L g n :
  vd_used_idx (g_vdisk g) = vd_used_ring_idx (g_vdisk g) → does L g (intr_loop n) [] L tt g.
Proof.
  intros E. destruct n; simpl; (eapply does_step; [apply does_vd|]); (eapply does_step; [apply does_vd|]);
    rewrite E, Z.eqb_refl; apply does_ret.
Qed.

Lemma does_intr_step `{VirtioDev} L g g' n :
  quiet L → intr_step g = Some g' → vd_used_idx (g_vdisk g) ≠ vd_used_ring_idx (g_vdisk g) →
  does L g' (intr_loop n) [] L tt g' → does L g (intr_loop (S n)) [] L tt g'.
Proof.
  intros Hq Hi Hne Hk. unfold intr_step in Hi. cbn [intr_loop].
  eapply does_step; [apply does_vd|]. eapply does_step; [apply does_vd|].
  rewrite (proj2 (Z.eqb_neq _ _) Hne). apply bind_Some in Hi as (id & E1 & Hi).
  apply bind_Some in Hi as (st & E2 & Hi). apply bind_Some in Hi as (o & E3 & Hi).
  apply bind_Some in Hi as (b & -> & Hi). apply bind_Some in Hi as (bf & E4 & Hi).
  destruct (Z.eqb_spec st 0) as [->|]; [|done]. injection Hi as <-.
  eapply does_step; [by apply (does_deref L g (fun g => vd_used_ring (g_vdisk g) !! Z.to_nat (vd_used_idx (g_vdisk g) mod Z.of_nat NUM)))|].
  eapply does_step; [by apply (does_deref L g (fun g => at_idx (vd_info_status (g_vdisk g)) id))|]. cbn [negb Z.eqb].
  eapply does_step; [by apply (does_deref L g (fun g => at_idx (vd_info_b (g_vdisk g)) id))|].
  eapply does_step; [by apply does_non_null|].
  eapply does_step; [by apply (does_deref L g (fun g => g_bufs g !! b))|].
  eapply does_step; [apply does_modify|]. eapply does_step; [by apply does_wakeup|].
  eapply does_step; [apply does_modify|]. exact Hk.
Qed.

(** virtio_disk_intr acknowledges the interrupt and, for a completed request in
    the used ring, marks its buffer as no longer owned by the disk and moves past
    the entry. *)
Theorem virtio_disk_intr_completes `{VirtioDev} (L : gset lockid) (g g' : sub) :
  quiet L → vdisk_lock ∉ L → intr_step g = Some g' →
  vd_used_ring_idx (g_vdisk g) = ushort (vd_used_idx (g_vdisk g) + 1) →
  0 <= vd_used_idx (g_vdisk g) < 2 ^ 16 →
  does L g virtio_disk_intr [] L tt (acked g').
Proof.
  intros Hq HL Hi Hr Hu. unfold virtio_disk_intr.
  eapply does_step; [apply does_acquire; [apply known_vdisk|done]|].
  eapply does_step; [apply does_vd|]. eapply does_step; [apply does_modify|].
  eapply (does_step _ _ _ _ _ _ tt); [|by apply does_release_last].
  unfold NUM. assert (quiet ({[vdisk_lock]} ∪ L)) as Hq' by (destruct Hq; split; set_solver).
  unfold intr_step in Hi. apply bind_Some in Hi as (id & E1 & Hi).
  apply bind_Some in Hi as (st & E2 & Hi). apply bind_Some in Hi as (o & E3 & Hi).
  apply bind_Some in Hi as (b & -> & Hi). apply bind_Some in Hi as (bf & E4 & Hi).
  apply does_intr_step; [done| | |].
  - unfold intr_step. simpl. rewrite E1. simpl. rewrite E2. simpl. rewrite E3. simpl. rewrite E4. simpl.
    destruct (st =? 0); [|done]. by injection Hi as <-.
  - simpl. rewrite Hr. unfold ushort. destruct (decide (vd_used_idx (g_vdisk g) = 2 ^ 16 - 1)) as [->|];
      [done|]. rewrite Z.mod_small; lia.
  - apply does_intr_done. destruct (st =? 0); [|done]. injection Hi as <-. simpl. by rewrite Hr.
Qed.

End driver.

(** ** A world whose device serves each request at once *)

Definition serve (g : sub) : sub :=
  match device_step g with
  | Some g1 => default g (intr_step g1)
  | None => g
  end.

Definition disk_world : World := ex_world serve.

Lemma known_global (f : sub → sub) n : n ∈ lock_names → LkGlobal n ∈ @known (ex_world f).
Proof. intros Hn. apply ex_known_spec. right; left. by exists n. Qed.

Lemma ex_disk_world : @DiskWorld disk_world.
Proof.
  split.
  - intros b g g1 g2 E1 E2. assert (g2 = serve g) as ->; [|apply ex_wakes_to].
    unfold serve. by rewrite E1, E2.
  - apply known_global. repeat first [by left|right].
  - apply known_global. repeat first [by left|right].
  - apply known_global. repeat first [by left|right].
  - intros b Hb. apply ex_known_spec. right; right; left. by exists b.
Qed.

Definition ex_vdisk : vdisk := g_vdisk (sub0 ∅).

Lemma ex_idle : idle ex_vdisk.
Proof. by split. Qed.

(** A disk of one block is overwritten from the buffer. *)
Lemma virtio_disk_rw_moves_witness :
  let bf := mkbuf 1 0 1 0 (mksleeplock 0 0) 1 0 0 [7] in
  (∃ s, @calm disk_world (@awake disk_world) ∅ (gput (sub0 ∅) [bf] [[5]] ex_vdisk) s) ∧
  ∃ v', @does disk_world _ ∅ (gput (sub0 ∅) [bf] [[5]] ex_vdisk) (@virtio_disk_rw 1%nat 0 true) [[[5]]] ∅ tt
    (gput (sub0 ∅) [bf] [[7]] v').
Proof.
  intros bf. split; [eexists; apply ex_calm|].
  destruct (@virtio_disk_rw_moves disk_world ex_disk_world 1%nat 0 true (sub0 ∅) [bf] [[5]] ex_vdisk bf [5])
    as (v' & _ & Hdo).
  - exact ex_idle.
  - reflexivity.
  - reflexivity.
  - simpl. lia.
  - exact (le_n 1).
  - exists v'. exact Hdo.
Defined.

(** The device has completed the request for buffer 0. *)
Definition ex_completed : vdisk :=
  ex_vdisk <| vd_info_b := Some 0%nat :: replicate 7 None |> <| vd_used_ring_idx := 1 |>.

Lemma virtio_disk_intr_completes_witness :
  let bf := mkbuf 1 1 1 0 (mksleeplock 0 0) 1 0 0 [7] in
  @does disk_world _ ∅ (gput (sub0 ∅) [bf] [[7]] ex_completed)
    (@virtio_disk_intr (fun _ _ => 1)) [] ∅ tt
    (@acked (fun _ _ => 1) (gput (sub0 ∅) [bf <| b_disk := 0 |>] [[7]] (ex_completed <| vd_used_idx := 1 |>))).
Proof.
  intros bf. apply (@virtio_disk_intr_completes disk_world ex_disk_world (fun _ _ => 1) ∅
    (gput (sub0 ∅) [bf] [[7]] ex_completed)).
  - split; intros; apply not_elem_of_empty.
  - apply not_elem_of_empty.
  - reflexivity.
  - reflexivity.
  - simpl. lia.
Defined.
