(* ===== verification/BioProofs.v ===== *)
(** The buffer cache: its doubly linked ring, and its refinement of a map from
    block numbers to the buffers that are in use over the disk. *)

From stdpp Require Import base gmap strings numbers list.
From S2P Require Import Prelude Spinlock Kstate Mlfq Sched Boot Switch CString Globals Kalloc Sleeplock Virtio Bio Runs VirtioProofs.
Local Open Scope Z_scope.

(** * The ring *)

(** [x], the elements of [l] and [y] follow one another along [N], and backwards
    along [P]. *)
Fixpoint path (N P : nat → nat) (x : nat) (l : list nat) (y : nat) : Prop :=
  match l with
  | [] => N x = y ∧ P y = x
  | z :: l' => (N x = z ∧ P z = x) ∧ path N P z l' y
  end.

Section path.
Implicit Types (N P : nat → nat) (l : list nat).

Lemma path_ext N P N' P' x l y :
  (∀ z, z ∈ x :: l → N' z = N z) → (∀ z, z ∈ l ++ [y] → P' z = P z) →
  path N P x l y → path N' P' x l y.
Proof.
  revert x. induction l as [|z l IH]; intros x HN HP; simpl.
  - intros [E1 E2]. rewrite HN, HP by set_solver. done.
  - intros [[E1 E2] H]. rewrite HN, HP by set_solver. split; [done|].
    apply IH; [set_solver..|done].
Qed.

Lemma path_app N P x l1 z l2 y :
  path N P x (l1 ++ z :: l2) y ↔ path N P x l1 z ∧ path N P z l2 y.
Proof.
  revert x. induction l1 as [|a l1 IH]; intros x; simpl; [tauto|]. rewrite IH. tauto.
Qed.

(** The neighbours of an element. *)
Lemma path_next N P x l y : path N P x l y → N x ∈ l ++ [y].
Proof. destruct l; simpl; intros H; [destruct H as [-> _]|destruct H as [[-> _] _]]; set_solver. Qed.

Lemma path_prev N P x l y : path N P x l y → P y ∈ x :: l.
Proof.
  revert x. induction l as [|z l IH]; intros x; simpl; [intros [_ ->]; set_solver|].
  intros [_ H]. apply IH in H. set_solver.
Qed.

Definition fupd (f : nat → nat) (k v : nat) : nat → nat := fun x => if decide (x = k) then v else f x.

Lemma fupd_eq f k v : fupd f k v k = v.
Proof. unfold fupd. by rewrite decide_True. Qed.

Lemma fupd_ne f k v x : x ≠ k → fupd f k v x = f x.
Proof. intros H. unfold fupd. by rewrite decide_False. Qed.

(** Unlinking an element. *)
Lemma path_remove N P x l1 b l2 y :
  NoDup (x :: l1 ++ b :: l2) → NoDup (l1 ++ b :: l2 ++ [y]) →
  path N P x (l1 ++ b :: l2) y →
  path (fupd N (P b) (N b)) (fupd P (N b) (P b)) x (l1 ++ l2) y.
Proof.
  revert x. induction l1 as [|a l1 IH]; intros x D1 D2; simpl.
  - intros [[E1 E2] H]. rewrite E2. simpl in *. apply NoDup_cons in D1 as [Dx D1].
    destruct l2 as [|z l2]; simpl in *.
    + destruct H as [-> _]. by rewrite !fupd_eq.
    + destruct H as [[-> _] H]. rewrite !fupd_eq. split; [done|].
      apply NoDup_cons in D2 as [_ D2]. apply NoDup_cons in D2 as [Dz _].
      eapply path_ext; [..|exact H]; intros w Hw; rewrite fupd_ne; set_solver.
  - intros [[E1 E2] H]. simpl in *. apply NoDup_cons in D1 as [Dx D1]. apply NoDup_cons in D2 as [Da D2].
    pose proof H as [H1 H2]%path_app. apply path_prev in H1. apply path_next in H2.
    assert (x ≠ P b) as Hx by (clear -Dx H1; set_solver).
    assert (a ≠ N b) as Ha by (clear -Da H2; set_solver).
    rewrite (fupd_ne N _ _ x Hx), (fupd_ne P _ _ a Ha). split; [done|]. by apply IH.
Qed.

(** Linking an element behind [h]. *)
Lemma path_insert N P h b l :
  b ≠ h → b ∉ l → NoDup (l ++ [h]) → path N P h l h →
  path (fupd (fupd N b (N h)) h b) (fupd (fupd P b h) (N h) b) h (b :: l) h.
Proof.
  intros Hbh Hbl D H. pose proof (path_next _ _ _ _ _ H) as Hn. simpl. rewrite fupd_eq.
  assert (b ≠ N h) by set_solver.
  rewrite (fupd_ne _ (N h)), fupd_eq by done. split; [done|].
  destruct l as [|z l]; simpl in *.
  - destruct H as [E1 E2]. rewrite (fupd_ne _ h), fupd_eq by done. rewrite E1. by rewrite fupd_eq.
  - destruct H as [[E1 E2] H]. rewrite (fupd_ne _ h), fupd_eq, E1, fupd_eq by done. split; [done|].
    apply NoDup_cons in D as [Dz D].
    eapply path_ext; [..|exact H]; intros w Hw.
    + destruct (decide (w = h)) as [->|Hw'].
      * exfalso. apply elem_of_cons in Hw as [->|Hw]; [set_solver|].
        apply NoDup_app in D as (_ & D & _). by apply (D h Hw), list_elem_of_singleton.
      * rewrite !fupd_ne; [done|set_solver|done].
    + rewrite !fupd_ne; [done|set_solver|set_solver].
Qed.

End path.

(** The pointers of the buffers. *)
Definition nexts (B : list buf) (b : nat) : nat := from_option b_next 0%nat (B !! b).
Definition prevs (B : list buf) (b : nat) : nat := from_option b_prev 0%nat (B !! b).

(** The buffers are linked in the order [ord], the most recently used one first. *)
Record ring (B : list buf) (ord : list nat) : Prop := {
  ring_len : length B = S NBUF;
  ring_path : path (nexts B) (prevs B) head ord head;
  ring_all : ord ≡ₚ seq 0 NBUF
}.

Lemma ring_in B ord b : ring B ord → b ∈ ord ↔ (b < NBUF)%nat.
Proof. intros H. rewrite (ring_all _ _ H), elem_of_seq. lia. Qed.

Lemma ring_NoDup B ord : ring B ord → NoDup ord ∧ head ∉ ord.
Proof.
  intros H. split; [rewrite (ring_all _ _ H); apply NoDup_seq|].
  rewrite (ring_in B ord) by done. unfold head. lia.
Qed.

Lemma ring_lookup B ord b : ring B ord → (b <= NBUF)%nat → ∃ bf, B !! b = Some bf.
Proof. intros H Hb. apply lookup_lt_is_Some. rewrite (ring_len _ _ H). lia. Qed.

Lemma nexts_insert B b bf : (b < length B)%nat → ∀ x, nexts (<[b := bf]> B) x = fupd (nexts B) b (b_next bf) x.
Proof.
  intros Hb x. unfold nexts, fupd. case_decide as E; [subst; by rewrite list_lookup_insert_eq|].
  by rewrite list_lookup_insert_ne.
Qed.

Lemma prevs_insert B b bf : (b < length B)%nat → ∀ x, prevs (<[b := bf]> B) x = fupd (prevs B) b (b_prev bf) x.
Proof.
  intros Hb x. unfold prevs, fupd. case_decide as E; [subst; by rewrite list_lookup_insert_eq|].
  by rewrite list_lookup_insert_ne.
Qed.

(** A buffer may change without its pointers. *)
Lemma ring_same B ord b bf bf' :
  ring B ord → B !! b = Some bf → b_next bf' = b_next bf → b_prev bf' = b_prev bf →
  ring (<[b := bf']> B) ord.
Proof.
  intros [H1 H2 H3] Hb E1 E2. pose proof (lookup_lt_Some _ _ _ Hb) as Hlt.
  split; [by rewrite length_insert| |done].
  eapply path_ext; [..|exact H2]; intros z _.
  - rewrite nexts_insert by done. unfold fupd. case_decide as E; [|done]. subst. unfold nexts. by rewrite Hb.
  - rewrite prevs_insert by done. unfold fupd. case_decide as E; [|done]. subst. unfold prevs. by rewrite Hb.
Qed.

(** Following [next] from [x] visits [l] and ends at [head]. *)
Fixpoint follows (next : buf → nat) (B : list buf) (x : nat) (l : list nat) : Prop :=
  match l with
  | [] => x = head
  | y :: l' => x = y ∧ y ≠ head ∧ ∃ bf, B !! y = Some bf ∧ follows next B (next bf) l'
  end.

Lemma path_follows B x l :
  head ∉ l → (∀ y, y ∈ l → is_Some (B !! y)) → path (nexts B) (prevs B) x l head →
  follows b_next B (nexts B x) l.
Proof.
  revert x. induction l as [|z l IH]; intros x Hh HB; simpl; [tauto|].
  intros [[-> _] H]. split; [done|]. split; [set_solver|].
  destruct (HB z) as [bf Hbf]; [set_solver|]. exists bf. split; [done|].
  replace (b_next bf) with (nexts B z) by (unfold nexts; by rewrite Hbf).
  apply IH; [set_solver|set_solver|done].
Qed.

Lemma path_follows_back B l y :
  head ∉ l → (∀ z, z ∈ l → is_Some (B !! z)) → path (nexts B) (prevs B) head l y →
  follows b_prev B (prevs B y) (reverse l).
Proof.
  revert y. induction l as [|z l IH] using rev_ind; intros y Hh HB; simpl; [tauto|].
  rewrite path_app. intros [H [_ ->]]. rewrite reverse_snoc. simpl. split; [done|].
  split; [set_solver|]. destruct (HB z) as [bf Hbf]; [set_solver|]. exists bf. split; [done|].
  replace (b_prev bf) with (prevs B z) by (unfold prevs; by rewrite Hbf).
  apply IH; [set_solver|set_solver|done].
Qed.

Lemma ring_follows B ord :
  ring B ord → follows b_next B (nexts B head) ord ∧ follows b_prev B (prevs B head) (reverse ord).
Proof.
  intros H. destruct (ring_NoDup _ _ H) as [_ Hh].
  assert (∀ y, y ∈ ord → is_Some (B !! y)) as HB.
  { intros y Hy. destruct (ring_lookup _ _ y H) as [bf ->]; [|done].
    apply (ring_in _ _ _ H) in Hy. lia. }
  split; [by apply path_follows, H|by apply path_follows_back, H].
Qed.

(** [ok] of a buffer by its number. *)
Definition okb (ok : buf → bool) (B : list buf) (b : nat) : bool := from_option ok false (B !! b).

Lemma does_ring_find `{DW : DiskWorld} L g B d v next ok l x fuel :
  follows next B x l → (length l <= fuel)%nat →
  does L (gput g B d v) (ring_find fuel next ok x) [] L (List.find (okb ok B) l) (gput g B d v).
Proof.
  revert x fuel. induction l as [|y l IH]; intros x fuel; simpl.
  - intros -> _. destruct fuel; cbn [ring_find]; rewrite decide_True by done; apply does_ret.
  - intros (-> & Hy & bf & Hbf & Hl) Hf. destruct fuel as [|fuel]; [lia|]. cbn [ring_find].
    rewrite decide_False by done. eapply does_step; [by apply does_get_buf|].
    unfold okb at 1. rewrite Hbf. simpl. destruct (ok bf); [apply does_ret|]. apply IH; [done|lia].
Qed.

(** * The cache as a map *)

(** A block in use: its buffer, the number of references, whether this process
    holds its sleep lock, and the content of the buffer. *)
Record held := mkheld { h_buf : nat; h_ref : Z; h_locked : bool; h_data : list Z }.

#[global] Instance eta_held : Settable held :=
  fun h => mkheld (h_buf h) (h_ref h) (h_locked h) (h_data h).

Section cache.
Context `{DW : DiskWorld} (dev : Z).
Implicit Types (H : gmap Z held) (d : disk) (B : list buf).

Definition lock_is (locked : bool) (l : sleeplock) : Prop :=
  if locked then l = mksleeplock 1 upid else sl_locked l = 0.

Record used_buf (n : Z) (h : held) (bf : buf) : Prop := {
  used_dev : b_dev bf = dev;
  used_no : b_blockno bf = n;
  used_valid : b_valid bf ≠ 0;
  used_ref : b_refcnt bf = h_ref h;
  used_bound : 0 < h_ref h < 2 ^ 31;
  used_lock : lock_is (h_locked h) (b_lock bf);
  used_data : b_data bf = h_data h
}.

Record unused_buf H d (bf : buf) : Prop := {
  unused_ref : b_refcnt bf = 0;
  unused_lock : sl_locked (b_lock bf) = 0;
  unused_no : b_dev bf = dev → H !! b_blockno bf = None;
  unused_data : b_dev bf = dev → b_valid bf ≠ 0 → at_idx d (b_blockno bf) = Some (b_data bf)
}.

(** The buffers [B] implement the map [H] over the disk [d]. *)
Record cache H d B : Prop := {
  cache_ring : ∃ ord, ring B ord;
  cache_used : ∀ n h, H !! n = Some h →
    (h_buf h < NBUF)%nat ∧ ∃ bf, B !! h_buf h = Some bf ∧ used_buf n h bf;
  cache_unused : ∀ b bf, (b < NBUF)%nat → B !! b = Some bf →
    (∀ n h, H !! n = Some h → h_buf h ≠ b) → unused_buf H d bf;
  cache_uniq : ∀ b1 b2 f1 f2, (b1 < NBUF)%nat → (b2 < NBUF)%nat → B !! b1 = Some f1 → B !! b2 = Some f2 →
    b_dev f1 = dev → b_dev f2 = dev → b_blockno f1 = b_blockno f2 → b1 = b2
}.

(** A buffer implements at most one block. *)
Lemma cache_inj H d B n1 n2 h1 h2 :
  cache H d B → H !! n1 = Some h1 → H !! n2 = Some h2 → h_buf h1 = h_buf h2 → n1 = n2.
Proof.
  intros Hc H1 H2 E. destruct (cache_used _ _ _ Hc _ _ H1) as (_ & f1 & E1 & U1).
  destruct (cache_used _ _ _ Hc _ _ H2) as (_ & f2 & E2 & U2). rewrite E in E1.
  assert (f1 = f2) as -> by congruence. by rewrite <- (used_no _ _ _ U1), <- (used_no _ _ _ U2).
Qed.

(** A block in use changes its record. *)
Lemma cache_change H d B n h h' bf bf' :
  cache H d B → H !! n = Some h → B !! h_buf h = Some bf → h_buf h' = h_buf h →
  b_next bf' = b_next bf → b_prev bf' = b_prev bf → used_buf n h' bf' →
  cache (<[n := h']> H) d (<[h_buf h := bf']> B).
Proof.
  intros Hc Hn Hb Eh En Ep Hu. pose proof (lookup_lt_Some _ _ _ Hb) as Hlt.
  destruct (cache_used _ _ _ Hc _ _ Hn) as (Hlt' & bf0 & Hb0 & U). assert (bf0 = bf) as -> by congruence.
  split.
  - destruct (cache_ring _ _ _ Hc) as [ord Hr]. exists ord. by eapply ring_same.
  - intros m k [[<- <-]|[Hne Hk]]%lookup_insert_Some.
    + rewrite Eh. split; [done|]. exists bf'. by rewrite list_lookup_insert_eq.
    + destruct (cache_used _ _ _ Hc _ _ Hk) as (? & f & Hf & Uf). split; [done|]. exists f.
      rewrite list_lookup_insert_ne; [done|]. intros E. by eapply Hne, (cache_inj H d B).
  - intros b f Hlb Hf Hnot.
    assert (b ≠ h_buf h) as Hbh.
    { intros ->. apply (Hnot n h'); [by rewrite lookup_insert_eq|done]. }
    rewrite list_lookup_insert_ne in Hf by done.
    destruct (cache_unused _ _ _ Hc b f Hlb Hf) as [u1 u2 u3 u4].
    { intros m k Hk E. destruct (decide (m = n)) as [->|Hmn]; [congruence|].
      apply (Hnot m k); [by rewrite lookup_insert_ne|done]. }
    split; [done|done| |done]. intros Hd. specialize (u3 Hd).
    rewrite lookup_insert_ne; [done|]. intros E. congruence.
  - intros b1 b2 f1 f2 L1 L2 H1 H2 D1 D2 E.
    assert (∀ b f, (<[h_buf h:=bf']> B) !! b = Some f →
      ∃ f0, B !! b = Some f0 ∧ b_blockno f0 = b_blockno f ∧ (b_dev f = dev → b_dev f0 = dev)) as Hold.
    { intros b f [(<- & <- & _)|[_ Hf]]%list_lookup_insert_Some; [|by exists f].
      exists bf. split; [done|]. by rewrite (used_no _ _ _ U), (used_no _ _ _ Hu), (used_dev _ _ _ U). }
    destruct (Hold _ _ H1) as (g1 & G1 & N1 & V1), (Hold _ _ H2) as (g2 & G2 & N2 & V2).
    eapply (cache_uniq _ _ _ Hc _ _ _ _ L1 L2 G1 G2); auto. congruence.
Qed.

(** A buffer that is not in use is taken for block [n]. *)
Lemma cache_take H d B n h bf bf' :
  cache H d B → H !! n = None → (h_buf h < NBUF)%nat → B !! h_buf h = Some bf →
  (∀ m k, H !! m = Some k → h_buf k ≠ h_buf h) →
  (∀ b f, (b < NBUF)%nat → B !! b = Some f → b_dev f = dev → b_blockno f = n → b = h_buf h) →
  b_next bf' = b_next bf → b_prev bf' = b_prev bf → used_buf n h bf' →
  cache (<[n := h]> H) d (<[h_buf h := bf']> B).
Proof.
  intros Hc Hn Hlt Hb Hfree Huniq En Ep Hu. pose proof (lookup_lt_Some _ _ _ Hb) as Hlb. split.
  - destruct (cache_ring _ _ _ Hc) as [ord Hr]. exists ord. by eapply ring_same.
  - intros m k [[<- <-]|[Hne Hk]]%lookup_insert_Some.
    + split; [done|]. exists bf'. by rewrite list_lookup_insert_eq.
    + destruct (cache_used _ _ _ Hc _ _ Hk) as (? & f & Hf & Uf). split; [done|]. exists f.
      rewrite list_lookup_insert_ne; [done|]. intros E. by eapply Hfree.
  - intros b f Hl Hf Hnot.
    assert (b ≠ h_buf h) as Hbh by (intros ->; apply (Hnot n h); [by rewrite lookup_insert_eq|done]).
    rewrite list_lookup_insert_ne in Hf by done.
    destruct (cache_unused _ _ _ Hc b f Hl Hf) as [u1 u2 u3 u4].
    { intros m k Hk. apply (Hnot m k). rewrite lookup_insert_ne; [done|]. intros ->. congruence. }
    split; [done|done| |done]. intros Hd. rewrite lookup_insert_ne; [by apply u3|].
    intros E. by apply Hbh, (Huniq b f).
  - intros b1 b2 f1 f2 L1 L2 H1 H2 D1 D2 E.
    apply list_lookup_insert_Some in H1 as [(<- & <- & _)|[Hn1 H1]];
      apply list_lookup_insert_Some in H2 as [(<- & <- & _)|[Hn2 H2]].
    + done.
    + symmetry. apply (Huniq b2 f2); [done..|]. by rewrite <- E, (used_no _ _ _ Hu).
    + apply (Huniq b1 f1); [done..|]. by rewrite E, (used_no _ _ _ Hu).
    + by eapply (cache_uniq _ _ _ Hc).
Qed.

(** The last reference goes; the buffer agrees with the disk. *)
Lemma cache_drop H d B n h bf bf' :
  cache H d B → H !! n = Some h → B !! h_buf h = Some bf → at_idx d n = Some (h_data h) →
  b_next bf' = b_next bf → b_prev bf' = b_prev bf →
  b_dev bf' = dev → b_blockno bf' = n → b_refcnt bf' = 0 → sl_locked (b_lock bf') = 0 →
  b_data bf' = h_data h →
  cache (delete n H) d (<[h_buf h := bf']> B).
Proof.
  intros Hc Hn Hb Hd En Ep Edev Eno Eref El Edata. pose proof (lookup_lt_Some _ _ _ Hb) as Hlb.
  destruct (cache_used _ _ _ Hc _ _ Hn) as (Hlt' & bf0 & Hb0 & U). assert (bf0 = bf) as -> by congruence.
  split.
  - destruct (cache_ring _ _ _ Hc) as [ord Hr]. exists ord. by eapply ring_same.
  - intros m k [Hne Hk]%lookup_delete_Some.
    destruct (cache_used _ _ _ Hc _ _ Hk) as (? & f & Hf & Uf). split; [done|]. exists f.
    rewrite list_lookup_insert_ne; [done|]. intros E. by eapply Hne, (cache_inj H d B).
  - intros b f Hl [(<- & <- & _)|[Hbh Hf]]%list_lookup_insert_Some Hnot.
    + split; [done|done| |]; intros _; [by rewrite Eno, lookup_delete_eq|]. by rewrite Eno, Edata.
    + destruct (cache_unused _ _ _ Hc b f Hl Hf) as [u1 u2 u3 u4].
      { intros m k Hk. destruct (decide (m = n)) as [->|Hmn]; [congruence|].
        apply (Hnot m k). by rewrite lookup_delete_ne. }
      split; [done|done| |done]. intros Hd'. apply lookup_delete_None. right. by apply u3.
  - intros b1 b2 f1 f2 L1 L2 H1 H2 D1 D2 E.
    assert (∀ b f, (<[h_buf h:=bf']> B) !! b = Some f →
      ∃ f0, B !! b = Some f0 ∧ b_blockno f0 = b_blockno f ∧ (b_dev f = dev → b_dev f0 = dev)) as Hold.
    { intros b f [(<- & <- & _)|[_ Hf]]%list_lookup_insert_Some; [|by exists f].
      exists bf. split; [done|]. by rewrite (used_no _ _ _ U), Eno, (used_dev _ _ _ U). }
    destruct (Hold _ _ H1) as (g1 & G1 & N1 & V1), (Hold _ _ H2) as (g2 & G2 & N2 & V2).
    eapply (cache_uniq _ _ _ Hc _ _ _ _ L1 L2 G1 G2); auto. congruence.
Qed.

(** A block in use is written to the disk. *)
Lemma cache_store H d B n h x :
  cache H d B → H !! n = Some h → 0 <= n → cache H (<[Z.to_nat n := x]> d) B.
Proof.
  intros Hc Hn H0. split; [apply Hc..| |apply Hc].
  intros b f Hl Hf Hnot. destruct (cache_unused _ _ _ Hc b f Hl Hf Hnot) as [u1 u2 u3 u4].
  split; [done..|]. intros Hd Hv. specialize (u3 Hd). specialize (u4 Hd Hv).
  unfold at_idx in *. destruct (Z.ltb_spec (b_blockno f) 0); [done|].
  rewrite list_lookup_insert_ne; [done|]. intros E. apply Z2Nat.inj in E; [|lia..]. congruence.
Qed.

(** The ring may be relinked. *)
Definition unlinked (bf : buf) : buf := bf <| b_next := 0%nat |> <| b_prev := 0%nat |>.

Lemma cache_relink H d B B' ord :
  cache H d B → ring B' ord → unlinked <$> B' = unlinked <$> B → cache H d B'.
Proof.
  intros Hc Hr E.
  assert (∀ b f', B' !! b = Some f' → ∃ f, B !! b = Some f ∧ unlinked f' = unlinked f) as Hto.
  { intros b f' Hf. apply (f_equal (lookup b)) in E. rewrite !list_lookup_fmap, Hf in E.
    destruct (B !! b) as [f|]; [|done]. injection E as E. exists f. split; [done|]. unfold unlinked. simpl. congruence. }
  split; [by exists ord|..].
  - intros n h Hn. destruct (cache_used _ _ _ Hc _ _ Hn) as (Hl & f & Hf & [? ? ? ? ? ? ?]). split; [done|].
    destruct (ring_lookup _ _ (h_buf h) Hr) as [f' Hf']; [lia|]. exists f'. split; [done|].
    destruct (Hto _ _ Hf') as (f0 & Hf0 & [=]). assert (f0 = f) as -> by congruence. split; congruence.
  - intros b f' Hl Hf' Hnot. destruct (Hto _ _ Hf') as (f & Hf & [=]).
    destruct (cache_unused _ _ _ Hc b f Hl Hf Hnot) as [? ? u3 u4].
    split; try congruence; intros Hd; replace (b_blockno f') with (b_blockno f) by congruence.
    + apply u3. congruence.
    + intros Hv. replace (b_data f') with (b_data f) by congruence. apply u4; congruence.
  - intros b1 b2 f1 f2 L1 L2 H1 H2 D1 D2 Eq.
    destruct (Hto _ _ H1) as (g1 & G1 & [=]), (Hto _ _ H2) as (g2 & G2 & [=]).
    eapply (cache_uniq _ _ _ Hc _ _ _ _ L1 L2 G1 G2); congruence.
Qed.

(** ** Looking a block up *)

Definition is_block (n : Z) (b : buf) : bool := (b_dev b =? dev) && (b_blockno b =? n).

Lemma is_block_spec n bf : is_block n bf = true ↔ b_dev bf = dev ∧ b_blockno bf = n.
Proof. unfold is_block. rewrite andb_true_iff, !Z.eqb_eq. done. Qed.

Lemma find_none_ring B ord f b :
  ring B ord → List.find f ord = None ∨ List.find f (reverse ord) = None → (b < NBUF)%nat → f b = false.
Proof.
  intros Hr E Hb. apply (ring_in _ _ _ Hr) in Hb.
  destruct E as [E|E]; apply (List.find_none _ _ E), list_elem_of_In; [done|].
  by apply elem_of_reverse.
Qed.

Lemma find_cached H d B ord n b bf :
  cache H d B → ring B ord → (b < NBUF)%nat → B !! b = Some bf → is_block n bf = true →
  List.find (okb (is_block n) B) ord = Some b.
Proof.
  intros Hc Hr Hb Hbf Hok. destruct (List.find _ _) as [b'|] eqn:E.
  - apply List.find_some in E as [Hin Hok']. unfold okb in Hok'.
    apply list_elem_of_In, (ring_in _ _ _ Hr) in Hin.
    destruct (B !! b') as [bf'|] eqn:Hbf'; [|done]. simpl in Hok'.
    apply is_block_spec in Hok as [? ?]. apply is_block_spec in Hok' as [? ?].
    f_equal. by eapply (cache_uniq _ _ _ Hc b' b bf' bf); try congruence.
  - apply (find_none_ring _ _ _ b Hr (or_introl E)) in Hb.
    unfold okb in Hb. rewrite Hbf in Hb. simpl in Hb. congruence.
Qed.

Lemma find_not_cached B ord n :
  ring B ord → List.find (okb (is_block n) B) ord = None →
  ∀ b bf, (b < NBUF)%nat → B !! b = Some bf → b_dev bf = dev → b_blockno bf = n → False.
Proof.
  intros Hr E b bf Hb Hbf Hd Hn.
  apply (find_none_ring _ _ _ b Hr (or_introl E)) in Hb.
  unfold okb in Hb. rewrite Hbf in Hb. simpl in Hb. rewrite (proj2 (is_block_spec n bf)) in Hb; done.
Qed.

(** The least recently used buffer that is free. *)
Lemma find_free H d B ord :
  cache H d B → ring B ord → (size H < NBUF)%nat →
  ∃ b, List.find (okb (fun b => b_refcnt b =? 0) B) (reverse ord) = Some b ∧ (b < NBUF)%nat ∧
    ∀ n h, H !! n = Some h → h_buf h ≠ b.
Proof.
  intros Hc Hr Hsz. destruct (List.find _ _) as [b|] eqn:E.
  - apply List.find_some in E as [Hin Hok]. exists b. split; [done|].
    apply list_elem_of_In, elem_of_reverse, (ring_in _ _ _ Hr) in Hin. split; [done|].
    intros n h Hn <-. destruct (cache_used _ _ _ Hc _ _ Hn) as (_ & bf & Hbf & U).
    unfold okb in Hok. rewrite Hbf in Hok. simpl in Hok. apply Z.eqb_eq in Hok.
    pose proof (used_ref _ _ _ U). pose proof (used_bound _ _ _ U). lia.
  - exfalso. set (used := (h_buf ∘ snd) <$> map_to_list H).
    assert (seq 0 NBUF ⊆+ used) as Hsub%submseteq_length.
    { apply NoDup_submseteq; [apply NoDup_seq|]. intros b Hb%elem_of_seq.
      destruct (ring_lookup _ _ b Hr) as [bf Hbf]; [lia|].
      destruct (decide (b ∈ used)) as [|Hnot]; [done|]. exfalso.
      assert (∀ n h, H !! n = Some h → h_buf h ≠ b) as Hfree.
      { intros n h Hn <-. apply Hnot, list_elem_of_fmap. exists (n, h). split; [done|].
        by apply elem_of_map_to_list. }
      destruct (cache_unused _ _ _ Hc b bf) as [u1 _ _ _]; [lia|done|done|].
      assert (okb (fun b => b_refcnt b =? 0) B b = false) as Hno.
      { apply (find_none_ring _ _ _ b Hr (or_intror E)). lia. }
      unfold okb in Hno. rewrite Hbf in Hno. simpl in Hno. rewrite u1 in Hno. done. }
    unfold used in Hsub. rewrite length_seq, length_fmap, length_map_to_list in Hsub. lia.
Qed.

Lemma does_lock_buf `{Pat : Patience} g B d v b bf :
  B !! b = Some bf → (b < NBUF)%nat → sl_locked (b_lock bf) = 0 →
  does ∅ (gput g B d v) (acquiresleep (SlBuf b)) [] ∅ tt
    (gput g (<[b := bf <| b_lock := mksleeplock 1 upid |>]> B) d v).
Proof.
  intros Hb Hlt Hl. rewrite <- (alter_insert (fun bf => bf <| b_lock := mksleeplock 1 upid |>) _ _ _ Hb).
  apply (does_acquiresleep ∅ (gput g B d v) (SlBuf b) (sl_pid (b_lock bf))).
  - by apply known_bufs.
  - set_solver.
  - simpl. rewrite Hb. simpl. destruct (b_lock bf). simpl in *. by subst.
Qed.

(** ** bget *)

Lemma ring_head B ord :
  ring B ord → ∃ h, B !! head = Some h ∧ b_next h = nexts B head ∧ b_prev h = prevs B head.
Proof.
  intros Hr. destruct (ring_lookup _ _ head Hr) as [h Hh]; [unfold head; lia|].
  exists h. unfold nexts, prevs. by rewrite Hh.
Qed.

Lemma ring_length B ord : ring B ord → length ord = NBUF.
Proof. intros Hr. by rewrite (ring_all _ _ Hr), length_seq. Qed.

Definition got (ref : Z) (bf : buf) : buf :=
  bf <| b_refcnt := ref |> <| b_lock := mksleeplock 1 upid |>.

Lemma does_bget_cached `{Pat : Patience} g H d B v n b bf :
  cache H d B → (b < NBUF)%nat → B !! b = Some bf → is_block n bf = true → sl_locked (b_lock bf) = 0 →
  does ∅ (gput g B d v) (bget dev n) [] ∅ b
    (gput g (<[b := got (uint (b_refcnt bf + 1)) bf]> B) d v).
Proof.
  intros Hc Hlt Hb Hok Hl. destruct (cache_ring _ _ _ Hc) as [ord Hr].
  destruct (ring_follows _ _ Hr) as [Hn _]. destruct (ring_head _ _ Hr) as (h & Hh & En & _).
  pose proof (lookup_lt_Some _ _ _ Hb) as HlB. unfold bget.
  eapply does_step; [apply does_acquire; [apply known_bcache|done]|].
  eapply does_step; [by apply does_get_buf|]. rewrite En.
  eapply does_step; [eapply (does_ring_find _ _ _ _ _ _ (is_block n)); [done|by rewrite (ring_length _ _ Hr)]|].
  rewrite (find_cached H d B ord n b bf) by done.
  eapply does_step; [by eapply does_upd_buf|]. eapply does_step; [apply does_release_last; set_solver|].
  eapply does_step; [by eapply does_lock_buf; [apply list_lookup_insert_eq|..]|].
  rewrite list_insert_insert_eq. apply does_ret.
Qed.

Definition fresh (n : Z) (bf : buf) : buf :=
  bf <| b_dev := dev |> <| b_blockno := n |> <| b_valid := 0 |> <| b_refcnt := 1 |>
     <| b_lock := mksleeplock 1 upid |>.

Lemma does_bget_fresh `{Pat : Patience} g H d B v ord n :
  cache H d B → ring B ord → List.find (okb (is_block n) B) ord = None → (size H < NBUF)%nat →
  ∃ b bf, (b < NBUF)%nat ∧ B !! b = Some bf ∧ (∀ m h, H !! m = Some h → h_buf h ≠ b) ∧
    does ∅ (gput g B d v) (bget dev n) [] ∅ b (gput g (<[b := fresh n bf]> B) d v).
Proof.
  intros Hc Hr Hnone Hsz. destruct (find_free H d B ord Hc Hr Hsz) as (b & Hfind & Hlt & Hfree).
  destruct (ring_lookup _ _ b Hr) as [bf Hb]; [lia|]. exists b, bf. split_and!; [done..|].
  destruct (ring_follows _ _ Hr) as [Hn Hp]. destruct (ring_head _ _ Hr) as (h & Hh & En & Ep).
  pose proof (lookup_lt_Some _ _ _ Hb) as HlB.
  destruct (cache_unused _ _ _ Hc b bf Hlt Hb Hfree) as [_ ul _ _]. unfold bget.
  eapply does_step; [apply does_acquire; [apply known_bcache|done]|].
  eapply does_step; [by apply does_get_buf|]. rewrite En.
  eapply does_step; [eapply (does_ring_find _ _ _ _ _ _ (is_block n)); [done|by rewrite (ring_length _ _ Hr)]|].
  rewrite Hnone. eapply does_step; [by apply does_get_buf|]. rewrite Ep.
  eapply does_step; [eapply does_ring_find; [done|by rewrite length_reverse, (ring_length _ _ Hr)]|].
  rewrite Hfind. eapply does_step; [by eapply does_upd_buf|].
  eapply does_step; [apply does_release_last; set_solver|].
  eapply does_step; [by eapply does_lock_buf; [apply list_lookup_insert_eq|..]|].
  rewrite list_insert_insert_eq. apply does_ret.
Qed.

(** ** bread *)

(** A block that is in use is found. *)
Lemma bread_used `{Pat : Patience} g H d B v n h :
  cache H d B → H !! n = Some h → h_locked h = false → h_ref h + 1 < 2 ^ 31 →
  ∃ B', does ∅ (gput g B d v) (bread dev n) [] ∅ (h_buf h) (gput g B' d v) ∧
    cache (<[n := h <| h_ref := h_ref h + 1 |> <| h_locked := true |>]> H) d B'.
Proof.
  intros Hc Hn Hl Hb. destruct (cache_used _ _ _ Hc _ _ Hn) as (Hlt & bf & Hbf & U).
  pose proof (used_lock _ _ _ U) as Hul. rewrite Hl in Hul. pose proof (used_bound _ _ _ U).
  assert (uint (b_refcnt bf + 1) = h_ref h + 1) as Eref.
  { rewrite (used_ref _ _ _ U). unfold uint. rewrite Z.mod_small; lia. }
  exists (<[h_buf h := got (uint (b_refcnt bf + 1)) bf]> B). split.
  - eapply does_step; [eapply does_bget_cached; [done..| |done]; by apply is_block_spec; split; apply U|].
    eapply does_step; [apply does_get_buf, list_lookup_insert_eq; by eapply lookup_lt_Some|].
    simpl. rewrite (proj2 (Z.eqb_neq _ _) (used_valid _ _ _ U)). eapply does_step; [apply does_ret|]. apply does_ret.
  - destruct U. eapply (cache_change H d B n h); [done..|].
    split; simpl; done || lia.
Qed.

Lemma at_idx_range {A} (l : list A) n x : at_idx l n = Some x → 0 <= n ∧ l !! Z.to_nat n = Some x.
Proof. unfold at_idx. destruct (Z.ltb_spec n 0); [done|]. by intros ->. Qed.

(** Reading an invalid buffer that is locked fills it from the disk. *)
Lemma does_fill `{Pat : Patience} g B d v b bf x :
  idle v → B !! b = Some bf → at_idx d (b_blockno bf) = Some x → b_blockno bf < 2 ^ 31 → (0 < patience)%nat →
  b_valid bf = 0 →
  ∃ v', idle v' ∧ does ∅ (gput g B d v)
    (bf ← get_buf b; (if b_valid bf =? 0 then virtio_disk_rw b false ;; upd_buf b (fun b => b <| b_valid := 1 |>)
                      else mret tt) ;; mret b) [d] ∅ b
    (gput g (<[b := (moved false x bf) <| b_valid := 1 |>]> B) d v').
Proof.
  intros Hv Hb Hd Hr Hp Hval. pose proof (at_idx_range _ _ _ Hd) as [H0 _].
  destruct (does_virtio_disk_rw b false g B d v bf x) as (v' & Hv' & Hdo); [done..|].
  exists v'. split; [done|]. eapply does_step; [by apply does_get_buf|]. rewrite Hval. simpl.
  pose proof (lookup_lt_Some _ _ _ Hb) as HlB.
  eapply (does_bind _ _ _ _ [d] []); [|apply does_ret].
  eapply (does_bind _ _ _ _ [d] []); [exact Hdo|].
  pose proof (does_upd_buf ∅ g (<[b := moved false x bf]> B) d v' b (moved false x bf) (fun b => b <| b_valid := 1 |>)
    ltac:(by apply list_lookup_insert_eq)) as Hup.
  rewrite list_insert_insert_eq in Hup. exact Hup.
Qed.

(** A block that is not in use is read, unless a buffer still has it. *)
Lemma bread_new `{Pat : Patience} g H d B v n x :
  cache H d B → idle v → H !! n = None → (size H < NBUF)%nat → at_idx d n = Some x → n < 2 ^ 31 →
  (0 < patience)%nat →
  ∃ b tr B' v', idle v' ∧ does ∅ (gput g B d v) (bread dev n) tr ∅ b (gput g B' d v') ∧
    Forall (eq d) tr ∧ cache (<[n := mkheld b 1 true x]> H) d B'.
Proof.
  intros Hc Hv Hn Hsz Hd Hr Hp. destruct (cache_ring _ _ _ Hc) as [ord Hring].
  destruct (List.find (okb (is_block n) B) ord) as [b|] eqn:Hfind.
  - apply List.find_some in Hfind as [Hin Hok]. apply list_elem_of_In, (ring_in _ _ _ Hring) in Hin.
    unfold okb in Hok. destruct (B !! b) as [bf|] eqn:Hb; [|done]. simpl in Hok.
    pose proof (lookup_lt_Some _ _ _ Hb) as HlB. pose proof Hok as [Edev Eno]%is_block_spec.
    assert (∀ m k, H !! m = Some k → h_buf k ≠ b) as Hfree.
    { intros m k Hk <-. destruct (cache_used _ _ _ Hc _ _ Hk) as (_ & f & Hf & U).
      assert (f = bf) as -> by congruence. rewrite (used_no _ _ _ U) in Eno. congruence. }
    destruct (cache_unused _ _ _ Hc b bf Hin Hb Hfree) as [ur ul un ud].
    pose proof (does_bget_cached g H d B v n b bf Hc Hin Hb Hok ul) as Hget. rewrite ur in Hget.
    assert (∀ bf', b_next bf' = b_next bf → b_prev bf' = b_prev bf → used_buf n (mkheld b 1 true x) bf' →
      cache (<[n := mkheld b 1 true x]> H) d (<[b := bf']> B)) as Htake.
    { intros bf' E1 E2 U. eapply (cache_take H d B n (mkheld b 1 true x)); try done.
      intros b' f' ? ? ? ?. simpl. eapply (cache_uniq _ _ _ Hc b' b); try done. congruence. }
    destruct (Z.eqb_spec (b_valid bf) 0) as [Hv0|Hv0].
    + destruct (does_fill g (<[b := got 1 bf]> B) d v b (got 1 bf) x) as (v' & Hv' & Hdo);
        [done|by apply list_lookup_insert_eq|simpl; by rewrite Eno|simpl; by rewrite Eno|done|done|].
      exists b, [d]. eexists _, v'. split; [done|]. split; [eapply (does_bind _ _ _ _ [] [d]); [exact Hget|exact Hdo]|].
      split; [by constructor|]. rewrite list_insert_insert_eq. by apply Htake.
    + exists b, []. eexists _, v. split; [done|]. split.
      { eapply does_step; [exact Hget|]. eapply does_step; [by apply does_get_buf, list_lookup_insert_eq|].
        simpl. rewrite (proj2 (Z.eqb_neq _ _) Hv0). eapply does_step; apply does_ret. }
      split; [by constructor|]. apply Htake; [done..|]. specialize (ud Edev Hv0). rewrite Eno, Hd in ud.
      injection ud as ->. by split.
  - destruct (does_bget_fresh g H d B v ord n) as (b & bf & Hlt & Hb & Hfree & Hget); [done..|].
    pose proof (lookup_lt_Some _ _ _ Hb) as HlB.
    destruct (does_fill g (<[b := fresh n bf]> B) d v b (fresh n bf) x) as (v' & Hv' & Hdo);
      [done|by apply list_lookup_insert_eq|done..|].
    exists b, [d]. eexists _, v'. split; [done|].
    split; [eapply (does_bind _ _ _ _ [] [d]); [exact Hget|exact Hdo]|].
    split; [by constructor|]. rewrite list_insert_insert_eq.
    eapply (cache_take H d B n (mkheld b 1 true x)); try done.
    intros b' f' H1 H2 H3 H4. exfalso. by eapply (find_not_cached B ord n Hring Hfind b' f').
Qed.

(** ** Moving a buffer to the front *)

Definition set_prev (x p : nat) (B : list buf) : list buf := alter (fun bf => bf <| b_prev := p |>) x B.
Definition set_next (x p : nat) (B : list buf) : list buf := alter (fun bf => bf <| b_next := p |>) x B.

Lemma set_links x p B :
  (x < length B)%nat →
  (∀ y, prevs (set_prev x p B) y = fupd (prevs B) x p y) ∧ (∀ y, nexts (set_prev x p B) y = nexts B y) ∧
  (∀ y, nexts (set_next x p B) y = fupd (nexts B) x p y) ∧ (∀ y, prevs (set_next x p B) y = prevs B y) ∧
  unlinked <$> set_prev x p B = unlinked <$> B ∧ unlinked <$> set_next x p B = unlinked <$> B ∧
  length (set_prev x p B) = length B ∧ length (set_next x p B) = length B.
Proof.
  intros [bf Hb]%lookup_lt_is_Some. pose proof (lookup_lt_Some _ _ _ Hb) as Hlt.
  unfold set_prev, set_next. rewrite !(alter_insert _ _ _ _ Hb), !length_insert.
  rewrite !list_fmap_insert. assert (∀ bf', unlinked bf' = unlinked bf →
    <[x := unlinked bf']> (unlinked <$> B) = unlinked <$> B) as Hid.
  { intros bf' ->. apply list_insert_id. by rewrite list_lookup_fmap, Hb. }
  split_and!; try (by apply Hid); try done; intros y.
  - by rewrite prevs_insert.
  - rewrite nexts_insert by done. unfold fupd, nexts. case_decide; [|done]. subst. by rewrite Hb.
  - by rewrite nexts_insert.
  - rewrite prevs_insert by done. unfold fupd, prevs. case_decide; [|done]. subst. by rewrite Hb.
Qed.

Lemma does_set_prev L g B d v x p :
  (x < length B)%nat →
  does L (gput g B d v) (upd_buf x (fun bf => bf <| b_prev := p |>)) [] L tt (gput g (set_prev x p B) d v).
Proof.
  intros [bf Hb]%lookup_lt_is_Some. unfold set_prev. rewrite (alter_insert _ _ _ _ Hb).
  by apply (does_upd_buf _ _ _ _ _ _ _ (fun bf => bf <| b_prev := p |>)).
Qed.

Lemma does_set_next L g B d v x p :
  (x < length B)%nat →
  does L (gput g B d v) (upd_buf x (fun bf => bf <| b_next := p |>)) [] L tt (gput g (set_next x p B) d v).
Proof.
  intros [bf Hb]%lookup_lt_is_Some. unfold set_next. rewrite (alter_insert _ _ _ _ Hb).
  by apply (does_upd_buf _ _ _ _ _ _ _ (fun bf => bf <| b_next := p |>)).
Qed.

Lemma does_get_links L g B d v x :
  (x < length B)%nat →
  ∃ bf, b_next bf = nexts B x ∧ b_prev bf = prevs B x ∧
    does L (gput g B d v) (get_buf x) [] L bf (gput g B d v).
Proof.
  intros [bf Hb]%lookup_lt_is_Some. exists bf. unfold nexts, prevs. rewrite Hb.
  split; [done|]. split; [done|]. by apply does_get_buf.
Qed.

Definition set_links_front (b n : nat) (B : list buf) : list buf :=
  set_next head b (set_prev n b (set_prev b head (set_next b n B))).

Lemma does_link_first L g B d v b :
  (b < length B)%nat → (head < length B)%nat → (nexts B head < length B)%nat →
  does L (gput g B d v) (link_first b) [] L tt (gput g (set_links_front b (nexts B head) B) d v).
Proof.
  intros Hb Hh Hn. unfold link_first, set_links_front.
  destruct (does_get_links L g B d v head Hh) as (h & E & _ & Hg).
  rewrite <- E in Hn |- *. eapply does_step; [exact Hg|]. eapply does_step; [by apply does_set_next|].
  eapply does_step; [apply does_set_prev; unfold set_next; by rewrite length_alter|].
  eapply does_step; [apply does_set_prev; unfold set_prev, set_next; by rewrite !length_alter|].
  apply does_set_next. unfold set_prev, set_next. by rewrite !length_alter.
Qed.

Lemma ring_neighbours B ord b :
  ring B ord → (b <= NBUF)%nat → (nexts B b <= NBUF ∧ prevs B b <= NBUF)%nat.
Proof.
  intros Hr Hb. assert (∀ x, x ∈ ord ++ [head] → (x <= NBUF)%nat) as Hle.
  { intros x [Hx| ->%list_elem_of_singleton]%elem_of_app; [|unfold head; lia].
    apply (ring_in _ _ _ Hr) in Hx. lia. }
  pose proof (ring_path _ _ Hr) as Hp. destruct (decide (b = NBUF)) as [->|Hne].
  - change NBUF with head. pose proof (path_next _ _ _ _ _ Hp). pose proof (path_prev _ _ _ _ _ Hp).
    split; apply Hle; set_solver.
  - assert (b ∈ ord) as (l1 & l2 & ->)%list_elem_of_split by (apply (ring_in _ _ _ Hr); lia).
    apply path_app in Hp as [H1 H2]. apply path_prev in H1. apply path_next in H2.
    split; apply Hle; set_solver.
Qed.

Definition set_links_out (b : nat) (B : list buf) : list buf :=
  set_next (prevs B b) (nexts B b) (set_prev (nexts B b) (prevs B b) B).

Lemma ring_unlink B l1 b l2 :
  ring B (l1 ++ b :: l2) →
  path (nexts (set_links_out b B)) (prevs (set_links_out b B)) head (l1 ++ l2) head ∧
  unlinked <$> set_links_out b B = unlinked <$> B ∧ length (set_links_out b B) = length B.
Proof.
  intros Hr. destruct (ring_NoDup _ _ Hr) as [Hnd Hh]. pose proof (ring_len _ _ Hr) as Hlen.
  assert (b < NBUF)%nat as Hb by (apply (ring_in _ _ _ Hr); set_solver).
  destruct (ring_neighbours _ _ b Hr) as [Hn Hp]; [lia|].
  destruct (set_links (nexts B b) (prevs B b) B) as (P1 & N1 & _ & _ & U1 & _ & L1 & _); [lia|].
  destruct (set_links (prevs B b) (nexts B b) (set_prev (nexts B b) (prevs B b) B))
    as (_ & _ & N2 & P2 & _ & U2 & _ & L2); [lia|]. fold (set_links_out b B) in N2, P2, U2, L2.
  split; [|split; congruence].
  eapply path_ext; [..|apply (path_remove (nexts B) (prevs B) head l1 b l2 head); [..|apply Hr]].
  - intros z _. rewrite N2. unfold fupd. case_decide; [done|apply N1].
  - intros z _. rewrite P2. apply P1.
  - by apply NoDup_cons.
  - rewrite app_comm_cons, app_assoc. apply NoDup_app. split; [done|].
    split; [|apply NoDup_singleton]. intros x Hx ->%list_elem_of_singleton. done.
Qed.

Lemma path_link_front B b l :
  (b < length B)%nat → (head < length B)%nat → (nexts B head < length B)%nat →
  b ≠ head → b ∉ l → NoDup (l ++ [head]) → path (nexts B) (prevs B) head l head →
  let B' := set_links_front b (nexts B head) B in
  path (nexts B') (prevs B') head (b :: l) head ∧ unlinked <$> B' = unlinked <$> B ∧ length B' = length B.
Proof.
  intros Hb Hh Hn Hbh Hbl Hnd Hp. unfold set_links_front. set (n := nexts B head).
  destruct (set_links b n B Hb) as (_ & _ & N1 & P1 & _ & U1 & _ & L1).
  destruct (set_links b head (set_next b n B)) as (P2 & N2 & _ & _ & U2 & _ & L2 & _); [lia|].
  destruct (set_links n b (set_prev b head (set_next b n B))) as (P3 & N3 & _ & _ & U3 & _ & L3 & _); [lia|].
  destruct (set_links head b (set_prev n b (set_prev b head (set_next b n B))))
    as (_ & _ & N4 & P4 & _ & U4 & _ & L4); [lia|].
  simpl. split; [|split; congruence].
  eapply (path_ext _ _ _ _ head (b :: l) head); [..|apply (path_insert (nexts B) (prevs B) head b l); done].
  - intros z _. rewrite N4. unfold fupd. case_decide; [done|]. by rewrite N3, N2, N1.
  - intros z _. rewrite P4, P3. fold n. unfold fupd. case_decide; [done|]. rewrite P2.
    unfold fupd. case_decide; [done|]. apply P1.
Qed.

(** Buffer [b] moves to the front of the ring. *)
Lemma ring_to_front B l1 b l2 :
  ring B (l1 ++ b :: l2) →
  let B1 := set_links_out b B in
  ring (set_links_front b (nexts B1 head) B1) (b :: l1 ++ l2) ∧
  unlinked <$> set_links_front b (nexts B1 head) B1 = unlinked <$> B ∧
  length B1 = length B ∧ (nexts B1 head < length B)%nat.
Proof.
  intros Hr. destruct (ring_NoDup _ _ Hr) as [Hnd Hh]. pose proof (ring_len _ _ Hr) as Hlen.
  destruct (ring_unlink B l1 b l2 Hr) as (Hpath & U1 & L1). set (B1 := set_links_out b B) in *. simpl.
  rewrite <- Permutation_middle in Hnd. apply NoDup_cons in Hnd as [Hbl Hnd].
  pose proof (ring_all _ _ Hr) as Hall. rewrite <- Permutation_middle in Hall.
  assert (∀ x, x ∈ b :: l1 ++ l2 → (x < NBUF)%nat) as Hlt by (intros x; rewrite Hall, elem_of_seq; lia).
  assert (b < NBUF)%nat as Hb by (apply Hlt; set_solver).
  assert (nexts B1 head < length B)%nat as Hn.
  { apply path_next, elem_of_app in Hpath as [Hx| ->%list_elem_of_singleton]; [|unfold head; lia].
    assert (nexts B1 head < NBUF)%nat; [apply Hlt; set_solver|lia]. }
  destruct (path_link_front B1 b (l1 ++ l2)) as (Hp & U2 & L2); [lia|unfold head; lia|lia|unfold head; lia|done| |done|].
  - apply NoDup_app. split; [done|]. split; [|apply NoDup_singleton].
    intros x Hx ->%list_elem_of_singleton. apply Hh. set_solver.
  - split; [split; [congruence|done|done]|]. split; [congruence|]. done.
Qed.

Lemma does_to_front L g B d v l1 b l2 :
  ring B (l1 ++ b :: l2) →
  ∃ B', ring B' (b :: l1 ++ l2) ∧ unlinked <$> B' = unlinked <$> B ∧
    does L (gput g B d v)
      (bf ← get_buf b;
       upd_buf (b_next bf) (fun x => x <| b_prev := b_prev bf |>) ;;
       bf ← get_buf b;
       upd_buf (b_prev bf) (fun x => x <| b_next := b_next bf |>) ;;
       link_first b) [] L tt (gput g B' d v).
Proof.
  intros Hr. destruct (ring_to_front B l1 b l2 Hr) as (Hr' & U & L1 & Hn). eexists.
  split; [exact Hr'|]. split; [exact U|]. pose proof (ring_len _ _ Hr) as Hlen.
  assert (b < NBUF)%nat as Hb by (apply (ring_in _ _ _ Hr); set_solver).
  destruct (ring_neighbours _ _ b Hr) as [Hnb Hpb]; [lia|].
  destruct (does_get_links L g B d v b) as (bf & E1 & E2 & Hg); [lia|].
  eapply does_step; [exact Hg|]. rewrite E1, E2.
  eapply does_step; [apply does_set_prev; lia|].
  destruct (set_links (nexts B b) (prevs B b) B) as (P1 & N1 & _ & _ & _ & _ & Ls & _); [lia|].
  destruct (does_get_links L g (set_prev (nexts B b) (prevs B b) B) d v b) as (bf' & F1 & F2 & Hg'); [lia|].
  eapply does_step; [exact Hg'|]. rewrite F1, F2, N1, P1.
  replace (fupd (prevs B) (nexts B b) (prevs B b) b) with (prevs B b) by (unfold fupd; by case_decide).
  eapply does_step; [apply does_set_next; lia|]. fold (set_links_out b B).
  apply does_link_first; rewrite L1; [lia|unfold head; lia|exact Hn].
Qed.

(** ** bwrite, brelse, bpin, bunpin *)

Lemma does_holds_buf g H d B v n h :
  cache H d B → H !! n = Some h → h_locked h = true →
  does ∅ (gput g B d v) (holdingsleep (SlBuf (h_buf h))) [] ∅ true (gput g B d v).
Proof.
  intros Hc Hn Hl. destruct (cache_used _ _ _ Hc _ _ Hn) as (Hlt & bf & Hbf & U).
  pose proof (used_lock _ _ _ U) as Hul. rewrite Hl in Hul.
  apply does_holdingsleep; [by apply known_bufs|set_solver|]. simpl. rewrite Hbf. simpl. by rewrite Hul.
Qed.

Lemma bwrite_ok `{Pat : Patience} g H d B v n h old :
  cache H d B → idle v → H !! n = Some h → h_locked h = true → at_idx d n = Some old → n < 2 ^ 31 →
  (0 < patience)%nat →
  ∃ B' v', idle v' ∧
    does ∅ (gput g B d v) (bwrite (h_buf h)) [d] ∅ tt (gput g B' (<[Z.to_nat n := h_data h]> d) v') ∧
    cache H (<[Z.to_nat n := h_data h]> d) B'.
Proof.
  intros Hc Hv Hn Hl Hd Hr Hp. destruct (cache_used _ _ _ Hc _ _ Hn) as (Hlt & bf & Hbf & U).
  pose proof (at_idx_range _ _ _ Hd) as [H0 _]. pose proof (used_no _ _ _ U) as En.
  destruct (does_virtio_disk_rw (h_buf h) true g B d v bf old) as (v' & Hv' & Hdo);
    [done|done|by rewrite En|by rewrite En|done|].
  unfold stored in Hdo. rewrite En, (used_data _ _ _ U) in Hdo.
  eexists _, v'. split; [done|]. split.
  - eapply does_step; [by eapply does_holds_buf|]. exact Hdo.
  - eapply cache_store; [|done|done]. rewrite <- (insert_id H n h) by done.
    destruct U. by eapply (cache_change H d B n h).
Qed.

Lemma does_unlock_buf g H d B v n h :
  cache H d B → H !! n = Some h → h_locked h = true →
  ∃ B', does ∅ (gput g B d v) (releasesleep (SlBuf (h_buf h))) [] ∅ tt (gput g B' d v) ∧
    cache (<[n := h <| h_locked := false |>]> H) d B'.
Proof.
  intros Hc Hn Hl. destruct (cache_used _ _ _ Hc _ _ Hn) as (Hlt & bf & Hbf & U). eexists. split.
  - apply (does_releasesleep ∅ (gput g B d v) (SlBuf (h_buf h)) (b_lock bf)).
    + by apply known_bufs.
    + set_solver.
    + split; set_solver.
    + simpl. by rewrite Hbf.
  - rewrite (alter_insert _ _ _ _ Hbf). destruct U. by eapply (cache_change H d B n h).
Qed.

(** Adding to the reference count of a block in use. *)
Lemma does_count g H d B v n h k L :
  cache H d B → H !! n = Some h → 0 < h_ref h + k < 2 ^ 31 →
  ∃ B', does L (gput g B d v)
      (upd_buf (h_buf h) (fun b => b <| b_refcnt ::= fun r => uint (r + k) |>)) [] L tt (gput g B' d v) ∧
    cache (<[n := h <| h_ref := h_ref h + k |>]> H) d B'.
Proof.
  intros Hc Hn Hk. destruct (cache_used _ _ _ Hc _ _ Hn) as (Hlt & bf & Hbf & U). eexists. split.
  - by eapply (does_upd_buf _ _ _ _ _ _ _ (fun b => b <| b_refcnt ::= fun r => uint (r + k) |>)).
  - destruct U. eapply (cache_change H d B n h); [done..|]. split; simpl; try done.
    rewrite used_ref0. unfold uint. rewrite Z.mod_small; lia.
Qed.

Lemma bpin_ok L g H d B v n h :
  bcache_lock ∉ L → cache H d B → H !! n = Some h → h_ref h + 1 < 2 ^ 31 →
  ∃ B', does L (gput g B d v) (bpin (h_buf h)) [] L tt (gput g B' d v) ∧
    cache (<[n := h <| h_ref := h_ref h + 1 |>]> H) d B'.
Proof.
  intros HL Hc Hn Hb. destruct (cache_used _ _ _ Hc _ _ Hn) as (_ & bf & _ & U).
  pose proof (used_bound _ _ _ U).
  destruct (does_count g H d B v n h 1 ({[bcache_lock]} ∪ L)) as (B' & Hdo & Hc'); [done|done|lia|].
  exists B'. split; [|done]. eapply does_step; [apply does_acquire; [apply known_bcache|done]|].
  eapply does_step; [exact Hdo|]. by apply does_release_last.
Qed.

Lemma bunpin_ok g H d B v n h :
  cache H d B → H !! n = Some h → 1 < h_ref h →
  ∃ B', does ∅ (gput g B d v) (bunpin (h_buf h)) [] ∅ tt (gput g B' d v) ∧
    cache (<[n := h <| h_ref := h_ref h - 1 |>]> H) d B'.
Proof.
  intros Hc Hn Hb. destruct (cache_used _ _ _ Hc _ _ Hn) as (_ & bf & _ & U).
  pose proof (used_bound _ _ _ U).
  destruct (does_count g H d B v n h (-1) ({[bcache_lock]} ∪ ∅)) as (B' & Hdo & Hc'); [done|done|lia|].
  exists B'. split; [|done]. eapply does_step; [apply does_acquire; [apply known_bcache|done]|].
  eapply does_step; [exact Hdo|]. apply does_release_last. set_solver.
Qed.

Lemma does_data g H d B v n h f L :
  cache H d B → H !! n = Some h →
  ∃ B', does L (gput g B d v) (upd_buf (h_buf h) (fun b => b <| b_data ::= f |>)) [] L tt (gput g B' d v) ∧
    cache (<[n := h <| h_data := f (h_data h) |>]> H) d B'.
Proof.
  intros Hc Hn. destruct (cache_used _ _ _ Hc _ _ Hn) as (_ & bf & Hbf & U). eexists. split.
  - by eapply (does_upd_buf _ _ _ _ _ _ _ (fun b => b <| b_data ::= f |>)).
  - destruct U. eapply (cache_change H d B n h); [done..|]. split; simpl; try done. by rewrite used_data0.
Qed.

Lemma does_look g H d B v n h L :
  cache H d B → H !! n = Some h →
  ∃ bf, b_data bf = h_data h ∧ b_blockno bf = n ∧
    does L (gput g B d v) (get_buf (h_buf h)) [] L bf (gput g B d v).
Proof.
  intros Hc Hn. destruct (cache_used _ _ _ Hc _ _ Hn) as (_ & bf & Hbf & U). exists bf.
  split; [apply U|]. split; [apply U|]. by apply does_get_buf.
Qed.

(** brelse when others still refer to the buffer. *)
Lemma brelse_more g H d B v n h :
  cache H d B → H !! n = Some h → h_locked h = true → 1 < h_ref h →
  ∃ B', does ∅ (gput g B d v) (brelse (h_buf h)) [] ∅ tt (gput g B' d v) ∧
    cache (<[n := h <| h_ref := h_ref h - 1 |> <| h_locked := false |>]> H) d B'.
Proof.
  intros Hc Hn Hl Hb. destruct (cache_used _ _ _ Hc _ _ Hn) as (_ & bf & _ & U).
  pose proof (used_bound _ _ _ U). destruct (does_unlock_buf g H d B v n h) as (B1 & Hdo1 & Hc1); [done..|].
  destruct (does_count g _ d B1 v n _ (-1) ({[bcache_lock]} ∪ ∅) Hc1 (lookup_insert_eq _ _ _))
    as (B2 & Hdo2 & Hc2); [simpl; lia|]. rewrite insert_insert_eq in Hc2. simpl in Hdo2.
  exists B2. split; [|exact Hc2]. eapply does_step; [by eapply does_holds_buf|].
  eapply does_step; [exact Hdo1|]. eapply does_step; [apply does_acquire; [apply known_bcache|done]|].
  eapply does_step; [exact Hdo2|].
  destruct (cache_used _ _ _ Hc2 n _ (lookup_insert_eq _ _ _)) as (_ & bf2 & Hbf2 & U2). simpl in Hbf2.
  eapply does_step; [by apply does_get_buf|]. rewrite (used_ref _ _ _ U2). simpl.
  rewrite (proj2 (Z.eqb_neq _ _)) by lia. eapply does_step; [apply does_ret|].
  apply does_release_last. set_solver.
Qed.

(** brelse of the last reference. *)
Lemma brelse_last g H d B v n h :
  cache H d B → H !! n = Some h → h_locked h = true → h_ref h = 1 → at_idx d n = Some (h_data h) →
  ∃ B', does ∅ (gput g B d v) (brelse (h_buf h)) [] ∅ tt (gput g B' d v) ∧ cache (delete n H) d B'.
Proof.
  intros Hc Hn Hl Hb Hd. destruct (does_unlock_buf g H d B v n h) as (B1 & Hdo1 & Hc1); [done..|].
  destruct (cache_used _ _ _ Hc1 n _ (lookup_insert_eq _ _ _)) as (Hlt & bf & Hbf & U).
  simpl in Hlt, Hbf. pose proof (used_ref _ _ _ U) as Eref. simpl in Eref. rewrite Hb in Eref.
  set (bf' := bf <| b_refcnt := 0 |>).
  assert (cache (delete n H) d (<[h_buf h := bf']> B1)) as Hc2.
  { rewrite <- (delete_insert_eq H n (h <| h_locked := false |>)). destruct U.
    eapply (cache_drop _ d B1 n _ bf bf' Hc1 (lookup_insert_eq _ _ _)); done. }
  destruct (cache_ring _ _ _ Hc2) as [ord Hr].
  assert (h_buf h ∈ ord) as (l1 & l2 & ->)%list_elem_of_split by by apply (ring_in _ _ _ Hr).
  destruct (does_to_front ({[bcache_lock]} ∪ ∅) g _ d v l1 (h_buf h) l2 Hr) as (B2 & Hr2 & U2 & Hdo2).
  exists B2. split; [|by eapply cache_relink]. pose proof (lookup_lt_Some _ _ _ Hbf) as HlB.
  eapply does_step; [by eapply does_holds_buf|]. eapply does_step; [exact Hdo1|].
  eapply does_step; [apply does_acquire; [apply known_bcache|done]|].
  eapply does_step; [by eapply does_upd_buf|].
  eapply does_step; [by apply does_get_buf, list_lookup_insert_eq|]. simpl. rewrite Eref. simpl.
  eapply does_step; [|apply does_release_last; set_solver]. exact Hdo2.
Qed.

(** ** What the cache promises *)

(** The current content of block [n]. *)
Definition contents H d (n : Z) : option (list Z) :=
  match H !! n with Some h => Some (h_data h) | None => at_idx d n end.

(** Block [n] can be locked: nobody has it locked, or a buffer is left for it. *)
Definition available H (n : Z) : Prop :=
  match H !! n with
  | Some h => h_locked h = false ∧ h_ref h < 2 ^ 31 - 1
  | None => (size H < NBUF)%nat
  end.

(** C29. The buffer cache refines a map from block numbers to buffers in use over
    the disk: as long as a buffer is available, bread returns a buffer, locked and
    with one reference more, that holds the current content of the block (of the
    buffer in use, or of the disk), keeps the ring of buffers well linked and every
    other block as it was, and only reads the disk. *)
Theorem bread_refines `{Pat : Patience} g H d B v n x :
  cache H d B → idle v → contents H d n = Some x → available H n → n < 2 ^ 31 → (0 < patience)%nat →
  ∃ b tr B' v' r, idle v' ∧ does ∅ (gput g B d v) (bread dev n) tr ∅ b (gput g B' d v') ∧
    Forall (eq d) tr ∧ cache (<[n := mkheld b r true x]> H) d B' ∧
    r = from_option h_ref 0 (H !! n) + 1.
Proof.
  unfold contents, available. destruct (H !! n) as [h|] eqn:Hn; intros Hc Hv Hx Hav Hr Hp.
  - injection Hx as <-. destruct Hav as [Hl Hb].
    destruct (bread_used g H d B v n h) as (B' & Hdo & Hc'); [done|done|done|lia|].
    exists (h_buf h), [], B', v, (h_ref h + 1). split_and!; try done.
  - destruct (bread_new g H d B v n x) as (b & tr & B' & v' & Hv' & Hdo & Ht & Hc'); [done..|].
    by exists b, tr, B', v', 1.
Qed.

(** Every buffer is in use. *)
Lemma cache_full H d B b :
  cache H d B → size H = NBUF → (b < NBUF)%nat → ∃ n h, H !! n = Some h ∧ h_buf h = b.
Proof.
  intros Hc Hsz Hb. set (used := (h_buf ∘ snd) <$> map_to_list H).
  assert (NoDup used) as Hnd.
  { apply NoDup_fmap_2_strong; [|apply NoDup_map_to_list].
    intros [n1 h1] [n2 h2] H1%elem_of_map_to_list H2%elem_of_map_to_list E. simpl in E.
    assert (n1 = n2) as -> by (by eapply (cache_inj H d B)). by simplify_eq. }
  assert (used ⊆+ seq 0 NBUF) as Hsub.
  { apply NoDup_submseteq; [done|]. intros k ([n h] & -> & Hn%elem_of_map_to_list)%list_elem_of_fmap.
    destruct (cache_used _ _ _ Hc _ _ Hn) as [Hk _]. apply elem_of_seq. simpl. lia. }
  apply submseteq_length_Permutation in Hsub;
    [|unfold used; by rewrite length_seq, length_fmap, length_map_to_list, Hsz].
  assert (b ∈ used) as ([n h] & -> & Hn%elem_of_map_to_list)%list_elem_of_fmap.
  { rewrite Hsub. apply elem_of_seq. lia. }
  by exists n, h.
Qed.

(** C30. When all NBUF buffers are in use for other blocks, bread panics with "bget:
    no buffers". *)
Theorem bread_no_buffers `{Pat : Patience} g H d B v n :
  cache H d B → H !! n = None → size H = NBUF →
  fails ∅ (gput g B d v) (bread dev n) "bget: no buffers".
Proof.
  intros Hc Hn Hsz. destruct (cache_ring _ _ _ Hc) as [ord Hr].
  destruct (ring_follows _ _ Hr) as [Hnx Hpv]. destruct (ring_head _ _ Hr) as (h & Hh & En & Ep).
  assert (∀ b, (b < NBUF)%nat → ∃ m k bf, H !! m = Some k ∧ B !! b = Some bf ∧ used_buf m k bf) as Hall.
  { intros b Hb. destruct (cache_full H d B b Hc Hsz Hb) as (m & k & Hm & <-).
    destruct (cache_used _ _ _ Hc _ _ Hm) as (_ & bf & Hbf & U). by exists m, k, bf. }
  assert (∀ ok l, (∀ b, b ∈ l → (b < NBUF)%nat) → (∀ m k bf, H !! m = Some k → used_buf m k bf → ok bf = false) →
    List.find (okb ok B) l = None) as Hfind.
  { intros ok l Hl Hok. induction l as [|b l IH]; [done|]. simpl.
    destruct (Hall b) as (m & k & bf & Hm & Hbf & U); [apply Hl; set_solver|].
    unfold okb at 1. rewrite Hbf. simpl. rewrite (Hok m k bf Hm U). apply IH. set_solver. }
  unfold bread, bget. apply fails_bind.
  eapply fails_step; [apply does_acquire; [apply known_bcache|done]|].
  eapply fails_step; [by apply does_get_buf|]. rewrite En.
  eapply fails_step; [eapply (does_ring_find _ _ _ _ _ _ (is_block n)); [done|by rewrite (ring_length _ _ Hr)]|].
  rewrite Hfind; [|by intros b; apply (ring_in _ _ _ Hr)|].
  - eapply fails_step; [by apply does_get_buf|]. rewrite Ep.
    eapply fails_step; [eapply does_ring_find; [done|by rewrite length_reverse, (ring_length _ _ Hr)]|].
    rewrite Hfind; [apply fails_panic|intros b; rewrite elem_of_reverse; by apply (ring_in _ _ _ Hr)|].
    intros m k bf Hm U. apply Z.eqb_neq. destruct U. lia.
  - intros m k bf Hm U. destruct (is_block n bf) eqn:E; [|done]. apply is_block_spec in E as [_ E].
    rewrite (used_no _ _ _ U) in E. congruence.
Qed.

End cache.

(** ** The cache after binit *)

(** [binit] puts each buffer in front of the earlier ones. *)
Definition ex_buf (i : nat) : buf :=
  mkbuf 0 0 0 0 (mksleeplock 0 0) 0 (if decide (i = 29%nat) then head else S i)
    (match i with O => head | S j => j end) (replicate (Z.to_nat BSIZE) 0).

Definition ex_bufs : list buf :=
  (ex_buf <$> seq 0 NBUF) ++
  [mkbuf 0 0 0 0 (mksleeplock 0 0) 0 0 29%nat (replicate (Z.to_nat BSIZE) 0)].

Lemma ex_ring : ring ex_bufs (reverse (seq 0 NBUF)).
Proof.
  split; [done| |apply reverse_Permutation]. vm_compute. repeat split.
Qed.

Lemma ex_bufs_lookup b bf : ex_bufs !! b = Some bf → b_dev bf = 0 ∧ b_refcnt bf = 0 ∧ sl_locked (b_lock bf) = 0.
Proof.
  intros [Hb|[_ Hb]]%lookup_app_Some.
  - rewrite list_lookup_fmap in Hb. apply fmap_Some in Hb as (i & _ & ->). done.
  - destruct (b - _)%nat as [|[]]; simpl in Hb; by simplify_eq.
Qed.

Lemma ex_cache `{W : World} dev d : dev ≠ 0 → cache dev ∅ d ex_bufs.
Proof.
  intros Hdev. split.
  - exists (reverse (seq 0 NBUF)). apply ex_ring.
  - intros n h. by rewrite lookup_empty.
  - intros b bf _ (E1 & E2 & E3)%ex_bufs_lookup _. split; [done|done|congruence..].
  - intros b1 b2 f1 f2 _ _ (E1 & _)%ex_bufs_lookup _ D1. congruence.
Qed.

Definition ex_block : list Z := replicate (Z.to_nat BSIZE) 0.
Definition ex_disk : disk := replicate 64 ex_block.

Lemma ex_disk_at n : 0 <= n < 64 → at_idx ex_disk n = Some ex_block.
Proof.
  intros Hn. unfold at_idx. destruct (Z.ltb_spec n 0); [lia|]. apply lookup_replicate_2. lia.
Qed.

Lemma bread_refines_witness :
  (∃ s, @calm disk_world (@awake disk_world) ∅ (gput (sub0 ∅) ex_bufs ex_disk ex_vdisk) s) ∧
  ∃ b tr B' v', @does disk_world _ ∅ (gput (sub0 ∅) ex_bufs ex_disk ex_vdisk) (@bread 1%nat 1 40) tr ∅ b
      (gput (sub0 ∅) B' ex_disk v') ∧
    @cache disk_world 1 {[40 := mkheld b 1 true ex_block]} ex_disk B'.
Proof.
  split; [eexists; apply ex_calm|].
  destruct (@bread_refines disk_world ex_disk_world 1 1%nat (sub0 ∅) ∅ ex_disk ex_bufs ex_vdisk 40 ex_block)
    as (b & tr & B' & v' & r & Hv' & Hdo & _ & Hc & ->).
  - by apply ex_cache.
  - exact ex_idle.
  - by apply ex_disk_at.
  - exact (Nat.lt_0_succ 29).
  - lia.
  - exact (le_n 1).
  - exists b, tr, B', v'. split; [exact Hdo|exact Hc].
Defined.

(** A cache whose buffers are all in use, for the blocks 0 to 29. *)
Definition ex_full_buf (i : nat) : buf :=
  (ex_buf i) <| b_dev := 1 |> <| b_blockno := Z.of_nat i |> <| b_valid := 1 |> <| b_refcnt := 1 |>.

Definition ex_full_bufs : list buf :=
  (ex_full_buf <$> seq 0 NBUF) ++
  [mkbuf 0 0 0 0 (mksleeplock 0 0) 0 0 29%nat ex_block].

Definition ex_full : gmap Z held :=
  list_to_map ((fun i => (Z.of_nat i, mkheld i 1 false ex_block)) <$> seq 0 NBUF).

Lemma ex_full_lookup n h :
  ex_full !! n = Some h → ∃ i, n = Z.of_nat i ∧ (i < NBUF)%nat ∧ h = mkheld i 1 false ex_block.
Proof.
  intros Hn%elem_of_list_to_map_2. apply list_elem_of_fmap in Hn as (i & [= -> ->] & Hi%elem_of_seq).
  exists i. split; [done|]. split; [lia|done].
Qed.

Lemma ex_full_bufs_lookup b :
  (b < NBUF)%nat → ex_full_bufs !! b = Some (ex_full_buf b).
Proof.
  intros Hb. unfold ex_full_bufs. rewrite lookup_app_l by (by rewrite length_fmap, length_seq).
  rewrite list_lookup_fmap, lookup_seq_lt by done. done.
Qed.

Lemma ex_full_cache `{W : World} d : cache 1 ex_full d ex_full_bufs.
Proof.
  split.
  - exists (reverse (seq 0 NBUF)). split; [done| |apply reverse_Permutation]. vm_compute. repeat split.
  - intros n h (i & -> & Hi & ->)%ex_full_lookup. split; [done|]. exists (ex_full_buf i). simpl.
    rewrite ex_full_bufs_lookup by done. split; [done|]. by split.
  - intros b bf Hb Hbf Hnot. exfalso. apply (Hnot (Z.of_nat b) (mkheld b 1 false ex_block)); [|done].
    apply elem_of_list_to_map_1.
    + rewrite <- list_fmap_compose. apply NoDup_fmap_2; [|apply NoDup_seq]. intros x y. simpl. lia.
    + apply list_elem_of_fmap. exists b. split; [done|]. apply elem_of_seq. lia.
  - intros b1 b2 f1 f2 L1 L2. rewrite !ex_full_bufs_lookup by done. intros [= <-] [= <-] _ _. simpl. lia.
Qed.

Lemma bread_no_buffers_witness :
  (∃ s, @calm disk_world (@awake disk_world) ∅ (gput (sub0 ∅) ex_full_bufs ex_disk ex_vdisk) s) ∧
  @fails disk_world _ ∅ (gput (sub0 ∅) ex_full_bufs ex_disk ex_vdisk) (@bread 1%nat 1 40) "bget: no buffers".
Proof.
  split; [eexists; apply ex_calm|].
  apply (@bread_no_buffers disk_world ex_disk_world 1 1%nat (sub0 ∅) ex_full).
  - apply ex_full_cache.
  - reflexivity.
  - reflexivity.
Defined.
