(* ===== verification/LogProofs.v ===== *)
(** The log: a commit is atomic with respect to crashes, and recovery can be
    repeated.  Triples with a condition on the disk at every point where the
    machine may stop. *)

From stdpp Require Import base gmap strings numbers list.
From S2P Require Import Prelude Spinlock Kstate Mlfq Sched Boot Switch CString Globals Kalloc Sleeplock Virtio Bio Log Runs VirtioProofs BioProofs.
Local Open Scope Z_scope.

(** * Crash triples *)

Section safe.
Context `{DW : DiskWorld}.

(** From a state that satisfies [I], [m] runs to its end without holding a spin
    lock across it; the disk satisfies [C] whenever the process waits. *)
Definition safe {A} (I : sub → Prop) (m : K A) (C : disk → Prop) (J : A → sub → Prop) : Prop :=
  ∀ g, I g → ∃ tr a g', does ∅ g m tr ∅ a g' ∧ Forall C tr ∧ J a g'.

Lemma safe_bind {A B} I (m : K A) (f : A → K B) C J Q :
  safe I m C J → (∀ a, safe (J a) (f a) C Q) → safe I (m ≫= f) C Q.
Proof.
  intros Hm Hf g Hg. destruct (Hm g Hg) as (t1 & a & g1 & D1 & C1 & H1).
  destruct (Hf a g1 H1) as (t2 & b & g2 & D2 & C2 & H2). exists (t1 ++ t2), b, g2.
  split; [by eapply does_bind|]. split; [by apply Forall_app|done].
Qed.

(** A step with a result that is known, and without waiting. *)
Lemma safe_step {A B} (I J : sub → Prop) (m : K A) a (f : A → K B) C Q :
  (∀ g, I g → ∃ g', does ∅ g m [] ∅ a g' ∧ J g') → safe J (f a) C Q → safe I (m ≫= f) C Q.
Proof.
  intros Hm Hf g Hg. destruct (Hm g Hg) as (g1 & D1 & H1).
  destruct (Hf g1 H1) as (t2 & b & g2 & D2 & C2 & H2). exists t2, b, g2. by split; [eapply does_step|].
Qed.

Lemma safe_done {A} (I : sub → Prop) (m : K A) a C (J : A → sub → Prop) :
  (∀ g, I g → ∃ g', does ∅ g m [] ∅ a g' ∧ J a g') → safe I m C J.
Proof. intros Hm g Hg. destruct (Hm g Hg) as (g1 & D1 & H1). exists [], a, g1. by split_and!. Qed.

Lemma safe_ret {A} (I : sub → Prop) (a : A) C (J : A → sub → Prop) :
  (∀ g, I g → J a g) → safe I (mret a) C J.
Proof. intros H. apply (safe_done _ _ a). intros g Hg. exists g. split; [apply does_ret|auto]. Qed.

Lemma safe_conseq {A} (I I' : sub → Prop) (m : K A) (C C' : disk → Prop) (J J' : A → sub → Prop) :
  safe I' m C' J' → (∀ g, I g → I' g) → (∀ d, C' d → C d) → (∀ a g, J' a g → J a g) → safe I m C J.
Proof.
  intros Hm HI HC HJ g Hg. destruct (Hm g (HI g Hg)) as (t & a & g' & D & F & Ha).
  exists t, a, g'. split; [done|]. split; [by eapply Forall_impl|auto].
Qed.

Lemma safe_post {A} (I : sub → Prop) (m : K A) (C : disk → Prop) (J J' : A → sub → Prop) :
  safe I m C J' → (∀ a g, J' a g → J a g) → safe I m C J.
Proof. intros Hm HJ. by eapply safe_conseq. Qed.

Lemma safe_pure {A} (P : Prop) (I : sub → Prop) (m : K A) C J :
  (P → safe I m C J) → safe (fun g => P ∧ I g) m C J.
Proof. intros H g [HP HI]. by apply H. Qed.

Lemma safe_for (Inv : nat → sub → Prop) n (body : nat → K unit) C :
  (∀ i, (i < n)%nat → safe (Inv i) (body i) C (fun _ => Inv (S i))) →
  safe (Inv 0%nat) (for_acc (seq 0 n) (fun i _ => body i) tt) C (fun _ => Inv n).
Proof.
  intros Hb. assert (∀ k m, (k + m = n)%nat →
    safe (Inv k) (for_acc (seq k m) (fun i _ => body i) tt) C (fun _ => Inv n)) as Hgen.
  { intros k m. revert k. induction m as [|m IH]; intros k E; simpl.
    - apply safe_ret. by replace n with k by lia.
    - eapply safe_bind; [apply Hb; lia|]. intros []. apply IH. lia. }
  by apply Hgen.
Qed.

End safe.

(** * The cache in the triples *)

Section blocks.
Context `{DW : DiskWorld} `{Pat : Patience} (dev : Z).
Hypothesis patient : (0 < patience)%nat.

(** The data is [g] but for the buffers, which implement [H] over the disk [d]. *)
Definition Cache (g : sub) (H : gmap Z held) (d : disk) (g' : sub) : Prop :=
  ∃ B v, g' = gput g B d v ∧ cache dev H d B ∧ idle v.

Lemma safe_bread_new g H d n x (C : disk → Prop) :
  H !! n = None → (size H < NBUF)%nat → at_idx d n = Some x → n < 2 ^ 31 → C d →
  safe (Cache g H d) (bread dev n) C (fun b => Cache g (<[n := mkheld b 1 true x]> H) d).
Proof.
  intros Hn Hsz Hd Hr HC ? (B & v & -> & Hc & Hv).
  destruct (bread_new dev g H d B v n x) as (b & tr & B' & v' & Hv' & Hdo & Ht & Hc'); [done..|].
  exists tr, b. eexists. split; [done|]. split; [|by exists B', v'].
  eapply Forall_impl; [exact Ht|]. by intros ? <-.
Qed.

Lemma step_bread_used g H d n h :
  H !! n = Some h → h_locked h = false → h_ref h + 1 < 2 ^ 31 →
  ∀ g1, Cache g H d g1 → ∃ g2, does ∅ g1 (bread dev n) [] ∅ (h_buf h) g2 ∧
    Cache g (<[n := h <| h_ref := h_ref h + 1 |> <| h_locked := true |>]> H) d g2.
Proof.
  intros Hn Hl Hr ? (B & v & -> & Hc & Hv).
  destruct (bread_used dev g H d B v n h) as (B' & Hdo & Hc'); [done..|].
  eexists. split; [done|]. by exists B', v.
Qed.

Lemma safe_bwrite g H d n h b old (C : disk → Prop) :
  H !! n = Some h → h_buf h = b → h_locked h = true → at_idx d n = Some old → n < 2 ^ 31 → C d →
  safe (Cache g H d) (bwrite b) C (fun _ => Cache g H (<[Z.to_nat n := h_data h]> d)).
Proof.
  intros Hn <- Hl Hd Hr HC ? (B & v & -> & Hc & Hv).
  destruct (bwrite_ok dev g H d B v n h old) as (B' & v' & Hv' & Hdo & Hc'); [done..|].
  exists [d], tt. eexists. split; [done|]. split; [by constructor|]. by exists B', v'.
Qed.

Lemma step_brelse_last g H d n h b :
  H !! n = Some h → h_buf h = b → h_locked h = true → h_ref h = 1 → at_idx d n = Some (h_data h) →
  ∀ g1, Cache g H d g1 → ∃ g2, does ∅ g1 (brelse b) [] ∅ tt g2 ∧ Cache g (delete n H) d g2.
Proof.
  intros Hn <- Hl Hr Hd ? (B & v & -> & Hc & Hv).
  destruct (brelse_last dev g H d B v n h) as (B' & Hdo & Hc'); [done..|].
  eexists. split; [done|]. by exists B', v.
Qed.

Lemma step_brelse_more g H d n h b :
  H !! n = Some h → h_buf h = b → h_locked h = true → 1 < h_ref h →
  ∀ g1, Cache g H d g1 → ∃ g2, does ∅ g1 (brelse b) [] ∅ tt g2 ∧
    Cache g (<[n := h <| h_ref := h_ref h - 1 |> <| h_locked := false |>]> H) d g2.
Proof.
  intros Hn <- Hl Hr ? (B & v & -> & Hc & Hv).
  destruct (brelse_more dev g H d B v n h) as (B' & Hdo & Hc'); [done..|].
  eexists. split; [done|]. by exists B', v.
Qed.

Lemma step_bunpin g H d n h b :
  H !! n = Some h → h_buf h = b → 1 < h_ref h →
  ∀ g1, Cache g H d g1 → ∃ g2, does ∅ g1 (bunpin b) [] ∅ tt g2 ∧
    Cache g (<[n := h <| h_ref := h_ref h - 1 |>]> H) d g2.
Proof.
  intros Hn <- Hr ? (B & v & -> & Hc & Hv).
  destruct (bunpin_ok dev g H d B v n h) as (B' & Hdo & Hc'); [done..|].
  eexists. split; [done|]. by exists B', v.
Qed.

Lemma step_data g H d n h b f :
  H !! n = Some h → h_buf h = b →
  ∀ g1, Cache g H d g1 → ∃ g2, does ∅ g1 (upd_buf b (fun b => b <| b_data ::= f |>)) [] ∅ tt g2 ∧
    Cache g (<[n := h <| h_data := f (h_data h) |>]> H) d g2.
Proof.
  intros Hn <- ? (B & v & -> & Hc & Hv).
  destruct (does_data dev g H d B v n h f ∅) as (B' & Hdo & Hc'); [done..|].
  eexists. split; [done|]. by exists B', v.
Qed.

Lemma safe_look g H d n h b C :
  H !! n = Some h → h_buf h = b →
  safe (Cache g H d) (get_buf b) C (fun bf g' => b_data bf = h_data h ∧ Cache g H d g').
Proof.
  intros Hn <- ? (B & v & -> & Hc & Hv).
  destruct (does_look dev g H d B v n h ∅) as (bf & Hbf & _ & Hdo); [done..|].
  exists [], bf. eexists. split; [done|]. split; [done|]. split; [done|]. by exists B, v.
Qed.

Lemma step_get_log {A} g H d (f : log → A) :
  ∀ g1, Cache g H d g1 → ∃ g2, does ∅ g1 (get_log f) [] ∅ (f (g_log g)) g2 ∧ Cache g H d g2.
Proof.
  intros g1 (B & v & -> & Hc & Hv). eexists. split; [|by exists B, v].
  apply (does_gets ∅ (gput g B d v) (fun g => f (g_log g))).
Qed.

Lemma step_lh_get g H d i b :
  lh_block (log_lh (g_log g)) !! i = Some b →
  ∀ g1, Cache g H d g1 → ∃ g2, does ∅ g1 (lh_get i) [] ∅ b g2 ∧ Cache g H d g2.
Proof.
  intros Hi g1 (B & v & -> & Hc & Hv). eexists. split; [|by exists B, v].
  by apply (does_deref ∅ (gput g B d v) (fun g => lh_block (log_lh (g_log g)) !! i)).
Qed.

Lemma step_upd_log g H d f :
  ∀ g1, Cache g H d g1 → ∃ g2, does ∅ g1 (upd_log f) [] ∅ tt g2 ∧ Cache (g <| g_log ::= f |>) H d g2.
Proof.
  intros g1 (B & v & -> & Hc & Hv). eexists.
  split; [apply (does_modify ∅ (gput g B d v) (fun g => g <| g_log ::= f |>))|]. by exists B, v.
Qed.

End blocks.

(** * Words of a block *)

Lemma length_set_word i v data : (4 * i + 4 <= length data)%nat → length (set_word i v data) = length data.
Proof.
  intros Hl. unfold set_word. rewrite !length_app, length_take, length_drop, length_le_bytes. lia.
Qed.

Lemma take_drop_set_word i v data j n :
  (4 * i + 4 <= length data)%nat → (j + n <= 4 * i ∨ 4 * i + 4 <= j)%nat →
  take n (drop j (set_word i v data)) = take n (drop j data).
Proof.
  intros Hl Hj. apply list_eq. intros k. destruct (decide (k < n)%nat) as [Hk|Hk];
    [|by rewrite !lookup_take_ge by lia]. rewrite !lookup_take_lt, !lookup_drop by lia. unfold set_word.
  destruct Hj as [Hj|Hj].
  - rewrite lookup_app_l by (rewrite length_take; lia). by rewrite lookup_take_lt by lia.
  - rewrite lookup_app_r by (rewrite length_take; lia).
    rewrite lookup_app_r by (rewrite length_take, length_le_bytes; lia).
    rewrite lookup_drop, length_take, length_le_bytes. f_equal. lia.
Qed.

Lemma word_set_ne i j v data :
  (4 * i + 4 <= length data)%nat → i ≠ j → word (set_word i v data) j = word data j.
Proof. intros Hl Hij. unfold word. rewrite take_drop_set_word; [done|done|lia]. Qed.

Lemma word_set_eq i v data :
  (4 * i + 4 <= length data)%nat → 0 <= v < 2 ^ 32 → word (set_word i v data) i = v.
Proof.
  intros Hl Hv. unfold word, set_word. rewrite drop_app_ge by (rewrite length_take; lia).
  rewrite length_take, Nat.min_l, Nat.sub_diag, drop_0 by lia.
  rewrite take_app_le by (rewrite length_le_bytes; lia).
  rewrite take_ge by (rewrite length_le_bytes; lia). apply le_value_bytes. exact Hv.
Qed.

Lemma word_zeros n k : word (replicate n 0) k = 0.
Proof.
  unfold word. rewrite drop_replicate, take_replicate. generalize (4 `min` (n - 4 * k))%nat.
  intros m. induction m as [|m IH]; [done|]. change (0 + 256 * le_value (replicate m 0) = 0). lia.
Qed.

(** Consecutive words from [k] on. *)
Fixpoint put_words (k : nat) (ws : list Z) (data : list Z) : list Z :=
  match ws with
  | [] => data
  | w :: ws' => put_words (S k) ws' (set_word k (uint w) data)
  end.

Lemma length_put_words k ws data :
  (4 * (k + length ws) <= length data)%nat → length (put_words k ws data) = length data.
Proof.
  revert k data. induction ws as [|w ws IH]; intros k data Hl; simpl in *; [done|].
  rewrite IH; rewrite length_set_word by lia; lia.
Qed.

Lemma put_words_below k ws data j :
  (4 * (k + length ws) <= length data)%nat → (j < k)%nat → word (put_words k ws data) j = word data j.
Proof.
  revert k data. induction ws as [|w ws IH]; intros k data Hl Hj; simpl in *; [done|].
  rewrite IH, word_set_ne; [done|lia..| |lia]. rewrite length_set_word; lia.
Qed.

Lemma put_words_at k ws data i w :
  (4 * (k + length ws) <= length data)%nat → ws !! i = Some w → 0 <= w < 2 ^ 32 →
  word (put_words k ws data) (k + i) = w.
Proof.
  revert k data i. induction ws as [|w' ws IH]; intros k data i Hl Hi Hw; [done|]. simpl in *.
  destruct i as [|i].
  - injection Hi as ->. rewrite Nat.add_0_r, put_words_below by (rewrite ?length_set_word; lia).
    unfold uint. rewrite Z.mod_small by lia. rewrite word_set_eq; [done|lia|lia].
  - replace (k + S i)%nat with (S k + i)%nat by lia. apply IH; [rewrite length_set_word; lia|done..].
Qed.

Lemma put_words_snoc k ws w data :
  put_words k (ws ++ [w]) data = set_word (k + length ws) (uint w) (put_words k ws data).
Proof.
  revert k data. induction ws as [|w' ws IH]; intros k data; simpl; [by rewrite Nat.add_0_r|].
  rewrite IH. f_equal. lia.
Qed.

(** * The header block *)

(** The block numbers that a header block lists. *)
Definition decode_head (blk : list Z) : list Z :=
  (fun i => int (word blk (S i))) <$> seq 0 (Z.to_nat (int (word blk 0))).

Definition encode_head (bs : list Z) (blk : list Z) : list Z :=
  put_words 1 bs (set_word 0 (uint (Z.of_nat (length bs))) blk).

Lemma int_id z : - 2 ^ 31 <= z < 2 ^ 31 → int z = z.
Proof. intros Hz. unfold int. rewrite Z.mod_small; lia. Qed.

Lemma uint_id z : 0 <= z < 2 ^ 32 → uint z = z.
Proof. intros Hz. unfold uint. by rewrite Z.mod_small. Qed.

Lemma decode_encode bs blk :
  (4 * (1 + length bs) <= length blk)%nat → Z.of_nat (length bs) < 2 ^ 31 →
  Forall (fun b => 0 <= b < 2 ^ 31) bs → decode_head (encode_head bs blk) = bs.
Proof.
  intros Hl Hn Hb. unfold decode_head, encode_head.
  assert (length (set_word 0 (uint (Z.of_nat (length bs))) blk) = length blk) as El
    by (apply length_set_word; lia).
  rewrite put_words_below by lia. rewrite word_set_eq by (rewrite ?uint_id; lia).
  replace (Z.to_nat (int (uint (Z.of_nat (length bs))))) with (length bs) by (rewrite uint_id, int_id; lia).
  apply list_eq. intros i. rewrite list_lookup_fmap.
  destruct (decide (i < length bs)%nat) as [Hi|Hi].
  - rewrite lookup_seq_lt by done. simpl. destruct (lookup_lt_is_Some_2 bs i Hi) as [b E].
    rewrite E. pose proof (Forall_lookup_1 _ _ _ _ Hb E) as Hb'. simpl in Hb'.
    change (S i) with (1 + i)%nat. rewrite (put_words_at 1 bs _ i b) by (rewrite ?El; first [done|lia]). by rewrite int_id by lia.
  - rewrite lookup_seq_ge by lia. symmetry. apply lookup_ge_None_2. lia.
Qed.

(** * Disks *)

(** The disk after the writes [ws], in order. *)
Definition applied (ws : list (Z * list Z)) (d : disk) : disk :=
  foldl (fun d w => <[Z.to_nat w.1 := w.2]> d) d ws.

Lemma applied_snoc ws w d : applied (ws ++ [w]) d = <[Z.to_nat w.1 := w.2]> (applied ws d).
Proof. unfold applied. by rewrite foldl_app. Qed.

Lemma length_applied ws d : length (applied ws d) = length d.
Proof.
  induction ws as [|w ws IH] using rev_ind; [done|]. by rewrite applied_snoc, length_insert.
Qed.

Lemma applied_other ws d n : 0 <= n → (∀ w, w ∈ ws → 0 <= w.1 ∧ w.1 ≠ n) → at_idx (applied ws d) n = at_idx d n.
Proof.
  intros Hn. induction ws as [|w ws IH] using rev_ind; intros Hw; [done|]. rewrite applied_snoc.
  rewrite <- IH by (intros; apply Hw; set_solver). unfold at_idx. destruct (Z.ltb_spec n 0); [lia|].
  destruct (Hw w) as [? ?]; [set_solver|]. rewrite list_lookup_insert_ne; [done|]. lia.
Qed.

Lemma at_idx_upd {A} (l : list A) n x : 0 <= n < Z.of_nat (length l) → at_idx (<[Z.to_nat n := x]> l) n = Some x.
Proof.
  intros Hn. unfold at_idx. destruct (Z.ltb_spec n 0); [lia|]. apply list_lookup_insert_eq. lia.
Qed.

Lemma at_idx_upd_ne {A} (l : list A) n m x : 0 <= n → n ≠ m → at_idx (<[Z.to_nat n := x]> l) m = at_idx l m.
Proof.
  intros Hn Hm. unfold at_idx. destruct (Z.ltb_spec m 0); [done|]. apply list_lookup_insert_ne. lia.
Qed.

Lemma applied_at ws d i n x :
  NoDup ws.*1 → (∀ w, w ∈ ws → 0 <= w.1 < Z.of_nat (length d)) → ws !! i = Some (n, x) →
  at_idx (applied ws d) n = Some x.
Proof.
  revert i. induction ws as [|w ws IH] using rev_ind; intros i Hnd Hr Hi; [done|].
  rewrite applied_snoc. rewrite fmap_app in Hnd. apply NoDup_app in Hnd as (Hnd & Hdis & _).
  apply lookup_app_Some in Hi as [Hi|[Hlen Hi]].
  - rewrite at_idx_upd_ne.
    + apply (IH i); [done| |done]. intros w' Hw'. apply Hr. set_solver.
    + apply Hr. set_solver.
    + intros E. apply (Hdis n); [|rewrite <- E; set_solver]. apply list_elem_of_fmap. exists (n, x).
      split; [done|]. by eapply list_elem_of_lookup_2.
  - destruct (i - length ws)%nat; [|done]. injection Hi as ->. simpl.
    apply at_idx_upd. rewrite length_applied. apply (Hr (n, x)). set_solver.
Qed.

(** Installing the blocks [bs] from the log, from its block [i] on. *)
Fixpoint installed (start : Z) (i : nat) (bs : list Z) (d : disk) : disk :=
  match bs with
  | [] => d
  | b :: bs' =>
      installed start (S i) bs' (<[Z.to_nat b := default [] (at_idx d (start + Z.of_nat i + 1))]> d)
  end.

(** The disk after recovery: the blocks of the header are installed, and the
    header is cleared. *)
Definition recovered (start : Z) (d : disk) : disk :=
  let hd := default [] (at_idx d start) in
  <[Z.to_nat start := set_word 0 0 hd]> (installed start 0 (decode_head hd) d).

(** The part of the disk that is the log: mkfs/mkfs.c gives it [LOGSIZE] blocks,
    the first of which is the header. *)
Definition log_area (start n : Z) : Prop := start <= n < start + LOGSIZE.

(** Equal but for the log. *)
Definition same_files (start : Z) (d d' : disk) : Prop :=
  length d = length d' ∧ ∀ n, 0 <= n → ¬ log_area start n → at_idx d n = at_idx d' n.

Lemma same_files_refl start d : same_files start d d.
Proof. done. Qed.

Lemma same_files_trans start d1 d2 d3 :
  same_files start d1 d2 → same_files start d2 d3 → same_files start d1 d3.
Proof.
  intros [L1 H1] [L2 H2]. split; [congruence|]. intros n Hn Ha. by rewrite H1, H2.
Qed.

Lemma same_files_sym start d1 d2 : same_files start d1 d2 → same_files start d2 d1.
Proof. intros [L H]. split; [done|]. intros n Hn Ha. by rewrite H. Qed.

#[global] Instance same_files_equiv start : Equivalence (same_files start).
Proof.
  split; [intros d; apply same_files_refl|intros d d'; apply same_files_sym|].
  intros d1 d2 d3. apply same_files_trans.
Qed.

(** A write to the log. *)
Lemma same_files_log start d n x : 0 <= n → log_area start n → same_files start (<[Z.to_nat n := x]> d) d.
Proof.
  intros H0 Hn. split; [apply length_insert|]. intros m Hm Ha. apply at_idx_upd_ne; [done|].
  intros ->. done.
Qed.

(** Equal disks stay equal under a write. *)
#[global] Instance same_files_upd start n x :
  Proper (same_files start ==> same_files start) (fun d : disk => <[n := x]> d).
Proof.
  intros d d' [L H]. split; [by rewrite !length_insert|]. intros m Hm Ha. specialize (H m Hm Ha).
  unfold at_idx in *. destruct (Z.ltb_spec m 0); [lia|].
  destruct (decide (n = Z.to_nat m)) as [->|Hne]; [|by rewrite !list_lookup_insert_ne].
  destruct (decide (Z.to_nat m < length d)%nat).
  - rewrite !list_lookup_insert_eq; [done|lia..].
  - rewrite !list_insert_ge by lia. done.
Qed.

Lemma same_files_applied start ws d d' : same_files start d d' → same_files start (applied ws d) (applied ws d').
Proof.
  intros H. induction ws as [|w ws IH] using rev_ind; [done|]. rewrite !applied_snoc.
  by apply (same_files_upd start (Z.to_nat w.1) w.2).
Qed.

Lemma same_files_applied_log start ws d :
  (∀ w, w ∈ ws → 0 <= w.1 ∧ log_area start w.1) → same_files start (applied ws d) d.
Proof.
  intros Hw. induction ws as [|w ws IH] using rev_ind; [done|]. rewrite applied_snoc.
  destruct (Hw w) as [? ?]; [set_solver|].
  etrans; [by apply same_files_log|]. apply IH. intros w' ?. apply Hw. set_solver.
Qed.

(** The last write to a block counts. *)
Lemma applied_in ws (d d' : disk) n :
  length d = length d' → (∀ w, w ∈ ws → 0 <= w.1 < Z.of_nat (length d)) → n ∈ ws.*1 →
  at_idx (applied ws d) n = at_idx (applied ws d') n.
Proof.
  intros Hl. induction ws as [|w ws IH] using rev_ind; intros Hr; [by intros ?%elem_of_nil|].
  rewrite !applied_snoc, fmap_app, elem_of_app. intros Hn.
  pose proof (Hr w ltac:(set_solver)) as Hw.
  destruct (decide (n = w.1)) as [->|Hne]; [by rewrite !at_idx_upd by (rewrite length_applied; lia)|].
  rewrite !at_idx_upd_ne by lia. apply IH; [set_solver|]. destruct Hn as [Hn|Hn]; [done|set_solver].
Qed.

Lemma applied_absorb ws vs (d : disk) n :
  (∀ w, w ∈ ws → 0 <= w.1 < Z.of_nat (length d)) → vs ⊆ ws → 0 <= n →
  at_idx (applied ws (applied vs d)) n = at_idx (applied ws d) n.
Proof.
  intros Hr Hsub Hn. destruct (decide (n ∈ ws.*1)) as [Hin|Hout].
  - apply applied_in; [apply length_applied| |done]. by rewrite length_applied.
  - assert (∀ w, w ∈ ws → 0 <= w.1 ∧ w.1 ≠ n) as Hws.
    { intros w Hw. split; [by apply Hr|]. intros <-. apply Hout, list_elem_of_fmap. by exists w. }
    rewrite !applied_other; try done. intros w Hw. apply Hws. by apply Hsub.
Qed.

(** * Copying blocks *)

Lemma installed_applied start i bs datas d :
  length bs = length datas → Z.of_nat i + Z.of_nat (length bs) < LOGSIZE →
  Forall (fun b => 0 <= b ∧ ¬ log_area start b) bs →
  (∀ j x, datas !! j = Some x → at_idx d (start + Z.of_nat (i + j) + 1) = Some x) →
  installed start i bs d = applied (zip bs datas) d.
Proof.
  revert i datas d. induction bs as [|b bs IH]; intros i [|x datas] d Hl Hi Hb Hd; simplify_eq/=; [done|].
  apply Forall_cons in Hb as [[Hb0 Hb] Hbs]. pose proof (Hd 0%nat x eq_refl) as E.
  rewrite Nat.add_0_r in E. rewrite E. simpl. apply IH; [lia|lia|done|].
  intros j y Hj. specialize (Hd (S j) y Hj). pose proof (lookup_lt_Some _ _ _ Hj).
  replace (S i + j)%nat with (i + S j)%nat by lia. rewrite at_idx_upd_ne; [done|done|].
  intros ->. apply Hb. unfold log_area. lia.
Qed.

(** The header lists nothing. *)
Lemma recovered_clean start d hd :
  0 <= start → at_idx d start = Some hd → int (word hd 0) = 0 → same_files start (recovered start d) d.
Proof.
  intros Hs Hd Hn. unfold recovered, decode_head. rewrite Hd. simpl. rewrite Hn. simpl.
  apply same_files_log; [done|]. unfold log_area, LOGSIZE, MAXOPBLOCKS. lia.
Qed.

(** The header lists [bs], and the log has their contents. *)
Lemma recovered_full start d hd bs datas :
  0 <= start → at_idx d start = Some hd → decode_head hd = bs → length bs = length datas →
  Z.of_nat (length bs) < LOGSIZE → Forall (fun b => 0 <= b ∧ ¬ log_area start b) bs →
  (∀ j x, datas !! j = Some x → at_idx d (start + Z.of_nat j + 1) = Some x) →
  same_files start (recovered start d) (applied (zip bs datas) d).
Proof.
  intros Hs Hd Hdec Hl Hn Hb Hlog. unfold recovered. rewrite Hd. simpl. rewrite Hdec.
  rewrite (installed_applied start 0 bs datas d) by done.
  apply same_files_log; [done|]. unfold log_area, LOGSIZE, MAXOPBLOCKS. lia.
Qed.

(** * The code of the log *)

(** The log of the kernel is on [dev] from [start] on, and lists [bs]. *)
Record log_is (dev start : Z) (bs : list Z) (l : log) : Prop := {
  li_dev : log_dev l = dev;
  li_start : log_start l = start;
  li_n : lh_n (log_lh l) = Z.of_nat (length bs);
  li_blocks : ∀ i b, bs !! i = Some b → lh_block (log_lh l) !! i = Some b
}.

(** The log lies within the disk [d]. *)
Record log_fits (dev start : Z) (d : disk) : Prop := {
  lf_dev : 0 <= dev < 2 ^ 31;
  lf_start : 0 <= start;
  lf_end : start + LOGSIZE <= Z.of_nat (length d);
  lf_disk : Z.of_nat (length d) < 2 ^ 31
}.

Lemma log_fits_length dev start d d' : length d' = length d → log_fits dev start d → log_fits dev start d'.
Proof. intros E [? ? ? ?]. split; rewrite ?E; done. Qed.

(** The writes of [write_log]. *)
Definition log_writes (start : Z) (datas : list (list Z)) : list (Z * list Z) :=
  imap (fun j x => (start + Z.of_nat j + 1, x)) datas.

Lemma log_writes_lookup start datas i :
  log_writes start datas !! i = (fun x => (start + Z.of_nat i + 1, x)) <$> datas !! i.
Proof. unfold log_writes. by rewrite list_lookup_imap. Qed.

Lemma log_writes_in start datas w :
  w ∈ log_writes start datas → start < w.1 ∧ w.1 <= start + Z.of_nat (length datas).
Proof.
  intros [i Hi]%list_elem_of_lookup. rewrite log_writes_lookup in Hi.
  apply fmap_Some in Hi as (x & Hx & ->). apply lookup_lt_Some in Hx. simpl. lia.
Qed.

Lemma NoDup_log_writes start datas : NoDup (log_writes start datas).*1.
Proof.
  apply NoDup_alt. intros i j n. rewrite !list_lookup_fmap, !log_writes_lookup.
  destruct (datas !! i), (datas !! j); simpl; intros [= <-] [= E]. lia.
Qed.

Lemma take_S_applied ws i w d :
  ws !! i = Some w → applied (take (S i) ws) d = <[Z.to_nat w.1 := w.2]> (applied (take i ws) d).
Proof. intros Hi. rewrite (take_S_r _ _ _ Hi). apply applied_snoc. Qed.

(** * Crashes during a commit *)

Section crash.
Context (dev start : Z).

(** The blocks of a transaction: they are in use, once each, with the contents
    [datas]; the log is not in use. *)
Record pinned (bs : list Z) (datas : list (list Z)) (H : gmap Z held) (d : disk) : Prop := {
  pin_length : length bs = length datas;
  pin_nodup : NoDup bs;
  pin_range : ∀ b, b ∈ bs → 0 <= b < Z.of_nat (length d) ∧ ¬ log_area start b;
  pin_held : ∀ i b x, bs !! i = Some b → datas !! i = Some x → ∃ k, H !! b = Some (mkheld k 1 false x);
  pin_free : ∀ n, log_area start n → H !! n = None;
  pin_room : (size H < NBUF)%nat;
  pin_small : Z.of_nat (length bs) < LOGSIZE
}.

(** After a crash on disk [dk], recovery gives the files of [d], or the files of
    [d] with the blocks of the transaction written. *)
Definition all_or_nothing (ws : list (Z * list Z)) (d dk : disk) : Prop :=
  same_files start (recovered start dk) d ∨ same_files start (recovered start dk) (applied ws d).

Context (d : disk) (bs : list Z) (datas : list (list Z)) (H : gmap Z held) (hd : list Z).
Hypothesis Hfit : log_fits dev start d.
Hypothesis Hpin : pinned bs datas H d.
Hypothesis Hhd : at_idx d start = Some hd.
Hypothesis Hclean : int (word hd 0) = 0.
Hypothesis Hblk : (4 * (1 + Z.to_nat LOGSIZE) <= length hd)%nat.

Lemma log_writes_area w : w ∈ log_writes start datas → 0 <= w.1 ∧ log_area start w.1 ∧ w.1 ≠ start.
Proof.
  clear Hblk Hclean Hhd hd. intros Hw%log_writes_in. destruct Hfit, Hpin. unfold log_area. lia.
Qed.

Lemma crash_before i : all_or_nothing (zip bs datas) d (applied (take i (log_writes start datas)) d).
Proof.
  assert (∀ w, w ∈ take i (log_writes start datas) → 0 <= w.1 ∧ log_area start w.1 ∧ w.1 ≠ start) as Hw
    by (intros w Hw%subseteq_take; by apply log_writes_area).
  left. etrans.
  - apply (recovered_clean start _ hd); [apply Hfit| |done].
    rewrite applied_other; [done|apply Hfit|]. intros w ?%Hw. tauto.
  - apply same_files_applied_log. intros w ?%Hw. tauto.
Qed.

(** The disk with the log and its header. *)
Definition logged : disk := <[Z.to_nat start := encode_head bs hd]> (applied (log_writes start datas) d).

Lemma logged_head : at_idx logged start = Some (encode_head bs hd).
Proof.
  clear Hblk Hclean Hhd Hpin. apply at_idx_upd. rewrite length_applied. destruct Hfit.
  unfold LOGSIZE, MAXOPBLOCKS in *. lia.
Qed.

Lemma logged_block j x : datas !! j = Some x → at_idx logged (start + Z.of_nat j + 1) = Some x.
Proof.
  clear Hblk Hclean Hhd. intros Hj. destruct Hfit, Hpin. pose proof (lookup_lt_Some _ _ _ Hj). unfold logged.
  rewrite at_idx_upd_ne by lia. apply (applied_at _ _ j); [apply NoDup_log_writes| |].
  - intros w Hw%log_writes_in. lia.
  - by rewrite log_writes_lookup, Hj.
Qed.

Lemma length_logged : length logged = length d.
Proof. unfold logged. by rewrite length_insert, length_applied. Qed.

Lemma logged_files : same_files start logged d.
Proof.
  clear Hblk Hclean Hhd. unfold logged. etrans; [apply same_files_log; [apply Hfit|]|].
  - unfold log_area, LOGSIZE, MAXOPBLOCKS. lia.
  - apply same_files_applied_log. intros w Hw%log_writes_area. tauto.
Qed.

Lemma zip_writes w : w ∈ zip bs datas → 0 <= w.1 < Z.of_nat (length d) ∧ ¬ log_area start w.1.
Proof. destruct w as [b x]. intros Hw%elem_of_zip_l. by apply (pin_range _ _ _ _ Hpin). Qed.

Lemma crash_after i : all_or_nothing (zip bs datas) d (applied (take i (zip bs datas)) logged).
Proof.
  assert (∀ n, 0 <= n → log_area start n →
    at_idx (applied (take i (zip bs datas)) logged) n = at_idx logged n) as Hlog.
  { intros n Hn Ha. apply applied_other; [done|]. intros w Hw%subseteq_take%zip_writes. split; [lia|].
    intros E. apply (proj2 Hw). by rewrite E. }
  pose proof Hfit as [F1 F2 F3 F4]. pose proof Hpin as [P1 P2 P3 P4 P5 P6 P7].
  right. etrans; [apply (recovered_full start _ (encode_head bs hd) bs datas)|].
  - done.
  - rewrite Hlog; [apply logged_head|lia|]. unfold log_area, LOGSIZE, MAXOPBLOCKS. lia.
  - apply decode_encode; [lia|unfold LOGSIZE, MAXOPBLOCKS in *; lia|]. apply Forall_forall. intros b Hb.
    destruct (P3 b Hb). lia.
  - done.
  - done.
  - apply Forall_forall. intros b Hb. destruct (P3 b Hb). split; [lia|done].
  - intros j x Hj. pose proof (lookup_lt_Some _ _ _ Hj). rewrite Hlog; [by apply logged_block|lia|].
    unfold log_area. lia.
  - etrans; [|apply same_files_applied, logged_files]. split; [by rewrite !length_applied|].
    intros n Hn _. apply applied_absorb; [|apply subseteq_take|done].
    intros w Hw%zip_writes. rewrite length_logged. tauto.
Qed.

End crash.

(** The blocks in use without those of a transaction. *)
Definition unpinned (bs : list Z) (H : gmap Z held) : gmap Z held := foldl (fun H b => delete b H) H bs.

Lemma unpinned_lookup bs H n : unpinned bs H !! n = if decide (n ∈ bs) then None else H !! n.
Proof.
  induction bs as [|b bs IH] using rev_ind; [done|]. unfold unpinned in *. rewrite foldl_app. simpl.
  destruct (decide (n = b)) as [->|Hne]; [rewrite lookup_delete_eq; by rewrite decide_True by set_solver|].
  rewrite lookup_delete_ne, IH by done. destruct (decide (n ∈ bs)); [by rewrite decide_True by set_solver|].
  by rewrite decide_False by set_solver.
Qed.

Lemma unpinned_size bs H : (size (unpinned bs H) <= size H)%nat.
Proof.
  apply map_subseteq_size, map_subseteq_spec. intros n h. rewrite unpinned_lookup. by case_decide.
Qed.

Lemma unpinned_S bs H i b : bs !! i = Some b → unpinned (take (S i) bs) H = delete b (unpinned (take i bs) H).
Proof. intros Hb. rewrite (take_S_r _ _ _ Hb). unfold unpinned. by rewrite foldl_app. Qed.

Lemma not_in_take (bs : list Z) i b : NoDup bs → bs !! i = Some b → b ∉ take i bs.
Proof.
  intros Hnd Hb [j Hj]%list_elem_of_lookup. apply lookup_take_Some in Hj as [Hj Hlt].
  pose proof (NoDup_lookup _ _ _ _ Hnd Hj Hb). lia.
Qed.

Section code.
Context `{DW : DiskWorld} `{Pat : Patience} (dev start : Z).
Hypothesis patient : (0 < patience)%nat.

(** Release of a block whose count was raised, and of a block of the log. *)
Lemma restore_map (H : gmap Z held) ln b h x y h' :
  ln ≠ b → H !! b = Some h → H !! ln = None → h' = h →
  delete ln (<[b := h']> (<[ln := x]> (<[b := y]> H))) = H.
Proof.
  intros Hne Hb Hl ->. apply map_eq. intros k.
  destruct (decide (k = b)), (decide (k = ln)); by simplify_map_eq.
Qed.

Lemma write_log_body g H d C i b h ln old :
  log_dev (g_log g) = dev → log_start (g_log g) = start → log_fits dev start d → C d →
  ln = start + Z.of_nat i + 1 → log_area start ln → at_idx d ln = Some old →
  H !! ln = None → (size H < NBUF)%nat → ln ≠ b → 0 <= b < 2 ^ 31 →
  lh_block (log_lh (g_log g)) !! i = Some b → H !! b = Some h → h_locked h = false → 0 < h_ref h < 2 ^ 31 - 1 →
  safe (Cache dev g H d)
    (dev ← get_log log_dev;
     start ← get_log log_start;
     to ← bread (uint dev) (uint (start + Z.of_nat i + 1));
     blk ← lh_get i;
     from ← bread (uint dev) (uint blk);
     fb ← get_buf from;
     upd_buf to (fun b => b <| b_data := b_data fb |>) ;;
     bwrite to ;;
     brelse from ;;
     brelse to) C (fun _ => Cache dev g H (<[Z.to_nat ln := h_data h]> d)).
Proof.
  intros E1 E2 [F1 F2 F3 F4] HC -> Hln Hold Hfresh Hsz Hne Hb Hlh Hh Hlock Href.
  pose proof (at_idx_Some _ _ _ Hold) as Hrange.
  eapply safe_step; [apply step_get_log|]. eapply safe_step; [apply step_get_log|].
  rewrite E1, E2, (uint_id dev), (uint_id (start + Z.of_nat i + 1)) by lia. set (ln := start + Z.of_nat i + 1) in *.
  eapply safe_bind; [by eapply safe_bread_new; first [done|lia]|]. intros bt.
  eapply safe_step; [by apply step_lh_get|]. rewrite uint_id by lia.
  eapply safe_step; [eapply (step_bread_used _ _ _ _ b h); [by rewrite lookup_insert_ne|done|lia]|].
  rewrite insert_insert_ne by done.
  eapply safe_bind; [eapply (safe_look _ _ _ _ b);
    [rewrite lookup_insert_ne by done; apply lookup_insert_eq|done]|].
  intros fb. apply safe_pure. simpl. intros Efb.
  eapply safe_step; [eapply (step_data _ _ _ _ ln _ _ (fun _ => b_data fb)); [apply lookup_insert_eq|done]|].
  rewrite insert_insert_eq, Efb. simpl.
  eapply safe_bind; [eapply (safe_bwrite dev patient _ _ _ ln); [apply lookup_insert_eq|done|done|done|lia|done]|].
  intros []. eapply safe_step.
  { eapply (step_brelse_more _ _ _ _ b);
      [rewrite lookup_insert_ne by done; apply lookup_insert_eq|done|done|simpl; lia]. }
  simpl. apply (safe_done _ _ tt). intros g1 Hg1.
  eapply (step_brelse_last _ _ _ _ ln) in Hg1 as (g2 & Hdo & Hg2);
    [|by rewrite lookup_insert_ne, lookup_insert_eq by done|done|done|done|by apply at_idx_upd].
  exists g2. split; [done|]. erewrite (restore_map H ln b h) in Hg2; [done..|].
  destruct h. simpl in *. f_equal; [lia|done].
Qed.

Lemma safe_for_lh g (Inv : nat → gmap Z held * disk) n (body : nat → K unit) C :
  lh_n (log_lh (g_log g)) = Z.of_nat n →
  (∀ i, (i < n)%nat → safe (Cache dev g (Inv i).1 (Inv i).2) (body i) C
     (fun _ => Cache dev g (Inv (S i)).1 (Inv (S i)).2)) →
  safe (Cache dev g (Inv 0%nat).1 (Inv 0%nat).2) (for_lh body) C (fun _ => Cache dev g (Inv n).1 (Inv n).2).
Proof.
  intros En Hb. eapply safe_step; [apply step_get_log|]. rewrite En, Nat2Z.id.
  by apply (safe_for (fun i => Cache dev g (Inv i).1 (Inv i).2)).
Qed.

Lemma applied_in_range ws (d : disk) n :
  0 <= n < Z.of_nat (length d) → ∃ x, at_idx (applied ws d) n = Some x.
Proof. intros Hn. apply at_idx_lt. by rewrite length_applied. Qed.

Lemma safe_write_log g H d bs datas (C : disk → Prop) :
  log_is dev start bs (g_log g) → log_fits dev start d → pinned start bs datas H d →
  (∀ i, C (applied (take i (log_writes start datas)) d)) →
  safe (Cache dev g H d) write_log C (fun _ => Cache dev g H (applied (log_writes start datas) d)).
Proof.
  intros [E1 E2 E3 E4] Hfit [P1 P2 P3 P4 P5 P6 P7] HC. set (ws := log_writes start datas).
  assert (length ws = length bs) as Hlen by (unfold ws, log_writes; by rewrite length_imap).
  pose proof (safe_for_lh g (fun i => (H, applied (take i ws) d)) (length bs)) as Hloop. simpl in Hloop.
  rewrite (take_ge ws) in Hloop by lia. apply Hloop; [done|]. clear Hloop. intros i Hi.
  destruct (lookup_lt_is_Some_2 bs i Hi) as [b Hb].
  destruct (lookup_lt_is_Some_2 datas i) as [x Hx]; [lia|].
  destruct (P4 i b x Hb Hx) as [k Hk]. destruct (P3 b) as [Hb1 Hb2]; [by eapply list_elem_of_lookup_2|].
  set (ln := start + Z.of_nat i + 1). destruct Hfit as [F1 F2 F3 F4].
  assert (log_area start ln) as Hln by (unfold log_area, ln; lia).
  destruct (applied_in_range (take i ws) d ln) as [old Hold]; [unfold log_area, ln in *; lia|].
  rewrite (take_S_applied ws i (ln, x)) by (unfold ws; by rewrite log_writes_lookup, Hx). simpl.
  apply (write_log_body g H (applied (take i ws) d) C i b (mkheld k 1 false x) ln old); try done.
  - apply (log_fits_length _ _ d); [apply length_applied|done].
  - by apply P5.
  - intros E. apply Hb2. by rewrite <- E.
  - lia.
  - by apply E4.
Qed.

Lemma safe_write_head g H d bs hd (C : disk → Prop) :
  log_is dev start bs (g_log g) → log_fits dev start d → H !! start = None → (size H < NBUF)%nat →
  at_idx d start = Some hd → C d →
  safe (Cache dev g H d) write_head C
    (fun _ => Cache dev g H (<[Z.to_nat start := encode_head bs hd]> d)).
Proof.
  intros [E1 E2 E3 E4] [F1 F2 F3 F4] Hs Hsz Hd HC. pose proof (at_idx_Some _ _ _ Hd) as Hrange.
  eapply safe_step; [apply step_get_log|]. eapply safe_step; [apply step_get_log|].
  rewrite E1, E2, !uint_id by lia.
  eapply safe_bind; [by eapply safe_bread_new; first [done|lia]|]. intros b.
  eapply safe_step; [apply step_get_log|]. rewrite E3.
  eapply safe_step; [eapply (step_data _ _ _ _ start _ _ (set_word 0 (uint (Z.of_nat (length bs)))));
    [apply lookup_insert_eq|done]|]. rewrite insert_insert_eq. simpl.
  set (hd0 := set_word 0 (uint (Z.of_nat (length bs))) hd).
  pose proof (safe_for_lh g (fun i => (<[start := mkheld b 1 true (put_words 1 (take i bs) hd0)]> H, d)) (length bs)) as Hloop.
  simpl in Hloop. rewrite firstn_all in Hloop.
  eapply safe_bind; [apply Hloop; [done|]; clear Hloop; intros i Hi|].
  { destruct (lookup_lt_is_Some_2 bs i Hi) as [v Hv].
    eapply safe_step; [by apply step_lh_get, E4|]. apply (safe_done _ _ tt). intros g1 Hg1.
    eapply (step_data _ _ _ _ start _ _ (set_word (S i) (uint v))) in Hg1 as (g2 & Hdo & Hg2);
      [|apply lookup_insert_eq|done].
    exists g2. split; [exact Hdo|]. rewrite insert_insert_eq in Hg2. simpl in Hg2.
    rewrite (take_S_r _ _ _ Hv), put_words_snoc, length_take_le by lia. exact Hg2. }
  intros []. eapply safe_bind; [eapply (safe_bwrite dev patient _ _ _ start);
    [apply lookup_insert_eq|done|done|done|lia|done]|].
  intros []. simpl. apply (safe_done _ _ tt). intros g1 Hg1.
  eapply (step_brelse_last _ _ _ _ start) in Hg1 as (g2 & Hdo & Hg2);
    [|apply lookup_insert_eq|done|done|done|by apply at_idx_upd].
  exists g2. split; [done|]. by rewrite delete_insert_id in Hg2.
Qed.

(** One turn of [install_trans]. *)
Definition install_body (recovering : bool) (tail : nat) : K unit :=
  dev ← get_log log_dev;
  start ← get_log log_start;
  lbuf ← bread (uint dev) (uint (start + Z.of_nat tail + 1));
  blk ← lh_get tail;
  dbuf ← bread (uint dev) (uint blk);
  lb ← get_buf lbuf;
  upd_buf dbuf (fun b => b <| b_data := b_data lb |>) ;;
  bwrite dbuf ;;
  when (negb recovering) (bunpin dbuf) ;;
  brelse lbuf ;;
  brelse dbuf.

Lemma delete_both (H : gmap Z held) ln b h x :
  ln ≠ b → H !! ln = None → delete b (delete ln (<[b := h]> (<[ln := x]> H))) = delete b H.
Proof.
  intros Hne Hl. apply map_eq. intros k. destruct (decide (k = b)), (decide (k = ln)); by simplify_map_eq.
Qed.

(** The blocks are released: the block of the log, then the block itself. *)
Lemma safe_release_both g H d ln b bt k x C H' :
  H !! ln = Some (mkheld bt 1 true x) → H !! b = Some (mkheld k 1 true x) → ln ≠ b →
  at_idx d ln = Some x → at_idx d b = Some x → delete b (delete ln H) = H' →
  safe (Cache dev g H d) (brelse bt ;; brelse k) C (fun _ => Cache dev g H' d).
Proof.
  intros Hl Hb Hne Dl Db <-. eapply safe_step; [by eapply (step_brelse_last _ _ _ _ ln)|].
  apply (safe_done _ _ tt). intros g1 Hg1.
  eapply (step_brelse_last _ _ _ _ b (mkheld k 1 true x)) in Hg1 as (g2 & Hdo & Hg2);
    [by exists g2|..|done|done|done|done].
  by rewrite lookup_delete_ne.
Qed.

Lemma safe_install_body g H d (C : disk → Prop) i b k ln x :
  log_dev (g_log g) = dev → log_start (g_log g) = start → log_fits dev start d → C d →
  ln = start + Z.of_nat i + 1 → at_idx d ln = Some x →
  H !! ln = None → (size H < NBUF)%nat → ln ≠ b → 0 <= b < Z.of_nat (length d) →
  lh_block (log_lh (g_log g)) !! i = Some b → H !! b = Some (mkheld k 1 false x) →
  safe (Cache dev g H d) (install_body false i) C
    (fun _ => Cache dev g (delete b H) (<[Z.to_nat b := x]> d)).
Proof.
  intros E1 E2 [F1 F2 F3 F4] HC -> Hx Hfresh Hsz Hne Hb Hlh Hh. unfold install_body.
  pose proof (at_idx_Some _ _ _ Hx) as Hrange. destruct (at_idx_lt d b Hb) as [old Hold].
  eapply safe_step; [apply step_get_log|]. eapply safe_step; [apply step_get_log|].
  rewrite E1, E2, (uint_id dev), (uint_id (start + Z.of_nat i + 1)) by lia. set (ln := start + Z.of_nat i + 1) in *.
  eapply safe_bind; [by eapply safe_bread_new; first [done|lia]|]. intros bt.
  eapply safe_step; [by apply step_lh_get|]. rewrite uint_id by lia.
  eapply safe_step; [eapply (step_bread_used _ _ _ _ b); [by rewrite lookup_insert_ne|done|simpl; lia]|].
  simpl. eapply safe_bind; [eapply (safe_look _ _ _ _ ln);
    [rewrite lookup_insert_ne by done; apply lookup_insert_eq|done]|].
  intros lb. apply safe_pure. simpl. intros Elb.
  eapply safe_step; [eapply (step_data _ _ _ _ b _ _ (fun _ => b_data lb)); [apply lookup_insert_eq|done]|].
  rewrite insert_insert_eq, Elb. simpl.
  eapply safe_bind; [eapply (safe_bwrite dev patient _ _ _ b); [apply lookup_insert_eq|done|done|done|lia|done]|].
  intros []. simpl. eapply safe_step; [eapply (step_bunpin _ _ _ _ b); [apply lookup_insert_eq|done|done]|].
  rewrite insert_insert_eq. simpl. eapply (safe_release_both _ _ _ ln b); [..|done| | |].
  - rewrite lookup_insert_ne by done. apply lookup_insert_eq.
  - apply lookup_insert_eq.
  - by rewrite at_idx_upd_ne by (done || lia).
  - by apply at_idx_upd.
  - by apply delete_both.
Qed.

Lemma safe_recover_body g H d (C : disk → Prop) i b ln x :
  log_dev (g_log g) = dev → log_start (g_log g) = start → log_fits dev start d → C d →
  ln = start + Z.of_nat i + 1 → at_idx d ln = Some x →
  H !! ln = None → H !! b = None → (S (size H) < NBUF)%nat → ln ≠ b → 0 <= b < Z.of_nat (length d) →
  lh_block (log_lh (g_log g)) !! i = Some b →
  safe (Cache dev g H d) (install_body true i) C (fun _ => Cache dev g H (<[Z.to_nat b := x]> d)).
Proof.
  intros E1 E2 [F1 F2 F3 F4] HC -> Hx Hl Hb' Hsz Hne Hb Hlh. unfold install_body.
  pose proof (at_idx_Some _ _ _ Hx) as Hrange. destruct (at_idx_lt d b Hb) as [old Hold].
  eapply safe_step; [apply step_get_log|]. eapply safe_step; [apply step_get_log|].
  rewrite E1, E2, (uint_id dev), (uint_id (start + Z.of_nat i + 1)) by lia. set (ln := start + Z.of_nat i + 1) in *.
  eapply safe_bind; [by eapply safe_bread_new; first [done|lia]|]. intros bt.
  eapply safe_step; [by apply step_lh_get|]. rewrite uint_id by lia.
  eapply safe_bind; [eapply (safe_bread_new dev patient _ _ _ b);
    [by rewrite lookup_insert_ne|by rewrite map_size_insert_None|done|lia|done]|]. intros k.
  eapply safe_bind; [eapply (safe_look _ _ _ _ ln);
    [rewrite lookup_insert_ne by done; apply lookup_insert_eq|done]|].
  intros lb. apply safe_pure. simpl. intros Elb.
  eapply safe_step; [eapply (step_data _ _ _ _ b _ _ (fun _ => b_data lb)); [apply lookup_insert_eq|done]|].
  rewrite insert_insert_eq, Elb. simpl.
  eapply safe_bind; [eapply (safe_bwrite dev patient _ _ _ b); [apply lookup_insert_eq|done|done|done|lia|done]|].
  intros []. simpl. eapply safe_step; [intros g1 Hg1; exists g1; split; [apply does_ret|exact Hg1]|].
  eapply (safe_release_both _ _ _ ln b); [..|done| | |].
  - rewrite lookup_insert_ne by done. apply lookup_insert_eq.
  - apply lookup_insert_eq.
  - by rewrite at_idx_upd_ne by (done || lia).
  - by apply at_idx_upd.
  - rewrite delete_both by done. by apply delete_id.
Qed.

Lemma safe_install g H d bs datas (C : disk → Prop) :
  log_is dev start bs (g_log g) → log_fits dev start d → pinned start bs datas H d →
  (∀ j x, datas !! j = Some x → at_idx d (start + Z.of_nat j + 1) = Some x) →
  (∀ i, C (applied (take i (zip bs datas)) d)) →
  safe (Cache dev g H d) (install_trans false) C
    (fun _ => Cache dev g (unpinned bs H) (applied (zip bs datas) d)).
Proof.
  intros [E1 E2 E3 E4] Hfit [P1 P2 P3 P4 P5 P6 P7] Hlog HC. set (ws := zip bs datas).
  assert (length ws = length bs) as Hlen by (unfold ws; rewrite length_zip_with; lia).
  pose proof (safe_for_lh g (fun i => (unpinned (take i bs) H, applied (take i ws) d)) (length bs)) as Hloop.
  simpl in Hloop. rewrite (take_ge ws), firstn_all in Hloop by lia. apply Hloop; [done|]. clear Hloop. intros i Hi.
  destruct (lookup_lt_is_Some_2 bs i Hi) as [b Hb]. destruct (lookup_lt_is_Some_2 datas i) as [x Hx]; [lia|].
  destruct (P4 i b x Hb Hx) as [k Hk]. destruct (P3 b) as [Hb1 Hb2]; [by eapply list_elem_of_lookup_2|].
  set (ln := start + Z.of_nat i + 1). pose proof Hfit as [F1 F2 F3 F4].
  assert (log_area start ln) as Hln by (unfold log_area, ln; lia).
  rewrite (unpinned_S bs H i b Hb), (take_S_applied ws i (b, x)) by (apply lookup_zip_with_Some; eauto). simpl.
  apply (safe_install_body g _ _ C i b k ln x); try done.
  - apply (log_fits_length _ _ d); [apply length_applied|done].
  - rewrite applied_other; [by apply Hlog|lia|]. intros [w y] Hw.
    apply (subseteq_take i) in Hw. apply elem_of_zip_l in Hw. destruct (P3 w Hw) as [? Hout]. simpl.
    split; [lia|]. intros ->. done.
  - rewrite unpinned_lookup, P5 by done. by case_decide.
  - pose proof (unpinned_size (take i bs) H). lia.
  - intros E. apply Hb2. by rewrite <- E.
  - by rewrite length_applied.
  - by apply E4.
  - rewrite unpinned_lookup, decide_False by (by apply (not_in_take bs)). done.
Qed.


(** The log of the kernel with [n] blocks. *)
Definition with_n (n : Z) (g : sub) : sub := g <| g_log ::= fun l => l <| log_lh ::= fun h => h <| lh_n := n |> |> |>.

Lemma safe_clear g H d hd (C : disk → Prop) :
  log_dev (g_log g) = dev → log_start (g_log g) = start → log_fits dev start d → H !! start = None →
  (size H < NBUF)%nat → at_idx d start = Some hd → C d →
  safe (Cache dev g H d) (set_lh_n 0 ;; write_head) C
    (fun _ => Cache dev (with_n 0 g) H (<[Z.to_nat start := set_word 0 0 hd]> d)).
Proof.
  intros E1 E2 Hfit Hs Hsz Hhd HC. eapply safe_step; [apply step_upd_log|].
  by apply (safe_write_head (with_n 0 g) H d [] hd).
Qed.

Lemma safe_commit g H d bs datas hd :
  log_is dev start bs (g_log g) → log_fits dev start d → pinned start bs datas H d →
  at_idx d start = Some hd → length hd = Z.to_nat BSIZE → int (word hd 0) = 0 → bs ≠ [] →
  safe (Cache dev g H d) commit (all_or_nothing start (zip bs datas) d)
    (fun _ => Cache dev (with_n 0 g) (unpinned bs H)
       (<[Z.to_nat start := set_word 0 0 (encode_head bs hd)]> (applied (zip bs datas) (logged start d bs datas hd)))).
Proof.
  intros Hlog Hfit Hpin Hhd Hlen Hclean Hbs. pose proof Hlog as [E1 E2 E3 E4].
  pose proof Hpin as [P1 P2 P3 P4 P5 P6 P7]. pose proof Hfit as [F1 F2 F3 F4].
  assert (4 * (1 + Z.to_nat LOGSIZE) <= length hd)%nat as Hblk by (rewrite Hlen; vm_compute; lia).
  assert (log_area start start) as Ha by (unfold log_area, LOGSIZE, MAXOPBLOCKS; lia).
  assert (length (logged start d bs datas hd) = length d) as Ell by apply length_logged.
  unfold commit. eapply safe_step; [apply step_get_log|]. rewrite E3.
  destruct bs as [|b0 bs']; [done|]. set (bs := b0 :: bs') in *. change (0 <? Z.of_nat (length bs)) with true.
  cbn [when]. eapply safe_bind; [by eapply (safe_write_log g H d bs datas); [..|apply (crash_before dev start d bs datas H hd)]|]. intros [].
  eapply safe_bind; [eapply (safe_write_head g H _ bs hd); [done| |by apply P5|done| |]|].
  { by eapply log_fits_length; [apply length_applied|]. }
  { rewrite applied_other; [done|done|]. intros w Hw. by destruct (log_writes_area dev start d bs datas H Hfit Hpin w Hw) as (? & ? & ?). }
  { rewrite <- (firstn_all (log_writes start datas)). by apply (crash_before dev start d bs datas H hd). }
  intros []. fold (logged start d bs datas hd).
  eapply safe_bind; [eapply (safe_install g H _ bs datas); [done|by eapply log_fits_length| |..]|].
  { split; try done. by rewrite Ell. }
  { intros j x. by apply (logged_block dev start d bs datas H hd). }
  { intros i. by apply (crash_after dev start d bs datas H hd). }
  intros []. apply safe_clear; try done.
  - eapply log_fits_length; [|done]. by rewrite length_applied.
  - rewrite unpinned_lookup, P5 by done. by case_decide.
  - pose proof (unpinned_size bs H). lia.
  - rewrite applied_other; [by apply (logged_head dev start d bs datas hd Hfit)|done|].
    intros w Hw. destruct (zip_writes start d bs datas H Hpin w Hw) as [? Hout]. split; [lia|].
    intros E. apply Hout. by rewrite E.
  - pose proof (crash_after dev start d bs datas H hd Hfit Hpin Hblk (length (zip bs datas))) as Hc.
    by rewrite firstn_all in Hc.
Qed.

End code.
