(* ===== verification/Recovery.v ===== *)
(** Recovery from the log: what [recover_from_log] does to the disk, and that it
    may be interrupted and repeated.  Also the operations that surround a
    transaction: [log_write], [begin_op] and [end_op]. *)

From stdpp Require Import base gmap strings numbers list.
From S2P Require Import Prelude Spinlock Kstate Mlfq Sched Boot Switch CString Globals Kalloc Sleeplock Virtio Bio Log Runs VirtioProofs BioProofs LogProofs.
Local Open Scope Z_scope.

Lemma installed_snoc start k bs b d :
  installed start k (bs ++ [b]) d =
  <[Z.to_nat b := default [] (at_idx (installed start k bs d) (start + Z.of_nat (k + length bs) + 1))]>
    (installed start k bs d).
Proof.
  revert k d. induction bs as [|b' bs IH]; intros k d; simpl; [by rewrite Nat.add_0_r|].
  rewrite IH. by replace (S k + length bs)%nat with (k + S (length bs))%nat by lia.
Qed.

Lemma length_installed start k bs d : length (installed start k bs d) = length d.
Proof.
  revert k d. induction bs as [|b bs IH]; intros k d; simpl; [done|]. by rewrite IH, length_insert.
Qed.

(** A header that recovery can follow. *)
Record head_ok (start : Z) (hd : list Z) (d : disk) : Prop := {
  ho_at : at_idx d start = Some hd;
  ho_len : length hd = Z.to_nat BSIZE;
  ho_n : 0 <= int (word hd 0) < LOGSIZE;
  ho_blocks : ∀ b, b ∈ decode_head hd → 0 <= b < Z.of_nat (length d) ∧ ¬ log_area start b
}.

(** The blocks of the log that the header counts. *)
Definition log_contents (start : Z) (n : nat) (d : disk) : list (list Z) :=
  (fun i => default [] (at_idx d (start + Z.of_nat i + 1))) <$> seq 0 n.

Section pure.
Context (start : Z) (hd : list Z) (d : disk) (dev : Z).
Hypothesis Hfit : log_fits dev start d.
Hypothesis Hok : head_ok start hd d.

Let bs := decode_head hd.
Let datas := log_contents start (length bs) d.

Lemma length_bs : Z.of_nat (length bs) = int (word hd 0).
Proof. clear Hfit. destruct Hok. unfold bs, decode_head. rewrite length_fmap, length_seq. lia. Qed.

Lemma contents_at j x : datas !! j = Some x → at_idx d (start + Z.of_nat j + 1) = Some x.
Proof.
  pose proof length_bs as Hn. destruct Hfit, Hok. unfold datas, log_contents. rewrite list_lookup_fmap.
  destruct (decide (j < length bs)%nat) as [Hj|Hj]; [|by rewrite lookup_seq_ge by lia].
  rewrite lookup_seq_lt by done. simpl. intros [= <-].
  destruct (at_idx_lt d (start + Z.of_nat j + 1)) as [x ->]; [lia|done].
Qed.

Lemma outside_blocks : Forall (fun b => 0 <= b ∧ ¬ log_area start b) bs.
Proof. apply Forall_forall. intros b Hb. destruct (ho_blocks _ _ _ Hok b Hb). split; [lia|done]. Qed.

Lemma length_datas : length bs = length datas.
Proof. unfold datas, log_contents. by rewrite length_fmap, length_seq. Qed.

Lemma installed_is i :
  installed start 0 (take i bs) d = applied (take i (zip bs datas)) d.
Proof.
  rewrite zip_with_take. apply installed_applied.
  - rewrite !length_take. by rewrite length_datas.
  - rewrite length_take. pose proof length_bs. destruct Hok. lia.
  - apply Forall_take, outside_blocks.
  - intros j x Hj. apply contents_at. by apply lookup_take_Some in Hj as [Hj _].
Qed.

(** Recovery of a disk on which recovery has begun. *)
Lemma recovered_again i :
  same_files start (recovered start (installed start 0 (take i bs) d)) (recovered start d).
Proof.
  set (ws := zip bs datas). set (d' := installed start 0 (take i bs) d).
  assert (∀ n, 0 <= n → log_area start n → at_idx d' n = at_idx d n) as Hlog.
  { intros n Hn Ha. unfold d'. rewrite installed_is. apply applied_other; [done|].
    intros [b x] Hw%subseteq_take%elem_of_zip_l. destruct (ho_blocks _ _ _ Hok b Hw) as [? Hout].
    simpl. split; [lia|]. by intros ->. }
  destruct Hfit as [F1 F2 F3 F4]. destruct Hok as [K1 K2 K3 K4]. pose proof length_bs as Hn.
  assert (at_idx d' start = Some hd) as Hhd.
  { rewrite Hlog; [done|lia|]. unfold log_area, LOGSIZE, MAXOPBLOCKS. lia. }
  assert (∀ d0, at_idx d0 start = Some hd →
    (∀ j x, datas !! j = Some x → at_idx d0 (start + Z.of_nat j + 1) = Some x) →
    same_files start (recovered start d0) (applied ws d0)) as Hrec.
  { intros d0 H1 H2. apply (recovered_full start d0 hd bs datas); try done; [apply length_datas|lia|apply outside_blocks]. }
  etrans; [apply (Hrec d' Hhd)|etrans; [|symmetry; apply (Hrec d K1), contents_at]].
  - intros j x Hj. rewrite Hlog; [by apply contents_at|lia|]. apply lookup_lt_Some in Hj.
    rewrite <- length_datas in Hj. unfold log_area. lia.
  - unfold d'. rewrite installed_is. split; [by rewrite !length_applied|]. intros n H0 _.
    apply applied_absorb; [|apply subseteq_take|done]. intros [b x] Hw%elem_of_zip_l. by apply K4.
Qed.

End pure.

Section code.
Context `{DW : DiskWorld} `{Pat : Patience} (dev start : Z).
Hypothesis patient : (0 < patience)%nat.

(** The kernel with the header [bs] in memory, the rest of the array being [old]. *)
Definition with_head (n : Z) (block : list Z) (g : sub) : sub :=
  g <| g_log ::= fun l => l <| log_lh := mklogheader n block |> |>.

Lemma overwrite_next {A} (l old : list A) i x :
  l !! i = Some x → (i < length old)%nat →
  <[i := x]> (take i l ++ drop i old) = take (S i) l ++ drop (S i) old.
Proof.
  intros Hx Hi. pose proof (lookup_lt_Some _ _ _ Hx).
  rewrite insert_app_r_alt by (rewrite length_take; lia). rewrite length_take, Nat.min_l, Nat.sub_diag by lia.
  destruct (lookup_lt_is_Some_2 old i Hi) as [y Hy]. rewrite (drop_S _ _ _ Hy). simpl.
  rewrite (take_S_r _ _ _ Hx), <- app_assoc. done.
Qed.

Lemma safe_read_loop g H d hd old C :
  0 <= int (word hd 0) < LOGSIZE → length old = Z.to_nat LOGSIZE →
  safe (Cache dev (with_head (int (word hd 0)) old g) H d)
    (for_lh (fun i => lh_set i (int (word hd (S i))))) C
    (fun _ => Cache dev (with_head (int (word hd 0))
       (decode_head hd ++ drop (length (decode_head hd)) old) g) H d).
Proof.
  intros Hn Hl. set (bs := decode_head hd).
  assert (length bs = Z.to_nat (int (word hd 0))) as Hbs
    by (unfold bs, decode_head; by rewrite length_fmap, length_seq).
  unfold for_lh. eapply safe_step; [apply step_get_log|].
  change (lh_n (log_lh (g_log (with_head (int (word hd 0)) old g)))) with (int (word hd 0)). rewrite <- Hbs.
  pose proof (safe_for (fun i => Cache dev (with_head (int (word hd 0)) (take i bs ++ drop i old) g) H d) (length bs)
    (fun i => lh_set i (int (word hd (S i)))) C) as Hloop.
  cbv beta in Hloop. rewrite take_0, drop_0, app_nil_l, firstn_all in Hloop. apply Hloop. clear Hloop.
  intros i Hi. destruct (lookup_lt_is_Some_2 bs i Hi) as [v Hv].
  assert (v = int (word hd (S i))) as <-.
  { unfold bs, decode_head in Hv. rewrite list_lookup_fmap, lookup_seq_lt in Hv by lia. by injection Hv as <-. }
  assert (i < length old)%nat as Hio by (unfold LOGSIZE, MAXOPBLOCKS in *; lia).
  destruct (lookup_lt_is_Some_2 old i Hio) as [y Hy].
  eapply safe_step; [eapply (step_lh_get _ _ _ _ i y)|].
  { simpl. rewrite lookup_app_r by (rewrite length_take; lia). rewrite length_take, Nat.min_l by lia.
    rewrite lookup_drop. rewrite <- Hy. f_equal. lia. }
  apply (safe_done _ _ tt). intros g1 Hg1.
  apply (step_upd_log _ _ _ _ (fun l => l <| log_lh ::= fun h => h <| lh_block ::= <[i := v]> |> |>)) in Hg1
    as (g2 & Hdo & Hg2).
  exists g2. split; [exact Hdo|]. rewrite <- (overwrite_next bs old i v) by done. exact Hg2.
Qed.

Lemma safe_read_head g d hd (C : disk → Prop) :
  log_dev (g_log g) = dev → log_start (g_log g) = start → log_fits dev start d → head_ok start hd d → C d →
  length (lh_block (log_lh (g_log g))) = Z.to_nat LOGSIZE →
  safe (Cache dev g ∅ d) read_head C
    (fun _ => Cache dev (with_head (int (word hd 0))
       (decode_head hd ++ drop (length (decode_head hd)) (lh_block (log_lh (g_log g)))) g) ∅ d).
Proof.
  intros E1 E2 [F1 F2 F3 F4] [K1 K2 K3 K4] HC Hl. pose proof (at_idx_Some _ _ _ K1) as Hrange.
  eapply safe_step; [apply step_get_log|]. eapply safe_step; [apply step_get_log|].
  rewrite E1, E2, !uint_id by lia.
  eapply safe_bind; [eapply safe_bread_new; first [done|lia|(rewrite map_size_empty; vm_compute; lia)]|]. intros b.
  eapply safe_bind; [eapply (safe_look _ _ _ _ start); [apply lookup_insert_eq|done]|].
  intros bf. apply safe_pure. simpl. intros ->.
  eapply safe_step; [apply step_upd_log|].
  eapply safe_bind; [by apply (safe_read_loop g _ d hd (lh_block (log_lh (g_log g))))|]. intros [].
  apply (safe_done _ _ tt). intros g1 Hg1.
  eapply (step_brelse_last _ _ _ _ start) in Hg1 as (g2 & Hdo & Hg2); [|apply lookup_insert_eq|done..].
  exists g2. split; [done|]. by rewrite delete_insert_id in Hg2.
Qed.

Lemma safe_recover_install g d hd (C : disk → Prop) :
  log_is dev start (decode_head hd) (g_log g) → log_fits dev start d → head_ok start hd d →
  (∀ i, C (installed start 0 (take i (decode_head hd)) d)) →
  safe (Cache dev g ∅ d) (install_trans true) C
    (fun _ => Cache dev g ∅ (installed start 0 (decode_head hd) d)).
Proof.
  intros [E1 E2 E3 E4] Hfit Hok HC. set (bs := decode_head hd) in *.
  pose proof (length_bs start hd d Hok) as Hn. fold bs in Hn. pose proof Hok as [K1 K2 K3 K4]. fold bs in K4.
  pose proof (safe_for_lh dev g (fun i => (∅, installed start 0 (take i bs) d)) (length bs)) as Hloop.
  simpl in Hloop. rewrite firstn_all in Hloop. apply Hloop; [done|]. clear Hloop. intros i Hi.
  destruct (lookup_lt_is_Some_2 bs i Hi) as [b Hb].
  destruct (K4 b) as [Hb1 Hb2]; [by eapply list_elem_of_lookup_2|].
  set (ln := start + Z.of_nat i + 1). pose proof Hfit as [F1 F2 F3 F4].
  assert (log_area start ln) as Hln by (unfold log_area, ln; lia).
  destruct (at_idx_lt (installed start 0 (take i bs) d) ln) as [x Hx].
  { rewrite length_installed. unfold log_area, ln in *. lia. }
  rewrite (take_S_r _ _ _ Hb), installed_snoc, length_take_le by lia. simpl Nat.add. fold ln. rewrite Hx. simpl default.
  apply (safe_recover_body dev start patient g ∅ _ C i b ln x); try done.
  - eapply log_fits_length; [apply length_installed|done].
  - rewrite map_size_empty. vm_compute. lia.
  - intros E. apply Hb2. by rewrite <- E.
  - by rewrite length_installed.
  - by apply E4.
Qed.

(** C8. recover_from_log, run after a crash with an empty cache on a disk whose
    header lists at most LOGSIZE-1 blocks outside the log, runs to its end with
    exactly those blocks copied from the log and the header cleared; if it is itself
    interrupted at any disk request, recovery from the disk of that moment gives the
    same files again. *)
Theorem recovery_repeatable g d hd :
  log_dev (g_log g) = dev → log_start (g_log g) = start →
  length (lh_block (log_lh (g_log g))) = Z.to_nat LOGSIZE → log_fits dev start d → head_ok start hd d →
  safe (Cache dev g ∅ d) recover_from_log
    (fun dk => same_files start (recovered start dk) (recovered start d))
    (fun _ g' => ∃ g1, Cache dev g1 ∅ (recovered start d) g' ∧ lh_n (log_lh (g_log g1)) = 0).
Proof.
  intros E1 E2 El Hfit Hok. pose proof Hok as [K1 K2 K3 K4]. pose proof Hfit as [F1 F2 F3 F4].
  assert (∀ i, same_files start (recovered start (installed start 0 (take i (decode_head hd)) d)) (recovered start d))
    as HC by (intros i; by apply (recovered_again start hd d dev)).
  unfold recover_from_log. eapply safe_bind; [by eapply (safe_read_head g d hd)|]. intros [].
  eapply safe_bind; [eapply (safe_recover_install _ d hd); [|done|done|exact HC]|].
  { split; simpl; [done|done|by rewrite (length_bs start hd d)|].
    intros i b Hb. by apply lookup_app_l_Some. }
  intros []. eapply safe_post; [apply (safe_clear dev start patient _ ∅ _ hd)|].
  - done.
  - done.
  - by eapply log_fits_length; [apply length_installed|].
  - done.
  - rewrite map_size_empty. vm_compute. lia.
  - pose proof (installed_is start hd d dev Hfit Hok (length (decode_head hd))) as Hi.
    rewrite firstn_all in Hi. rewrite Hi, applied_other; [done|lia|].
    intros [b x] Hw%subseteq_take%elem_of_zip_l. destruct (K4 b Hw) as [? Hout]. simpl. split; [lia|].
    intros ->. apply Hout. unfold log_area, LOGSIZE, MAXOPBLOCKS. lia.
  - specialize (HC (length (decode_head hd))). rewrite firstn_all in HC. exact HC.
  - intros [] g' Hg'. eexists. unfold recovered. rewrite K1. split; [exact Hg'|reflexivity].
Qed.

End code.

(** ** A disk that holds a committed transaction *)

Definition ex_log : log := mklog 2 LOGSIZE 0 0 1 (mklogheader 0 (replicate (Z.to_nat LOGSIZE) 0)).
Definition ex_sub : sub := (sub0 ∅) <| g_log := ex_log |>.
Definition ex_head : list Z := encode_head [40] ex_block.
Definition ex_ones : list Z := replicate (Z.to_nat BSIZE) 1.
Definition ex_crashed : disk := <[2%nat := ex_head]> (<[3%nat := ex_ones]> ex_disk).

Lemma ex_fits d : length d = 64%nat → log_fits 1 2 d.
Proof. intros E. split; rewrite ?E; unfold LOGSIZE, MAXOPBLOCKS; lia. Qed.

Lemma ex_decode : decode_head ex_head = [40].
Proof.
  apply decode_encode; [unfold ex_block; rewrite length_replicate; unfold BSIZE; simpl; lia|done|]. by constructor.
Qed.

Lemma ex_head_ok : head_ok 2 ex_head ex_crashed.
Proof.
  split.
  - reflexivity.
  - assert (length ex_block = 1024%nat) as L by reflexivity. unfold ex_head, encode_head.
    rewrite length_put_words; rewrite length_set_word; rewrite L; [done|lia|simpl; lia|lia].
  - vm_compute. split; discriminate || reflexivity.
  - rewrite ex_decode. intros b ->%list_elem_of_singleton. unfold log_area, LOGSIZE, MAXOPBLOCKS.
    unfold ex_crashed, ex_disk. rewrite !length_insert, length_replicate. lia.
Qed.

(** Recovery writes the block of ones from the log to block 40. *)
Lemma recovery_repeatable_witness :
  (∃ g s, Cache (W := disk_world) 1 ex_sub ∅ ex_crashed g ∧ @calm disk_world (@awake disk_world) ∅ g s) ∧
  safe (W := disk_world) (Cache (W := disk_world) 1 ex_sub ∅ ex_crashed) (@recover_from_log 1%nat)
    (fun dk => same_files 2 (recovered 2 dk) (recovered 2 ex_crashed))
    (fun _ g' => ∃ g1, Cache (W := disk_world) 1 g1 ∅ (recovered 2 ex_crashed) g' ∧ lh_n (log_lh (g_log g1)) = 0) ∧
  at_idx (recovered 2 ex_crashed) 40 = Some ex_ones.
Proof.
  split; [|split].
  - eexists (gput ex_sub ex_bufs ex_crashed ex_vdisk), _. split; [|apply ex_calm].
    exists ex_bufs, ex_vdisk. split; [done|]. split; [by apply ex_cache|exact ex_idle].
  - apply (@recovery_repeatable disk_world ex_disk_world 1%nat 1 2 (le_n 1) ex_sub ex_crashed ex_head).
    + reflexivity.
    + reflexivity.
    + reflexivity.
    + by apply ex_fits.
    + exact ex_head_ok.
  - unfold recovered. rewrite (ho_at _ _ _ ex_head_ok). simpl default. rewrite ex_decode. reflexivity.
Defined.
