(* ===== verification/Txn.v ===== *)
(** Transactions: [log_write] and [begin_op] as updates of the set of logged
    blocks, [end_op] as its atomic commit, and a file system operation, [bzero],
    inside a transaction. *)

From Stdlib Require Import Ascii.
From stdpp Require Import base gmap strings numbers list.
From S2P Require Import Prelude Spinlock Kstate Mlfq Sched Boot Switch CString Globals Kalloc Sleeplock Virtio Bio Log Fs Runs VirtioProofs BioProofs LogProofs Recovery.
Local Open Scope Z_scope.

Lemma find_block_in v bs rest :
  v ∈ bs → ∃ i, find_block v (bs ++ rest) (length bs) = i ∧ bs !! i = Some v.
Proof.
  induction bs as [|b bs IH]; [by intros ?%elem_of_nil|]. intros Hv. simpl.
  destruct (Z.eqb_spec b v) as [->|Hne]; [by exists 0%nat|].
  destruct IH as (i & -> & Hi); [set_solver|]. by exists (S i).
Qed.

Lemma find_block_out v bs rest : v ∉ bs → find_block v (bs ++ rest) (length bs) = length bs.
Proof.
  induction bs as [|b bs IH]; [by destruct rest|]. intros Hv. simpl.
  destruct (Z.eqb_spec b v) as [->|Hne]; [set_solver|]. rewrite IH; [done|set_solver].
Qed.

Lemma log_is_split dev start bs l :
  log_is dev start bs l → lh_block (log_lh l) = bs ++ drop (length bs) (lh_block (log_lh l)).
Proof.
  intros [_ _ _ E]. rewrite <- (take_drop (length bs) (lh_block (log_lh l))) at 1. f_equal.
  apply list_eq. intros i. destruct (bs !! i) as [b|] eqn:Hb.
  - rewrite lookup_take_lt by (by eapply lookup_lt_Some). by apply E.
  - apply lookup_ge_None in Hb. by apply lookup_take_ge.
Qed.

(** ** begin_op *)

Section begin_op.
Context `{W : World}.

(** [begin_op]'s update of the log. *)
Definition opened (l : log) : log := l <| log_outstanding ::= fun n => int (n + 1) |>.

Lemma does_get_must_wait L g : does L g (get_log op_must_wait) [] L (op_must_wait (g_log g)) g.
Proof. apply (does_gets _ _ (fun g => op_must_wait (g_log g))). Qed.

Lemma does_open_op g :
  does ({[log_lock]} ∪ ∅) g (upd_log opened ;; release log_lock) [] ∅ tt (g <| g_log ::= opened |>).
Proof.
  eapply does_step; [|apply does_release_last; set_solver].
  exact (does_modify ({[log_lock]} ∪ ∅) g (fun g => g <| g_log ::= opened |>)).
Qed.

Lemma does_begin_op `{Patience} g :
  log_lock ∈ known → op_must_wait (g_log g) = false → does ∅ g begin_op [] ∅ tt (g <| g_log ::= opened |>).
Proof.
  intros HD Hgo. unfold begin_op. eapply does_step; [by apply does_acquire|].
  eapply does_step; [apply does_no_sleep; rewrite <- Hgo; apply does_get_must_wait|]. apply does_open_op.
Qed.

(** Numbers of operations and of blocks for which the arithmetic of [begin_op] is exact. *)
Definition small_log (l : log) : Prop := 0 <= log_outstanding l < 2 ^ 20 ∧ 0 <= lh_n (log_lh l) < 2 ^ 20.

(** The log takes one more operation: no commit is under way, and the blocks in the
    header and MAXOPBLOCKS for each operation, the new one included, fit. *)
Definition admits (l : log) : Prop :=
  log_committing l = 0 ∧ lh_n (log_lh l) + (log_outstanding l + 1) * MAXOPBLOCKS <= LOGSIZE.

Lemma op_must_wait_spec l : small_log l → (op_must_wait l = true ↔ ¬ admits l).
Proof.
  intros [Ho Hn]. unfold op_must_wait, admits, LOGSIZE, MAXOPBLOCKS. rewrite int_id by lia.
  destruct (Z.eqb_spec (log_committing l) 0), (Z.ltb_spec 30 (lh_n (log_lh l) + (log_outstanding l + 1) * 10)); simpl; naive_solver lia.
Qed.

Lemma opened_exact l : 0 <= log_outstanding l < 2 ^ 20 → opened l = l <| log_outstanding := log_outstanding l + 1 |>.
Proof. intros H. unfold opened. simpl. by rewrite int_id by lia. Qed.

Lemma upd_log_ext (f h : log → log) g : f (g_log g) = h (g_log g) → g <| g_log ::= f |> = g <| g_log ::= h |>.
Proof. intros E. simpl. by rewrite E. Qed.

Lemma small_iter (others : sub → sub) g i :
  (∀ g, small_log (g_log g) → small_log (g_log (others g))) → small_log (g_log g) →
  small_log (g_log (Nat.iter i others g)).
Proof. intros Ho Hg. induction i; simpl; auto. Qed.

(** C28. begin_op sleeps exactly as long as the log admits no further operation,
    whatever the surroundings do to the log at each sleep: as long as a commit is
    under way, or the blocks in the header plus MAXOPBLOCKS for each outstanding
    operation and for the new one do not fit into LOGSIZE. It tests the log again
    after every wakeup, and when it returns the log admitted the operation in the
    state it found then, to which it has added the operation and nothing else, with
    no lock held. If it does not return within the number of wakeups considered, the
    log admitted no operation at any of them. Counts of operations and blocks are
    below 2^20. *)
Theorem begin_op_reserves `{Patience} (others : sub → sub) g s :
  log_lock ∈ known →
  (∀ g, small_log (g_log g) → wakes_to PLog g (others g) ∧ small_log (g_log (others g))) →
  small_log (g_log g) → calm awake ∅ g s →
  match play env (begin_op s) with
  | (tr, Some (_, s')) =>
      let g' := Nat.iter (length tr) others g in
      tr = (fun i => g_disk (Nat.iter i others g)) <$> seq 0 (length tr) ∧
      (∀ i, (i < length tr)%nat → ¬ admits (g_log (Nat.iter i others g))) ∧ admits (g_log g') ∧
      calm awake ∅ (g' <| g_log ::= fun l => l <| log_outstanding := log_outstanding l + 1 |> |>) s'
  | (_, None) => ∀ i, (i <= patience)%nat → ¬ admits (g_log (Nat.iter i others g))
  end.
Proof.
  intros HD Hw Hg Hs. assert (∀ i, small_log (g_log (Nat.iter i others g))) as Hsm
    by (intros; apply small_iter; [intros; by apply Hw|done]).
  destruct (does_acquire ∅ g log_lock HD (not_elem_of_empty _) s Hs) as ([] & s1 & Hp1 & _ & Hs1).
  unfold begin_op, mbind, M_bind. rewrite (play_bind _ _ _ _ _ _ Hp1). cbn [app fst snd].
  pose proof (play_sleep_while others (small_log ∘ g_log) (op_must_wait ∘ g_log) log_lock PLog (get_log op_must_wait)
    patience g s1 HD ltac:(done) (does_get_must_wait _) Hw Hg Hs1) as HW. cbn [compose] in HW.
  fold (sleep_while (get_log op_must_wait) (sleep PLog log_lock)) in HW.
  destruct (play env (sleep_while (get_log op_must_wait) (sleep PLog log_lock) s1)) as [tr [[[] s2]|]] eqn:Hp2.
  - destruct HW as (E & H1 & H2 & Hs2). destruct (does_open_op _ s2 Hs2) as ([] & s3 & Hp3 & _ & Hs3).
    rewrite (play_bind _ _ _ _ _ _ Hp2). unfold mbind, M_bind in Hp3. unfold opened in Hp3. rewrite Hp3. cbn [app fst snd].
    rewrite app_nil_r. split_and!; [done|intros i Hi; apply op_must_wait_spec; auto| |].
    + apply dec_stable. intros Hn%(op_must_wait_spec _ (Hsm _)). congruence.
    + revert Hs3. set (g' := Nat.iter _ _ _). pose proof (Hsm (length tr)) as [Hb _]. fold g' in Hb.
      by rewrite (upd_log_ext opened (fun l => l <| log_outstanding := log_outstanding l + 1 |>) g' (opened_exact _ Hb)).
  - rewrite (play_bind_None _ _ _ _ Hp2). intros i Hi. apply op_must_wait_spec; auto.
Qed.

End begin_op.

Section txn.
Context `{DW : DiskWorld} `{Pat : Patience} (dev start : Z).
Hypothesis patient : (0 < patience)%nat.

Lemma does_get_log {A} L g B d v (f : log → A) :
  does L (gput g B d v) (get_log f) [] L (f (g_log g)) (gput g B d v).
Proof. apply (does_gets L (gput g B d v) (fun g => f (g_log g))). Qed.

Lemma does_upd_log L g B d v f :
  does L (gput g B d v) (upd_log f) [] L tt (gput (g <| g_log ::= f |>) B d v).
Proof. exact (does_modify L (gput g B d v) (fun g => g <| g_log ::= f |>)). Qed.

Lemma does_lh_set L g B d v i y x :
  lh_block (log_lh (g_log g)) !! i = Some y →
  does L (gput g B d v) (lh_set i x) [] L tt
    (gput (g <| g_log ::= fun l => l <| log_lh ::= fun h => h <| lh_block ::= <[i := x]> |> |> |>) B d v).
Proof.
  intros Hi. eapply does_step; [|apply does_upd_log].
  by apply (does_deref L (gput g B d v) (fun g => lh_block (log_lh (g_log g)) !! i)).
Qed.

(** A transaction is open: the log lists [bs]. *)
Record in_txn (bs : list Z) (l : log) : Prop := {
  it_log : log_is dev start bs l;
  it_array : length (lh_block (log_lh l)) = Z.to_nat LOGSIZE;
  it_size : log_size l = LOGSIZE;
  it_open : 1 <= log_outstanding l
}.

(** The log after [log_write] of block [n], and the blocks in use. *)
Definition absorb (n : Z) (bs : list Z) : list Z := if decide (n ∈ bs) then bs else bs ++ [n].

Definition pin (n : Z) (bs : list Z) (H : gmap Z held) : gmap Z held :=
  if decide (n ∈ bs) then H else
  match H !! n with Some h => <[n := h <| h_ref := h_ref h + 1 |>]> H | None => H end.

(** [log_write] up to the decision whether the block is new. *)
Lemma does_log_write g H d B v bs n h i y g' :
  in_txn bs (g_log g) → Z.of_nat (length bs) < LOGSIZE - 1 → cache dev H d B → H !! n = Some h →
  0 <= n < 2 ^ 31 → find_block n (bs ++ drop (length bs) (lh_block (log_lh (g_log g)))) (length bs) = i →
  lh_block (log_lh (g_log g)) !! i = Some y →
  does ({[log_lock]} ∪ ∅)
    (gput (g <| g_log ::= fun l => l <| log_lh ::= fun h => h <| lh_block ::= <[i := n]> |> |> |>) B d v)
    (when (Z.of_nat i =? Z.of_nat (length bs)) (bpin (h_buf h) ;; set_lh_n (int (Z.of_nat (length bs) + 1)))) []
    ({[log_lock]} ∪ ∅) tt g' →
  does ∅ (gput g B d v) (log_write (h_buf h)) [] ∅ tt g'.
Proof.
  clear patient Pat. intros [Hlog Ha Hs Ho] Hlen Hc Hn Hr Hfind Hy Hk. pose proof Hlog as [E1 E2 E3 E4].
  destruct (does_look dev g H d B v n h ({[log_lock]} ∪ ∅) Hc Hn) as (bf & _ & Eno & Hdo). unfold log_write.
  eapply does_step; [apply does_acquire; [apply known_log|done]|].
  eapply does_step; [apply does_get_log|]. eapply does_step; [apply does_get_log|]. rewrite E3, Hs.
  destruct (Z.leb_spec LOGSIZE (Z.of_nat (length bs))); [lia|].
  destruct (Z.leb_spec (LOGSIZE - 1) (Z.of_nat (length bs))); [lia|]. cbn [orb].
  eapply does_step; [apply does_get_log|]. destruct (Z.ltb_spec (log_outstanding (g_log g)) 1); [lia|].
  eapply does_step; [exact Hdo|]. eapply does_step; [apply does_get_log|].
  rewrite Eno, int_id, Nat2Z.id by lia. rewrite (log_is_split _ _ _ _ Hlog), Hfind.
  eapply does_step; [by eapply does_lh_set|]. eapply does_step; [exact Hk|].
  apply does_release_last. set_solver.
Qed.

Lemma safe_log_write g H d bs n h C :
  in_txn bs (g_log g) → Z.of_nat (length bs) < LOGSIZE - 1 → H !! n = Some h → h_ref h + 1 < 2 ^ 31 →
  0 <= n < 2 ^ 31 →
  safe (Cache dev g H d) (log_write (h_buf h)) C
    (fun _ g' => ∃ l', in_txn (absorb n bs) l' ∧ log_outstanding l' = log_outstanding (g_log g) ∧
       log_committing l' = log_committing (g_log g) ∧ Cache dev (g <| g_log := l' |>) (pin n bs H) d g').
Proof.
  clear patient Pat. intros Hin Hlen Hn Href Hr ? (B & v & -> & Hc & Hv). pose proof Hin as [Hlog Ha Hs Ho].
  pose proof Hlog as [E1 E2 E3 E4]. exists [], tt. unfold absorb, pin.
  set (block := lh_block (log_lh (g_log g))) in *. case_decide as Hmem.
  - destruct (find_block_in n bs (drop (length bs) block) Hmem) as (i & Ef & Hi).
    pose proof (lookup_lt_Some _ _ _ Hi). pose proof (E4 _ _ Hi) as Hb. eexists. split; [|split; [done|]].
    + eapply does_log_write; [done..|]. rewrite (proj2 (Z.eqb_neq _ _)) by lia. apply does_ret.
    + eexists. split; [|split; [|split; [|by exists B, v]]]; [|done..].
      split; simpl; [|by rewrite length_insert|done|done]. split; simpl; [done..|].
      intros j b Hj. fold block. rewrite list_insert_id by done. by apply E4.
  - pose proof (find_block_out n bs (drop (length bs) block) Hmem) as Ef.
    destruct (lookup_lt_is_Some_2 block (length bs)) as [y Hy]; [unfold LOGSIZE, MAXOPBLOCKS in *; lia|].
    set (g1 := g <| g_log ::= fun l => l <| log_lh ::= fun h => h <| lh_block ::= <[length bs := n]> |> |> |>).
    destruct (bpin_ok dev ({[log_lock]} ∪ ∅) g1 H d B v n h) as (B' & Hdo & Hc'); [set_solver|done..|].
    eexists. split; [|split; [done|]].
    + eapply does_log_write; [done..|]. rewrite Z.eqb_refl. eapply does_step; [exact Hdo|]. apply does_upd_log.
    + eexists. split; [|split; [|split; [|exists B', v; split; [reflexivity|]]]]; [|done|done|split; [|done]].
      * split; simpl; [|by rewrite length_insert|done|done]. split; simpl; [done|done| |].
        { rewrite length_app, int_id by (unfold LOGSIZE, MAXOPBLOCKS in *; lia). simpl. lia. }
        fold block. intros j b [Hj|[Hj1 Hj2]]%lookup_app_Some.
        { pose proof (lookup_lt_Some _ _ _ Hj). rewrite list_lookup_insert_ne by lia. by apply E4. }
        destruct (j - length bs)%nat eqn:Ej; [|done]. injection Hj2 as <-.
        replace j with (length bs) by lia. apply list_lookup_insert_eq. by eapply lookup_lt_Some.
      * by rewrite Hn.
Qed.

(** log_write of a buffer in use adds its block number at the end of the header
    and pins the buffer when the transaction does not list the block yet, and
    changes neither header nor reference count when it does; it touches no disk
    block. *)
Theorem log_write_absorbs g H d bs n h :
  in_txn bs (g_log g) → Z.of_nat (length bs) < LOGSIZE - 1 → H !! n = Some h → h_ref h + 1 < 2 ^ 31 →
  0 <= n < 2 ^ 31 →
  safe (Cache dev g H d) (log_write (h_buf h)) (fun _ => False)
    (fun _ g' => ∃ l', in_txn (absorb n bs) l' ∧ log_outstanding l' = log_outstanding (g_log g) ∧
       log_committing l' = log_committing (g_log g) ∧ Cache dev (g <| g_log := l' |>) (pin n bs H) d g').
Proof. apply safe_log_write. Qed.

(** ** An update of a block in a transaction *)

(** The open transaction will write [datas] to the blocks [bs]. *)
Record open_txn (bs : list Z) (datas : list (list Z)) (H : gmap Z held) (d : disk) (l : log) : Prop := {
  ot_log : in_txn bs l;
  ot_pin : pinned start bs datas H d;
  ot_only : ∀ n h, H !! n = Some h → n ∈ bs
}.

Lemma only_size (bs : list Z) (H : gmap Z held) :
  (∀ n h, H !! n = Some h → n ∈ bs) → (size H <= length bs)%nat.
Proof.
  intros Ho. rewrite <- size_dom.
  assert (dom H ⊆ (list_to_set bs : gset Z)) as Hs%subseteq_size.
  { intros n [h Hn]%elem_of_dom. apply elem_of_list_to_set. by eapply Ho. }
  etrans; [exact Hs|]. clear. induction bs as [|b bs IH]; [by rewrite list_to_set_nil, size_empty|].
  rewrite list_to_set_cons, size_union_alt, size_singleton. assert (list_to_set bs ∖ {[b]} ⊆ (list_to_set bs : gset Z)) as Hd by set_solver.
  apply subseteq_size in Hd. simpl. lia.
Qed.

Lemma disk_eq (d1 d2 : disk) : (∀ n, 0 <= n → at_idx d1 n = at_idx d2 n) → d1 = d2.
Proof. intros E. apply list_eq. intros i. specialize (E (Z.of_nat i)). rewrite !at_idx_nat in E. apply E. lia. Qed.

(** Another content for a block of the transaction. *)
Lemma applied_change bs datas (d : disk) i n y :
  NoDup bs → length bs = length datas → (∀ b, b ∈ bs → 0 <= b < Z.of_nat (length d)) → bs !! i = Some n →
  applied (zip bs (<[i := y]> datas)) d = <[Z.to_nat n := y]> (applied (zip bs datas) d).
Proof.
  intros Hnd Hl Hr Hi. pose proof (lookup_lt_Some _ _ _ Hi) as Hlt.
  assert (∀ ds : list (list Z), length bs = length ds → (zip bs ds).*1 = bs) as Hfst by (intros; apply fst_zip; lia).
  assert (∀ (ds : list (list Z)) w, w ∈ zip bs ds → 0 <= w.1 < Z.of_nat (length d)) as Hw
    by (intros ds [b x] Hw%elem_of_zip_l; by apply Hr).
  apply disk_eq. intros m Hm. destruct (decide (m = n)) as [->|Hne].
  - rewrite at_idx_upd by (rewrite length_applied; apply Hr; by eapply list_elem_of_lookup_2).
    apply (applied_at _ _ i); [by rewrite Hfst by (by rewrite length_insert)|apply Hw|].
    apply lookup_zip_with_Some. exists n, y. rewrite list_lookup_insert_eq by lia. done.
  - rewrite at_idx_upd_ne; [|apply Hr; by eapply list_elem_of_lookup_2|done].
    destruct (decide (m ∈ bs)) as [[j Hj]%list_elem_of_lookup|Hout].
    + pose proof (lookup_lt_Some _ _ _ Hj). destruct (lookup_lt_is_Some_2 datas j) as [z Hz]; [lia|].
      assert (i ≠ j) as Hij by congruence.
      rewrite !(applied_at _ _ j m z); try done; try (by rewrite Hfst by (rewrite ?length_insert; done)); try apply Hw;
        apply lookup_zip_with_Some; exists m, z; by rewrite ?list_lookup_insert_ne.
    + rewrite !applied_other; try done; intros [b x] Hin%elem_of_zip_l; simpl; (split; [apply Hr; done|]); by intros ->.
Qed.

Lemma pinned_change bs datas H d i n k y :
  pinned start bs datas H d → bs !! i = Some n → is_Some (H !! n) →
  pinned start bs (<[i := y]> datas) (<[n := mkheld k 1 false y]> H) d.
Proof.
  intros [P1 P2 P3 P4 P5 P6 P7] Hi Hn. pose proof (lookup_lt_Some _ _ _ Hi) as Hlt. split; try done.
  - by rewrite length_insert.
  - intros j b x Hj Hx. destruct (decide (j = i)) as [->|Hne].
    + rewrite list_lookup_insert_eq in Hx by lia. simplify_eq. exists k. apply lookup_insert_eq.
    + rewrite list_lookup_insert_ne in Hx by done. rewrite lookup_insert_ne; [by eapply P4|].
      intros ->. by apply Hne, (NoDup_lookup bs j i b).
  - intros m Hm. rewrite lookup_insert_ne; [by apply P5|]. intros ->. rewrite P5 in Hn by done. by destruct Hn.
  - by rewrite map_size_insert_Some.
Qed.

Lemma pinned_add bs datas H d n k y :
  pinned start bs datas H d → n ∉ bs → 0 <= n < Z.of_nat (length d) → ¬ log_area start n →
  (S (size H) < NBUF)%nat → Z.of_nat (length bs) < LOGSIZE - 1 →
  pinned start (bs ++ [n]) (datas ++ [y]) (<[n := mkheld k 1 false y]> H) d.
Proof.
  intros [P1 P2 P3 P4 P5 P6 P7] Hn Hr Ha Hsz Hl. split.
  - rewrite !length_app. simpl. lia.
  - apply NoDup_app. split; [done|]. split; [set_solver|apply NoDup_singleton].
  - intros b [Hb| ->%list_elem_of_singleton]%elem_of_app; [by apply P3|done].
  - intros j b x [Hj|[Hj1 Hj2]]%lookup_app_Some Hx.
    + pose proof (lookup_lt_Some _ _ _ Hj). rewrite lookup_app_l in Hx by lia.
      rewrite lookup_insert_ne; [by eapply P4|]. intros ->. by eapply Hn, list_elem_of_lookup_2.
    + rewrite lookup_app_r, <- P1 in Hx by lia. destruct (j - length bs)%nat; [|done].
      simplify_eq/=. exists k. apply lookup_insert_eq.
  - intros m Hm. rewrite lookup_insert_ne; [by apply P5|]. by intros ->.
  - destruct (H !! n) as [h|] eqn:E; [rewrite map_size_insert_Some by done; lia|].
    by rewrite map_size_insert_None.
  - rewrite length_app. simpl. lia.
Qed.

(** An open transaction of at most [k] blocks over the disk [d], in which the file
    system sees the disk [V]; the data but for log, buffers and disk is that of [g]. *)
Record txn_is (k : nat) (d V : disk) (l : log) (bs : list Z) (datas : list (list Z)) (H : gmap Z held) : Prop := {
  ti_open : open_txn bs datas H d l;
  ti_len : (length bs <= k)%nat;
  ti_one : log_outstanding l = 1;
  ti_quiet : log_committing l = 0;
  ti_view : V = applied (zip bs datas) d
}.

(** The blocks in use, those of [K] being locked, each in a buffer with a content. *)
Definition over (bs : list Z) (K : gmap Z (nat * list Z)) (H : gmap Z held) : gmap Z held :=
  map_imap (fun n c => Some (mkheld c.1 (if decide (n ∈ bs) then 2 else 1) true c.2)) K ∪ H.

Definition Open (k : nat) (g : sub) (d V : disk) (K : gmap Z (nat * list Z)) (g' : sub) : Prop :=
  ∃ l bs datas H, txn_is k d V l bs datas H ∧ Cache dev (g <| g_log := l |>) (over bs K H) d g'.

(** [k] is a bound. *)
Lemma open_more k k' g d V K g' : (k <= k')%nat → Open k g d V K g' → Open k' g d V K g'.
Proof.
  intros Hk (l & bs & datas & H & [T1 T2 T3 T4 T5] & Hg). exists l, bs, datas, H. split; [|done].
  split; try done. by apply (Nat.le_trans _ k).
Qed.

Lemma over_lookup bs K H n :
  over bs K H !! n =
  match K !! n with
  | Some c => Some (mkheld c.1 (if decide (n ∈ bs) then 2 else 1) true c.2)
  | None => H !! n
  end.
Proof.
  unfold over. rewrite lookup_union, map_lookup_imap. destruct (K !! n) as [c|]; simpl.
  - by destruct (H !! n).
  - by destruct (H !! n).
Qed.

Lemma over_empty bs H : over bs ∅ H = H.
Proof. apply map_eq. intros n. by rewrite over_lookup, lookup_empty. Qed.

Lemma over_insert bs K H n b y :
  over bs (<[n := (b, y)]> K) H = <[n := mkheld b (if decide (n ∈ bs) then 2 else 1) true y]> (over bs K H).
Proof.
  apply map_eq. intros m. rewrite over_lookup. destruct (decide (n = m)) as [->|Hne].
  - by rewrite !lookup_insert_eq.
  - rewrite !lookup_insert_ne by done. by rewrite over_lookup.
Qed.

(** Unlocking a block that is logged, and one that is not. *)
Lemma over_delete_in bs K H n h : H !! n = Some h → over bs (delete n K) H = <[n := h]> (over bs K H).
Proof.
  intros Hn. apply map_eq. intros m. rewrite over_lookup. destruct (decide (n = m)) as [->|Hne].
  - by rewrite lookup_insert_eq, lookup_delete_eq.
  - rewrite lookup_insert_ne, lookup_delete_ne by done. by rewrite over_lookup.
Qed.

Lemma over_delete_out bs K H n : H !! n = None → over bs (delete n K) H = delete n (over bs K H).
Proof.
  intros Hn. apply map_eq. intros m. rewrite over_lookup. destruct (decide (n = m)) as [->|Hne].
  - by rewrite !lookup_delete_eq.
  - rewrite !lookup_delete_ne by done. by rewrite over_lookup.
Qed.

(** A locked block may change below. *)
Lemma over_below bs K H n h : is_Some (K !! n) → over bs K (<[n := h]> H) = over bs K H.
Proof.
  intros [c Hc]. apply map_eq. intros m. rewrite !over_lookup. destruct (decide (n = m)) as [<-|Hne].
  - by rewrite Hc.
  - by rewrite lookup_insert_ne.
Qed.

Lemma over_logged bs K H n b y :
  K !! n = Some (b, y) → over (bs ++ [n]) K H = <[n := mkheld b 2 true y]> (over bs K H).
Proof.
  intros Hc. apply map_eq. intros m. rewrite over_lookup. destruct (decide (n = m)) as [<-|Hne].
  - rewrite Hc, lookup_insert_eq, decide_True; [done|set_solver].
  - rewrite lookup_insert_ne, over_lookup by done. destruct (K !! m) as [c|]; [|done].
    rewrite (decide_ext (m ∈ bs ++ [n]) (m ∈ bs)); [done|]. set_solver.
Qed.

Lemma over_size bs K H : (size (over bs K H) <= size K + size H)%nat.
Proof.
  assert (dom (over bs K H) ⊆ dom K ∪ dom H) as Hs%subseteq_size.
  { intros n [h Hn]%elem_of_dom. rewrite over_lookup in Hn. rewrite elem_of_union, !elem_of_dom.
    destruct (K !! n); eauto. }
  rewrite size_union_alt, !size_dom in Hs.
  assert (dom H ∖ dom K ⊆ dom H) as Hd%subseteq_size by set_solver. rewrite size_dom in Hd. lia.
Qed.

(** A logged block is in use with the content it will have. *)
Lemma txn_logged k d V l bs datas H i n :
  txn_is k d V l bs datas H → bs !! i = Some n →
  ∃ y b, datas !! i = Some y ∧ at_idx V n = Some y ∧ H !! n = Some (mkheld b 1 false y).
Proof.
  intros [[_ [P1 P2 P3 P4 _ _ _] _] _ _ _ ->] Hi. pose proof (lookup_lt_Some _ _ _ Hi).
  destruct (lookup_lt_is_Some_2 datas i) as [y Hy]; [lia|]. destruct (P4 i n y Hi Hy) as [b Hb].
  exists y, b. split; [done|]. split; [|done].
  apply (applied_at _ _ i); [rewrite fst_zip by lia; done| |apply lookup_zip_with_Some; eauto].
  intros [c z] Hw%elem_of_zip_l. by apply P3.
Qed.

(** Another one is not in use, and as it is on the disk. *)
Lemma txn_not_logged k d V l bs datas H n :
  txn_is k d V l bs datas H → n ∉ bs → 0 <= n → H !! n = None ∧ at_idx V n = at_idx d n.
Proof.
  intros [[_ [_ _ P3 _ _ _ _] Ho] _ _ _ ->] Hn Hr. split.
  - destruct (H !! n) eqn:E; [by apply Ho in E|done].
  - apply applied_other; [done|]. intros [c z] Hw%elem_of_zip_l. simpl. split; [by apply P3|]. by intros ->.
Qed.

Lemma safe_open_bread k g d V K n x (C : disk → Prop) :
  log_fits dev start d → at_idx V n = Some x → K !! n = None → (k + size K < NBUF)%nat → C d →
  safe (Open k g d V K) (bread dev n) C (fun b => Open k g d V (<[n := (b, x)]> K)).
Proof.
  intros [F1 F2 F3 F4] Hx HK Hsz HC g1 (l & bs & datas & H & Ht & Hg1).
  pose proof (at_idx_Some _ _ _ Hx) as Hr. rewrite (ti_view _ _ _ _ _ _ _ Ht), length_applied in Hr.
  pose proof (over_lookup bs K H n) as Ho. rewrite HK in Ho. destruct (decide (n ∈ bs)) as [Hmem|Hmem].
  - pose proof Hmem as [i Hi]%list_elem_of_lookup. destruct (txn_logged _ _ _ _ _ _ _ _ _ Ht Hi) as (y & b & _ & Hy & Hb).
    assert (y = x) as -> by congruence. rewrite Hb in Ho.
    destruct (step_bread_used dev _ _ _ n _ Ho eq_refl ltac:(simpl; lia) g1 Hg1) as (g2 & Hdo & Hg2).
    exists [], b, g2. split; [exact Hdo|]. split; [done|]. exists l, bs, datas, H. split; [done|].
    by rewrite over_insert, decide_True.
  - destruct (txn_not_logged _ _ _ _ _ _ _ n Ht Hmem ltac:(lia)) as [Hn Ed]. rewrite Ed in Hx. rewrite Hn in Ho.
    assert (size (over bs K H) < NBUF)%nat as Hroom.
    { pose proof (over_size bs K H). pose proof Ht as [[_ _ Honly] Hlen _ _ _]. pose proof (only_size bs H Honly). lia. }
    destruct (safe_bread_new dev patient _ _ _ n x C Ho Hroom Hx ltac:(lia) HC g1 Hg1) as (tr & b & g2 & Hdo & HCs & Hg2).
    exists tr, b, g2. split; [done|]. split; [done|]. exists l, bs, datas, H. split; [done|].
    by rewrite over_insert, decide_False.
Qed.

Lemma step_open_data k g d V K n b y f :
  K !! n = Some (b, y) → ∀ g1, Open k g d V K g1 →
  ∃ g2, does ∅ g1 (upd_buf b (fun b => b <| b_data ::= f |>)) [] ∅ tt g2 ∧ Open k g d V (<[n := (b, f y)]> K) g2.
Proof.
  intros HK g1 (l & bs & datas & H & Ht & Hg1). pose proof (over_lookup bs K H n) as Ho. rewrite HK in Ho.
  destruct (step_data dev _ _ _ n (mkheld b _ true y) b f Ho eq_refl g1 Hg1) as (g2 & Hdo & Hg2).
  exists g2. split; [exact Hdo|]. exists l, bs, datas, H. split; [done|]. by rewrite over_insert.
Qed.

Lemma safe_open_look k g d V K n b y C :
  K !! n = Some (b, y) →
  safe (Open k g d V K) (get_buf b) C (fun bf g' => b_data bf = y ∧ Open k g d V K g').
Proof.
  intros HK g1 (l & bs & datas & H & Ht & Hg1). pose proof (over_lookup bs K H n) as Ho. rewrite HK in Ho.
  destruct (safe_look dev _ _ _ n (mkheld b _ true y) b C Ho eq_refl g1 Hg1) as (tr & bf & g2 & Hdo & HCs & E & Hg2).
  exists tr, bf, g2. split; [exact Hdo|]. split; [done|]. split; [exact E|]. exists l, bs, datas, H. by split.
Qed.

Lemma step_open_brelse k g d V K n b y :
  K !! n = Some (b, y) → at_idx V n = Some y →
  ∀ g1, Open k g d V K g1 → ∃ g2, does ∅ g1 (brelse b) [] ∅ tt g2 ∧ Open k g d V (delete n K) g2.
Proof.
  intros HK Hy g1 (l & bs & datas & H & Ht & Hg1). pose proof (at_idx_Some _ _ _ Hy).
  pose proof (over_lookup bs K H n) as Ho. rewrite HK in Ho. destruct (decide (n ∈ bs)) as [Hmem|Hmem].
  - pose proof Hmem as [i Hi]%list_elem_of_lookup. destruct (txn_logged _ _ _ _ _ _ _ _ _ Ht Hi) as (y' & b' & Hyi & Hy' & Hb').
    assert (y' = y) as -> by congruence.
    destruct (step_brelse_more dev _ _ _ n (mkheld b 2 true y) b Ho eq_refl eq_refl ltac:(simpl; lia) g1 Hg1)
      as (g2 & Hdo & Hg2).
    exists g2. split; [done|]. exists l, bs, datas, (<[n := mkheld b 1 false y]> H).
    split; [|rewrite (over_delete_in _ _ _ _ _ (lookup_insert_eq _ _ _)), over_below by eauto; exact Hg2].
    destruct Ht as [[T1 T2 T3] T4 T5 T6 T7]. split; try done.
    split; [done| |intros m h [[<- _]|[_ Hm]]%lookup_insert_Some; [done|by eapply T3]].
    rewrite <- (list_insert_id datas i y Hyi). by apply (pinned_change bs datas H d i n b y).
  - destruct (txn_not_logged _ _ _ _ _ _ _ n Ht Hmem ltac:(lia)) as [Hn Ed]. rewrite Ed in Hy.
    destruct (step_brelse_last dev _ _ _ n (mkheld b 1 true y) b Ho eq_refl eq_refl eq_refl Hy g1 Hg1)
      as (g2 & Hdo & Hg2).
    exists g2. split; [done|]. exists l, bs, datas, H. split; [done|]. by rewrite over_delete_out.
Qed.

Lemma step_open_release k g d V K n b y :
  K !! n = None → at_idx V n = Some y →
  ∀ g1, Open k g d V (<[n := (b, y)]> K) g1 → ∃ g2, does ∅ g1 (brelse b) [] ∅ tt g2 ∧ Open k g d V K g2.
Proof.
  intros HK Hy g1 Hg1. rewrite <- (delete_insert_id K n (b, y) HK).
  by apply (step_open_brelse k g d V _ n b y (lookup_insert_eq _ _ _)).
Qed.

(** [log_write] makes the content of the buffer the one that the file system sees. *)
Lemma safe_open_log k g d V K n b y C :
  log_fits dev start d → Z.of_nat k < LOGSIZE - 1 → 0 <= n < Z.of_nat (length V) → ¬ log_area start n →
  K !! n = Some (b, y) →
  safe (Open k g d V K) (log_write b) C (fun _ => Open (S k) g d (<[Z.to_nat n := y]> V) K).
Proof.
  intros [F1 F2 F3 F4] Hk Hr Ha HK g1 (l & bs & datas & H & Ht & Hg1).
  pose proof Ht as [[Hin Hpin Honly] Hlen Eo Ec EV]. pose proof Hpin as [P1 P2 P3 P4 P5 P6 P7].
  rewrite EV, length_applied in Hr. pose proof (over_lookup bs K H n) as Ho. rewrite HK in Ho. simpl in Ho.
  assert (in_txn bs (g_log (g <| g_log := l |>))) as Hin1 by exact Hin.
  destruct (safe_log_write (g <| g_log := l |>) _ d bs n (mkheld b _ true y) C Hin1 ltac:(lia) Ho
    ltac:(simpl; case_decide; lia) ltac:(lia) g1 Hg1) as (tr & [] & g2 & Hdo & HC & l' & Hin' & Eo' & Ec' & Hg2).
  exists tr, tt, g2. split; [done|]. split; [done|]. simpl in Eo', Ec'. unfold absorb, pin in *.
  destruct (decide (n ∈ bs)) as [Hmem|Hmem].
  - pose proof Hmem as [i Hi]%list_elem_of_lookup. destruct (txn_logged _ _ _ _ _ _ _ _ _ Ht Hi) as (y' & b' & Hyi & _ & Hb').
    exists l', bs, (<[i := y]> datas), (<[n := mkheld b 1 false y]> H).
    split; [|rewrite over_below by eauto; exact Hg2]. split; [|lia|congruence|congruence|].
    + split; [done|by apply pinned_change|]. intros m h [[<- _]|[_ Hm]]%lookup_insert_Some; [done|by eapply Honly].
    + rewrite EV. symmetry. apply applied_change; [done|done|by apply P3|done].
  - rewrite Ho in Hg2. pose proof (only_size bs H Honly).
    exists l', (bs ++ [n]), (datas ++ [y]), (<[n := mkheld b 1 false y]> H).
    split; [|rewrite over_below by eauto; by rewrite (over_logged _ _ _ _ _ _ HK)].
    split; [|rewrite length_app; simpl; lia|congruence|congruence|].
    + split; [done|apply pinned_add; try done; unfold NBUF, LOGSIZE, MAXOPBLOCKS in *; lia|].
      intros m h [[<- _]|[_ Hm]]%lookup_insert_Some; [set_solver|]. apply Honly in Hm. set_solver.
    + rewrite EV, zip_with_app by lia. symmetry. apply (applied_snoc _ (n, y)).
Qed.

(** ** end_op *)

(** The log is empty and no operation is under way. *)
Record log_idle (l : log) : Prop := {
  id_log : log_is dev start [] l;
  id_array : length (lh_block (log_lh l)) = Z.to_nat LOGSIZE;
  id_size : log_size l = LOGSIZE;
  id_outstanding : log_outstanding l = 0;
  id_committing : log_committing l = 0
}.

(** The header on the disk lists nothing. *)
Definition clean_head (d : disk) : Prop :=
  ∃ hd, at_idx d start = Some hd ∧ length hd = Z.to_nat BSIZE ∧ word hd 0 = 0.

(** The transaction is over: the files are those of [V], nothing is in use, the log is
    idle, and nothing else of the kernel's data [g] has changed. *)
Definition txn_done (g : sub) (V : disk) (g' : sub) : Prop :=
  ∃ l d', Cache dev (g <| g_log := l |>) ∅ d' g' ∧ log_idle l ∧ same_files start d' V ∧ clean_head d'.

(** The log between [begin_op] and the end of the last operation. *)
Definition committing_log (g : sub) : sub :=
  g <| g_log ::= fun l => l <| log_outstanding ::= fun n => int (n - 1) |> <| log_committing := 1 |> |>.

(** [end_op] around the commit. *)
Lemma safe_end_op g H d C (J : sub → Prop) :
  log_outstanding (g_log g) = 1 → log_committing (g_log g) = 0 →
  safe (Cache dev (committing_log g) H d) commit C (fun _ => J) →
  (∀ g', J g' → ∃ g0 B d v, g' = gput g0 B d v) →
  safe (Cache dev g H d) end_op C
    (fun _ g' => ∃ g0, J g0 ∧ g' = g0 <| g_log ::= fun l => l <| log_committing := 0 |> |>).
Proof.
  intros Ho Hc Hcommit HJ ? (B & v & -> & Hb & Hv).
  destruct (Hcommit (gput (committing_log g) B d v)) as (tr & [] & g1 & Hdo & HC & Hg1); [by exists B, v|].
  destruct (HJ g1 Hg1) as (g0 & B1 & d1 & v1 & ->).
  exists tr, tt. eexists. split; [|split; [done|eexists; split; [exact Hg1|reflexivity]]]. unfold end_op.
  eapply does_step; [apply does_acquire; [apply known_log|done]|]. eapply does_step; [apply does_upd_log|].
  eapply does_step; [apply does_get_log|].
  match goal with |- context [negb ?b] => replace (negb b) with false by (simpl; by rewrite Hc) end. cbv iota.
  eapply does_step; [apply does_get_log|]. cbv zeta.
  match goal with |- context [?b =? 0] => replace (b =? 0) with true by (simpl; by rewrite Ho) end. cbv iota.
  eapply does_step; [apply does_upd_log|]. eapply does_step; [apply does_release_last; set_solver|]. cbn [when].
  rewrite <- (app_nil_r tr). eapply does_bind; [exact Hdo|].
  eapply does_step; [apply does_acquire; [apply known_log|done]|]. eapply does_step; [apply does_upd_log|].
  eapply does_step; [apply does_wakeup; split; set_solver|].
  apply (does_release_last ∅ _ log_lock). set_solver.
Qed.

Lemma unpinned_all bs (H : gmap Z held) : (∀ n h, H !! n = Some h → n ∈ bs) → unpinned bs H = ∅.
Proof.
  intros Ho. apply map_eq. intros n. rewrite unpinned_lookup, lookup_empty. case_decide; [done|].
  destruct (H !! n) as [h|] eqn:E; [|done]. by apply Ho in E.
Qed.

(** What the commit of an open transaction leaves. *)
Definition committed (bs : list Z) (datas : list (list Z)) (d : disk) (g : sub) (g' : sub) : Prop :=
  ∃ d', Cache dev (with_n 0 g) ∅ d' g' ∧ same_files start d' (applied (zip bs datas) d) ∧ clean_head d'.

Lemma safe_commit_txn g H d bs datas :
  log_is dev start bs (g_log g) → log_fits dev start d → pinned start bs datas H d →
  (∀ n h, H !! n = Some h → n ∈ bs) → clean_head d →
  safe (Cache dev g H d) commit (all_or_nothing start (zip bs datas) d) (fun _ => committed bs datas d g).
Proof.
  intros Hlog Hfit Hpin Honly (hd & Hhd & Hlen & Hw). pose proof Hlog as [E1 E2 E3 E4]. destruct bs as [|b bs'].
  - unfold commit. eapply safe_step; [apply step_get_log|]. rewrite E3. cbn [when].
    apply safe_ret. intros g1 (B & v & -> & Hc & Hv). exists d. split; [|split; [done|by exists hd]].
    assert (H = ∅) as ->.
    { apply map_eq. intros n. rewrite lookup_empty. destruct (H !! n) eqn:E; [|done].
      by apply Honly, elem_of_nil in E. }
    exists B, v. split; [|done]. unfold with_n. destruct g as [? ? ? ? ? ? ? l]. destruct l as [? ? ? ? ? lh]. destruct lh.
    simpl in E3. by subst.
  - eapply safe_post; [eapply (safe_commit dev start patient g H d (b :: bs') datas hd); try done; by rewrite Hw|].
    intros [] g' Hg'. rewrite unpinned_all in Hg' by done. eexists. split; [exact Hg'|].
    pose proof (pin_small _ _ _ _ _ Hpin) as Hsm. pose proof Hfit as [F1 F2 F3 F4].
    assert (4 * (1 + length (b :: bs')) <= length hd)%nat as Hblk.
    { rewrite Hlen. unfold LOGSIZE, MAXOPBLOCKS, BSIZE in *. lia. }
    assert (length (encode_head (b :: bs') hd) = length hd) as El.
    { unfold encode_head. rewrite length_put_words; rewrite length_set_word; lia. }
    split.
    + etrans; [apply same_files_log; [done|unfold log_area, LOGSIZE, MAXOPBLOCKS; lia]|].
      by apply same_files_applied, (logged_files dev start d (b :: bs') datas H hd).
    + exists (set_word 0 0 (encode_head (b :: bs') hd)). split; [|split].
      * apply at_idx_upd. rewrite length_applied, length_logged. unfold LOGSIZE, MAXOPBLOCKS in *. lia.
      * rewrite length_set_word; lia.
      * apply word_set_eq; lia.
Qed.

Lemma safe_end_op_txn g H d bs datas :
  open_txn bs datas H d (g_log g) → log_fits dev start d → clean_head d →
  log_outstanding (g_log g) = 1 → log_committing (g_log g) = 0 →
  safe (Cache dev g H d) end_op (all_or_nothing start (zip bs datas) d)
    (fun _ => txn_done g (applied (zip bs datas) d)).
Proof.
  intros [[Hlog Ha Hs Ho] Hpin Honly] Hfit Hclean Hone Hc.
  eapply safe_post; [apply (safe_end_op g H d _ (committed bs datas d (committing_log g))); [done|done| |]|].
  - apply (safe_commit_txn (committing_log g) H d bs datas); try done. by destruct Hlog.
  - intros g' (d' & (B & v & -> & _) & _). eauto.
  - intros [] g' (g0 & (d' & (B & v & -> & Hb & Hv) & Hsame & Hclean') & ->).
    exists ((g_log (with_n 0 (committing_log g))) <| log_committing := 0 |>), d'.
    split; [by exists B, v|]. split; [|done]. destruct Hlog. split; simpl; [|done|done| |done].
    + split; simpl; try done.
    + rewrite Hone. done.
Qed.

(** C7. The end_op of the last outstanding operation commits atomically: for every
    transaction of distinct pinned blocks outside the log it runs to its end with
    every block written, no buffer in use and the log idle, and at each disk request
    on the way the disk is one from which recovery gives all writes of the
    transaction or none of them. *)
Theorem end_op_atomic g H d bs datas :
  open_txn bs datas H d (g_log g) → log_fits dev start d → clean_head d →
  log_outstanding (g_log g) = 1 → log_committing (g_log g) = 0 →
  safe (Cache dev g H d) end_op
    (fun dk => same_files start (recovered start dk) d ∨
       same_files start (recovered start dk) (applied (zip bs datas) d))
    (fun _ => txn_done g (applied (zip bs datas) d)).
Proof. apply safe_end_op_txn. Qed.

(** ** A whole transaction *)

Lemma safe_open_begin g d C :
  log_idle (g_log g) → log_fits dev start d →
  safe (Cache dev g ∅ d) begin_op C (fun _ => Open 0 g d d ∅).
Proof.
  intros [Hlog Ha Hs Ho Hc] [F1 F2 F3 F4] ? (B & v & -> & Hb & Hv). pose proof Hlog as [E1 E2 E3 E4]. simpl in E3.
  assert (op_must_wait (g_log g) = false) as Hgo by (unfold op_must_wait; by rewrite Hc, Ho, E3).
  exists [], tt, (gput (g <| g_log ::= opened |>) B d v). split; [|split; [done|]].
  - exact (does_begin_op (gput g B d v) known_log Hgo).
  - exists (opened (g_log g)), [], [], ∅. rewrite over_empty. split; [|by exists B, v]. split; [|done|simpl; by rewrite Ho|done|done].
    split; [split; simpl; [by destruct Hlog|done|done|rewrite Ho; done]| |by intros m h; rewrite lookup_empty].
    split; try done; [constructor|by intros ? ?%elem_of_nil|rewrite map_size_empty; vm_compute; lia].
Qed.

Lemma safe_open_end k g d V :
  log_fits dev start d → clean_head d →
  safe (Open k g d V ∅) end_op
    (fun dk => same_files start (recovered start dk) d ∨ same_files start (recovered start dk) V)
    (fun _ => txn_done g V).
Proof.
  intros Hfit Hclean g1 (l & bs & datas & H & [T1 T2 T3 T4 ->] & Hg1).
  rewrite over_empty in Hg1.
  assert (open_txn bs datas H d (g_log (g <| g_log := l |>))) as T1' by exact T1.
  destruct (safe_end_op_txn (g <| g_log := l |>) H d bs datas T1' Hfit Hclean T3 T4 g1 Hg1) as (tr & a & g2 & Hdo & HC & Hg2).
  by exists tr, a, g2.
Qed.

(** Before the commit the disk is the old one. *)
Lemma clean_recovered d : log_fits dev start d → clean_head d → same_files start (recovered start d) d.
Proof. intros [? ? ? ?] (hd & Hhd & _ & Hw). apply (recovered_clean start d hd); [done|done|by rewrite Hw]. Qed.

Definition zero_block : list Z := replicate (Z.to_nat BSIZE) 0.

(** The transaction begin_op; bzero(dev, n); end_op, run from an idle log with a
    clean header on disk, is atomic: it runs to its end, leaves block n zero, the
    log idle and the header clean, and if the machine stops while the process waits
    for any of its disk requests, recovery from the disk of that moment gives the
    files from before the transaction or the files with block n zero. *)
Theorem bzero_atomic g d n :
  log_idle (g_log g) → log_fits dev start d → clean_head d →
  0 <= n < Z.of_nat (length d) → ¬ log_area start n →
  safe (Cache dev g ∅ d) (begin_op ;; bzero dev n ;; end_op)
    (fun dk => same_files start (recovered start dk) d ∨
       same_files start (recovered start dk) (<[Z.to_nat n := zero_block]> d))
    (fun _ => txn_done g (<[Z.to_nat n := zero_block]> d)).
Proof.
  intros Hidle Hfit Hclean Hn Hout. pose proof Hfit as [F1 F2 F3 F4].
  destruct (at_idx_lt d n Hn) as [x Hx]. unfold bzero. rewrite !uint_id by lia.
  eapply safe_bind; [by apply safe_open_begin|]. intros [].
  apply (safe_bind _ _ _ _ (fun _ => Open 1 g d (<[Z.to_nat n := zero_block]> d) ∅));
    [|intros []; by apply safe_open_end].
  eapply safe_bind; [apply safe_open_bread; [done|exact Hx|apply lookup_empty|rewrite map_size_empty; vm_compute; lia|left; by apply clean_recovered]|]. intros b.
  eapply safe_step; [apply step_open_data, lookup_insert_eq|].
  eapply safe_bind; [by apply safe_open_log; [..|apply lookup_insert_eq]|]. intros [].
  apply (safe_done _ _ tt). rewrite insert_insert_eq.
  apply step_open_release; [apply lookup_empty|]. apply at_idx_upd. lia.
Qed.

End txn.

(** ** A transaction on block 40 *)

Lemma ex_clean : clean_head 2 ex_disk.
Proof. by exists ex_block. Qed.

Lemma ex_log_idle : log_idle 1 2 ex_log.
Proof. by split; [split|..]. Qed.

Lemma ex_state_exists (f : sub → sub) g H d B :
  @cache (ex_world f) 1 H d B →
  ∃ g' s, Cache (W := ex_world f) 1 g H d g' ∧ @calm (ex_world f) (@awake (ex_world f)) ∅ g' s.
Proof.
  intros Hc. exists (gput g B d ex_vdisk), (ex_state (gput g B d ex_vdisk)). split; [|apply ex_calm].
  exists B, ex_vdisk. split; [done|]. split; [done|exact ex_idle].
Qed.

Lemma bzero_atomic_witness :
  (∃ g s, Cache (W := disk_world) 1 ex_sub ∅ ex_disk g ∧ @calm disk_world (@awake disk_world) ∅ g s) ∧
  safe (W := disk_world) (Cache (W := disk_world) 1 ex_sub ∅ ex_disk)
    (@begin_op 1%nat ;; @bzero 1%nat 1 40 ;; @end_op 1%nat)
    (fun dk => same_files 2 (recovered 2 dk) ex_disk ∨
       same_files 2 (recovered 2 dk) (<[40%nat := zero_block]> ex_disk))
    (fun _ => txn_done (W := disk_world) 1 2 ex_sub (<[40%nat := zero_block]> ex_disk)).
Proof.
  split; [by eapply ex_state_exists, ex_cache|].
  apply (@bzero_atomic disk_world ex_disk_world 1%nat 1 2 (le_n 1) ex_sub ex_disk 40).
  - exact ex_log_idle.
  - by apply ex_fits.
  - exact ex_clean.
  - vm_compute. split; discriminate || reflexivity.
  - unfold log_area, LOGSIZE, MAXOPBLOCKS. lia.
Defined.

(** Block 40 in use, changed and logged. *)
Definition ex_pinned : gmap Z held := {[ 40 := mkheld 0 1 false ex_ones ]}.

Definition ex_pinned_bufs : list buf :=
  <[0%nat := (ex_buf 0) <| b_dev := 1 |> <| b_blockno := 40 |> <| b_valid := 1 |> <| b_refcnt := 1 |>
               <| b_data := ex_ones |>]> ex_bufs.

Lemma ex_pinned_cache `{W : World} d : cache 1 ex_pinned d ex_pinned_bufs.
Proof.
  apply (cache_take 1 ∅ d ex_bufs 40 (mkheld 0 1 false ex_ones) (ex_buf 0)).
  - by apply ex_cache.
  - done.
  - exact (Nat.lt_0_succ 29).
  - reflexivity.
  - intros m k. by rewrite lookup_empty.
  - intros b f _ (E & _)%ex_bufs_lookup. congruence.
  - done.
  - done.
  - by split.
Qed.

Definition ex_open_log : log :=
  mklog 2 LOGSIZE 1 0 1 (mklogheader 1 (<[0%nat := 40]> (replicate (Z.to_nat LOGSIZE) 0))).

Lemma ex_in_txn : in_txn 1 2 [40] ex_open_log.
Proof.
  split; [split|..]; try done. intros [|i] b; [by intros [= <-]|done].
Qed.

Lemma ex_open : open_txn 1 2 [40] [ex_ones] ex_pinned ex_disk ex_open_log.
Proof.
  split.
  - exact ex_in_txn.
  - split; try done.
    + apply NoDup_singleton.
    + intros b ->%list_elem_of_singleton. unfold log_area, LOGSIZE, MAXOPBLOCKS, ex_disk.
      rewrite length_replicate. lia.
    + intros [|i] b x; [|done]. intros [= <-] [= <-]. by exists 0%nat.
    + intros n Hn. unfold ex_pinned. apply lookup_singleton_None. intros <-.
      unfold log_area, LOGSIZE, MAXOPBLOCKS in Hn. lia.
    + unfold ex_pinned. rewrite map_size_singleton. vm_compute. lia.
  - unfold ex_pinned. intros n h [<- _]%lookup_singleton_Some. set_solver.
Qed.

Lemma end_op_atomic_witness :
  (∃ g s, Cache (W := disk_world) 1 (ex_sub <| g_log := ex_open_log |>) ex_pinned ex_disk g ∧
     @calm disk_world (@awake disk_world) ∅ g s) ∧
  safe (W := disk_world) (Cache (W := disk_world) 1 (ex_sub <| g_log := ex_open_log |>) ex_pinned ex_disk)
    (@end_op 1%nat)
    (fun dk => same_files 2 (recovered 2 dk) ex_disk ∨
       same_files 2 (recovered 2 dk) (applied (zip [40] [ex_ones]) ex_disk))
    (fun _ => txn_done (W := disk_world) 1 2 (ex_sub <| g_log := ex_open_log |>) (applied (zip [40] [ex_ones]) ex_disk)).
Proof.
  split; [eapply ex_state_exists, ex_pinned_cache|].
  apply (@end_op_atomic disk_world ex_disk_world 1%nat 1 2 (le_n 1)).
  - exact ex_open.
  - by apply ex_fits.
  - exact ex_clean.
  - reflexivity.
  - reflexivity.
Defined.

(** A second [log_write] of block 40 changes nothing. *)
Lemma log_write_absorbs_witness :
  absorb 40 [40] = [40] ∧ pin 40 [40] ex_pinned = ex_pinned ∧
  safe (W := disk_world) (Cache (W := disk_world) 1 (ex_sub <| g_log := ex_open_log |>) ex_pinned ex_disk)
    (log_write 0) (fun _ => False)
    (fun _ g' => ∃ l', in_txn 1 2 (absorb 40 [40]) l' ∧ log_outstanding l' = 1 ∧ log_committing l' = 0 ∧
       Cache (W := disk_world) 1 (ex_sub <| g_log := ex_open_log |> <| g_log := l' |>)
         (pin 40 [40] ex_pinned) ex_disk g').
Proof.
  split; [reflexivity|]. split; [reflexivity|].
  refine (@log_write_absorbs disk_world ex_disk_world 1 2 (ex_sub <| g_log := ex_open_log |>)
    ex_pinned ex_disk [40] 40 (mkheld 0 1 false ex_ones) ex_in_txn _ _ _ _).
  - vm_compute. reflexivity.
  - reflexivity.
  - reflexivity.
  - lia.
Defined.

(** The surroundings of the example: a commit ends and three other operations begin;
    then one of them ends at a time. *)
Definition ex_others (g : sub) : sub :=
  g <| g_log ::= fun l =>
    if log_committing l =? 0 then l <| log_outstanding ::= fun n => Z.max 0 (n - 1) |>
    else l <| log_committing := 0 |> <| log_outstanding := 3 |> <| log_lh := (log_lh l) <| lh_n := 0 |> |> |>.

Definition ex_committing : sub :=
  ex_sub <| g_log ::= fun l => l <| log_committing := 1 |> <| log_lh := (log_lh l) <| lh_n := 5 |> |> |>.

Lemma ex_others_small g : small_log (g_log g) → small_log (g_log (ex_others g)).
Proof. unfold small_log, ex_others. simpl. destruct (log_committing (g_log g) =? 0); simpl; lia. Qed.

Lemma begin_op_reserves_witness :
  ∃ s', play (@env (ex_world ex_others)) (@begin_op 2%nat (ex_state ex_committing)) =
      ([g_disk ex_sub; g_disk ex_sub], Some (tt, s')) ∧
    log_outstanding (g_log (k_sub s')) = 3.
Proof.
  pose proof (@begin_op_reserves (ex_world ex_others) 2%nat ex_others ex_committing (ex_state ex_committing)
    (known_global ex_others "log" ltac:(set_solver))
    (fun g Hg => conj (ex_wakes_to ex_others PLog g) (ex_others_small g Hg))) as H.
  assert (small_log (g_log ex_committing)) as Hs by (unfold small_log; simpl; lia).
  specialize (H Hs (ex_calm ex_others ex_committing)).
  destruct (play (@env (ex_world ex_others)) (@begin_op 2%nat (ex_state ex_committing))) as [tr [[[] s']|]].
  - destruct H as (Etr & Hw & Ha & Hc). destruct tr as [|d0 [|d1 [|d2 tr]]].
    + destruct Ha as [Ha _]. discriminate Ha.
    + destruct Ha as [_ Ha]. vm_compute in Ha. by destruct Ha.
    + exists s'. split; [by rewrite Etr|]. by rewrite (calm_sub _ _ _ _ Hc).
    + exfalso. apply (Hw 2%nat); [simpl; lia|]. by vm_compute.
  - exfalso. apply (H 2%nat); [done|]. by vm_compute.
Defined.
