(* ===== verification/FileProofs.v ===== *)
(** The contents of files: readi reads and writei writes the bytes of the blocks that
    an inode lists, directly and through its indirect block, in the buffer cache and
    inside a transaction; a writei between begin_op and end_op is atomic. *)

From Stdlib Require Import Ascii.
From stdpp Require Import base gmap strings numbers list.
From S2P Require Import Prelude Spinlock Kstate Mlfq Sched Boot Switch CString Globals Kalloc Vm VmProofs UserMem Sleeplock Virtio Bio Log Fs FsProofs Runs VirtioProofs BioProofs LogProofs Recovery Txn.
Local Open Scope Z_scope.

(** * Bytes of a list of blocks *)

(** [l] with [x] written at [off]. *)
Definition patch {A} (off : nat) (x l : list A) : list A := take off l ++ x ++ drop (off + length x) l.

Section blocks.
Context {A : Type} (n : nat).
Implicit Types (bs : list (list A)) (x : list A).

Lemma length_concat bs : Forall (fun x => length x = n) bs → length (concat bs) = (n * length bs)%nat.
Proof. induction 1 as [|x bs Hx _ IH]; simpl; [lia|]. rewrite length_app, IH, Hx. lia. Qed.

(** Block [k] lies at [n * k]. *)
Lemma concat_split bs k x :
  Forall (fun x => length x = n) bs → bs !! k = Some x →
  concat bs = concat (take k bs) ++ x ++ concat (drop (S k) bs) ∧ length (concat (take k bs)) = (n * k)%nat.
Proof.
  intros Hf Hk. split.
  - rewrite <- (take_drop_middle bs k x Hk) at 1. by rewrite concat_app.
  - rewrite length_concat by (by apply Forall_take). rewrite length_take_le; [done|].
    apply lookup_lt_Some in Hk. lia.
Qed.

(** A slice inside one block. *)
Lemma concat_slice bs k x o m :
  Forall (fun x => length x = n) bs → bs !! k = Some x → (o + m <= n)%nat →
  take m (drop (n * k + o) (concat bs)) = take m (drop o x).
Proof.
  intros Hf Hk Ho. destruct (concat_split bs k x Hf Hk) as [-> Hl].
  assert (length x = n) as Hx by (rewrite Forall_forall in Hf; apply Hf; by eapply list_elem_of_lookup_2).
  rewrite <- drop_drop, drop_app_length' by done.
  rewrite drop_app_le by lia. apply take_app_le. rewrite length_drop. lia.
Qed.

Lemma length_patch off x (l : list A) : (off + length x <= length l)%nat → length (patch off x l) = length l.
Proof. intros H. unfold patch. rewrite !length_app, length_take_le, length_drop by lia. lia. Qed.

(** Writing inside one block. *)
Lemma concat_patch bs k y o x :
  Forall (fun x => length x = n) bs → bs !! k = Some y → (o + length x <= n)%nat →
  concat (<[k := patch o x y]> bs) = patch (n * k + o) x (concat bs).
Proof.
  intros Hf Hk Ho. destruct (concat_split bs k y Hf Hk) as [E Hl].
  assert (length y = n) as Hy by (rewrite Forall_forall in Hf; apply Hf; by eapply list_elem_of_lookup_2).
  rewrite insert_take_drop by (by eapply lookup_lt_Some). rewrite concat_app. simpl. rewrite E.
  unfold patch. rewrite take_app_ge, Hl by lia. replace (n * k + o - n * k)%nat with o by lia.
  rewrite take_app_le by lia. rewrite drop_app_ge, Hl by lia.
  replace (n * k + o + length x - n * k)%nat with (o + length x)%nat by lia.
  rewrite drop_app_le by lia. by rewrite <- !app_assoc.
Qed.

(** Writing in two steps. *)
Lemma patch_patch off x1 x2 (l : list A) :
  (off + length x1 + length x2 <= length l)%nat →
  patch (off + length x1) x2 (patch off x1 l) = patch off (x1 ++ x2) l.
Proof.
  intros Hl. unfold patch.
  assert (length (take off l) = off) as Ht by (rewrite length_take_le; lia).
  rewrite (app_assoc (take off l) x1) at 1. rewrite take_app_length' by (rewrite length_app; lia).
  rewrite (app_assoc (take off l) x1), drop_app_ge by (rewrite length_app; lia).
  rewrite drop_drop, length_app, Ht, length_app, <- !app_assoc. do 3 f_equal. f_equal. lia.
Qed.

Lemma patch_app off x (l r : list A) : (off + length x <= length l)%nat → patch off x l ++ r = patch off x (l ++ r).
Proof.
  intros Hl. unfold patch. rewrite take_app_le, drop_app_le by lia. by rewrite <- !app_assoc.
Qed.
End blocks.

(** * Reading blocks *)

Section reader.
Context `{DW : DiskWorld} `{Pat : Patience} (dev : Z).

(** What the code that reads files relies on: in the states [I] the blocks are those of
    [V] and the inodes are [inodes]; bread gives a block, in the states [H n b x] in
    which it is locked, until brelse.  [C] holds of the disk at every wait. *)
Record reader (C : disk → Prop) (I : sub → Prop) (H : Z → nat → list Z → sub → Prop)
    (V : Z → option (list Z)) (inodes : list inode) : Prop := {
  rd_bread : ∀ n x, V n = Some x → safe I (bread dev n) C (fun b => H n b x);
  rd_look : ∀ n b x, safe (H n b x) (get_buf b) C (fun bf g => b_data bf = x ∧ H n b x g);
  rd_brelse : ∀ n b x, V n = Some x → ∀ g1, H n b x g1 → ∃ g2, does ∅ g1 (brelse b) [] ∅ tt g2 ∧ I g2;
  rd_inodes : ∀ g1, I g1 → g_inodes g1 = inodes
}.

(** ** The cache outside a transaction *)

Definition Locked (g : sub) (H : gmap Z held) (d : disk) (n : Z) (b : nat) (x : list Z) (g' : sub) : Prop :=
  match H !! n with
  | Some h => b = h_buf h ∧ x = h_data h ∧
      Cache dev g (<[n := h <| h_ref := h_ref h + 1 |> <| h_locked := true |>]> H) d g'
  | None => Cache dev g (<[n := mkheld b 1 true x]> H) d g'
  end.

(** Nothing is locked, and a buffer is left. *)
Definition readable (H : gmap Z held) (d : disk) : Prop :=
  (∀ n h, H !! n = Some h → h_locked h = false ∧ 0 < h_ref h < 2 ^ 31 - 1) ∧ (size H < NBUF)%nat ∧
  Z.of_nat (length d) < 2 ^ 31.

Lemma cache_reader g H d (C : disk → Prop) :
  (0 < patience)%nat → readable H d → C d →
  reader C (Cache dev g H d) (Locked g H d) (contents H d) (g_inodes g).
Proof.
  intros Hp (Hun & Hsz & Hd) HC. unfold contents, Locked. split.
  - intros n x Hx g1 Hg1. destruct (H !! n) as [h|] eqn:E.
    + injection Hx as <-. destruct (Hun n h E) as [Hl Hr].
      destruct (step_bread_used dev g H d n h E Hl ltac:(lia) g1 Hg1) as (g2 & Hdo & Hg2).
      exists [], (h_buf h), g2. by split_and!.
    + pose proof (at_idx_Some _ _ _ Hx). by apply (safe_bread_new dev Hp g H d n x C E Hsz Hx ltac:(lia) HC g1).
  - intros n b x. destruct (H !! n) as [h|] eqn:E.
    + apply safe_pure. intros ->. apply safe_pure. intros ->.
      eapply safe_post; [eapply (safe_look dev _ _ _ n); [apply lookup_insert_eq|done]|]. by intros bf g' [-> Hg].
    + apply (safe_look dev _ _ _ n (mkheld b 1 true x)); [apply lookup_insert_eq|done].
  - intros n b x Hx g1 Hg1. destruct (H !! n) as [h|] eqn:E.
    + destruct Hg1 as (-> & _ & Hg1). destruct (Hun n h E) as [Hl Hr].
      set (h' := h <| h_ref := h_ref h + 1 |> <| h_locked := true |>) in Hg1.
      assert (h_locked h' = true ∧ h_buf h' = h_buf h ∧ 1 < h_ref h') as (H1 & H2 & H3) by (simpl; lia).
      destruct (step_brelse_more dev _ _ _ n h' (h_buf h) (lookup_insert_eq _ _ _) H2 H1 H3 g1 Hg1) as (g2 & Hdo & Hg2).
      exists g2. split; [done|]. rewrite insert_insert_eq in Hg2. simpl in Hg2.
      replace (h_ref h + 1 - 1) with (h_ref h) in Hg2 by lia. rewrite insert_id in Hg2; [done|].
      rewrite E. destruct h. simpl in *. by subst.
    + destruct (step_brelse_last dev _ _ _ n (mkheld b 1 true x) b (lookup_insert_eq _ _ _) eq_refl eq_refl eq_refl Hx g1 Hg1)
        as (g2 & Hdo & Hg2).
      exists g2. split; [done|]. by rewrite delete_insert_id in Hg2.
  - by intros ? (B & v & -> & _).
Qed.

(** ** The cache inside a transaction *)

Lemma open_reader start k g d V (C : disk → Prop) :
  (0 < patience)%nat → log_fits dev start d → (k < NBUF)%nat → C d →
  reader C (Open dev start k g d V ∅) (fun n b x => Open dev start k g d V {[n := (b, x)]}) (at_idx V) (g_inodes g).
Proof.
  intros Hp Hfit Hk HC. split.
  - intros n x Hx. apply safe_open_bread; try done. rewrite map_size_empty. lia.
  - intros n b x. apply (safe_open_look _ _ _ _ _ _ _ n), lookup_singleton_eq.
  - intros n b x Hx. by apply step_open_release.
  - by intros g1 (l & bs & datas & H & _ & B & v & -> & _).
Qed.
End reader.

(** * Files *)

(** The blocks of the inode [ip] on the disk [V] are [addrs], in order. *)
Record file_at (V : Z → option (list Z)) (ip : inode) (addrs : list Z) : Prop := {
  fa_len : Z.of_nat (length addrs) <= MAXFILE;
  fa_direct : ∀ k a, (k < NDIRECT)%nat → addrs !! k = Some a → i_addrs ip !! k = Some a;
  fa_indirect : (NDIRECT < length addrs)%nat →
    ∃ ia x, i_addrs ip !! NDIRECT = Some ia ∧ ia ≠ 0 ∧ ia ∉ addrs ∧ V ia = Some x ∧
      ∀ k a, addrs !! (NDIRECT + k)%nat = Some a → word x k = a;
  fa_blocks : ∀ a, a ∈ addrs → a ≠ 0 ∧ ∃ x, V a = Some x ∧ length x = Z.to_nat BSIZE;
  fa_nodup : NoDup addrs
}.

Definition blocks_of (V : Z → option (list Z)) (addrs : list Z) : list (list Z) := (fun a => default [] (V a)) <$> addrs.

(** The bytes of the blocks; the file is the first [i_size] of them. *)
Definition bytes_of (V : Z → option (list Z)) (addrs : list Z) : list Z := concat (blocks_of V addrs).

Lemma blocks_of_length V ip addrs :
  file_at V ip addrs → Forall (fun x => length x = Z.to_nat BSIZE) (blocks_of V addrs).
Proof.
  intros Hf. apply Forall_fmap, Forall_forall. intros a Ha. simpl.
  by destruct (fa_blocks _ _ _ Hf a Ha) as (_ & x & -> & Hx).
Qed.

Lemma bytes_of_length V ip addrs :
  file_at V ip addrs → Z.of_nat (length (bytes_of V addrs)) = BSIZE * Z.of_nat (length addrs).
Proof.
  intros Hf. unfold bytes_of. rewrite (length_concat (Z.to_nat BSIZE)) by (by eapply blocks_of_length).
  unfold blocks_of. rewrite length_fmap. unfold BSIZE. lia.
Qed.

(** The block of an offset. *)
Lemma file_block V ip addrs off :
  file_at V ip addrs → 0 <= off < BSIZE * Z.of_nat (length addrs) →
  ∃ a x, addrs !! Z.to_nat (off / BSIZE) = Some a ∧ a ≠ 0 ∧ V a = Some x ∧ length x = Z.to_nat BSIZE ∧
    blocks_of V addrs !! Z.to_nat (off / BSIZE) = Some x ∧
    Z.to_nat off = (Z.to_nat BSIZE * Z.to_nat (off / BSIZE) + Z.to_nat (off mod BSIZE))%nat.
Proof.
  intros Hf Ho. assert (0 <= off / BSIZE < Z.of_nat (length addrs)) as Hk.
  { split; [apply Z.div_pos; unfold BSIZE; lia|]. apply Z.div_lt_upper_bound; [done|lia]. }
  destruct (lookup_lt_is_Some_2 addrs (Z.to_nat (off / BSIZE))) as [a Ha]; [lia|].
  destruct (fa_blocks _ _ _ Hf a) as (Hz & x & Hx & Hl); [by eapply list_elem_of_lookup_2|].
  exists a, x. split_and!; try done.
  - unfold blocks_of. rewrite list_lookup_fmap, Ha. simpl. by rewrite Hx.
  - pose proof (Z.div_mod off BSIZE ltac:(done)). pose proof (Z.mod_pos_bound off BSIZE ltac:(done)). unfold BSIZE in *. lia.
Qed.

(** Turns left in the loops of readi and writei after [m] more bytes. *)
Lemma turns_left off r fuel m :
  0 <= off → 0 < r → m = Z.min r (BSIZE - off mod BSIZE) → off mod BSIZE + r <= BSIZE * Z.of_nat (S fuel) →
  r - m = 0 ∨ (off + m) mod BSIZE + (r - m) <= BSIZE * Z.of_nat fuel.
Proof.
  intros Ho Hr -> Hf. pose proof (Z.mod_pos_bound off BSIZE ltac:(done)).
  destruct (Z.min_spec r (BSIZE - off mod BSIZE)) as [[_ ->]|[_ ->]]; [left; lia|right].
  replace ((off + (BSIZE - off mod BSIZE)) mod BSIZE) with 0; [lia|].
  rewrite (Z.div_mod off BSIZE) at 1 by done.
  replace (BSIZE * (off / BSIZE) + off mod BSIZE + (BSIZE - off mod BSIZE)) with ((off / BSIZE + 1) * BSIZE) by lia.
  by rewrite Z_mod_mult.
Qed.

(** * Destinations *)

Lemma sub_ram g : g <| g_ram := g_ram g |> = g.
Proof. by destruct g. Qed.

Section sink.
Context `{W : World} `{L : Layout}.

(** The page table of the process. *)
Definition upagetable : Z := mine.1.1.1.1.2.

(** [dst + k]. *)
Definition dst_at (dst : iodst) (k : Z) : iodst :=
  match dst with DUser va => DUser (va + k) | DRam pa => DRam (pa + k) | DLocal => DLocal end.

(** The memory [m], for [n] bytes at [dst]: for a user address the page table of the
    process is in order, for a kernel address the bytes are there. *)
Definition takes (dst : iodst) (n : Z) (m : mem) : Prop :=
  match dst with
  | DUser va => 0 <= va < 2 ^ 64 ∧
      ∃ s tbl pages, g_ram (k_sub s) = m ∧ vm_inv s upagetable tbl pages ∧ user_inv m upagetable tbl pages
  | DRam pa => 0 <= pa ∧ pa + n < 2 ^ 64 ∧ mapped pa n m
  | DLocal => True
  end.

(** The bytes [l] have been put at [dst]: the memory was [m] and is [m'].  [r] is how
    many they are, or -1 when the user may not write at one of the addresses; the
    bytes in front of the first such address are written then. *)
Definition put (dst : iodst) (l : list Z) (m : mem) (r : Z) (m' : mem) : Prop :=
  match dst with
  | DUser va => ∃ k, uwritten m m' upagetable va l k ∧
      (r = Z.of_nat (length l) ∧ k = length l ∨
       r = -1 ∧ (k < length l)%nat ∧ ¬ uwritable m upagetable (va + Z.of_nat k))
  | DRam pa => r = Z.of_nat (length l) ∧ bytes_at pa l m' ∧
      ∀ x, ¬ (pa <= x < pa + Z.of_nat (length l)) → m' !! x = m !! x
  | DLocal => r = Z.of_nat (length l) ∧ m' = m
  end.

Lemma dst_at_0 dst : dst_at dst 0 = dst.
Proof. destruct dst; simpl; by rewrite ?Z.add_0_r. Qed.

Lemma dst_at_at dst j k : dst_at (dst_at dst j) k = dst_at dst (j + k).
Proof. destruct dst; simpl; by rewrite ?Z.add_assoc. Qed.

Lemma put_nil dst m : put dst [] m 0 m.
Proof.
  destruct dst; simpl; [|done..]. exists 0%nat. split; [apply uwritten_nil|by left].
Qed.

Lemma put_count dst l m r m' : put dst l m r m' → r = Z.of_nat (length l) ∨ r = -1.
Proof. destruct dst; simpl; [intros (k & _ & Hr)|intros [-> _]..]; tauto. Qed.

Lemma put_fail dst l l' m m' : put dst l m (-1) m' → put dst (l ++ l') m (-1) m'.
Proof.
  destruct dst; simpl; [|lia..]. intros (k & (H1 & H2 & H3) & [?|(_ & Hk & Hw)]); [lia|]. exists k.
  split; [|right; rewrite length_app; split_and!; [done|lia|done]]. split; [done|]. split; [done|]. intros x. rewrite H3.
  case_decide; [|done]. by rewrite lookup_app_l by lia.
Qed.

Lemma put_app dst l l' m m1 m2 r :
  put dst l m (Z.of_nat (length l)) m1 → put (dst_at dst (Z.of_nat (length l))) l' m1 r m2 →
  put dst (l ++ l') m (if r =? -1 then -1 else Z.of_nat (length l) + r) m2.
Proof.
  destruct dst as [va|pa|]; simpl; rewrite length_app, Nat2Z.inj_add.
  - intros (k & H1 & [[_ ->]|?]) (k' & H2 & Hr); [|lia]. exists (length l + k')%nat. split.
    + eapply uwritten_trans; [rewrite length_app; lia|by rewrite take_app_length|by rewrite drop_app_length].
    + rewrite Nat2Z.inj_add, Z.add_assoc. rewrite (uwritable_leaf _ _ _ _ (proj1 H1)) in Hr.
      destruct Hr as [[-> ->]|(-> & Hk & Hw)]; [left|right; split_and!; [done|lia|done]].
      destruct (Z.eqb_spec (Z.of_nat (length l')) (-1)); [lia|]. lia.
  - intros (_ & H1 & H2) (-> & H3 & H4). destruct (Z.eqb_spec (Z.of_nat (length l')) (-1)); [lia|]. split_and!; [done| |].
    + intros i b [Hb|[Hi Hb]]%lookup_app_Some.
      * pose proof (lookup_lt_Some _ _ _ Hb). rewrite H4 by lia. by apply H1.
      * rewrite <- (H3 _ _ Hb). f_equal. lia.
    + intros x Hx. rewrite H4, H2 by lia. done.
  - intros [_ ->] [-> ->]. destruct (Z.eqb_spec (Z.of_nat (length l')) (-1)); [lia|]. done.
Qed.

Lemma uwritten_below m m' root va l k :
  uwritten m m' root va l k → (0 < k)%nat → va + Z.of_nat k <= MAXVA.
Proof.
  intros (_ & Hw & _) Hk. destruct (Hw (va + Z.of_nat k - 1)) as [Hva _]; lia.
Qed.

Lemma does_mypagetable g : does ∅ g mypagetable [] ∅ upagetable g.
Proof. apply (does_my ∅ g p_pagetable upagetable). intros p [_ E]. unfold upagetable. by rewrite <- E. Qed.

Lemma does_stores {A} (m : K A) s a t g :
  stores m → m s = Ret a t → g_ram g = g_ram (k_sub s) → does ∅ g m [] ∅ a (g <| g_ram := g_ram (k_sub t) |>).
Proof.
  intros Hm E Hg. apply triple_Ret. intros s' Hs'. eexists _, _.
  split; [apply (Hm _ _ _ E); by rewrite (calm_sub _ _ _ _ Hs')|]. split; [done|].
  by apply (calm_upd _ _ _ _ (fun g => g <| g_ram := g_ram (k_sub t) |>)).
Qed.

Lemma does_with_ram f g m' : f (g_ram g) = Some m' → does ∅ g (with_ram f) [] ∅ tt (g <| g_ram := m' |>).
Proof.
  intros Hf. apply triple_Ret. intros s Hs. eexists _, _.
  split; [unfold with_ram; by rewrite (calm_sub _ _ _ _ Hs), Hf|]. split; [done|].
  exact (calm_upd _ _ g s (fun g => g <| g_ram := m' |>) Hs).
Qed.

(** One copy, with [n] more bytes to come. *)
Lemma does_copyout dst tot l n g :
  takes (dst_at dst tot) (Z.of_nat (length l) + n) (g_ram g) → 0 <= n →
  ∃ c r m', does ∅ g (either_copyout dst tot l) [] ∅ c (g <| g_ram := m' |>) ∧
    put (dst_at dst tot) l (g_ram g) r m' ∧
    (c = 0 ∧ r = Z.of_nat (length l) ∧ takes (dst_at dst (tot + Z.of_nat (length l))) n m' ∨ c = -1 ∧ r = -1).
Proof.
  unfold either_copyout. destruct dst as [va|pa|]; cbn [dst_at takes put]; intros Ht Hn.
  - destruct Ht as (Hva & s & tbl & pages & Hm & Hv & Hu). rewrite <- Hm in Hu.
    destruct (copyout_loop_run (S (length l)) s upagetable tbl pages (va + tot) l ltac:(lia) Hv Hu Hva)
      as (c & k & s' & Hr & Hv' & Hu' & _ & Hw & Hres). rewrite Hm in Hw, Hres.
    exists c, (if c =? 0 then Z.of_nat (length l) else -1), (g_ram (k_sub s')). split_and!.
    + eapply does_step; [apply does_mypagetable|]. cbv beta iota. rewrite uint64_small by lia.
      by apply (does_stores _ s); [apply stores_copyout|..].
    + exists k. split; [done|]. destruct Hres as [[-> ->]|(-> & Hres)]; [by left|by right].
    + destruct Hres as [[-> ->]|(-> & _)]; [left|by right]. split; [done|]. split; [done|]. split; [|by exists s', tbl, pages].
      destruct (decide (length l = 0%nat)); [lia|]. pose proof (uwritten_below _ _ _ _ _ _ Hw ltac:(lia)).
      assert (MAXVA = 2 ^ 38) by done. lia.
  - destruct Ht as (Hpa & Hmax & Hm). destruct (write_bytes_spec l (pa + tot) (g_ram g)) as (m' & Hr & Hb & Ho).
    { eapply mapped_sub; [exact Hm|lia|lia]. }
    exists 0, (Z.of_nat (length l)), m'. split_and!; [|done..|left; split_and!; [done|done|lia|lia|]].
    + eapply does_step; [apply does_mypagetable|]. cbv beta iota. rewrite uint64_small by lia.
      eapply does_step; [by apply does_with_ram|apply does_ret].
    + intros i Hi. rewrite Ho by lia. replace (pa + (tot + Z.of_nat (length l)) + i) with (pa + tot + (Z.of_nat (length l) + i)) by lia.
      apply Hm. lia.
  - exists 0, (Z.of_nat (length l)), (g_ram g). split_and!; [|done..|by left].
    rewrite sub_ram. eapply does_step; [apply does_mypagetable|apply does_ret].
Qed.
End sink.

Section read.
Context `{DW : DiskWorld} `{Pat : Patience} (dev : Z).
Context (C : disk → Prop) (I : sub → Prop) (H : Z → nat → list Z → sub → Prop).
Context (V : Z → option (list Z)) (inodes : list inode).
Hypothesis Hrd : reader dev C I H V inodes.
Context (i : nat) (ip : inode) (addrs : list Z).
Hypothesis Hip : inodes !! i = Some ip.
Hypothesis Hdev : i_dev ip = dev.
Hypothesis Hfile : file_at V ip addrs.

Lemma step_inode : ∀ g1, I g1 → ∃ g2, does ∅ g1 (get_inode i) [] ∅ ip g2 ∧ I g2.
Proof.
  intros g1 Hg1. exists g1. split; [|done].
  apply (does_deref ∅ g1 (fun g => g_inodes g !! i)). by rewrite (rd_inodes _ _ _ _ _ _ Hrd g1 Hg1).
Qed.

Lemma step_addr n a : i_addrs ip !! n = Some a → ∀ g1, I g1 → ∃ g2, does ∅ g1 (get_addr i n) [] ∅ a g2 ∧ I g2.
Proof.
  intros Ha g1 Hg1. destruct (step_inode g1 Hg1) as (g2 & Hdo & Hg2). exists g2. split; [|done].
  eapply does_step; [exact Hdo|]. by apply does_non_null.
Qed.

(** [bmap] of a block that the file has. *)
Lemma safe_bmap k a :
  addrs !! Z.to_nat k = Some a → 0 <= k → safe I (bmap i k) C (fun r g => r = a ∧ I g).
Proof.
  intros Ha Hk. pose proof (lookup_lt_Some _ _ _ Ha) as Hlt. pose proof (fa_len _ _ _ Hfile) as Hmax.
  destruct (fa_blocks _ _ _ Hfile a) as (Hz & _); [by eapply list_elem_of_lookup_2|].
  unfold bmap. eapply safe_step; [apply step_inode|]. rewrite Hdev. destruct (Z.ltb_spec k (Z.of_nat NDIRECT)) as [Hd|Hd].
  - eapply safe_step; [eapply step_addr, (fa_direct _ _ _ Hfile); [unfold NDIRECT in *; lia|exact Ha]|].
    destruct (Z.eqb_spec a 0); [done|]. by apply safe_ret.
  - destruct (fa_indirect _ _ _ Hfile) as (ia & x & Hia & Hnz & _ & Hx & Hw); [unfold NDIRECT in *; lia|].
    assert (k - Z.of_nat NDIRECT < NINDIRECT) as Hi by (unfold MAXFILE, NINDIRECT, NDIRECT, BSIZE in *; lia).
    destruct (Z.ltb_spec (k - Z.of_nat NDIRECT) NINDIRECT); [|lia].
    eapply safe_step; [by apply step_addr|]. destruct (Z.eqb_spec ia 0) as [|_]; [done|].
    eapply safe_step; [intros g1 Hg1; exists g1; split; [apply does_ret|exact Hg1]|].
    destruct (Z.eqb_spec ia 0) as [|_]; [done|].
    eapply safe_bind; [by apply (rd_bread _ _ _ _ _ _ Hrd)|]. intros b.
    eapply safe_bind; [apply (rd_look _ _ _ _ _ _ Hrd)|]. intros bf. apply safe_pure. intros ->.
    rewrite (Hw (Z.to_nat (k - Z.of_nat NDIRECT)) a) by (rewrite <- Ha; f_equal; lia).
    destruct (Z.eqb_spec a 0); [done|].
    eapply safe_step; [intros g1 Hg1; exists g1; split; [apply does_ret|exact Hg1]|].
    eapply safe_step; [by apply (rd_brelse _ _ _ _ _ _ Hrd)|]. by apply safe_ret.
Qed.
End read.

Lemma take_plus {A} (m r : nat) (l : list A) : take (m + r) l = take m l ++ take r (drop m l).
Proof. revert l. induction m as [|m IH]; intros [|x l]; simpl; [done..|by rewrite take_nil|by rewrite IH]. Qed.

(** The bytes of the file. *)
Definition file_bytes (V : Z → option (list Z)) (ip : inode) (addrs : list Z) : list Z :=
  take (Z.to_nat (i_size ip)) (bytes_of V addrs).

(** What readi is asked for: the bytes of the file from [off] on, at most [n] of them, and
    none when [off + n] overflows. *)
Definition asked (V : Z → option (list Z)) (ip : inode) (addrs : list Z) (off n : Z) : list Z :=
  if off + n <? 2 ^ 32 then take (Z.to_nat n) (drop (Z.to_nat off) (file_bytes V ip addrs)) else [].

(** The first [m] bytes from [off] on, in block [x], and [r] further ones. *)
Lemma bytes_split V ip addrs off m r x :
  file_at V ip addrs → blocks_of V addrs !! Z.to_nat (off / BSIZE) = Some x →
  Z.to_nat off = (Z.to_nat BSIZE * Z.to_nat (off / BSIZE) + Z.to_nat (off mod BSIZE))%nat →
  0 <= off → 0 <= m → off mod BSIZE + m <= BSIZE → 0 <= r →
  take (Z.to_nat (m + r)) (drop (Z.to_nat off) (bytes_of V addrs)) =
  take (Z.to_nat m) (drop (Z.to_nat (off mod BSIZE)) x) ++
    take (Z.to_nat r) (drop (Z.to_nat (off + m)) (bytes_of V addrs)).
Proof.
  intros Hf Hx Eo Ho Hm Hin Hr. pose proof (Z.mod_pos_bound off BSIZE ltac:(done)). rewrite Z2Nat.inj_add by lia.
  rewrite take_plus, drop_drop. replace (Z.to_nat off + Z.to_nat m)%nat with (Z.to_nat (off + m)) by lia. f_equal.
  unfold bytes_of. rewrite Eo. apply (concat_slice (Z.to_nat BSIZE)); [by eapply blocks_of_length|done|lia].
Qed.

(** ** readi: the copies change the memory, [m], and nothing else *)

Section readi.
Context `{DW : DiskWorld} `{Pat : Patience} `{Lay : Layout} (dev : Z).
Context (C : disk → Prop) (I : mem → sub → Prop) (H : mem → Z → nat → list Z → sub → Prop).
Context (V : Z → option (list Z)) (inodes : list inode).
Hypothesis Hrd : ∀ m, reader dev C (I m) (H m) V inodes.
Hypothesis Hram : ∀ m n b x g, H m n b x g → g_ram g = m.
Hypothesis Hcopy : ∀ m m' n b x g, H m n b x g → H m' n b x (g <| g_ram := m' |>).
Context (i : nat) (ip : inode) (addrs : list Z).
Hypothesis Hip : inodes !! i = Some ip.
Hypothesis Hdev : i_dev ip = dev.
Hypothesis Hfile : file_at V ip addrs.

(** The outcome of a loop that puts [l] at [dst], [tot] bytes having been put before. *)
Definition reads (dst : iodst) (tot : Z) (l : list Z) (m : mem) (r : Z * list Z) (g : sub) : Prop :=
  ∃ c m', put dst l m c m' ∧ r.1 = (if c =? -1 then -1 else tot + c) ∧ (c ≠ -1 → r.2 = l) ∧ I m' g.

Lemma safe_copyout dst tot l n m a b x :
  takes (dst_at dst tot) (Z.of_nat (length l) + n) m → 0 <= n →
  safe (H m a b x) (either_copyout dst tot l) C
    (fun c g => ∃ r m', put (dst_at dst tot) l m r m' ∧
       (c = 0 ∧ r = Z.of_nat (length l) ∧ takes (dst_at dst (tot + Z.of_nat (length l))) n m' ∨ c = -1 ∧ r = -1) ∧
       H m' a b x g).
Proof.
  intros Ht Hn g Hg. pose proof (Hram _ _ _ _ _ Hg) as Em. rewrite <- Em in Ht.
  destruct (does_copyout dst tot l n g Ht Hn) as (c & r & m' & Hdo & Hp & Hr). rewrite Em in Hp.
  exists [], c, (g <| g_ram := m' |>). split; [done|]. split; [done|]. exists r, m'. split; [done|]. split; [done|].
  by apply (Hcopy m).
Qed.

Lemma safe_readi_loop dst fuel : ∀ off tot n m,
  0 <= off → 0 <= tot <= n → off + (n - tot) <= BSIZE * Z.of_nat (length addrs) →
  n - tot = 0 ∨ off mod BSIZE + (n - tot) <= BSIZE * Z.of_nat fuel → takes (dst_at dst tot) (n - tot) m →
  safe (I m) (readi_loop fuel i dst off tot n) C
    (reads (dst_at dst tot) tot (take (Z.to_nat (n - tot)) (drop (Z.to_nat off) (bytes_of V addrs))) m).
Proof.
  induction fuel as [|fuel IH]; intros off tot n m0 Ho Ht Hlen Hfuel Htake; cbn [readi_loop];
    pose proof (Z.mod_pos_bound off BSIZE ltac:(done)) as Hm; (destruct (Z.leb_spec n tot) as [|Hlt];
    [apply safe_ret; intros g Hg; replace n with tot by lia; rewrite Z.sub_diag; exists 0, m0;
     split_and!; [apply put_nil|simpl; lia|done|done]|]); [lia|].
  destruct (file_block V ip addrs off Hfile) as (a & x & Ha & Hz & Hx & Hlx & Hbx & Eo); [lia|].
  eapply safe_step; [by eapply step_inode|]. rewrite Hdev.
  eapply safe_bind; [by eapply (safe_bmap dev C (I m0) (H m0) V inodes (Hrd m0) i ip addrs Hip Hdev Hfile _ a Ha), Z.div_pos|].
  intros r. apply safe_pure. intros ->.
  destruct (Z.eqb_spec a 0); [done|]. eapply safe_bind; [by apply (rd_bread _ _ _ _ _ _ (Hrd m0))|]. intros b.
  set (m := Z.min (n - tot) (BSIZE - off mod BSIZE)). assert (0 < m <= n - tot ∧ off mod BSIZE + m <= BSIZE) as Hmm by lia.
  eapply safe_bind; [apply (rd_look _ _ _ _ _ _ (Hrd m0))|]. intros bf. apply safe_pure. intros ->.
  set (l := take (Z.to_nat m) (drop (Z.to_nat (off mod BSIZE)) x)).
  assert (Z.of_nat (length l) = m) as El by (unfold l; rewrite length_take, length_drop; lia).
  assert (take (Z.to_nat (n - tot)) (drop (Z.to_nat off) (bytes_of V addrs)) =
    l ++ take (Z.to_nat (n - (tot + m))) (drop (Z.to_nat (off + m)) (bytes_of V addrs))) as ->
    by (rewrite <- (bytes_split V ip addrs off m _ x Hfile Hbx Eo) by lia; do 2 f_equal; lia).
  eapply safe_bind; [apply (safe_copyout dst tot l (n - (tot + m))); [rewrite El; by replace (m + (n - (tot + m))) with (n - tot) by lia|lia]|].
  intros c g1 (r & m1 & Hput & Hc & Hg1). rewrite El in Hc. revert g1 Hg1.
  change (safe (H m1 a b x) (if c =? -1 then brelse b ;; mret (-1, []) else
    brelse b ;; rest ← readi_loop fuel i dst (off + m) (tot + m) n; mret (rest.1, l ++ rest.2)) C
    (reads (dst_at dst tot) tot (l ++ take (Z.to_nat (n - (tot + m))) (drop (Z.to_nat (off + m)) (bytes_of V addrs))) m0)).
  destruct Hc as [(-> & -> & Htake')|[-> ->]]; cbn [Z.eqb].
  - eapply safe_step; [by apply (rd_brelse _ _ _ _ _ _ (Hrd m1))|]. eapply safe_bind; [apply IH; [lia..| |done]|].
    + replace (n - (tot + m)) with (n - tot - m) by lia. apply turns_left; [lia..|done|lia].
    + intros r. apply safe_ret. intros g (c & m2 & Hp2 & E1 & E2 & Hg).
      exists (if c =? -1 then -1 else m + c), m2. rewrite <- El, <- dst_at_at in Hp2. rewrite <- El in Hput.
      split_and!; [rewrite <- El; by apply (put_app _ _ _ _ m1)| | |done]; simpl.
      * rewrite E1. destruct (Z.eqb_spec c (-1)); [done|].
        apply put_count in Hp2. destruct (Z.eqb_spec (m + c) (-1)); lia.
      * destruct (Z.eqb_spec c (-1)); [done|]. intros _. by rewrite E2.
  - eapply safe_step; [by apply (rd_brelse _ _ _ _ _ _ (Hrd m1))|]. apply safe_ret. intros g Hg.
    exists (-1), m1. split_and!; [by apply put_fail|done..].
Qed.

Lemma safe_readi dst off n m :
  0 <= off < 2 ^ 32 → 0 <= n < 2 ^ 32 → 0 <= i_size ip <= BSIZE * Z.of_nat (length addrs) →
  takes dst (Z.of_nat (length (asked V ip addrs off n))) m →
  safe (I m) (readi i dst off n) C (reads dst 0 (asked V ip addrs off n) m).
Proof.
  intros Ho Hn Hs Ht. pose proof (fa_len _ _ _ Hfile) as Hmax. pose proof (bytes_of_length _ _ _ Hfile) as Hlen.
  assert (i_size ip < 2 ^ 20) as Hsm by (change MAXFILE with 268 in Hmax; unfold BSIZE in Hs; lia).
  assert (∀ g, asked V ip addrs off n = [] → I m g → reads dst 0 (asked V ip addrs off n) m (0, []) g) as Hnone.
  { intros g E Hg. rewrite E. exists 0, m. split_and!; [apply put_nil|done..]. }
  unfold readi. eapply safe_step; [by eapply step_inode|].
  destruct (Z.ltb_spec (off + n) (2 ^ 32)) as [Hsum|Hsum].
  - assert (asked V ip addrs off n = take (Z.to_nat n) (drop (Z.to_nat off) (file_bytes V ip addrs))) as Eask.
    { unfold asked. destruct (Z.ltb_spec (off + n) (2 ^ 32)); [done|lia]. }
    rewrite (uint_small (off + n)) by lia. destruct (Z.ltb_spec (i_size ip) off) as [Hpast|Hin]; cbn [orb].
    { apply safe_ret. intros g Hg. apply Hnone; [|done]. rewrite Eask, drop_ge, take_nil; [done|].
      unfold file_bytes. rewrite length_take. lia. }
    destruct (Z.ltb_spec (off + n) off); [lia|]. set (n' := if i_size ip <? off + n then uint (i_size ip - off) else n).
    assert (n' = Z.min n (i_size ip - off)) as En.
    { unfold n'. destruct (Z.ltb_spec (i_size ip) (off + n)); [rewrite uint_small by lia|]; lia. }
    assert (asked V ip addrs off n = take (Z.to_nat (n' - 0)) (drop (Z.to_nat off) (bytes_of V addrs))) as E.
    { rewrite Eask. unfold file_bytes. rewrite List.skipn_firstn_comm, take_take. f_equal. lia. }
    assert (Z.of_nat (length (asked V ip addrs off n)) = n' - 0) as El
      by (rewrite E, length_take_le; [lia|]; rewrite length_drop; lia).
    rewrite El in Ht. rewrite <- (dst_at_0 dst) in Ht.
    eapply safe_bind; [apply (safe_readi_loop dst _ off 0 n' m); [lia..| |exact Ht]|].
    + right. pose proof (Z.mod_pos_bound off BSIZE ltac:(done)). pose proof (Z.div_mod n' BSIZE ltac:(done)).
      pose proof (Z.mod_pos_bound n' BSIZE ltac:(done)). pose proof (Z.div_pos n' BSIZE ltac:(lia) ltac:(done)).
      rewrite Z2Nat.id by lia. unfold BSIZE in *. lia.
    + intros r. apply safe_ret. rewrite dst_at_0, <- E. intros g (c & m' & Hp & E1 & E2 & Hg). exists c, m'.
      split_and!; [done| |done|done]. simpl. rewrite E1. destruct (Z.eqb_spec c (-1)); [done|]. apply int_small.
      apply put_count in Hp. lia.
  - assert (uint (off + n) = off + n - 2 ^ 32) as -> by (symmetry; apply (Z.mod_unique _ _ 1); lia).
    destruct (Z.ltb_spec (off + n - 2 ^ 32) off); [|lia]. rewrite orb_true_r. apply safe_ret. intros g Hg.
    apply Hnone; [|done]. unfold asked. destruct (Z.ltb_spec (off + n) (2 ^ 32)); [lia|done].
Qed.
End readi.

Lemma cache_readi `{DW : DiskWorld} `{Pat : Patience} `{Lay : Layout} (dev : Z) (C : disk → Prop) g H d i ip addrs dst off n :
  (0 < patience)%nat → readable H d → C d →
  g_inodes g !! i = Some ip → i_dev ip = dev → file_at (contents H d) ip addrs →
  0 <= i_size ip <= BSIZE * Z.of_nat (length addrs) → 0 <= off < 2 ^ 32 → 0 <= n < 2 ^ 32 →
  takes dst (Z.of_nat (length (asked (contents H d) ip addrs off n))) (g_ram g) →
  safe (Cache dev g H d) (readi i dst off n) C
    (reads (fun m => Cache dev (g <| g_ram := m |>) H d) dst 0 (asked (contents H d) ip addrs off n) (g_ram g)).
Proof.
  intros Hp Hr HC Hip Hdev Hf Hs Ho Hn Ht. rewrite <- (sub_ram g) at 1.
  apply (safe_readi dev C (fun m => Cache dev (g <| g_ram := m |>) H d) (fun m => Locked dev (g <| g_ram := m |>) H d)
    (contents H d) (g_inodes g)); try done.
  - intros m. exact (cache_reader dev (g <| g_ram := m |>) H d C Hp Hr HC).
  - intros m n0 b x g1. unfold Locked. destruct (H !! n0); [intros (_ & _ & B & v & -> & _)|intros (B & v & -> & _)]; done.
  - intros m m' n0 b x g1. unfold Locked. destruct (H !! n0).
    + intros (-> & -> & B & v & -> & Hc). split; [done|]. split; [done|]. by exists B, v.
    + intros (B & v & -> & Hc). by exists B, v.
Qed.

(** C31. Outside a transaction, readi of an inode whose blocks are allocated,
    directly or through the indirect block, delivers exactly the bytes of the file
    from off on, at most n of them and none past the size, for every off and n; when
    off + n overflows an unsigned int it delivers none. To a variable or to kernel
    memory it delivers all and returns their number; to a user address it writes
    them in the user's memory and returns their number, or, when the user may not
    write at one of the addresses, writes those in front of the first such address
    and returns -1. Whatever the outcome, it changes no other memory of the user,
    leaves every buffer unlocked and as often referenced as before, and writes
    nothing to the disk. *)
Theorem readi_reads `{DW : DiskWorld} `{Pat : Patience} `{Lay : Layout} (dev : Z) g H d i ip addrs dst off n :
  (0 < patience)%nat → readable H d →
  g_inodes g !! i = Some ip → i_dev ip = dev → file_at (contents H d) ip addrs →
  0 <= i_size ip <= BSIZE * Z.of_nat (length addrs) → 0 <= off < 2 ^ 32 → 0 <= n < 2 ^ 32 →
  let file := file_bytes (contents H d) ip addrs in
  let l := if off + n <? 2 ^ 32 then take (Z.to_nat n) (drop (Z.to_nat off) file) else [] in
  takes dst (Z.of_nat (length l)) (g_ram g) →
  safe (Cache dev g H d) (readi i dst off n) (eq d)
    (fun r g' => ∃ m', put dst l (g_ram g) r.1 m' ∧ (r.1 ≠ -1 → r.2 = l) ∧ Cache dev (g <| g_ram := m' |>) H d g').
Proof.
  intros Hp Hr Hip Hdev Hf Hs Ho Hn file l Ht.
  eapply safe_post; [by apply (cache_readi dev (eq d) g H d i ip addrs dst off n)|].
  intros [r1 r2] g' (c & m' & Hput & E1 & E2 & Hg). simpl in *. exists m'.
  assert (r1 = c) as -> by (rewrite E1; destruct (Z.eqb_spec c (-1)); [done|lia]). done.
Qed.

(** ** A file of twelve blocks *)

Definition ex_blocks : list Z := seqZ 34 12.
Definition ex_file_ip : inode := mkinode 1 1 1 (mksleeplock 1 1) 1 2 0 0 1 (12 * BSIZE) (ex_blocks ++ [0]).
Definition ex_sb : superblock := mksuperblock 0 64 30 16 30 2 32 33.
Definition ex_file_sub : sub := ex_sub <| g_inodes := [ex_file_ip] |> <| g_sb := ex_sb |>.

(** The blocks in front of block 50 are in use. *)
Definition ex_map : list Z := [255; 255; 255; 255; 255; 255; 3] ++ replicate 1017 0.

(** Block 34 holds ones; the inode is in slot 1 of block 32. *)
Definition ex_file_disk : disk :=
  <[32%nat := write_dinode 1 (mkdinode 2 0 0 1 (12 * BSIZE) (ex_blocks ++ [0])) ex_block]>
    (<[33%nat := ex_map]> (<[34%nat := ex_ones]> ex_disk)).

Lemma ex_file_block a : 32 <= a < 64 → ∃ x, at_idx ex_file_disk a = Some x ∧ length x = Z.to_nat BSIZE.
Proof.
  intros Ha. unfold at_idx. destruct (Z.ltb_spec a 0); [lia|].
  set (P := fun k => match ex_file_disk !! (32 + k)%nat with Some x => length x = Z.to_nat BSIZE | None => False end).
  assert (Forall P (seq 0 32)) as H0 by (vm_compute; repeat constructor). rewrite Forall_seq in H0.
  specialize (H0 (Z.to_nat (a - 32)) ltac:(lia)). unfold P in H0.
  replace (32 + Z.to_nat (a - 32))%nat with (Z.to_nat a) in H0 by lia.
  destruct (ex_file_disk !! Z.to_nat a) as [x|]; [by exists x|done].
Qed.

Lemma ex_file_at : file_at (at_idx ex_file_disk) ex_file_ip ex_blocks.
Proof.
  assert (length ex_blocks = 12%nat) as Hl by reflexivity. split.
  - done.
  - intros k a _ Hk. cbn [ex_file_ip i_addrs]. by rewrite lookup_app_l by (by eapply lookup_lt_Some).
  - intros H. rewrite Hl in H. unfold NDIRECT in H. lia.
  - intros a Ha%elem_of_seqZ. split; [lia|]. apply ex_file_block. lia.
  - apply NoDup_seqZ.
Qed.

(** Four bytes of the file are read to user addresses: all of them into a page that the
    user may write, and the first two when only those are in it. *)
Lemma readi_reads_witness :
  ∃ m, let g := ex_file_sub <| g_ram := m |> in
  (∃ g' s, Cache (W := disk_world) 1 g ∅ ex_file_disk g' ∧ @calm disk_world (@awake disk_world) ∅ g' s) ∧
  safe (W := disk_world) (Cache (W := disk_world) 1 g ∅ ex_file_disk)
    (@readi 1%nat 0 (DUser 8) 1022 4) (eq ex_file_disk)
    (fun r g' => r = (4, [1; 1; 0; 0]) ∧ uread (g_ram g') ex_root 9 = Some 1 ∧ uread (g_ram g') ex_root 11 = Some 0) ∧
  safe (W := disk_world) (Cache (W := disk_world) 1 g ∅ ex_file_disk)
    (@readi 1%nat 0 (DUser 4094) 1022 4) (eq ex_file_disk)
    (fun r g' => r.1 = -1 ∧ uread (g_ram g') ex_root 4095 = Some 1).
Proof.
  destruct ex_user as (s & tbl & pages & Hv & Hu & Hw & Hnw). exists (g_ram (k_sub s)). cbv zeta.
  set (g := ex_file_sub <| g_ram := g_ram (k_sub s) |>).
  assert (readable ∅ ex_file_disk) as Hr.
  { split; [intros n h; by rewrite lookup_empty|]. split; [rewrite map_size_empty; vm_compute; lia|done]. }
  assert (∀ va, 0 <= va < 2 ^ 64 → safe (W := disk_world) (Cache (W := disk_world) 1 g ∅ ex_file_disk)
    (@readi 1%nat 0 (DUser va) 1022 4) (eq ex_file_disk)
    (fun r g' => ∃ m', put (W := disk_world) (DUser va) [1; 1; 0; 0] (g_ram g) r.1 m' ∧ (r.1 ≠ -1 → r.2 = [1; 1; 0; 0]) ∧
       Cache (W := disk_world) 1 (g <| g_ram := m' |>) ∅ ex_file_disk g')) as Hread.
  { intros va Hva. refine (@readi_reads disk_world ex_disk_world 1%nat ex_layout 1 g ∅ ex_file_disk 0 ex_file_ip ex_blocks
      (DUser va) 1022 4 (le_n 1) Hr eq_refl eq_refl ex_file_at _ _ _ _); [done..|].
    split; [exact Hva|]. by exists s, tbl, pages. }
  split; [by eapply ex_state_exists, ex_cache|]. split.
  - eapply safe_post; [apply (Hread 8 ltac:(done))|]. intros [r1 r2] g1 (m & (k & (_ & _ & Hm) & Hk) & Hl & B & v & -> & _).
    simpl in Hk, Hl. destruct Hk as [[-> ->]|(_ & Hk & Hn)]; [|exfalso; apply Hn, Hw; unfold PGSIZE; lia].
    rewrite Hl by done. split; [done|]. split; [apply (Hm 9)|apply (Hm 11)].
  - eapply safe_post; [apply (Hread 4094 ltac:(done))|]. intros [r1 r2] g1 (m & (k & (_ & Ha & Hm) & Hk) & Hl & B & v & -> & _).
    simpl in Hk, Hl. destruct Hk as [[-> ->]|(-> & Hk & Hn)]; [exfalso; apply (Hnw 4096), Ha; done || lia|].
    split; [done|]. simpl. rewrite Hm, decide_True; [done|]. destruct k as [|[|k]]; [..|lia]; exfalso; apply Hn, Hw; done.
Defined.

(** * The free map *)

(** The numbers, from [b] on, of the [n] blocks whose bit is clear. *)
Fixpoint free_from (n : nat) (y : list Z) (b : Z) : list Z :=
  match n with
  | O => []
  | S n' => if bit_set y b then free_from n' y (b + 1) else b :: free_from n' y (b + 1)
  end.

Definition free_blocks (y : list Z) (size : Z) : list Z := free_from (Z.to_nat size) y 0.

Lemma free_from_range n y b a : a ∈ free_from n y b → b <= a < b + Z.of_nat n.
Proof.
  revert b. induction n as [|n IH]; intros b; simpl; [by intros ?%not_elem_of_nil|].
  destruct (bit_set y b); [intros Ha%IH; lia|]. intros [->|Ha%IH]%elem_of_cons; lia.
Qed.

Lemma first_clear_head n m y b : (n <= m)%nat → first_clear m y 0 b (b + Z.of_nat n) = List.hd_error (free_from n y b).
Proof.
  revert m b. induction n as [|n IH]; intros m b Hm.
  - destruct m as [|m]; [done|]. cbn [first_clear]. destruct (Z.leb_spec (b + Z.of_nat 0) (0 + b)); [done|lia].
  - destruct m as [|m]; [lia|]. cbn [first_clear free_from].
    destruct (Z.leb_spec (b + Z.of_nat (S n)) (0 + b)); [lia|]. destruct (bit_set y b); [|done].
    replace (b + Z.of_nat (S n)) with (b + 1 + Z.of_nat n) by lia. apply IH. lia.
Qed.

Lemma free_from_ext n y y' b :
  (∀ i, b <= i < b + Z.of_nat n → bit_set y' i = bit_set y i) → free_from n y' b = free_from n y b.
Proof.
  revert b. induction n as [|n IH]; intros b Hi; simpl; [done|]. rewrite Hi by lia.
  rewrite IH; [done|]. intros i Hr. apply Hi. lia.
Qed.

(** The first free block leaves the list when its bit is set. *)
Lemma free_from_set n y b a F :
  free_from n y b = a :: F → 0 <= b → b + Z.of_nat n <= 8 * Z.of_nat (length y) →
  free_from n (set_bit a y) b = F.
Proof.
  revert b. induction n as [|n IH]; intros b E Hb Hl; simpl in E; [done|].
  assert (b <= a < b + Z.of_nat (S n)) as Ha.
  { apply (free_from_range (S n) y). simpl. rewrite E. destruct (bit_set y b); by left. }
  assert (∀ j, 0 <= j → bit_set (set_bit a y) j = bit_set y j || (a =? j)) as Hset.
  { intros j Hj. apply set_bit_bits; [lia|done|]. pose proof (Z.div_lt_upper_bound a 8 (Z.of_nat (length y))).
    pose proof (Z.div_pos a 8). lia. }
  simpl. rewrite Hset by done. destruct (bit_set y b) eqn:Eb; simpl.
  - apply IH; [done|lia..].
  - injection E as <- <-. rewrite Z.eqb_refl. apply free_from_ext. intros i Hi. rewrite Hset by lia.
    destruct (Z.eqb_spec b i); [lia|]. apply orb_false_r.
Qed.
