(* ===== verification/FileWrite.v ===== *)
(** Writing files: balloc and bmap as they extend a file, writei as an update of its
    bytes, and the transaction begin_op; writei; end_op, which is atomic. *)

From Stdlib Require Import Ascii.
From stdpp Require Import base gmap strings numbers list.
From S2P Require Import Prelude Spinlock Kstate Mlfq Sched Boot Switch CString Globals Kalloc Vm VmProofs UserMem Sleeplock Virtio Bio Log Fs FsProofs Runs VirtioProofs BioProofs LogProofs Recovery Txn FileProofs.
Local Open Scope Z_scope.

(** * The numbers in inodes and indirect blocks *)

(** The numbers of an inode: [addrs] in the direct ones, and the indirect block. *)
Definition inode_addrs (meta addrs : list Z) : list Z :=
  take NDIRECT (addrs ++ replicate NDIRECT 0) ++ [default 0 (List.hd_error meta)].

Lemma inode_addrs_length addrs : length (take NDIRECT (addrs ++ replicate NDIRECT 0)) = NDIRECT.
Proof. rewrite length_take_le; [done|]. rewrite length_app, length_replicate. lia. Qed.

Lemma inode_addrs_direct meta addrs k :
  (k < NDIRECT)%nat → inode_addrs meta addrs !! k = Some (default 0 (addrs !! k)).
Proof.
  intros Hk. unfold inode_addrs. rewrite lookup_app_l by (by rewrite inode_addrs_length).
  rewrite lookup_take_lt by done. destruct (addrs !! k) as [a|] eqn:E.
  - by rewrite lookup_app_l by (by eapply lookup_lt_Some).
  - apply lookup_ge_None in E. rewrite lookup_app_r by done. apply lookup_replicate_2. lia.
Qed.

Lemma inode_addrs_indirect meta addrs : inode_addrs meta addrs !! NDIRECT = Some (default 0 (List.hd_error meta)).
Proof.
  unfold inode_addrs. rewrite lookup_app_r by (by rewrite inode_addrs_length).
  by rewrite inode_addrs_length, Nat.sub_diag.
Qed.

Lemma inode_addrs_snoc meta addrs a :
  (length addrs < NDIRECT)%nat →
  <[length addrs := a]> (inode_addrs meta addrs) = inode_addrs meta (addrs ++ [a]).
Proof.
  intros Hl. unfold inode_addrs. rewrite insert_app_l by (by rewrite inode_addrs_length). f_equal.
  apply list_eq. intros k. destruct (decide (k < NDIRECT)%nat) as [Hk|Hk].
  - rewrite lookup_take_lt by done. destruct (decide (k = length addrs)) as [->|Hne].
    + rewrite list_lookup_insert_eq by (by rewrite inode_addrs_length).
      rewrite <- app_assoc, lookup_app_r, Nat.sub_diag by done. done.
    + rewrite list_lookup_insert_ne, lookup_take_lt by done. destruct (decide (k < length addrs)%nat).
      * by rewrite !lookup_app_l by (rewrite ?length_app; simpl; lia).
      * rewrite (lookup_app_r addrs), (lookup_app_r (addrs ++ [a])) by (rewrite ?length_app; simpl; lia).
        rewrite !lookup_replicate_2 by (rewrite ?length_app; simpl; lia). done.
  - rewrite !lookup_ge_None_2; [done|rewrite inode_addrs_length; lia|].
    rewrite length_insert, inode_addrs_length. lia.
Qed.

Lemma inode_addrs_full meta addrs a :
  (NDIRECT <= length addrs)%nat → inode_addrs meta (addrs ++ [a]) = inode_addrs meta addrs.
Proof. intros Hl. unfold inode_addrs. by rewrite <- app_assoc, !take_app_le by done. Qed.

Lemma inode_addrs_meta addrs ia : <[NDIRECT := ia]> (inode_addrs [] addrs) = inode_addrs [ia] addrs.
Proof.
  unfold inode_addrs. rewrite insert_app_r_alt by (by rewrite inode_addrs_length).
  by rewrite inode_addrs_length, Nat.sub_diag.
Qed.

(** An indirect block that lists the blocks of [addrs] behind the direct ones. *)
Definition indirect (x : list Z) (addrs : list Z) : Prop :=
  length x = Z.to_nat BSIZE ∧
  ∀ k, (k < Z.to_nat NINDIRECT)%nat → word x k = default 0 (addrs !! (NDIRECT + k)%nat).

Lemma word_zero k : word zero_block k = 0.
Proof. apply word_zeros. Qed.

Lemma indirect_zero addrs : (length addrs <= NDIRECT)%nat → indirect zero_block addrs.
Proof.
  intros Hl. split; [apply length_replicate|]. intros k _. rewrite word_zero, lookup_ge_None_2; [done|lia].
Qed.

Lemma indirect_snoc x addrs a :
  indirect x addrs → (NDIRECT <= length addrs)%nat → Z.of_nat (length addrs) < MAXFILE → 0 <= a < 2 ^ 32 →
  indirect (set_word (length addrs - NDIRECT) a x) (addrs ++ [a]).
Proof.
  intros [Hl Hw] Hd Hm Ha. assert (length addrs - NDIRECT < Z.to_nat NINDIRECT)%nat as Hj.
  { change MAXFILE with 268 in Hm. change (Z.to_nat NINDIRECT) with 256%nat. unfold NDIRECT in *. lia. }
  assert (∀ k, (k < Z.to_nat NINDIRECT)%nat → (4 * k + 4 <= length x)%nat) as Hb.
  { intros k Hk. rewrite Hl. change (Z.to_nat NINDIRECT) with 256%nat in Hk. change (Z.to_nat BSIZE) with 1024%nat. lia. }
  split; [by rewrite length_set_word by (by apply Hb)|]. intros k Hk.
  destruct (decide (k = length addrs - NDIRECT)%nat) as [->|Hne].
  - rewrite word_set_eq by (try done; by apply Hb). replace (NDIRECT + (length addrs - NDIRECT))%nat with (length addrs) by lia.
    by rewrite lookup_app_r, Nat.sub_diag by done.
  - rewrite word_set_ne by (try done; by apply Hb). rewrite Hw by done. destruct (decide (NDIRECT + k < length addrs)%nat).
    + by rewrite lookup_app_l.
    + rewrite !lookup_ge_None_2; [done|..]; rewrite ?length_app; cbn [length]; lia.
Qed.

Section write.
Context `{DW : DiskWorld} `{Pat : Patience} (dev start : Z) (d : disk) (C : disk → Prop).
Hypothesis patient : (0 < patience)%nat.
Hypothesis Hfit : log_fits dev start d.
Hypothesis HC : C d.

Abbreviation Open := (Open dev start).

(** The block of the free map, and the block of the inode. *)
Definition map_block (sb : superblock) : Z := BBLOCK 0 sb.
Definition ino_block (sb : superblock) (ip : inode) : Z := IBLOCK (i_inum ip) sb.

(** On the disk [V] the blocks [U] are in use and the blocks [F] are free; they and the
    free map are different blocks, outside the log. *)
Record pool (sb : superblock) (V : disk) (U F : list Z) : Prop := {
  p_length : length V = length d;
  p_nodup : NoDup (map_block sb :: U ++ F);
  p_blocks : ∀ a, a ∈ map_block sb :: U ++ F →
    a ≠ 0 ∧ ¬ log_area start a ∧ ∃ x, at_idx V a = Some x ∧ length x = Z.to_nat BSIZE;
  p_size : 0 < sb_size sb <= BPB;
  p_free : ∀ y, at_idx V (map_block sb) = Some y → free_blocks y (sb_size sb) = F
}.

Lemma pool_perm sb V U U' F : pool sb V U F → U ≡ₚ U' → pool sb V U' F.
Proof.
  intros [P1 P2 P3 P4 P5] HU. split; try done.
  - by rewrite <- HU.
  - intros a Ha. apply P3. by rewrite HU.
Qed.

Lemma pool_write sb V U F n x :
  pool sb V U F → n ∈ U → length x = Z.to_nat BSIZE → pool sb (<[Z.to_nat n := x]> V) U F.
Proof.
  intros [P1 P2 P3 P4 P5] Hn Hx. destruct (P3 n) as (_ & _ & z & Hz & _); [set_solver|].
  pose proof (at_idx_Some _ _ _ Hz) as Hr. split; try done.
  - by rewrite length_insert.
  - intros a Ha. destruct (P3 a Ha) as (H1 & H2 & w & Hw & Hl). split_and!; try done.
    destruct (decide (n = a)) as [<-|Hne].
    + exists x. by rewrite at_idx_upd.
    + exists w. by rewrite at_idx_upd_ne by (try done; lia).
  - intros y. apply NoDup_cons in P2 as [Hm _]. rewrite at_idx_upd_ne; [apply P5|lia|].
    intros ->. apply Hm. set_solver.
Qed.

Lemma step_open_sb {A} k g V K (f : superblock → A) :
  ∀ g1, Open k g d V K g1 → ∃ g2, does ∅ g1 (get_sb f) [] ∅ (f (g_sb g)) g2 ∧ Open k g d V K g2.
Proof.
  intros g1 Hg1. exists g1. split; [|done]. pose proof Hg1 as (l & bs & datas & H & _ & B & v & -> & _).
  exact (does_gets ∅ _ (fun g => f (g_sb g))).
Qed.

Lemma step_open_inode k g V K i ip :
  g_inodes g !! i = Some ip →
  ∀ g1, Open k g d V K g1 → ∃ g2, does ∅ g1 (get_inode i) [] ∅ ip g2 ∧ Open k g d V K g2.
Proof.
  intros Hi g1 Hg1. exists g1. split; [|done]. pose proof Hg1 as (l & bs & datas & H & _ & B & v & -> & _).
  by apply (does_deref ∅ _ (fun g => g_inodes g !! i)).
Qed.

Lemma step_open_upd_inode k g V K i ip f :
  g_inodes g !! i = Some ip →
  ∀ g1, Open k g d V K g1 →
  ∃ g2, does ∅ g1 (upd_inode i f) [] ∅ tt g2 ∧ Open k (g <| g_inodes ::= <[i := f ip]> |>) d V K g2.
Proof.
  intros Hi g1 Hg1. destruct (step_open_inode k g V K i ip Hi g1 Hg1) as (g2 & Hdo & Hg2).
  destruct Hg2 as (l & bs & datas & H & Ht & B & v & -> & Hc).
  eexists. split; [eapply does_step; [exact Hdo|]; apply does_modify|].
  exists l, bs, datas, H. split; [done|]. exists B, v. split; [|done]. simpl.
  by rewrite (alter_insert f i _ ip Hi).
Qed.

(** ** balloc *)

(** bzero of a block. *)
Lemma safe_open_bzero k g V K n x :
  at_idx V n = Some x → K !! n = None → (k + size K < NBUF)%nat → Z.of_nat k < LOGSIZE - 1 → ¬ log_area start n →
  length V = length d →
  safe (Open k g d V K) (bzero dev n) C (fun _ => Open (S k) g d (<[Z.to_nat n := zero_block]> V) K).
Proof.
  intros Hx HK Hsz Hk Ha HV. pose proof (at_idx_Some V n x Hx) as Hr. pose proof Hfit as [F1 F2 F3 F4].
  unfold bzero. rewrite !uint_small by lia.
  eapply safe_bind; [by apply safe_open_bread|]. intros b.
  eapply safe_step; [apply step_open_data, lookup_insert_eq|].
  eapply safe_bind; [by apply safe_open_log; [..|apply lookup_insert_eq]|]. intros [].
  apply (safe_done _ _ tt). rewrite insert_insert_eq. by apply step_open_release, at_idx_upd.
Qed.

(** balloc takes the first block of the free list. *)
Lemma safe_balloc k g V K y a F x :
  0 < sb_size (g_sb g) <= BPB → at_idx V (map_block (g_sb g)) = Some y → length y = Z.to_nat BSIZE →
  free_blocks y (sb_size (g_sb g)) = a :: F → at_idx V a = Some x → a ≠ map_block (g_sb g) →
  ¬ log_area start (map_block (g_sb g)) → ¬ log_area start a → K !! map_block (g_sb g) = None → K !! a = None →
  (S k + size K < NBUF)%nat → Z.of_nat (S k) < LOGSIZE - 1 → length V = length d →
  safe (Open k g d V K) (balloc dev) C
    (fun r g1 => r = a ∧
       Open (S (S k)) g d (<[Z.to_nat a := zero_block]> (<[Z.to_nat (map_block (g_sb g)) := set_bit a y]> V)) K g1).
Proof.
  intros Hs Hy Hly HF Hx Hne Hlm Hla HKm HKa Hsz Hk HV. pose proof (at_idx_Some _ _ _ Hy) as Hrm.
  pose proof (at_idx_Some _ _ _ Hx) as Hra. unfold balloc.
  eapply safe_step; [apply step_open_sb|].
  replace ((sb_size (g_sb g) + BPB - 1) / BPB) with 1 by (apply (Z.div_unique _ _ _ (sb_size (g_sb g) - 1)); lia).
  simpl seq. cbn [for_ret]. rewrite Z.mul_0_l.
  apply (safe_bind _ _ _ _ (fun r g1 => r = Some a ∧
    Open (S (S k)) g d (<[Z.to_nat a := zero_block]> (<[Z.to_nat (map_block (g_sb g)) := set_bit a y]> V)) K g1)).
  2: { intros r. apply safe_pure. intros ->. by apply safe_ret. }
  apply (safe_bind _ _ _ _ (fun r g1 => r = Some a ∧
    Open (S (S k)) g d (<[Z.to_nat a := zero_block]> (<[Z.to_nat (map_block (g_sb g)) := set_bit a y]> V)) K g1)).
  2: { intros r. apply safe_pure. intros ->. by apply safe_ret. }
  eapply safe_step; [apply step_open_sb|]. cbn [id]. change (BBLOCK 0 (g_sb g)) with (map_block (g_sb g)).
  eapply safe_bind; [apply safe_open_bread; try done; lia|]. intros b.
  eapply safe_bind; [apply (safe_open_look _ _ _ _ _ _ _ (map_block (g_sb g))), lookup_insert_eq|].
  intros bf. apply safe_pure. intros ->.
  assert (first_clear (Z.to_nat BPB) y 0 0 (sb_size (g_sb g)) = Some a) as ->.
  { pose proof (first_clear_head (Z.to_nat (sb_size (g_sb g))) (Z.to_nat BPB) y 0) as E.
    fold (free_blocks y (sb_size (g_sb g))) in E. rewrite HF in E. cbn [List.hd_error] in E.
    rewrite Z2Nat.id, Z.add_0_l in E by lia. apply E. lia. }
  eapply safe_step; [apply step_open_data, lookup_insert_eq|].
  eapply safe_bind; [eapply (safe_open_log _ _ patient k g d V _ (map_block (g_sb g))); [done|lia|done|done|apply lookup_insert_eq]|]. intros [].
  rewrite insert_insert_eq. eapply safe_step; [by apply step_open_release, at_idx_upd|].
  eapply safe_bind; [apply (safe_open_bzero _ _ _ _ _ x); try done|].
  - rewrite at_idx_upd_ne by (try done; lia). by rewrite Z.add_0_l.
  - by rewrite length_insert.
  - intros []. rewrite Z.add_0_l. by apply safe_ret.
Qed.

(** In terms of the pool. *)
Lemma pool_balloc k g V U a F :
  pool (g_sb g) V U (a :: F) → Z.of_nat (S k) < LOGSIZE - 1 →
  ∃ V', pool (g_sb g) V' (a :: U) F ∧ at_idx V' a = Some zero_block ∧
    (∀ b, 0 <= b → b ≠ a → b ≠ map_block (g_sb g) → at_idx V' b = at_idx V b) ∧
    ∀ K, K !! map_block (g_sb g) = None → K !! a = None → (S k + size K < NBUF)%nat →
      safe (Open k g d V K) (balloc dev) C (fun r g1 => r = a ∧ Open (S (S k)) g d V' K g1).
Proof.
  intros [P1 P2 P3 P4 P5] Hk. set (sb := g_sb g) in *. set (m := map_block sb) in *.
  destruct (P3 m) as (Hm0 & Hml & y & Hy & Hly); [by left|].
  destruct (P3 a) as (Ha0 & Hal & x & Hx & Hlx); [set_solver|].
  assert (a ≠ m) as Hne by (intros ->; apply NoDup_cons in P2 as [P2 _]; apply P2; set_solver).
  pose proof (at_idx_Some _ _ _ Hy). pose proof (at_idx_Some _ _ _ Hx). specialize (P5 y Hy).
  set (V' := <[Z.to_nat a := zero_block]> (<[Z.to_nat m := set_bit a y]> V)). exists V'.
  assert (at_idx V' a = Some zero_block) as Ea by (apply at_idx_upd; rewrite length_insert; lia).
  assert (at_idx V' m = Some (set_bit a y)) as Em.
  { unfold V'. rewrite at_idx_upd_ne by (try done; lia). by apply at_idx_upd. }
  assert (∀ b, 0 <= b → b ≠ a → b ≠ m → at_idx V' b = at_idx V b) as Eb.
  { intros b Hb Hba Hbm. unfold V'. by rewrite !at_idx_upd_ne by (try done; lia). }
  split; [split|split_and!; try done].
  - unfold V'. by rewrite !length_insert.
  - rewrite <- Permutation_middle in P2. exact P2.
  - intros b Hb. destruct (P3 b) as (H1 & H2 & w & Hw & Hl); [set_solver|]. split_and!; try done.
    pose proof (at_idx_Some _ _ _ Hw). destruct (decide (b = a)) as [->|Hba]; [exists zero_block; by split; [|apply length_replicate]|].
    destruct (decide (b = m)) as [->|Hbm]; [exists (set_bit a y); split; [done|]; unfold set_bit; by rewrite length_alter|].
    exists w. by rewrite Eb by (try done; lia).
  - done.
  - intros y' Hy'. fold m in Hy'. rewrite Em in Hy'. injection Hy' as <-. unfold free_blocks. apply free_from_set; [exact P5|done|].
    rewrite Hly. change (8 * Z.of_nat (Z.to_nat BSIZE)) with BPB. lia.
  - intros K HKm HKa Hsz. by apply safe_balloc with (x := x) (F := F).
Qed.

(** ** Files that can grow *)

(** File [i]: its inode [ip] in memory, its blocks [addrs], the indirect block [meta] if
    it has one; [F] are the free blocks. *)
Record wfile (g : sub) (V : disk) (i : nat) (ip : inode) (meta addrs F : list Z) : Prop := {
  w_ip : g_inodes g !! i = Some ip;
  w_dev : i_dev ip = dev;
  w_len : Z.of_nat (length addrs) <= MAXFILE;
  w_addrs : i_addrs ip = inode_addrs meta addrs;
  w_meta : meta = [] ∧ (length addrs <= NDIRECT)%nat ∨ ∃ ia x, meta = [ia] ∧ at_idx V ia = Some x ∧ indirect x addrs;
  w_pool : pool (g_sb g) V (ino_block (g_sb g) ip :: meta ++ addrs) F
}.

Lemma w_nodup g V i ip meta addrs F :
  wfile g V i ip meta addrs F → NoDup (map_block (g_sb g) :: ino_block (g_sb g) ip :: meta ++ addrs ++ F).
Proof.
  intros Hw. pose proof (p_nodup _ _ _ _ (w_pool _ _ _ _ _ _ _ Hw)) as Hn. simpl in Hn.
  by rewrite <- app_assoc in Hn.
Qed.

Lemma w_block g V i ip meta addrs F a :
  wfile g V i ip meta addrs F → a ∈ map_block (g_sb g) :: ino_block (g_sb g) ip :: meta ++ addrs ++ F →
  a ≠ 0 ∧ ¬ log_area start a ∧ ∃ x, at_idx V a = Some x ∧ length x = Z.to_nat BSIZE.
Proof. intros Hw Ha. apply (p_blocks _ _ _ _ (w_pool _ _ _ _ _ _ _ Hw)). simpl. by rewrite <- app_assoc. Qed.

Lemma wfile_file g V i ip meta addrs F : wfile g V i ip meta addrs F → file_at (at_idx V) ip addrs.
Proof using.
  clear patient Hfit HC Pat DW W C. intros Hw. pose proof Hw as [W1 W2 W3 W4 W5 _]. pose proof (w_nodup _ _ _ _ _ _ _ Hw) as P2.
  rewrite !NoDup_cons in P2. destruct P2 as (_ & _ & P2). split.
  - done.
  - intros k a Hk Ha. by rewrite W4, inode_addrs_direct, Ha.
  - intros Hl. destruct W5 as [[-> ?]|(ia & x & -> & Hx & Hlx & Hwd)]; [lia|]. exists ia, x.
    rewrite W4, inode_addrs_indirect. destruct (w_block _ _ _ _ _ _ _ ia Hw) as (Hz & _); [set_solver|].
    split; [done|]. split; [done|]. split; [|split; [done|]].
    + simpl in P2. apply NoDup_cons in P2 as [P2 _]. set_solver.
    + intros k a Ha. rewrite Hwd, Ha; [done|]. apply lookup_lt_Some in Ha. change MAXFILE with 268 in W3.
      change (Z.to_nat NINDIRECT) with 256%nat. unfold NDIRECT in *. lia.
  - intros a Ha. destruct (w_block _ _ _ _ _ _ _ a Hw) as (Hz & _ & Hx); [set_solver|]. by split.
  - by apply NoDup_app in P2 as (_ & _ & [P2 _]%NoDup_app).
Qed.

(** What an operation on the file leaves alone: the data but the inode, the inode but its
    block numbers, and every block that is not the file's, free, or the free map. *)
Record kept (i : nat) (g : sub) (V : disk) (ip : inode) (meta addrs F : list Z)
    (g' : sub) (V' : disk) (ip' : inode) (meta' addrs' F' : list Z) : Prop := {
  kp_g : g' = g <| g_inodes ::= <[i := ip']> |>;
  kp_ip : ip' = ip <| i_addrs := i_addrs ip' |>;
  kp_frame : ∀ b, 0 <= b → b ∉ map_block (g_sb g) :: meta ++ addrs ++ F → at_idx V' b = at_idx V b;
  kp_sub : meta' ++ addrs' ++ F' ⊆ meta ++ addrs ++ F
}.

Lemma kept_refl i g V ip meta addrs F :
  g_inodes g !! i = Some ip → kept i g V ip meta addrs F g V ip meta addrs F.
Proof.
  intros Hi. split; try done.
  - destruct g. simpl in *. unfold set_field. simpl. by rewrite list_insert_id.
  - by destruct ip.
Qed.

Lemma kept_trans i g V ip meta addrs F g1 V1 ip1 meta1 addrs1 F1 g2 V2 ip2 meta2 addrs2 F2 :
  kept i g V ip meta addrs F g1 V1 ip1 meta1 addrs1 F1 →
  kept i g1 V1 ip1 meta1 addrs1 F1 g2 V2 ip2 meta2 addrs2 F2 →
  kept i g V ip meta addrs F g2 V2 ip2 meta2 addrs2 F2.
Proof.
  intros [-> E1 Fr1 S1] [-> E2 Fr2 S2]. split.
  - destruct g. simpl. unfold set_field. simpl. by rewrite list_insert_insert_eq.
  - rewrite E2, E1. by destruct ip.
  - intros b Hb Hn. rewrite Fr2; [by apply Fr1|done|]. simpl. revert Hn S1. clear. set_solver.
  - set_solver.
Qed.

(** The file has got one more block, [a], which is zero. *)
Record grew (i : nat) (g : sub) (V : disk) (ip : inode) (meta addrs F : list Z)
    (g' : sub) (V' : disk) (ip' : inode) (meta' : list Z) (a : Z) (F' : list Z) : Prop := {
  gr_file : wfile g' V' i ip' meta' (addrs ++ [a]) F';
  gr_kept : kept i g V ip meta addrs F g' V' ip' meta' (addrs ++ [a]) F';
  gr_zero : at_idx V' a = Some zero_block;
  gr_old : ∀ b, b ∈ addrs → at_idx V' b = at_idx V b;
  gr_free : (length F <= length F' + 2)%nat
}.

(** The first free block becomes the next direct one. *)
Lemma grew_direct i g V V' ip meta addrs a F :
  wfile g V i ip meta addrs (a :: F) → (length addrs < NDIRECT)%nat →
  pool (g_sb g) V' (a :: ino_block (g_sb g) ip :: meta ++ addrs) F → at_idx V' a = Some zero_block →
  (∀ b, 0 <= b → b ≠ a → b ≠ map_block (g_sb g) → at_idx V' b = at_idx V b) →
  let ip' := ip <| i_addrs ::= <[length addrs := a]> |> in
  grew i g V ip meta addrs (a :: F) (g <| g_inodes ::= <[i := ip']> |>) V' ip' meta a F.
Proof.
  intros Hw Hl Hpool Hz Hfr ip'. pose proof Hw as [W1 W2 W3 W4 W5 _].
  assert (∀ b, b ∈ meta ++ addrs → at_idx V' b = at_idx V b) as Hold.
  { intros b Hb. destruct (w_block _ _ _ _ _ _ _ b Hw) as (_ & _ & x & Hx & _); [set_solver|].
    pose proof (at_idx_Some _ _ _ Hx). pose proof (w_nodup _ _ _ _ _ _ _ Hw) as Hn.
    rewrite !NoDup_cons, app_assoc in Hn. destruct Hn as (Hm & _ & (_ & Hd & _)%NoDup_app).
    apply Hfr; [lia|..]; intros ->; [by apply (Hd a Hb); left|apply Hm; set_solver]. }
  assert (i_addrs ip' = inode_addrs meta (addrs ++ [a])) as Ea by (simpl; by rewrite W4, inode_addrs_snoc).
  split.
  - split; simpl; try done.
    + by rewrite list_lookup_insert_eq by (by eapply lookup_lt_Some).
    + rewrite length_app. simpl. change MAXFILE with 268. unfold NDIRECT in *. lia.
    + destruct W5 as [[-> _]|(ia & x & -> & Hx & Hlx & Hwd)].
      * left. split; [done|]. rewrite length_app. simpl. lia.
      * right. exists ia, x. rewrite Hold by set_solver. split; [done|]. split; [done|]. split; [done|].
        intros k Hk. rewrite Hwd, !lookup_ge_None_2; rewrite ?length_app; cbn [length]; try lia; done.
    + eapply pool_perm; [exact Hpool|]. change (ino_block (g_sb g) ip') with (ino_block (g_sb g) ip).
      rewrite (app_assoc meta), <- Permutation_cons_append. apply Permutation_swap.
  - split; [done|by destruct ip| |set_solver]. intros b Hb Hn. apply Hfr; [done|set_solver..].
  - done.
  - intros b Hb. apply Hold. set_solver.
  - simpl. lia.
Qed.

Lemma safe_bmap_direct k i g V ip meta addrs a F :
  wfile g V i ip meta addrs (a :: F) → (length addrs < NDIRECT)%nat →
  (S k < NBUF)%nat → Z.of_nat (S k) < LOGSIZE - 1 →
  ∃ g' V' ip', grew i g V ip meta addrs (a :: F) g' V' ip' meta a F ∧
    safe (Open k g d V ∅) (bmap i (Z.of_nat (length addrs))) C (fun r g1 => r = a ∧ Open (S (S k)) g' d V' ∅ g1).
Proof.
  intros Hw Hl Hk Hk'. pose proof Hw as [W1 W2 W3 W4 W5 Hpool].
  destruct (pool_balloc k g V _ a F Hpool Hk') as (V' & Hpool' & Hz & Hfr & Hdo).
  eexists _, V', _. split; [by apply grew_direct|].
  destruct (w_block _ _ _ _ _ _ _ a Hw) as (Ha0 & _); [set_solver|].
  unfold bmap. eapply safe_step; [by apply step_open_inode|]. rewrite W2.
  destruct (Z.ltb_spec (Z.of_nat (length addrs)) (Z.of_nat NDIRECT)); [|lia]. rewrite Nat2Z.id.
  eapply safe_step.
  { intros g1 Hg1. destruct (step_open_inode k g V ∅ i ip W1 g1 Hg1) as (g2 & Hd & Hg2). exists g2. split; [|exact Hg2].
    eapply does_step; [exact Hd|]. apply does_non_null. rewrite W4. by apply inode_addrs_direct. }
  rewrite lookup_ge_None_2 by done. simpl.
  eapply safe_bind; [apply Hdo; [apply lookup_empty..|]; rewrite map_size_empty; lia|]. intros r. apply safe_pure. intros ->.
  destruct (Z.eqb_spec a 0); [done|]. eapply safe_step; [by apply (step_open_upd_inode _ _ _ _ i ip)|]. by apply safe_ret.
Qed.

(** Behind the direct blocks the number goes into the indirect one. *)
Lemma grew_indirect i g V V1 ip ia x addrs a F :
  wfile g V i ip [ia] addrs (a :: F) → (NDIRECT <= length addrs)%nat → Z.of_nat (length addrs) < MAXFILE →
  at_idx V ia = Some x → indirect x addrs → 0 <= a < 2 ^ 32 →
  pool (g_sb g) V1 (a :: ino_block (g_sb g) ip :: ia :: addrs) F → at_idx V1 a = Some zero_block →
  (∀ b, 0 <= b → b ≠ a → b ≠ map_block (g_sb g) → at_idx V1 b = at_idx V b) →
  grew i g V ip [ia] addrs (a :: F) g (<[Z.to_nat ia := set_word (length addrs - NDIRECT) a x]> V1) ip [ia] a F.
Proof.
  intros Hw Hl Hm Hx Hind Ha Hpool Hz Hfr. pose proof Hw as [W1 W2 W3 W4 W5 _].
  pose proof (indirect_snoc x addrs a Hind Hl Hm Ha) as Hind'. pose proof (at_idx_Some _ _ _ Hx) as Hr.
  pose proof (p_length _ _ _ _ (w_pool _ _ _ _ _ _ _ Hw)). pose proof (p_length _ _ _ _ Hpool).
  pose proof (w_nodup _ _ _ _ _ _ _ Hw) as Hn. simpl in Hn. rewrite !NoDup_cons in Hn.
  destruct Hn as (Hnm & _ & Hni & (_ & Hna & _)%NoDup_app). split.
  - split; try done.
    + rewrite length_app. simpl. lia.
    + by rewrite inode_addrs_full.
    + right. eexists ia, _. split; [done|]. split; [|exact Hind']. apply at_idx_upd. lia.
    + apply pool_write; [|set_solver|apply Hind']. eapply pool_perm; [exact Hpool|].
      change ([ia] ++ addrs ++ [a]) with ((ia :: addrs) ++ [a]). rewrite <- Permutation_cons_append.
      apply Permutation_swap.
  - destruct (kept_refl i g V ip [ia] addrs (a :: F) W1) as [K1 K2 _ _]. split; [done..| |set_solver].
    intros b Hb Hnb. rewrite at_idx_upd_ne by (try lia; set_solver). apply Hfr; [done|set_solver..].
  - rewrite at_idx_upd_ne; [done|lia|]. intros ->. apply Hni. set_solver.
  - intros b Hb. destruct (w_block _ _ _ _ _ _ _ b Hw) as (_ & _ & w & Hwb & _); [set_solver|].
    pose proof (at_idx_Some _ _ _ Hwb). rewrite at_idx_upd_ne; [|lia|intros ->; apply Hni; set_solver].
    apply Hfr; [lia|intros ->; by apply (Hna a Hb); left|intros ->; apply Hnm; set_solver].
  - simpl. lia.
Qed.

Lemma safe_bmap_indirect k i g V ip ia addrs a F :
  wfile g V i ip [ia] addrs (a :: F) → (NDIRECT <= length addrs)%nat → Z.of_nat (length addrs) < MAXFILE →
  (S (S k) < NBUF - 1)%nat → Z.of_nat (S (S k)) < LOGSIZE - 1 →
  ∃ V', grew i g V ip [ia] addrs (a :: F) g V' ip [ia] a F ∧
    safe (Open k g d V ∅)
      (bp ← bread dev ia;
       bf ← get_buf bp;
       let addr := word (b_data bf) (length addrs - NDIRECT) in
       addr ← (if addr =? 0 then
                 addr ← balloc dev;
                 (if addr =? 0 then mret tt else
                  set_data bp (set_word (length addrs - NDIRECT) addr) ;;
                  log_write bp) ;;
                 mret addr
               else mret addr);
       brelse bp ;;
       mret addr) C (fun r g1 => r = a ∧ Open (S (S (S k))) g d V' ∅ g1).
Proof.
  intros Hw Hl Hm Hk Hk'. pose proof Hw as [W1 W2 W3 W4 W5 Hpool].
  destruct W5 as [[? _]|(? & x & [= <-] & Hx & Hind)]; [done|].
  destruct (w_block _ _ _ _ _ _ _ a Hw) as (Ha0 & _ & ax & Hax & _); [set_solver|].
  destruct (w_block _ _ _ _ _ _ _ ia Hw) as (_ & Hil & _); [set_solver|].
  pose proof (w_nodup _ _ _ _ _ _ _ Hw) as Hn. simpl in Hn. rewrite !NoDup_cons in Hn. destruct Hn as (Hnm & _ & Hni & _).
  pose proof (at_idx_Some _ _ _ Hax) as Hra. pose proof (at_idx_Some _ _ _ Hx) as Hri.
  pose proof (p_length _ _ _ _ Hpool) as HV. pose proof Hfit as [F1 F2 F3 F4].
  destruct (pool_balloc k g V _ a F Hpool ltac:(lia)) as (V1 & Hpool1 & Hz & Hfr & Hdo).
  pose proof (p_length _ _ _ _ Hpool1) as HV1.
  eexists. split; [by apply grew_indirect; try done; lia|].
  eapply safe_bind; [apply (safe_open_bread _ _ patient); try done; rewrite map_size_empty; lia|]. intros b.
  eapply safe_bind; [apply (safe_open_look _ _ _ _ _ _ _ ia), lookup_insert_eq|]. intros bf. apply safe_pure. intros ->.
  cbv zeta. destruct Hind as [Hlx Hwd]. rewrite Hwd, lookup_ge_None_2 by
    (change MAXFILE with 268 in Hm; change (Z.to_nat NINDIRECT) with 256%nat; unfold NDIRECT in *; lia).
  cbn [default Z.eqb]. eapply (safe_bind _ _ _ _ (fun r g1 => r = a ∧ Open (S (S (S k))) g d
    (<[Z.to_nat ia := set_word (length addrs - NDIRECT) a x]> V1) (<[ia := (b, set_word (length addrs - NDIRECT) a x)]> ∅) g1)).
  - eapply safe_bind; [apply Hdo|].
    + rewrite lookup_insert_ne, lookup_empty by set_solver. done.
    + rewrite lookup_insert_ne, lookup_empty by set_solver. done.
    + rewrite map_size_insert_None, map_size_empty by apply lookup_empty. lia.
    + intros r. apply safe_pure. intros ->. destruct (Z.eqb_spec a 0); [done|].
      eapply safe_bind; [eapply safe_step; [apply step_open_data, lookup_insert_eq|]|].
      * rewrite insert_insert_eq. apply (safe_open_log _ _ patient); [done|done| |done|apply lookup_insert_eq]. lia.
      * intros []. by apply safe_ret.
  - intros r. apply safe_pure. intros ->. eapply safe_step; [|by apply safe_ret].
    apply (step_open_release _ _ patient); [apply lookup_empty|]. apply at_idx_upd. lia.
Qed.

(** The first free block becomes the indirect one. *)
Lemma grew_meta i g V V1 ip addrs ia F :
  wfile g V i ip [] addrs (ia :: F) →
  pool (g_sb g) V1 (ia :: ino_block (g_sb g) ip :: addrs) F → at_idx V1 ia = Some zero_block →
  (∀ b, 0 <= b → b ≠ ia → b ≠ map_block (g_sb g) → at_idx V1 b = at_idx V b) →
  let ip1 := ip <| i_addrs ::= <[NDIRECT := ia]> |> in
  let g1 := g <| g_inodes ::= <[i := ip1]> |> in
  wfile g1 V1 i ip1 [ia] addrs F ∧ kept i g V ip [] addrs (ia :: F) g1 V1 ip1 [ia] addrs F ∧
  ∀ b, b ∈ addrs → at_idx V1 b = at_idx V b.
Proof.
  intros Hw Hpool Hz Hfr ip1 g1. pose proof Hw as [W1 W2 W3 W4 W5 _].
  destruct W5 as [[_ Hl]|(? & ? & ? & _)]; [|done]. split_and!; [split| |].
  - simpl. by rewrite list_lookup_insert_eq by (by eapply lookup_lt_Some).
  - done.
  - done.
  - simpl. by rewrite W4, inode_addrs_meta.
  - right. exists ia, zero_block. split; [done|]. split; [done|]. by apply indirect_zero.
  - eapply pool_perm; [exact Hpool|]. apply Permutation_swap.
  - split; [done|by destruct ip| |set_solver]. intros b Hb Hn. apply Hfr; [done|set_solver..].
  - intros b Hb. destruct (w_block _ _ _ _ _ _ _ b Hw) as (_ & _ & x & Hx & _); [set_solver|].
    pose proof (at_idx_Some _ _ _ Hx). pose proof (w_nodup _ _ _ _ _ _ _ Hw) as Hn.
    cbn [app] in Hn. rewrite !NoDup_cons in Hn. destruct Hn as (Hm & _ & (_ & Hd & _)%NoDup_app).
    apply Hfr; [lia|..]; intros ->; [by apply (Hd ia Hb); left|apply Hm; set_solver].
Qed.

Lemma grew_after i g V ip meta addrs F g1 V1 ip1 meta1 F1 g2 V2 ip2 meta2 a F2 :
  kept i g V ip meta addrs F g1 V1 ip1 meta1 addrs F1 → (∀ b, b ∈ addrs → at_idx V1 b = at_idx V b) →
  (length F <= length F2 + 2)%nat →
  grew i g1 V1 ip1 meta1 addrs F1 g2 V2 ip2 meta2 a F2 → grew i g V ip meta addrs F g2 V2 ip2 meta2 a F2.
Proof.
  intros Hk Ho Hl [G1 G2 G3 G4 G5]. split; try done; [by eapply kept_trans|].
  intros b Hb. by rewrite G4, Ho.
Qed.

(** The number of the indirect block in the inode. *)
Lemma step_open_meta k g V i ip meta addrs F :
  wfile g V i ip meta addrs F → ∀ g1, Open k g d V ∅ g1 →
  ∃ g2, does ∅ g1 (get_addr i NDIRECT) [] ∅ (default 0 (List.hd_error meta)) g2 ∧ Open k g d V ∅ g2.
Proof.
  intros [W1 W2 W3 W4 W5 _] g1 Hg1.
  destruct (step_open_inode k g V ∅ i ip W1 g1 Hg1) as (g2 & Hd & Hg2). exists g2. split; [|exact Hg2].
  eapply does_step; [exact Hd|]. apply does_non_null. by rewrite W4, inode_addrs_indirect.
Qed.

(** [bmap] of the block behind the last one: the file gets it, at the cost of at most five
    blocks of the log and two free blocks. *)
Lemma safe_bmap_new k i g V ip meta addrs F :
  wfile g V i ip meta addrs F → Z.of_nat (length addrs) < MAXFILE → (2 <= length F)%nat →
  (k + 5 < NBUF)%nat → Z.of_nat (k + 4) < LOGSIZE - 1 →
  ∃ g' V' ip' meta' a F', grew i g V ip meta addrs F g' V' ip' meta' a F' ∧
    safe (Open k g d V ∅) (bmap i (Z.of_nat (length addrs))) C (fun r g1 => r = a ∧ Open (k + 5) g' d V' ∅ g1).
Proof.
  intros Hw Hm HF Hk Hk'. destruct F as [|a [|a' F]]; [simpl in HF; lia..|]. clear HF.
  destruct (decide (length addrs < NDIRECT)%nat) as [Hl|Hl].
  { destruct (safe_bmap_direct k i g V ip meta addrs a (a' :: F) Hw Hl) as (g' & V' & ip' & Hg & Hdo); [lia..|].
    eexists _, _, _, _, _, _. split; [exact Hg|]. eapply safe_post; [exact Hdo|]. intros r g1 [-> Hg1].
    split; [done|]. eapply open_more; [|exact Hg1]. lia. }
  pose proof Hw as [W1 W2 W3 W4 W5 Hpool].
  unfold bmap. destruct (Z.ltb_spec (Z.of_nat (length addrs)) (Z.of_nat NDIRECT)); [lia|].
  destruct (Z.ltb_spec (Z.of_nat (length addrs) - Z.of_nat NDIRECT) NINDIRECT);
    [|change MAXFILE with 268 in Hm; change NINDIRECT with 256 in *; unfold NDIRECT in *; lia].
  replace (Z.to_nat (Z.of_nat (length addrs) - Z.of_nat NDIRECT)) with (length addrs - NDIRECT)%nat by lia.
  destruct W5 as [[-> Hd]|(ia & x & -> & _)].
  - destruct (pool_balloc k g V _ a (a' :: F) Hpool ltac:(lia)) as (V1 & Hpool1 & Hz & Hfr & Hdo1).
    destruct (grew_meta i g V V1 ip addrs a (a' :: F) Hw Hpool1 Hz Hfr) as (Hw1 & Hk1 & Ho1).
    destruct (safe_bmap_indirect (S (S k)) i _ V1 _ a addrs a' F Hw1) as (V2 & Hg & Hdo2); [lia..|].
    eexists _, _, _, _, _, _. split; [eapply grew_after; [exact Hk1|exact Ho1| |exact Hg]; simpl; lia|].
    destruct (w_block _ _ _ _ _ _ _ a Hw) as (Ha0 & _); [set_solver|].
    eapply safe_step; [by apply step_open_inode|]. rewrite W2.
    eapply safe_step; [by eapply step_open_meta|]. cbn [List.hd_error default Z.eqb].
    set (g1 := g <| g_inodes ::= <[i := ip <| i_addrs ::= <[NDIRECT := a]> |>]> |>) in *.
    apply (safe_bind _ _ _ _ (fun r g2 => r = a ∧ Open (S (S k)) g1 d V1 ∅ g2)).
    { eapply safe_bind; [apply Hdo1; [apply lookup_empty..|]; rewrite map_size_empty; lia|].
      intros r. apply safe_pure. intros ->. destruct (Z.eqb_spec a 0); [done|].
      eapply safe_step; [by apply (step_open_upd_inode _ _ _ _ i ip)|].
      by apply safe_ret. }
    intros r. apply safe_pure. intros ->. destruct (Z.eqb_spec a 0); [done|].
    eapply safe_post; [exact Hdo2|]. intros r g2 [-> Hg2]. split; [done|]. eapply open_more; [|exact Hg2]. lia.
  - destruct (safe_bmap_indirect k i g V ip ia addrs a (a' :: F) Hw) as (V2 & Hg & Hdo2); [lia..|].
    eexists _, _, _, _, _, _. split; [exact Hg|].
    destruct (w_block _ _ _ _ _ _ _ ia Hw) as (Ha0 & _); [set_solver|].
    eapply safe_step; [by apply step_open_inode|]. rewrite W2.
    eapply safe_step; [by eapply step_open_meta|]. cbn [List.hd_error default id].
    destruct (Z.eqb_spec ia 0); [done|].
    eapply safe_step; [intros g1 Hg1; exists g1; split; [apply does_ret|exact Hg1]|].
    destruct (Z.eqb_spec ia 0); [done|].
    eapply safe_post; [exact Hdo2|]. intros r g1 [-> Hg1]. split; [done|]. eapply open_more; [|exact Hg1]. lia.
Qed.

(** [bmap] of a block that the file has, or of the one behind the last; the bytes of the
    file are the old ones with zeros behind them. *)
Lemma safe_bmap_at k i g V ip meta addrs F bn :
  wfile g V i ip meta addrs F → 0 <= bn <= Z.of_nat (length addrs) → bn < MAXFILE → (2 <= length F)%nat →
  (k + 5 < NBUF)%nat → Z.of_nat (k + 4) < LOGSIZE - 1 →
  ∃ g' V' ip' meta' addrs' F' a z, wfile g' V' i ip' meta' addrs' F' ∧
    kept i g V ip meta addrs F g' V' ip' meta' addrs' F' ∧ (length F <= length F' + 2)%nat ∧
    bytes_of (at_idx V') addrs' = bytes_of (at_idx V) addrs ++ replicate z 0 ∧ addrs' !! Z.to_nat bn = Some a ∧
    safe (Open k g d V ∅) (bmap i bn) C (fun r g1 => r = a ∧ Open (k + 5) g' d V' ∅ g1).
Proof.
  intros Hw Hb Hm HF Hk Hk'. destruct (decide (bn < Z.of_nat (length addrs))) as [Hlt|Hge].
  - destruct (lookup_lt_is_Some_2 addrs (Z.to_nat bn)) as [a Ha]; [lia|].
    eexists g, V, ip, meta, addrs, F, a, O. split; [done|]. split; [by apply kept_refl, Hw|]. split; [lia|].
    split; [by rewrite app_nil_r|]. split; [done|]. pose proof Hw as [W1 W2 _ _ _ _].
    eapply safe_post; [eapply safe_bmap; [apply open_reader; [done|exact Hfit|lia|exact HC]|exact W1|done| |exact Ha|lia]|].
    + by eapply wfile_file.
    + intros r g1 [-> Hg1]. split; [done|]. eapply open_more; [|exact Hg1]. lia.
  - assert (bn = Z.of_nat (length addrs)) as -> by lia.
    destruct (safe_bmap_new k i g V ip meta addrs F Hw ltac:(lia) HF Hk Hk')
      as (g' & V' & ip' & meta' & a & F' & [G1 G2 G3 G4 G5] & Hdo).
    exists g', V', ip', meta', (addrs ++ [a]), F', a, (Z.to_nat BSIZE). split; [done|]. split; [done|]. split; [done|].
    split; [|split; [|exact Hdo]].
    + unfold bytes_of, blocks_of. rewrite fmap_app, concat_app. cbn [fmap list_fmap concat]. rewrite G3, app_nil_r.
      cbn [default id]. f_equal. f_equal. apply list_fmap_ext. intros j b Hj. by rewrite G4 by (by eapply list_elem_of_lookup_2).
    + rewrite Nat2Z.id, lookup_app_r, Nat.sub_diag by done. done.
Qed.

(** Where the bytes come from: [either_copyin] gives those of [data], and fails nowhere. *)
Definition copies (src : iosrc) (data : list Z) (ram : mem) : Prop :=
  ∀ g off len, g_ram g = ram → 0 <= off → 0 <= len → off + len <= Z.of_nat (length data) →
    does ∅ g (either_copyin src off len) [] ∅ (0, take (Z.to_nat len) (drop (Z.to_nat off) data)) g.

Lemma copies_local data ram : copies (SLocal data) data ram.
Proof.
  intros g off len _ _ _ _. unfold either_copyin. eapply does_step; [|apply does_ret]. unfold mypagetable.
  apply (does_my ∅ g p_pagetable mine.1.1.1.1.2). intros p [_ <-]. done.
Qed.

Lemma kept_ram i g V ip meta addrs F g' V' ip' meta' addrs' F' :
  kept i g V ip meta addrs F g' V' ip' meta' addrs' F' → g_ram g' = g_ram g.
Proof. by intros [-> _ _ _]. Qed.

Lemma open_ram k g V K g1 : Open k g d V K g1 → g_ram g1 = g_ram g.
Proof. by intros (l & bs & datas & H & _ & B & v & -> & _). Qed.

(** One block of the file is written. *)
Lemma w_write g V i ip meta addrs F j a y :
  wfile g V i ip meta addrs F → addrs !! j = Some a → length y = Z.to_nat BSIZE →
  let V' := <[Z.to_nat a := y]> V in
  wfile g V' i ip meta addrs F ∧ kept i g V ip meta addrs F g V' ip meta addrs F ∧
  blocks_of (at_idx V') addrs = <[j := y]> (blocks_of (at_idx V) addrs).
Proof.
  intros Hw Ha Hy V'. pose proof (list_elem_of_lookup_2 _ _ _ Ha) as Hin. pose proof Hw as [W1 W2 W3 W4 W5 W6].
  destruct (w_block _ _ _ _ _ _ _ a Hw) as (_ & _ & x & Hx & _); [set_solver|].
  pose proof (at_idx_Some _ _ _ Hx) as Hr. pose proof (w_nodup _ _ _ _ _ _ _ Hw) as Hn.
  rewrite !NoDup_cons in Hn. destruct Hn as (_ & _ & (_ & Hd & (Hn & _)%NoDup_app)%NoDup_app).
  assert (∀ b, 0 <= b → b ≠ a → at_idx V' b = at_idx V b) as Hfr.
  { intros b Hb Hne. unfold V'. by rewrite at_idx_upd_ne by (try done; lia). }
  split; [split; try done|split; [|]].
  - destruct W5 as [?|(ia & w & -> & Hia & Hind)]; [by left|]. right. exists ia, w. split; [done|].
    pose proof (at_idx_Some _ _ _ Hia). rewrite Hfr; [done|lia|]. intros ->. apply (Hd a); set_solver.
  - apply pool_write; [done|set_solver|done].
  - destruct (kept_refl i g V ip meta addrs F W1) as [K1 K2 K3 K4]. split; try done.
    intros b Hb Hnb. apply Hfr; [done|set_solver].
  - apply list_eq. intros k. unfold blocks_of. destruct (decide (k = j)) as [->|Hne].
    + rewrite list_lookup_insert_eq by (rewrite length_fmap; by eapply lookup_lt_Some).
      rewrite list_lookup_fmap, Ha. simpl. unfold V'. by rewrite at_idx_upd by lia.
    + rewrite list_lookup_insert_ne, !list_lookup_fmap by done. destruct (addrs !! k) as [b|] eqn:Eb; [|done]. simpl.
      destruct (w_block _ _ _ _ _ _ _ b Hw) as (_ & _ & w & Hwb & _); [apply list_elem_of_lookup_2 in Eb; set_solver|].
      pose proof (at_idx_Some _ _ _ Hwb). rewrite Hfr; [done|lia|]. intros ->. by apply Hne, (NoDup_lookup addrs k j a).
Qed.

(** The bytes [B'] are [B], longer by some zeros, with [x] written at [off]. *)
Definition wrote (off : nat) (x B B' : list Z) : Prop :=
  ∃ z, (off + length x <= length B + z)%nat ∧ B' = patch off x (B ++ replicate z 0).

Lemma wrote_nil off B : (off <= length B)%nat → wrote off [] B B.
Proof.
  intros H. exists O. simpl. split; [lia|]. unfold patch. simpl. by rewrite app_nil_r, Nat.add_0_r, take_drop.
Qed.

Lemma wrote_trans off x1 x2 B B1 B2 :
  wrote off x1 B B1 → wrote (off + length x1) x2 B1 B2 → wrote off (x1 ++ x2) B B2.
Proof.
  intros (z1 & Hl1 & ->) (z2 & Hl2 & ->). exists (z1 + z2)%nat.
  rewrite length_patch, length_app, length_replicate in Hl2 by (rewrite length_app, length_replicate; lia).
  rewrite length_app. split; [lia|].
  rewrite replicate_add, (app_assoc B), patch_app by (rewrite length_app, length_replicate; lia).
  apply patch_patch. rewrite !length_app, !length_replicate. lia.
Qed.

(** ** writei *)

(** One turn of the loop: at most six blocks of the log and two free blocks. *)
Lemma safe_write_turn {A} k i g V ip meta addrs F src data off tot m (stop : A) :
  wfile g V i ip meta addrs F → copies src data (g_ram g) →
  0 <= off <= BSIZE * Z.of_nat (length addrs) → off < MAXFILE * BSIZE →
  0 <= tot → 0 < m → tot + m <= Z.of_nat (length data) → off mod BSIZE + m <= BSIZE →
  (2 <= length F)%nat → (k + 5 < NBUF)%nat → Z.of_nat (k + 5) < LOGSIZE - 1 →
  ∃ g' V' ip' meta' addrs' F', wfile g' V' i ip' meta' addrs' F' ∧
    kept i g V ip meta addrs F g' V' ip' meta' addrs' F' ∧ (length F <= length F' + 2)%nat ∧
    wrote (Z.to_nat off) (take (Z.to_nat m) (drop (Z.to_nat tot) data)) (bytes_of (at_idx V) addrs) (bytes_of (at_idx V') addrs') ∧
    ∀ (rest : K A) Q, safe (Open (k + 6) g' d V' ∅) rest C Q →
      safe (Open k g d V ∅)
        (addr ← bmap i (off / BSIZE);
         if addr =? 0 then mret stop else
         bp ← bread dev addr;
         r ← either_copyin src tot m;
         set_data bp (fun data => take (Z.to_nat (off mod BSIZE)) data ++ r.2 ++
                                  drop (Z.to_nat (off mod BSIZE) + length r.2) data) ;;
         if r.1 =? -1 then brelse bp ;; mret stop else
         log_write bp ;;
         brelse bp ;;
         rest) C Q.
Proof.
  intros Hw Hsrc Ho Hmax Ht Hm Hdata Hmod HF Hk Hk'.
  pose proof (Z.mod_pos_bound off BSIZE ltac:(done)) as Hmb.
  destruct (safe_bmap_at k i g V ip meta addrs F (off / BSIZE) Hw)
    as (g1 & V1 & ip1 & meta1 & addrs1 & F1 & a & z & Hw1 & Hk1 & HF1 & Hb1 & Ha & Hdo); try done; [|..|lia|].
  { split; [apply Z.div_pos; unfold BSIZE; lia|]. apply Z.div_le_upper_bound; [done|lia]. }
  { apply Z.div_lt_upper_bound; [done|lia]. }
  pose proof (list_elem_of_lookup_2 _ _ _ Ha) as Hin. pose proof (wfile_file _ _ _ _ _ _ _ Hw1) as Hfile.
  destruct (w_block _ _ _ _ _ _ _ a Hw1) as (Hz & Hal & x & Hx & Hlx); [set_solver|].
  set (chunk := take (Z.to_nat m) (drop (Z.to_nat tot) data)).
  assert (length chunk = Z.to_nat m) as Hc by (unfold chunk; rewrite length_take_le; [done|rewrite length_drop; lia]).
  assert (Z.to_nat off = Z.to_nat BSIZE * Z.to_nat (off / BSIZE) + Z.to_nat (off mod BSIZE))%nat as Eo.
  { pose proof (Z.div_mod off BSIZE ltac:(done)). pose proof (Z.div_pos off BSIZE ltac:(lia) ltac:(done)). unfold BSIZE in *. lia. }
  set (y := patch (Z.to_nat (off mod BSIZE)) chunk x). assert (length y = Z.to_nat BSIZE) as Hly.
  { unfold y. rewrite length_patch; [done|]. rewrite Hc, Hlx. lia. }
  destruct (w_write _ _ _ _ _ _ _ _ a y Hw1 Ha Hly) as (Hw2 & Hk2 & Hb2).
  pose proof (blocks_of_length _ _ _ Hfile) as Hbl.
  assert (blocks_of (at_idx V1) addrs1 !! Z.to_nat (off / BSIZE) = Some x) as Hbx.
  { unfold blocks_of. rewrite list_lookup_fmap, Ha. simpl. by rewrite Hx. }
  eexists _, _, _, _, _, _. split; [exact Hw2|]. split; [by eapply kept_trans|]. split; [done|]. split.
  - exists z. rewrite <- Hb1. split.
    + rewrite <- (length_replicate z 0), <- length_app, <- Hb1. pose proof (bytes_of_length _ _ _ Hfile). apply lookup_lt_Some in Ha. rewrite Hc. unfold BSIZE in *. lia.
    + unfold bytes_of. rewrite Hb2, Eo. apply concat_patch; [done|exact Hbx|]. rewrite Hc. lia.
  - intros rest Q Hrest. eapply safe_bind; [exact Hdo|]. intros r. apply safe_pure. intros ->.
    destruct (Z.eqb_spec a 0); [done|].
    eapply safe_bind; [apply (safe_open_bread _ _ patient); try done; rewrite map_size_empty; lia|]. intros b.
    eapply safe_step; [intros g2 Hg2; exists g2; split; [|exact Hg2]; apply Hsrc; try lia|].
    { by rewrite (open_ram _ _ _ _ _ Hg2), (kept_ram _ _ _ _ _ _ _ _ _ _ _ _ _ Hk1). }
    cbn [fst snd]. eapply safe_step; [apply step_open_data, lookup_insert_eq|]. rewrite insert_insert_eq.
    change (0 =? -1) with false. cbn match.
    pose proof (at_idx_Some _ _ _ Hx) as Hr.
    eapply safe_bind; [apply (safe_open_log _ _ patient _ _ _ _ _ a); [done|lia|lia|done|apply lookup_insert_eq]|]. intros [].
    eapply safe_step; [|replace (k + 6)%nat with (S (k + 5)) in Hrest by lia; exact Hrest].
    apply (step_open_release _ _ patient); [apply lookup_empty|]. apply at_idx_upd. lia.
Qed.

Lemma safe_writei_loop turns : ∀ fuel k i g V ip meta addrs F src data off tot n,
  wfile g V i ip meta addrs F → copies src data (g_ram g) →
  0 <= off <= BSIZE * Z.of_nat (length addrs) → 0 <= tot <= n → n <= Z.of_nat (length data) →
  off + (n - tot) <= MAXFILE * BSIZE → n - tot = 0 ∨ off mod BSIZE + (n - tot) <= BSIZE * Z.of_nat turns →
  (turns <= fuel)%nat → (2 * turns <= length F)%nat → Z.of_nat (k + 6 * turns) < LOGSIZE →
  ∃ g' V' ip' meta' addrs' F', wfile g' V' i ip' meta' addrs' F' ∧
    kept i g V ip meta addrs F g' V' ip' meta' addrs' F' ∧
    wrote (Z.to_nat off) (take (Z.to_nat (n - tot)) (drop (Z.to_nat tot) data))
      (bytes_of (at_idx V) addrs) (bytes_of (at_idx V') addrs') ∧
    safe (Open k g d V ∅) (writei_loop fuel i src off tot n) C
      (fun r g1 => r = (n, off + (n - tot)) ∧ Open (k + 6 * turns) g' d V' ∅ g1).
Proof.
  induction turns as [|turns IH]; intros fuel k i g V ip meta addrs F src data off tot n Hw Hsrc Ho Ht Hn Hmax Hturns Hf HF Hk;
    pose proof (Z.mod_pos_bound off BSIZE ltac:(done)) as Hmb; pose proof (wfile_file _ _ _ _ _ _ _ Hw) as Hfile;
    pose proof (bytes_of_length _ _ _ Hfile) as Hlen.
  all: destruct (decide (n = tot)) as [->|Hne].
  1, 3: eexists g, V, ip, meta, addrs, F; split; [done|]; split; [by apply kept_refl, Hw|]; rewrite Z.sub_diag;
    split; [apply wrote_nil; lia|]; destruct fuel; cbn [writei_loop]; destruct (Z.leb_spec tot tot); try lia;
    apply safe_ret; intros g1 Hg1; (split; [f_equal; lia|]); (eapply open_more; [|exact Hg1]; lia).
  { lia. }
  destruct fuel as [|fuel]; [lia|]. set (m := Z.min (n - tot) (BSIZE - off mod BSIZE)).
  destruct (safe_write_turn (A := Z * Z) k i g V ip meta addrs F src data off tot m (tot, off) Hw Hsrc)
    as (g1 & V1 & ip1 & meta1 & addrs1 & F1 & Hw1 & Hk1 & HF1 & Hb1 & Hturn); try lia.
  { unfold NBUF, MAXOPBLOCKS in *. unfold LOGSIZE, MAXOPBLOCKS in Hk. lia. }
  pose proof (bytes_of_length _ _ _ (wfile_file _ _ _ _ _ _ _ Hw1)) as Hlen1.
  assert (length (take (Z.to_nat m) (drop (Z.to_nat tot) data)) = Z.to_nat m) as Hc.
  { rewrite length_take_le; [done|]. rewrite length_drop. lia. }
  destruct (IH fuel (k + 6)%nat i g1 V1 ip1 meta1 addrs1 F1 src data (off + m) (tot + m) n)
    as (g2 & V2 & ip2 & meta2 & addrs2 & F2 & Hw2 & Hk2 & Hb2 & Hdo); try done; try lia.
  { by rewrite (kept_ram _ _ _ _ _ _ _ _ _ _ _ _ _ Hk1). }
  { destruct Hb1 as (z & Hz & E). rewrite <- Hlen1, E, length_patch; rewrite length_app, length_replicate; lia. }
  { replace (n - (tot + m)) with (n - tot - m) by lia. apply turns_left; [lia..|done|lia]. }
  eexists _, _, _, _, _, _. split; [exact Hw2|]. split; [by eapply kept_trans|]. split.
  - replace (Z.to_nat (n - tot)) with (Z.to_nat m + Z.to_nat (n - (tot + m)))%nat by lia.
    rewrite take_plus, drop_drop. replace (Z.to_nat tot + Z.to_nat m)%nat with (Z.to_nat (tot + m)) by lia.
    eapply wrote_trans; [exact Hb1|]. rewrite Hc. by replace (Z.to_nat off + Z.to_nat m)%nat with (Z.to_nat (off + m)) by lia.
  - cbn [writei_loop]. destruct (Z.leb_spec n tot); [lia|].
    eapply safe_step; [by apply step_open_inode, Hw|]. rewrite (w_dev _ _ _ _ _ _ _ Hw). apply Hturn.
    eapply safe_post; [exact Hdo|]. intros r g3 [-> Hg3]. split; [f_equal; lia|]. eapply open_more; [|exact Hg3]. lia.
Qed.

(** ** iupdate *)

Definition dinode_of (ip : inode) : dinode :=
  mkdinode (i_type ip) (i_major ip) (i_minor ip) (i_nlink ip) (i_size ip) (i_addrs ip).

(** The fields that have the type short. *)
Definition shorts (ip : inode) : Prop :=
  - 2 ^ 15 <= i_type ip < 2 ^ 15 ∧ - 2 ^ 15 <= i_major ip < 2 ^ 15 ∧
  - 2 ^ 15 <= i_minor ip < 2 ^ 15 ∧ - 2 ^ 15 <= i_nlink ip < 2 ^ 15.

Lemma slot_fits inum : (64 * slot inum + 64 <= Z.to_nat BSIZE)%nat.
Proof. unfold slot. pose proof (Z.mod_pos_bound inum IPB ltac:(done)). change IPB with 16 in *. unfold BSIZE. lia. Qed.

Lemma w_dinode g V i ip meta addrs F :
  wfile g V i ip meta addrs F → shorts ip → 0 <= i_size ip < 2 ^ 32 → dinode_ok (dinode_of ip).
Proof.
  intros Hw (H1 & H2 & H3 & H4) Hs. pose proof Hw as [W1 W2 W3 W4 W5 W6]. pose proof Hfit as [_ _ _ F4].
  pose proof (p_length _ _ _ _ W6) as HV. split_and!; simpl; try lia; rewrite W4.
  - unfold inode_addrs. rewrite length_app, inode_addrs_length. done.
  - assert (∀ a, a ∈ meta ++ addrs → 0 <= a < 2 ^ 32) as Hb.
    { intros a Ha. destruct (w_block _ _ _ _ _ _ _ a Hw) as (_ & _ & x & Hx & _); [set_solver|].
      pose proof (at_idx_Some _ _ _ Hx). lia. }
    apply Forall_app. split.
    + apply Forall_take, Forall_app. split; [apply Forall_forall; intros a Ha; apply Hb; set_solver|].
      by apply Forall_replicate.
    + apply Forall_singleton. destruct meta as [|ia ?]; simpl; [lia|]. apply Hb. set_solver.
Qed.

(** The inode goes to its slot of its block; the others in the block stay. *)
Lemma safe_iupdate k i g V ip meta addrs F :
  wfile g V i ip meta addrs F → shorts ip → 0 <= i_size ip < 2 ^ 32 → (k < NBUF)%nat → Z.of_nat k < LOGSIZE - 1 →
  ∃ V' x y, wfile g V' i ip meta addrs F ∧ bytes_of (at_idx V') addrs = bytes_of (at_idx V) addrs ∧
    at_idx V (ino_block (g_sb g) ip) = Some x ∧ at_idx V' (ino_block (g_sb g) ip) = Some y ∧
    read_dinode y (slot (i_inum ip)) = dinode_of ip ∧
    (∀ j, j ≠ slot (i_inum ip) → read_dinode y j = read_dinode x j) ∧
    (∀ b, 0 <= b → b ≠ ino_block (g_sb g) ip → at_idx V' b = at_idx V b) ∧
    safe (Open k g d V ∅) (iupdate i) C (fun _ => Open (S k) g d V' ∅).
Proof.
  intros Hw Hsh Hs Hk Hk'. pose proof (w_dinode _ _ _ _ _ _ _ Hw Hsh Hs) as Hok. pose proof Hw as [W1 W2 W3 W4 W5 W6].
  set (n := ino_block (g_sb g) ip) in *.
  destruct (w_block _ _ _ _ _ _ _ n Hw) as (_ & Hnl & x & Hx & Hlx); [set_solver|].
  pose proof (at_idx_Some _ _ _ Hx) as Hr. pose proof (w_nodup _ _ _ _ _ _ _ Hw) as Hn.
  apply NoDup_cons in Hn as [_ [Hn _]%NoDup_cons]. fold n in Hn.
  destruct (dinode_round_trip (dinode_of ip) x (slot (i_inum ip)) Hok) as (Hl & Hrd & Hoth);
    [rewrite Hlx; apply slot_fits|].
  set (y := write_dinode (slot (i_inum ip)) (dinode_of ip) x) in *. set (V' := <[Z.to_nat n := y]> V).
  assert (∀ b, 0 <= b → b ≠ n → at_idx V' b = at_idx V b) as Hfr.
  { intros b Hb Hne. unfold V'. by rewrite at_idx_upd_ne by (try done; lia). }
  assert (∀ b, b ∈ meta ++ addrs → at_idx V' b = at_idx V b) as Hold.
  { intros b Hb. destruct (w_block _ _ _ _ _ _ _ b Hw) as (_ & _ & w & Hwb & _); [set_solver|].
    pose proof (at_idx_Some _ _ _ Hwb). apply Hfr; [lia|]. intros ->. set_solver. }
  exists V', x, y. split; [split; try done|split_and!; try done].
  - destruct W5 as [?|(ia & w & -> & Hia & Hind)]; [by left|]. right. exists ia, w. by rewrite Hold by set_solver.
  - apply pool_write; [done|set_solver|]. by rewrite Hl.
  - unfold bytes_of, blocks_of. f_equal. apply list_fmap_ext. intros j b Hj. rewrite Hold; [done|].
    apply list_elem_of_lookup_2 in Hj. set_solver.
  - apply at_idx_upd. lia.
  - unfold iupdate. eapply safe_step; [by apply step_open_inode|]. eapply safe_step; [apply step_open_sb|]. cbn [id].
    rewrite W2. change (IBLOCK (i_inum ip) (g_sb g)) with n.
    eapply safe_bind; [apply (safe_open_bread _ _ patient); try done; rewrite map_size_empty; lia|]. intros b.
    eapply safe_step; [by apply step_open_inode|].
    eapply safe_step; [apply step_open_data, lookup_insert_eq|]. rewrite insert_insert_eq.
    eapply safe_bind; [apply (safe_open_log _ _ patient _ _ _ _ _ n); [done|lia|lia|done|apply lookup_insert_eq]|]. intros [].
    apply (safe_done _ _ tt). apply (step_open_release _ _ patient); [apply lookup_empty|]. apply at_idx_upd. lia.
Qed.

(** ** The whole of writei *)

(** The size changes. *)
Lemma w_size g V i ip meta addrs F n :
  wfile g V i ip meta addrs F →
  let ip' := ip <| i_size := n |> in wfile (g <| g_inodes ::= <[i := ip']> |>) V i ip' meta addrs F.
Proof.
  intros [W1 W2 W3 W4 W5 W6] ip'. split; try done. simpl.
  by rewrite list_lookup_insert_eq by (by eapply lookup_lt_Some).
Qed.

Lemma step_open_size k g V i ip off :
  g_inodes g !! i = Some ip → ∀ g1, Open k g d V ∅ g1 →
  ∃ g2, does ∅ g1 (when (i_size ip <? off) (upd_inode i (fun ip => ip <| i_size := off |>))) [] ∅ tt g2 ∧
    Open k (g <| g_inodes ::= <[i := ip <| i_size := Z.max (i_size ip) off |>]> |>) d V ∅ g2.
Proof.
  intros Hi g1 Hg1. destruct (Z.ltb_spec (i_size ip) off) as [Hlt|Hge]; cbn [when].
  - rewrite Z.max_r by lia. by apply (step_open_upd_inode k g V ∅ i ip (fun ip => ip <| i_size := off |>)).
  - rewrite Z.max_l by lia. exists g1. split; [apply does_ret|].
    replace (g <| g_inodes ::= _ |>) with g; [done|]. destruct g, ip. simpl in *. unfold set_field. simpl. by rewrite list_insert_id.
Qed.

(** The file is the old one with [data] written at [off]. *)
Lemma wrote_file off x B B' size :
  wrote off x B B' → (off <= size <= length B)%nat →
  take (size `max` (off + length x)) B' = patch off x (take size B) ∧ (size `max` (off + length x) <= length B')%nat.
Proof.
  intros (z & Hz & ->) Hs. assert (length (patch off x (B ++ replicate z 0)) = (length B + z)%nat) as Hl.
  { rewrite length_patch; rewrite length_app, length_replicate; lia. }
  split; [|rewrite Hl; lia]. unfold patch. rewrite (take_app_le B) by lia.
  rewrite take_app_ge by (rewrite length_take; lia). rewrite take_app_ge by (rewrite length_take; lia).
  rewrite take_take, (Nat.min_l off size) by lia. f_equal. f_equal. rewrite length_take, (Nat.min_l off) by lia.
  destruct (decide (size <= off + length x)%nat).
  - rewrite (drop_ge (take size B)) by (rewrite length_take; lia).
    replace (size `max` (off + length x) - off - length x)%nat with O by lia. apply take_0.
  - rewrite List.skipn_firstn_comm, drop_app_le by lia.
    replace (size `max` (off + length x) - off - length x)%nat with (size - (off + length x))%nat by lia.
    apply take_app_le. rewrite length_drop. lia.
Qed.

(** [data] has been written at [off] of file [i]: the bytes and the inode in memory and
    on the disk are the new ones, every block that is not the file's, free, the free map
    or the inode's is as before, and so is every other inode. *)
Record written (i : nat) (g : sub) (V : disk) (ip : inode) (meta addrs F : list Z) (off : Z) (data : list Z)
    (g' : sub) (V' : disk) (ip' : inode) (meta' addrs' F' : list Z) : Prop := {
  wr_file : wfile g' V' i ip' meta' addrs' F';
  wr_g : g' = g <| g_inodes ::= <[i := ip']> |>;
  wr_ip : ip' = ip <| i_size := Z.max (i_size ip) (off + Z.of_nat (length data)) |> <| i_addrs := i_addrs ip' |>;
  wr_bytes : file_bytes (at_idx V') ip' addrs' = patch (Z.to_nat off) data (file_bytes (at_idx V) ip addrs);
  wr_size : 0 <= i_size ip' <= BSIZE * Z.of_nat (length addrs');
  wr_inode : ∃ x y, at_idx V (ino_block (g_sb g) ip) = Some x ∧ at_idx V' (ino_block (g_sb g) ip) = Some y ∧
    read_dinode y (slot (i_inum ip)) = dinode_of ip' ∧ ∀ j, j ≠ slot (i_inum ip) → read_dinode y j = read_dinode x j;
  wr_frame : ∀ b, 0 <= b → b ∉ map_block (g_sb g) :: ino_block (g_sb g) ip :: meta ++ addrs ++ F →
    at_idx V' b = at_idx V b
}.

(** What follows the loop of [writei]. *)
Lemma safe_writei_end k i g V ip meta addrs F data off g1 V1 ip1 meta1 addrs1 F1 :
  let n := Z.of_nat (length data) in
  wfile g V i ip meta addrs F → shorts ip → 0 <= off <= i_size ip → i_size ip <= BSIZE * Z.of_nat (length addrs) →
  off + n < 2 ^ 32 → n < 2 ^ 31 →
  wfile g1 V1 i ip1 meta1 addrs1 F1 → kept i g V ip meta addrs F g1 V1 ip1 meta1 addrs1 F1 →
  wrote (Z.to_nat off) data (bytes_of (at_idx V) addrs) (bytes_of (at_idx V1) addrs1) →
  (k < NBUF)%nat → Z.of_nat k < LOGSIZE - 1 →
  ∃ g' V' ip', written i g V ip meta addrs F off data g' V' ip' meta1 addrs1 F1 ∧
    safe (Open k g1 d V1 ∅)
      (ip ← get_inode i;
       when (i_size ip <? off + n) (upd_inode i (fun ip => ip <| i_size := off + n |>)) ;;
       iupdate i ;;
       mret (int n)) C
      (fun r g1 => r = n ∧ Open (S k) g' d V' ∅ g1).
Proof.
  intros n Hw Hsh Ho Hs Hmax Hn Hw1 [K1 K2 K3 K4] Hb1 Hk Hk'.
  pose proof (w_len _ _ _ _ _ _ _ Hw) as Hlen. change MAXFILE with 268 in Hlen.
  set (ip2 := ip1 <| i_size := Z.max (i_size ip1) (off + n) |>).
  assert (i_size ip1 = i_size ip ∧ i_inum ip1 = i_inum ip ∧ shorts ip2) as (Es & En & Hsh2).
  { unfold ip2. rewrite K2. split_and!; [done|done|exact Hsh]. }
  pose proof (w_size _ _ _ _ _ _ _ (Z.max (i_size ip1) (off + n)) Hw1) as Hw2. fold ip2 in Hw2.
  pose proof (bytes_of_length _ _ _ (wfile_file _ _ _ _ _ _ _ Hw)) as HB.
  pose proof (bytes_of_length _ _ _ (wfile_file _ _ _ _ _ _ _ Hw1)) as HB1.
  destruct (wrote_file _ _ _ _ (Z.to_nat (i_size ip)) Hb1) as [Hbytes Hsz]; [lia|].
  replace (_ `max` _)%nat with (Z.to_nat (i_size ip2)) in Hbytes, Hsz by (simpl; lia).
  set (g2 := g1 <| g_inodes ::= <[i := ip2]> |>) in *.
  destruct (safe_iupdate k i g2 V1 ip2 meta1 addrs1 F1 Hw2 Hsh2)
    as (V2 & x & y & Hw3 & Hb3 & Hx & Hy & Hrd & Hoth & Hfr & Hdo2); [simpl; unfold BSIZE in *; lia|done|done|].
  assert (ino_block (g_sb g2) ip2 = ino_block (g_sb g) ip) as Eb.
  { unfold g2. rewrite K1. unfold ino_block. simpl. by rewrite En. }
  assert (ino_block (g_sb g) ip ∉ map_block (g_sb g) :: meta ++ addrs ++ F) as Hnino.
  { pose proof (w_nodup _ _ _ _ _ _ _ Hw) as Hnd. rewrite !NoDup_cons in Hnd. set_solver. }
  rewrite Eb in Hx, Hy, Hfr. simpl i_inum in Hrd, Hoth. rewrite En in Hrd, Hoth.
  exists g2, V2, ip2. split; [split|].
  - exact Hw3.
  - unfold g2. rewrite K1. destruct g. simpl. unfold set_field. simpl. by rewrite list_insert_insert_eq.
  - unfold ip2. rewrite K2. by destruct ip.
  - unfold file_bytes. rewrite Hb3. exact Hbytes.
  - rewrite <- HB1. simpl. simpl in Hsz. lia.
  - exists x, y. split_and!; try done. pose proof (at_idx_Some _ _ _ Hx). by rewrite <- K3 by (done || lia).
  - intros b Hb Hbn. rewrite Hfr by set_solver. apply K3; [done|set_solver].
  - eapply safe_step; [by apply step_open_inode, Hw1|]. eapply safe_step; [by apply step_open_size, Hw1|].
    eapply safe_bind; [exact Hdo2|]. intros []. apply safe_ret. intros g3 Hg3. split; [|done]. apply int_small. lia.
Qed.

(** At most three blocks of data at a time, as filewrite passes them. *)
Lemma safe_writei k i g V ip meta addrs F src data off :
  wfile g V i ip meta addrs F → shorts ip → copies src data (g_ram g) →
  0 <= off <= i_size ip → i_size ip <= BSIZE * Z.of_nat (length addrs) →
  Z.of_nat (length data) <= 3 * BSIZE → off + Z.of_nat (length data) <= MAXFILE * BSIZE →
  (8 <= length F)%nat → Z.of_nat (k + 24) < LOGSIZE - 1 →
  ∃ g' V' ip' meta' addrs' F', written i g V ip meta addrs F off data g' V' ip' meta' addrs' F' ∧
    safe (Open k g d V ∅) (writei i src off (Z.of_nat (length data))) C
      (fun r g1 => r = Z.of_nat (length data) ∧ Open (k + 25) g' d V' ∅ g1).
Proof.
  intros Hw Hsh Hsrc Ho Hs Hn Hmax HF Hk. set (n := Z.of_nat (length data)) in *.
  pose proof (Z.mod_pos_bound off BSIZE ltac:(done)) as Hmb.
  pose proof (Z.div_mod n BSIZE ltac:(done)) as Hdm. pose proof (Z.mod_pos_bound n BSIZE ltac:(done)) as Hnb.
  pose proof (Z.div_pos n BSIZE ltac:(lia) ltac:(done)) as Hdp.
  set (fuel := Z.to_nat (n / BSIZE + 2)). set (turns := (4 `min` fuel)%nat).
  destruct (safe_writei_loop turns fuel k i g V ip meta addrs F src data off 0 n)
    as (g1 & V1 & ip1 & meta1 & addrs1 & F1 & Hw1 & Hk1 & Hb1 & Hdo1);
    try done; try (unfold turns, fuel, BSIZE in *; change MAXFILE with 268 in *; lia).
  rewrite Z.sub_0_r in Hb1. simpl in Hb1. rewrite drop_0, (take_ge data) in Hb1 by lia.
  destruct (safe_writei_end (k + 24) i g V ip meta addrs F data off g1 V1 ip1 meta1 addrs1 F1)
    as (g2 & V2 & ip2 & Hwr & Hdo2); try done; try (unfold BSIZE in *; change MAXFILE with 268 in *; fold n; lia).
  { unfold NBUF, LOGSIZE, MAXOPBLOCKS in *. lia. }
  exists g2, V2, ip2, meta1, addrs1, F1. split; [exact Hwr|]. unfold writei. change (MAXFILE * BSIZE) with 274432 in *.
  eapply safe_step; [by apply step_open_inode, Hw|]. rewrite (uint_small (off + n)) by lia.
  destruct (Z.ltb_spec (i_size ip) off); [lia|]. destruct (Z.ltb_spec (off + n) off); [lia|].
  destruct (Z.ltb_spec 274432 (off + n)); [lia|]. cbn [orb].
  eapply safe_bind; [exact Hdo1|]. intros r. apply safe_pure. intros ->. cbn [fst snd]. rewrite Z.sub_0_r.
  eapply safe_conseq; [exact Hdo2| |done|].
  - intros g3. apply open_more. unfold turns. lia.
  - intros r g3 [-> Hg3]. split; [done|]. eapply open_more; [|exact Hg3]. lia.
Qed.
End write.

(** ** Data in user memory *)

Section source.
Context `{W : World} `{L : Layout}.

Lemma copyin_data s root tbl pages va data off len :
  vm_inv s root tbl pages → user_inv (g_ram (k_sub s)) root tbl pages → ubytes (g_ram (k_sub s)) root va data →
  0 <= va → va + Z.of_nat (length data) < 2 ^ 64 → 0 <= off → 0 <= len → off + len <= Z.of_nat (length data) →
  copyin root (va + off) len s = Ret (0, take (Z.to_nat len) (drop (Z.to_nat off) data)) s.
Proof.
  intros Hv Hu Hb Hva Hmax Ho Hl Hd.
  destruct (copyin_reads s root tbl pages (va + off) (Z.to_nat len) Hv Hu ltac:(lia)) as (r & l & Hr & Hub & Hres).
  rewrite Z2Nat.id in Hr by lia.
  assert (∀ k, (k < Z.to_nat len)%nat → uread (g_ram (k_sub s)) root (va + off + Z.of_nat k) = data !! (Z.to_nat off + k)%nat) as Hd'.
  { intros k Hk. destruct (lookup_lt_is_Some_2 data (Z.to_nat off + k)) as [b E]; [lia|].
    rewrite E, <- (Hb _ _ E). f_equal. lia. }
  destruct Hres as [[-> Hlen]|(-> & Hlen & Hn)].
  - rewrite Hr. do 2 f_equal. apply list_eq. intros k. destruct (decide (k < Z.to_nat len)%nat) as [Hk|Hk].
    + rewrite lookup_take_lt, lookup_drop, <- Hd' by done. destruct (lookup_lt_is_Some_2 l k) as [b E]; [lia|].
      by rewrite E, (Hub _ _ E).
    + by rewrite lookup_take_ge, lookup_ge_None_2 by lia.
  - rewrite Hd' in Hn by done. apply lookup_ge_None in Hn. lia.
Qed.

(** The bytes that the user sees at [va]. *)
Lemma copies_user s tbl pages va data :
  let root := mine.1.1.1.1.2 in
  vm_inv s root tbl pages → user_inv (g_ram (k_sub s)) root tbl pages → ubytes (g_ram (k_sub s)) root va data →
  0 <= va → va + Z.of_nat (length data) < 2 ^ 64 → copies (SUser va) data (g_ram (k_sub s)).
Proof.
  intros root Hv Hu Hb Hva Hmax g off len Hg Ho Hl Hd. unfold either_copyin. eapply does_step.
  { apply (does_my ∅ g p_pagetable root). intros p [_ E]. unfold root. by rewrite <- E. }
  cbv beta iota. rewrite uint64_small by lia. apply triple_Ret. intros s' Hs'.
  pose proof (copyin_data s root tbl pages va data off len Hv Hu Hb Hva Hmax Ho Hl Hd) as Hc.
  eexists _, s'. split; [|by split].
  apply (looks_copyin _ _ _ _ _ _ Hc). by rewrite (calm_sub _ _ _ _ Hs').
Qed.
End source.

(** ** The transaction *)

(** The file on a disk that is the same but for the log. *)
Lemma wfile_same dev start d g V V' i ip meta addrs F :
  wfile dev start d g V i ip meta addrs F → same_files start V' V →
  file_at (at_idx V') ip addrs ∧ bytes_of (at_idx V') addrs = bytes_of (at_idx V) addrs.
Proof.
  intros Hw [Hlen Hsame]. pose proof (wfile_file _ _ _ _ _ _ _ _ _ _ Hw) as [A1 A2 A3 A4 A5].
  assert (∀ b, b ∈ meta ++ addrs → at_idx V' b = at_idx V b) as Hold.
  { intros b Hb. destruct (w_block _ _ _ _ _ _ _ _ _ _ b Hw) as (_ & Hl & w & Hwb & _); [set_solver|].
    pose proof (at_idx_Some _ _ _ Hwb). apply Hsame; [lia|done]. }
  split; [split; try done|].
  - intros Hl. destruct (A3 Hl) as (ia & x & H1 & H2 & H3 & H4 & H5). exists ia, x. split_and!; try done.
    rewrite Hold; [done|]. rewrite (w_addrs _ _ _ _ _ _ _ _ _ _ Hw), inode_addrs_indirect in H1.
    destruct meta; simpl in H1; [by injection H1 as <-|]. injection H1 as <-. set_solver.
  - intros a Ha. rewrite Hold by set_solver. by apply A4.
  - unfold bytes_of, blocks_of. f_equal. apply list_fmap_ext. intros j b Hj. rewrite Hold; [done|].
    apply list_elem_of_lookup_2 in Hj. set_solver.
Qed.

Lemma patch_read {A} off (x l : list A) : (off <= length l)%nat → take (length x) (drop off (patch off x l)) = x.
Proof.
  intros Hl. unfold patch. rewrite drop_app_length' by (rewrite length_take; lia). by rewrite take_app_length.
Qed.

Section atomic.
Context `{DW : DiskWorld} `{Pat : Patience} (dev start : Z).
Hypothesis patient : (0 < patience)%nat.

Lemma safe_write_txn g d i ip meta addrs F src data off :
  log_idle dev start (g_log g) → log_fits dev start d → clean_head start d →
  wfile dev start d g d i ip meta addrs F → shorts ip → copies src data (g_ram g) →
  0 <= off <= i_size ip → i_size ip <= BSIZE * Z.of_nat (length addrs) →
  Z.of_nat (length data) <= 3 * BSIZE → off + Z.of_nat (length data) <= MAXFILE * BSIZE → (8 <= length F)%nat →
  ∃ g' V ip' meta' addrs' F', written dev start d i g d ip meta addrs F off data g' V ip' meta' addrs' F' ∧
    ∀ {A} (rest : Z → K A) (C : disk → Prop) Q,
      (∀ dk, same_files start (recovered start dk) d ∨ same_files start (recovered start dk) V → C dk) →
      safe (txn_done dev start g' V) (rest (Z.of_nat (length data))) C Q →
      safe (Cache dev g ∅ d) (begin_op ;; r ← writei i src off (Z.of_nat (length data)); end_op ;; rest r) C Q.
Proof.
  intros Hidle Hfit Hclean Hw Hsh Hsrc Ho Hs Hn Hmax HF.
  pose proof (clean_recovered dev start d Hfit Hclean) as Hrec.
  destruct (safe_writei dev start d (fun dk => same_files start (recovered start dk) d) patient Hfit Hrec
    0 i g d ip meta addrs F src data off Hw Hsh Hsrc Ho Hs Hn Hmax HF) as (g' & V & ip' & meta' & addrs' & F' & Hwr & Hdo); [done|].
  exists g', V, ip', meta', addrs', F'. split; [exact Hwr|]. intros A rest C Q HC Hrest.
  eapply safe_bind; [by apply safe_open_begin|]. intros [].
  eapply safe_bind; [eapply safe_conseq; [exact Hdo|done|intros dk Hdk; apply HC; by left|]; intros r g1 Hg1; exact Hg1|].
  intros r. apply safe_pure. intros ->.
  eapply safe_bind; [eapply safe_conseq; [by apply safe_open_end|done|exact HC|]; intros r g1 Hg1; exact Hg1|]. intros []. exact Hrest.
Qed.

(** C6. The transaction of filewrite, begin_op; writei; end_op, for at most three
    blocks of data at any offset inside the file or at its end, is atomic, given
    eight free blocks: writei allocates the blocks and the indirect block it needs
    and returns the number of bytes; the file then is the old one with the data at
    the offset, its inode on the disk is the one in memory, and every block outside
    the file and every other inode is as before. If the machine stops while the
    process waits for any of its disk requests, recovery from the disk of that
    moment gives the files from before the transaction or those from after it. *)
Theorem writei_atomic g d i ip meta addrs F src data off :
  log_idle dev start (g_log g) → log_fits dev start d → clean_head start d →
  wfile dev start d g d i ip meta addrs F → shorts ip → copies src data (g_ram g) →
  0 <= off <= i_size ip → i_size ip <= BSIZE * Z.of_nat (length addrs) →
  Z.of_nat (length data) <= 3 * BSIZE → off + Z.of_nat (length data) <= MAXFILE * BSIZE → (8 <= length F)%nat →
  ∃ g' V ip' meta' addrs' F', written dev start d i g d ip meta addrs F off data g' V ip' meta' addrs' F' ∧
    safe (Cache dev g ∅ d)
      (begin_op ;; r ← writei i src off (Z.of_nat (length data)); end_op ;; mret r)
      (fun dk => same_files start (recovered start dk) d ∨ same_files start (recovered start dk) V)
      (fun r g1 => r = Z.of_nat (length data) ∧ txn_done dev start g' V g1).
Proof.
  intros Hidle Hfit Hclean Hw Hsh Hsrc Ho Hs Hn Hmax HF.
  destruct (safe_write_txn g d i ip meta addrs F src data off) as (g' & V & ip' & meta' & addrs' & F' & Hwr & Hdo); try done.
  exists g', V, ip', meta', addrs', F'. split; [exact Hwr|]. apply Hdo; [done|]. by apply safe_ret.
Qed.

(** C33. What the transaction of filewrite wrote, readi gives back: for at most
    three blocks of data at any offset inside the file or at its end, given eight
    free blocks, after begin_op; writei; end_op a readi at the same offset for as
    many bytes returns the data. *)
Theorem written_then_read g d i ip meta addrs F src data off :
  log_idle dev start (g_log g) → log_fits dev start d → clean_head start d →
  wfile dev start d g d i ip meta addrs F → shorts ip → copies src data (g_ram g) →
  0 <= off <= i_size ip → i_size ip <= BSIZE * Z.of_nat (length addrs) →
  Z.of_nat (length data) <= 3 * BSIZE → off + Z.of_nat (length data) <= MAXFILE * BSIZE → (8 <= length F)%nat →
  safe (Cache dev g ∅ d)
    (begin_op ;; r ← writei i src off (Z.of_nat (length data)); end_op ;; readi i DLocal off r)
    (fun _ => True) (fun r _ => r = (Z.of_nat (length data), data)).
Proof.
  intros Hidle Hfit Hclean Hw Hsh Hsrc Ho Hs Hn Hmax HF. pose proof Hfit as [_ _ _ F4].
  destruct (safe_write_txn g d i ip meta addrs F src data off) as (g' & V & ip' & meta' & addrs' & F' & Hwr & Hdo); try done.
  apply (Hdo _ (fun r => readi i DLocal off r)); [done|].
  destruct Hwr as [Hw' _ Eip Hbytes Hsize _ _]. intros g1 (l & d' & Hc & _ & Hsame & _).
  set (gl := g' <| g_log := l |>) in Hc.
  destruct (wfile_same _ _ _ _ _ _ _ _ _ _ _ Hw' Hsame) as [Hfile Hb'].
  assert (length d' = length d) as El by (destruct Hsame as [-> _]; apply (w_pool _ _ _ _ _ _ _ _ _ _ Hw')).
  change (MAXFILE * BSIZE) with 274432 in *.
  assert (readable ∅ d') as Hread.
  { split; [intros n h; by rewrite lookup_empty|]. rewrite map_size_empty, El. split; [vm_compute; lia|done]. }
  destruct (cache_readi (Lay := ex_layout) dev (fun _ => True) gl ∅ d' i ip' addrs' DLocal off (Z.of_nat (length data))
    patient Hread I (w_ip _ _ _ _ _ _ _ _ _ _ Hw') (w_dev _ _ _ _ _ _ _ _ _ _ Hw') Hfile Hsize ltac:(lia) ltac:(lia) I g1 Hc)
    as (tr & [r1 r2] & g2 & Hd2 & HC2 & c & m' & [Ec _] & E1 & E2 & _).
  exists tr, (r1, r2), g2. split; [done|]. split; [done|]. simpl in E1, E2. rewrite E1, E2, Ec by lia. clear Ec E1 E2.
  set (bs := asked _ _ _ _ _). replace (Z.of_nat (length bs) =? -1) with false by (symmetry; apply Z.eqb_neq; lia).
  assert (bs = data) as ->; [|done]. unfold bs, asked. clear bs. change (contents ∅ d') with (at_idx d').
  destruct (Z.ltb_spec (off + Z.of_nat (length data)) (2 ^ 32)); [|lia]. rewrite Nat2Z.id.
  replace (file_bytes (at_idx d') ip' addrs') with (file_bytes (at_idx V) ip' addrs') by (unfold file_bytes; by rewrite Hb').
  pose proof (bytes_of_length _ _ _ (wfile_file _ _ _ _ _ _ _ _ _ _ Hw)).
  rewrite Hbytes, patch_read; [done|]. unfold file_bytes. rewrite length_take. lia.
Qed.
End atomic.

(** ** The thirteenth block of a file *)

(** The blocks from 50 on are free. *)
Lemma ex_wfile : wfile 1 2 ex_file_disk ex_file_sub ex_file_disk 0 ex_file_ip [] ex_blocks (seqZ 50 14).
Proof.
  split; try done; [by left|]. split.
  - done.
  - apply (bool_decide_unpack _). vm_compute. exact I.
  - intros a Ha. assert (Forall (fun a => 32 <= a < 64) (map_block ex_sb :: (ino_block ex_sb ex_file_ip :: ex_blocks) ++ seqZ 50 14)) as Hb.
    { apply (bool_decide_unpack _). vm_compute. exact I. }
    rewrite Forall_forall in Hb. apply Hb in Ha. split; [lia|].
    split; [unfold log_area, LOGSIZE, MAXOPBLOCKS; lia|]. by apply ex_file_block.
  - done.
  - intros y. change (at_idx ex_file_disk (map_block (g_sb ex_file_sub))) with (Some ex_map). intros [= <-].
    vm_compute. reflexivity.
Qed.

Lemma ex_file_clean : clean_head 2 ex_file_disk.
Proof. by exists ex_block. Qed.

Lemma writei_atomic_witness :
  (∃ g s, Cache (W := disk_world) 1 ex_file_sub ∅ ex_file_disk g ∧ @calm disk_world (@awake disk_world) ∅ g s) ∧
  ∃ V ip', at_idx V (ino_block ex_sb ex_file_ip) ≠ None ∧ i_size ip' = 12 * BSIZE + 3 ∧
    safe (W := disk_world) (Cache (W := disk_world) 1 ex_file_sub ∅ ex_file_disk)
      (@begin_op 1%nat ;; r ← @writei 1%nat 0 (SLocal [104; 105; 33]) (12 * BSIZE) 3; @end_op 1%nat ;; mret r)
      (fun dk => same_files 2 (recovered 2 dk) ex_file_disk ∨ same_files 2 (recovered 2 dk) V)
      (fun r g1 => r = 3 ∧ ∃ g', txn_done (W := disk_world) 1 2 g' V g1).
Proof.
  split; [by eapply ex_state_exists, ex_cache|].
  destruct (@writei_atomic disk_world ex_disk_world 1%nat 1 2 (le_n 1) ex_file_sub ex_file_disk 0 ex_file_ip [] ex_blocks
    (seqZ 50 14) (SLocal [104; 105; 33]) [104; 105; 33] (12 * BSIZE)) as (g' & V & ip' & meta' & addrs' & F' & Hwr & Hdo).
  - exact ex_log_idle.
  - by apply ex_fits.
  - exact ex_file_clean.
  - exact ex_wfile.
  - done.
  - apply copies_local.
  - done.
  - done.
  - done.
  - done.
  - apply Nat.leb_le. reflexivity.
  - exists V, ip'. split; [|split].
    + destruct (wr_inode _ _ _ _ _ _ _ _ _ _ _ _ _ _ _ _ _ _ Hwr) as (x & y & _ & Hy & _).
      intros E. change (ino_block ex_sb ex_file_ip) with (ino_block (g_sb ex_file_sub) ex_file_ip) in E. congruence.
    + rewrite (wr_ip _ _ _ _ _ _ _ _ _ _ _ _ _ _ _ _ _ _ Hwr). reflexivity.
    + intros g0 Hg0. destruct (Hdo g0 Hg0) as (tr & r & g1 & Hd & HC & Hr & Hg1). exists tr, r, g1. split; [exact Hd|].
      split; [exact HC|]. split; [exact Hr|]. by exists g'.
Defined.

Lemma written_then_read_witness :
  safe (W := disk_world) (Cache (W := disk_world) 1 ex_file_sub ∅ ex_file_disk)
    (@begin_op 1%nat ;; r ← @writei 1%nat 0 (SLocal [104; 105; 33]) (12 * BSIZE) 3; @end_op 1%nat ;;
     @readi 1%nat 0 DLocal (12 * BSIZE) r)
    (fun _ => True) (fun r _ => r = (3, [104; 105; 33])).
Proof.
  apply (@written_then_read disk_world ex_disk_world 1%nat 1 2 (le_n 1) ex_file_sub ex_file_disk 0 ex_file_ip [] ex_blocks
    (seqZ 50 14) (SLocal [104; 105; 33]) [104; 105; 33] (12 * BSIZE)).
  - exact ex_log_idle.
  - by apply ex_fits.
  - exact ex_file_clean.
  - exact ex_wfile.
  - done.
  - apply copies_local.
  - done.
  - done.
  - done.
  - done.
  - apply Nat.leb_le. reflexivity.
Defined.
