(* ===== verification/Console.v ===== *)
(** The console, kernel/console.c, and the UART driver, kernel/uart.c, with
    [procdump] of kernel/proc.c, which the console runs. *)

From Stdlib Require Import Ascii.
From stdpp Require Import base gmap strings numbers list.
From S2P Require Import Prelude Spinlock Kstate Sched CString Globals Kalloc Vm Printf Sleeplock Virtio Bio Log Fs.
Local Open Scope Z_scope.

(** The bytes in front of the nul. *)
Fixpoint until_nul (l : list Z) : list Z :=
  match l with
  | [] => []
  | c :: l' => if c =? 0 then [] else c :: until_nul l'
  end.

(** * [procdump] *)

Definition state_name (st : procstate) : string :=
  match st with
  | UNUSED => "unused"
  | USED => "used"
  | SLEEPING => "sleep "
  | RUNNABLE => "runble"
  | RUNNING => "run   "
  | ZOMBIE => "zombie"
  end.

Definition procdump : K unit :=
  printf "
" [] ;;
  for_acc (seq 0 NPROC)
    (fun i _ =>
       p ← get_proc i;
       if decide (p_state p = UNUSED) then mret tt else
       printf "%d %s %s" [ANum (p_pid p); AStr (Some (chars (state_name (p_state p))));
                          AStr (Some (until_nul (p_name p)))] ;;
       printf "
" [] ;;
       mret tt) tt.

(** * The UART *)

Definition get_uart {A} (f : uart → A) : K A := gets (fun s => f (g_uart (k_sub s))).

Definition IER : Z := 1.
Definition IER_RX_ENABLE : Z := Z.shiftl 1 0.
Definition IER_TX_ENABLE : Z := Z.shiftl 1 1.
Definition FCR : Z := 2.
Definition FCR_FIFO_ENABLE : Z := Z.shiftl 1 0.
Definition FCR_FIFO_CLEAR : Z := Z.shiftl 3 1.
Definition LCR : Z := 3.
Definition LCR_EIGHT_BITS : Z := Z.shiftl 3 0.
Definition LCR_BAUD_LATCH : Z := Z.shiftl 1 7.

(** [WriteReg] of a register other than THR. *)
Definition WriteReg (reg v : Z) : K unit := upd_uart (fun u => u <| uart_ctl ::= fun l => l ++ [(reg, v)] |>).

Definition uartinit : K unit :=
  WriteReg IER 0 ;;
  WriteReg LCR LCR_BAUD_LATCH ;;
  WriteReg 0 3 ;;
  WriteReg 1 0 ;;
  WriteReg LCR LCR_EIGHT_BITS ;;
  WriteReg FCR (Z.lor FCR_FIFO_ENABLE FCR_FIFO_CLEAR) ;;
  WriteReg IER (Z.lor IER_TX_ENABLE IER_RX_ENABLE) ;;
  initlock uart_tx_lock "uart".

(** Every turn of the loop that does not return sends a byte. *)
Fixpoint uartstart_n (n : nat) : K unit :=
  w ← get_uart uart_tx_w;
  r ← get_uart uart_tx_r;
  if w =? r then mret tt else
  idle ← tx_idle;
  if negb idle then mret tt else
  match n with
  | O => spin
  | S n' =>
      c ← deref (fun s => let u := g_uart (k_sub s) in
                          at_idx (uart_tx_buf u) (uart_tx_r u mod UART_TX_BUF_SIZE));
      upd_uart (fun u => u <| uart_tx_r ::= fun r => uint64 (r + 1) |>) ;;
      wakeup (Some PUartTxR) ;;
      write_thr c ;;
      uartstart_n n'
  end.

Definition uartstart : K unit := uartstart_n (Z.to_nat UART_TX_BUF_SIZE).

Definition uartputc `{Patience} (c : Z) : K unit :=
  acquire uart_tx_lock ;;
  p ← gets (fun s => g_panicked (k_sub s));
  if p : bool then spin else
  sleep_while (get_uart (fun u => uart_tx_w u =? uint64 (uart_tx_r u + UART_TX_BUF_SIZE)))
    (sleep PUartTxR uart_tx_lock) ;;
  upd_uart (fun u => u <| uart_tx_buf ::=
    <[Z.to_nat (uart_tx_w u mod UART_TX_BUF_SIZE) := uchar c]> |>) ;;
  upd_uart (fun u => u <| uart_tx_w ::= fun w => uint64 (w + 1) |>) ;;
  uartstart ;;
  release uart_tx_lock.

Definition uartgetc : K Z :=
  l ← get_uart uart_in;
  match l with
  | c :: l' => upd_uart (fun u => u <| uart_in := l' |>) ;; mret c
  | [] => mret (-1)
  end.

(** * The console *)

Definition CONSOLE : Z := 1.

(** [C(x)]. *)
Definition C (x : ascii) : Z := chr x - chr "@".
#[global] Arguments C x%_char_scope.

Definition newline : Z := 10.

Definition get_cons {A} (f : console → A) : K A := gets (fun s => f (g_cons (k_sub s))).
Definition upd_cons (f : console → console) : K unit := modify (upd_sub (fun g => g <| g_cons ::= f |>)).
Definition cons_at (i : Z) : K Z :=
  deref (fun s => at_idx (cons_buf (g_cons (k_sub s))) (i mod INPUT_BUF_SIZE)).

(** The kill-line loop goes back over at most the whole buffer. *)
Fixpoint kill_line (n : nat) : K unit :=
  e ← get_cons cons_e;
  w ← get_cons cons_w;
  if e =? w then mret tt else
  c ← cons_at (uint (e - 1));
  if c =? newline then mret tt else
  match n with
  | O => spin
  | S n' =>
      upd_cons (fun k => k <| cons_e ::= fun e => uint (e - 1) |>) ;;
      consputc BACKSPACE ;;
      kill_line n'
  end.

Definition consoleintr (c : Z) : K unit :=
  acquire cons_lock ;;
  (if c =? C "P" then procdump
   else if c =? C "U" then kill_line (Z.to_nat INPUT_BUF_SIZE)
   else if (c =? C "H") || (c =? 0x7f) then
     e ← get_cons cons_e;
     w ← get_cons cons_w;
     if e =? w then mret tt else
     upd_cons (fun k => k <| cons_e ::= fun e => uint (e - 1) |>) ;;
     consputc BACKSPACE
   else
     k ← get_cons id;
     if negb (c =? 0) && (uint (cons_e k - cons_r k) <? INPUT_BUF_SIZE) then
       let c := if c =? 13 then newline else c in
       consputc c ;;
       upd_cons (fun k => k <| cons_buf ::= <[Z.to_nat (cons_e k mod INPUT_BUF_SIZE) := uchar c]> |>) ;;
       upd_cons (fun k => k <| cons_e ::= fun e => uint (e + 1) |>) ;;
       k ← get_cons id;
       if (c =? newline) || (c =? C "D") || (uint (cons_e k - cons_r k) =? INPUT_BUF_SIZE) then
         upd_cons (fun k => k <| cons_w := cons_e k |>) ;;
         wakeup (Some PConsR)
       else mret tt
     else mret tt) ;;
  release cons_lock.

(** The first loop of [uartintr], over the bytes that wait. *)
Fixpoint uart_receive (n : nat) : K unit :=
  c ← uartgetc;
  if c =? -1 then mret tt else
  consoleintr c ;;
  match n with
  | O => mret tt
  | S n' => uart_receive n'
  end.

Definition uartintr : K unit :=
  l ← get_uart uart_in;
  uart_receive (length l) ;;
  acquire uart_tx_lock ;;
  uartstart ;;
  release uart_tx_lock.

Section ops.
Context `{Patience}.

(** [n] is what is left to write, [i] how much was. *)
Fixpoint consolewrite_loop (n : nat) (src : iosrc) (i : Z) : K Z :=
  match n with
  | O => mret i
  | S n' =>
      r ← either_copyin src i 1;
      if r.1 =? -1 then mret i else
      c ← non_null (r.2 !! 0%nat);
      uartputc c ;;
      consolewrite_loop n' src (i + 1)
  end.

Definition consolewrite (src : iosrc) (n : Z) : K Z := consolewrite_loop (Z.to_nat n) src 0.

Fixpoint consoleread_loop (fuel : nat) (dst : iodst) (i n target : Z) : K Z :=
  if n <=? 0 then release cons_lock ;; mret (int (target - n)) else
  match fuel with
  | O => spin
  | S fuel' =>
      k ← get_cons id;
      if cons_r k =? cons_w k then
        o ← myproc;
        me ← non_null o;
        kl ← killed me;
        if negb (kl =? 0) then release cons_lock ;; mret (-1) else
        sleep PConsR cons_lock ;;
        consoleread_loop fuel' dst i n target
      else
        c ← cons_at (cons_r k);
        upd_cons (fun k => k <| cons_r ::= fun r => uint (r + 1) |>) ;;
        if c =? C "D" then
          when (n <? target) (upd_cons (fun k => k <| cons_r ::= fun r => uint (r - 1) |>)) ;;
          release cons_lock ;;
          mret (int (target - n))
        else
          r ← either_copyout dst i [c];
          if r =? -1 then release cons_lock ;; mret (int (target - n)) else
          if c =? newline then release cons_lock ;; mret (int (target - (n - 1))) else
          consoleread_loop fuel' dst (i + 1) (n - 1) target
  end.

Definition consoleread (dst : iodst) (n : Z) : K Z :=
  acquire cons_lock ;;
  consoleread_loop (Z.to_nat n + patience) dst 0 n (uint n).

End ops.

Definition consoleinit : K unit :=
  initlock cons_lock "cons" ;;
  uartinit ;;
  modify (upd_sub (fun g => g <| g_devsw ::= <[Z.to_nat CONSOLE := true]> |>)).
