(* ===== verification/Pipe.v ===== *)
(** Pipes, kernel/pipe.c, but for [pipealloc], which is with the files. *)

From stdpp Require Import base gmap strings numbers list.
From S2P Require Import Prelude Spinlock Kstate Sched CString Globals Kalloc Vm Sleeplock.
Local Open Scope Z_scope.

Definition get_pipe (pi : Z) : K pipe := deref (fun s => g_pipes (k_sub s) !! pi).

Definition upd_pipe (pi : Z) (f : pipe → pipe) : K unit :=
  get_pipe pi ;; modify (upd_sub (fun g => g <| g_pipes ::= alter f pi |>)).

Section ops.
Context `{Layout} `{Patience}.

(** The page goes back to the allocator, and with it the structure. *)
Definition pipeclose (pi : Z) (writable : bool) : K unit :=
  acquire (LkPipe pi) ;;
  (if writable then
     upd_pipe pi (fun p => p <| pi_writeopen := 0 |>) ;;
     wakeup (Some (PPipeRead pi))
   else
     upd_pipe pi (fun p => p <| pi_readopen := 0 |>) ;;
     wakeup (Some (PPipeWrite pi))) ;;
  p ← get_pipe pi;
  if (pi_readopen p =? 0) && (pi_writeopen p =? 0) then
    release (LkPipe pi) ;;
    modify (upd_sub (fun g => g <| g_pipes ::= delete pi |>)) ;;
    kfree pi
  else release (LkPipe pi).

(** A turn of the loop sleeps or moves one byte. *)
Fixpoint pipewrite_loop (fuel : nat) (pi addr n i : Z) (pr : nat) : K Z :=
  if n <=? i then
    wakeup (Some (PPipeRead pi)) ;; release (LkPipe pi) ;; mret i
  else
  p ← get_pipe pi;
  k ← (if pi_readopen p =? 0 then mret 1 else killed pr);
  if negb (k =? 0) then release (LkPipe pi) ;; mret (-1) else
  match fuel with
  | O => spin
  | S fuel' =>
      if pi_nwrite p =? uint (pi_nread p + PIPESIZE) then
        wakeup (Some (PPipeRead pi)) ;;
        sleep (PPipeWrite pi) (LkPipe pi) ;;
        pipewrite_loop fuel' pi addr n i pr
      else
        q ← get_proc pr;
        r ← copyin (p_pagetable q) (uint64 (addr + i)) 1;
        if r.1 =? -1 then
          wakeup (Some (PPipeRead pi)) ;; release (LkPipe pi) ;; mret i
        else
          ch ← non_null (r.2 !! 0%nat);
          upd_pipe pi (fun p => p <| pi_data ::= <[Z.to_nat (pi_nwrite p mod PIPESIZE) := ch]> |>
                                  <| pi_nwrite ::= fun n => uint (n + 1) |>) ;;
          pipewrite_loop fuel' pi addr n (i + 1) pr
  end.

Definition pipewrite (pi addr n : Z) : K Z :=
  o ← myproc;
  pr ← non_null o;
  acquire (LkPipe pi) ;;
  pipewrite_loop (Z.to_nat n + patience) pi addr n 0 pr.

(** [false] when the process was killed while it waited. *)
Fixpoint piperead_wait (fuel : nat) (pi : Z) (pr : nat) : K bool :=
  p ← get_pipe pi;
  if (pi_nread p =? pi_nwrite p) && negb (pi_writeopen p =? 0) then
    k ← killed pr;
    if negb (k =? 0) then mret false else
    match fuel with
    | O => spin
    | S fuel' => sleep (PPipeRead pi) (LkPipe pi) ;; piperead_wait fuel' pi pr
    end
  else mret true.

(** The second loop: [m] more bytes are wanted and [i] were copied. *)
Fixpoint piperead_copy (m : nat) (pi addr i : Z) (pr : nat) : K Z :=
  match m with
  | O => mret i
  | S m' =>
      p ← get_pipe pi;
      if pi_nread p =? pi_nwrite p then mret i else
      ch ← deref (fun s => p ← g_pipes (k_sub s) !! pi;
                           at_idx (pi_data p) (pi_nread p mod PIPESIZE));
      upd_pipe pi (fun p => p <| pi_nread ::= fun n => uint (n + 1) |>) ;;
      q ← get_proc pr;
      r ← copyout (p_pagetable q) (uint64 (addr + i)) [ch];
      if r =? -1 then mret i else piperead_copy m' pi addr (i + 1) pr
  end.

Definition piperead (pi addr n : Z) : K Z :=
  o ← myproc;
  pr ← non_null o;
  acquire (LkPipe pi) ;;
  ok ← piperead_wait patience pi pr;
  if negb ok then release (LkPipe pi) ;; mret (-1) else
  i ← piperead_copy (Z.to_nat n) pi addr 0 pr;
  wakeup (Some (PPipeWrite pi)) ;;
  release (LkPipe pi) ;;
  mret i.

End ops.
