(* ===== verification/File.v ===== *)
(** Open files, kernel/file.c, and [pipealloc] of kernel/pipe.c. *)

From stdpp Require Import base gmap strings numbers list.
From S2P Require Import Prelude Spinlock Kstate Sched CString Globals Kalloc Vm Printf Sleeplock Virtio Bio Log Fs Console Pipe.
Local Open Scope Z_scope.

Definition get_file (f : nat) : K file := deref (fun s => g_files (k_sub s) !! f).

Definition upd_file (f : nat) (u : file → file) : K unit :=
  get_file f ;; modify (upd_sub (fun g => g <| g_files ::= alter u f |>)).

Definition fileinit : K unit := initlock ftable_lock "ftable".

Definition filealloc : K (option nat) :=
  acquire ftable_lock ;;
  r ← for_ret (seq 0 NFILE)
        (fun f =>
           fl ← get_file f;
           if f_ref fl =? 0 then
             upd_file f (fun fl => fl <| f_ref := 1 |>) ;;
             release ftable_lock ;;
             mret (Some f)
           else mret None);
  match r with
  | Some f => mret (Some f)
  | None => release ftable_lock ;; mret None
  end.

Definition filedup (f : nat) : K nat :=
  acquire ftable_lock ;;
  fl ← get_file f;
  if f_ref fl <? 1 then panic "filedup" else
  upd_file f (fun fl => fl <| f_ref ::= fun n => int (n + 1) |>) ;;
  release ftable_lock ;;
  mret f.

Section ops.
Context `{Layout} `{Patience} `{VirtioDev}.

Definition fileclose (f : nat) : K unit :=
  acquire ftable_lock ;;
  fl ← get_file f;
  if f_ref fl <? 1 then panic "fileclose" else
  upd_file f (fun fl => fl <| f_ref ::= fun n => n - 1 |>) ;;
  fl ← get_file f;
  if 0 <? f_ref fl then release ftable_lock else
  let ff := fl in
  upd_file f (fun fl => fl <| f_ref := 0 |> <| f_type := FD_NONE |>) ;;
  release ftable_lock ;;
  match f_type ff with
  | FD_PIPE => pipeclose (f_pipe ff) (negb (f_writable ff =? 0))
  | FD_INODE | FD_DEVICE =>
      begin_op ;;
      iput (f_ip ff) ;;
      end_op
  | FD_NONE => mret tt
  end.

Definition filestat (f : nat) (addr : Z) : K Z :=
  pagetable ← mypagetable;
  fl ← get_file f;
  match f_type fl with
  | FD_INODE | FD_DEVICE =>
      ilock (f_ip fl) ;;
      st ← stati (f_ip fl);
      iunlock (f_ip fl) ;;
      r ← copyout pagetable addr st;
      mret (if r <? 0 then -1 else 0)
  | _ => mret (-1)
  end.

(** [f->major < 0 || f->major >= NDEV || !devsw[f->major].read]; the two function
    pointers of a device are set together. *)
Definition no_device (major : Z) : K bool :=
  if (major <? 0) || (NDEV <=? major) then mret true else
  d ← deref (fun s => g_devsw (k_sub s) !! Z.to_nat major);
  mret (negb d).

Definition fileread (f : nat) (addr n : Z) : K Z :=
  fl ← get_file f;
  if f_readable fl =? 0 then mret (-1) else
  match f_type fl with
  | FD_PIPE => piperead (f_pipe fl) addr n
  | FD_DEVICE =>
      none ← no_device (f_major fl);
      if none : bool then mret (-1) else consoleread (DUser addr) n
  | FD_INODE =>
      ilock (f_ip fl) ;;
      r ← readi (f_ip fl) (DUser addr) (f_off fl) (uint n);
      when (0 <? r.1) (upd_file f (fun fl => fl <| f_off ::= fun o => uint (o + r.1) |>)) ;;
      iunlock (f_ip fl) ;;
      mret r.1
  | FD_NONE => panic "fileread"
  end.

Definition max_write : Z := ((MAXOPBLOCKS - 1 - 1 - 2) / 2) * BSIZE.

(** How many bytes the loop of [filewrite] wrote. *)
Fixpoint filewrite_loop (fuel : nat) (f : nat) (addr n i : Z) : K Z :=
  if n <=? i then mret i else
  match fuel with
  | O => spin
  | S fuel' =>
      let n1 := Z.min (n - i) max_write in
      fl ← get_file f;
      begin_op ;;
      ilock (f_ip fl) ;;
      fl ← get_file f;
      r ← writei (f_ip fl) (SUser (uint64 (addr + i))) (f_off fl) n1;
      when (0 <? r) (upd_file f (fun fl => fl <| f_off ::= fun o => uint (o + r) |>)) ;;
      iunlock (f_ip fl) ;;
      end_op ;;
      if negb (r =? n1) then mret i else filewrite_loop fuel' f addr n (i + r)
  end.

Definition filewrite (f : nat) (addr n : Z) : K Z :=
  fl ← get_file f;
  if f_writable fl =? 0 then mret (-1) else
  match f_type fl with
  | FD_PIPE => pipewrite (f_pipe fl) addr n
  | FD_DEVICE =>
      none ← no_device (f_major fl);
      if none : bool then mret (-1) else consolewrite (SUser addr) n
  | FD_INODE =>
      i ← filewrite_loop (Z.to_nat (n / max_write + 2)) f addr n 0;
      mret (if i =? n then n else -1)
  | FD_NONE => panic "filewrite"
  end.

(** The files that were opened, or [None]. *)
Definition pipealloc : K (option (nat * nat)) :=
  f0 ← filealloc;
  match f0 with
  | None => mret None
  | Some f0 =>
      f1 ← filealloc;
      match f1 with
      | None => fileclose f0 ;; mret None
      | Some f1 =>
          pi ← kalloc;
          if pi =? 0 then fileclose f0 ;; fileclose f1 ;; mret None else
          modify (upd_sub (fun g => g <| g_pipes ::=
            <[pi := mkpipe (replicate (Z.to_nat PIPESIZE) 5) 0 0 1 1]> |>)) ;;
          initlock (LkPipe pi) "pipe" ;;
          upd_file f0 (fun fl => fl <| f_type := FD_PIPE |> <| f_readable := 1 |>
                                   <| f_writable := 0 |> <| f_pipe := pi |>) ;;
          upd_file f1 (fun fl => fl <| f_type := FD_PIPE |> <| f_readable := 0 |>
                                   <| f_writable := 1 |> <| f_pipe := pi |>) ;;
          mret (Some (f0, f1))
      end
  end.

End ops.
