(* ===== verification/Proc.v ===== *)
(** Processes, kernel/proc.c: creating, ending and waiting for them. *)

From Stdlib Require Import Ascii.
From stdpp Require Import base gmap strings numbers list.
From S2P Require Import Prelude Spinlock Kstate Mlfq Sched CString Globals Kalloc Vm Printf Sleeplock Virtio Bio Log Fs Console Pipe File.
Local Open Scope Z_scope.

Definition context0 : context := mkcontext 0 0 0 0 0 0 0 0 0 0 0 0 0 0.

(** What a trapframe page holds when [kalloc] gives it out. *)
Definition junk : Z := 0x0505050505050505.
Definition junk_trapframe : trapframe :=
  mktrapframe junk junk junk junk junk junk junk junk junk junk junk junk junk junk junk junk
    junk junk junk junk junk junk junk junk junk junk junk junk junk junk junk junk junk junk
    junk junk.

(** [safestrcpy] into an array of [n] characters, of a string without its nul. *)
Definition safestrcpy_list (n : nat) (s old : list Z) : list Z :=
  let l := take (n - 1) s in
  l ++ [0] ++ drop (length l + 1) old.

Section ops.
Context `{Layout} `{Patience} `{VirtioDev}.

Definition procinit : K unit :=
  initlock pid_lock "nextpid" ;;
  initlock wait_lock "wait_lock" ;;
  for_acc (seq 0 NPROC)
    (fun i _ =>
       initlock (LkProc i) "proc" ;;
       upd_proc i (fun p => p <| p_state := UNUSED |>) ;;
       upd_proc i (fun p => p <| p_kstack := KSTACK (Z.of_nat i) |>)) tt ;;
  mlfq_init.

Definition allocpid : K Z :=
  acquire pid_lock ;;
  pid ← gets k_nextpid;
  modify (fun s => s <| k_nextpid := int (pid + 1) |>) ;;
  release pid_lock ;;
  mret pid.

Definition proc_pagetable (i : nat) : K Z :=
  pagetable ← uvmcreate;
  if pagetable =? 0 then mret 0 else
  r ← mappages pagetable TRAMPOLINE PGSIZE trampoline (Z.lor PTE_R PTE_X);
  if r <? 0 then uvmfree pagetable 0 ;; mret 0 else
  p ← get_proc i;
  r ← mappages pagetable TRAPFRAME PGSIZE (p_trapframe p) (Z.lor PTE_R PTE_W);
  if r <? 0 then
    uvmunmap pagetable TRAMPOLINE 1 false ;;
    uvmfree pagetable 0 ;;
    mret 0
  else mret pagetable.

Definition proc_freepagetable (pagetable sz : Z) : K unit :=
  uvmunmap pagetable TRAMPOLINE 1 false ;;
  uvmunmap pagetable TRAPFRAME 1 false ;;
  uvmfree pagetable sz.

Definition freeproc (i : nat) : K unit :=
  p ← get_proc i;
  when (negb (p_trapframe p =? 0)) (kfree (p_trapframe p)) ;;
  upd_proc i (fun p => p <| p_trapframe := 0 |>) ;;
  p ← get_proc i;
  when (negb (p_pagetable p =? 0)) (proc_freepagetable (p_pagetable p) (p_sz p)) ;;
  upd_proc i (fun p => p <| p_pagetable := 0 |> <| p_sz := 0 |> <| p_pid := 0 |>
    <| p_parent := None |> <| p_name ::= <[0%nat := 0]> |> <| p_chan := None |>
    <| p_killed := 0 |> <| p_xstate := 0 |> <| p_state := UNUSED |>).

(** The first loop of [allocproc]: an unused slot, its lock held. *)
Definition find_unused : K (option nat) :=
  for_ret (seq 0 NPROC)
    (fun i =>
       acquire (LkProc i) ;;
       p ← get_proc i;
       if decide (p_state p = UNUSED) then mret (Some i)
       else release (LkProc i) ;; mret None).

Definition allocproc : K (option nat) :=
  o ← find_unused;
  match o with
  | None => mret None
  | Some i =>
      pid ← allocpid;
      upd_proc i (fun p => p <| p_pid := pid |>) ;;
      upd_proc i (fun p => p <| p_state := USED |>) ;;
      tf ← kalloc;
      upd_proc i (fun p => p <| p_trapframe := tf |> <| p_tf := junk_trapframe |>) ;;
      if tf =? 0 then freeproc i ;; release (LkProc i) ;; mret None else
      pagetable ← proc_pagetable i;
      upd_proc i (fun p => p <| p_pagetable := pagetable |>) ;;
      if pagetable =? 0 then freeproc i ;; release (LkProc i) ;; mret None else
      upd_proc i (fun p => p <| p_context := mkcontext forkret_addr (p_kstack p + PGSIZE)
                                              0 0 0 0 0 0 0 0 0 0 0 0 |>) ;;
      t ← ticks;
      upd_proc i (fun p => p <| p_arrival_time := t |> <| p_priority := 10 |>
        <| p_last_runtime := 1 |> <| p_queue_level := 0 |> <| p_time_slice := 0 |>
        <| p_total_ticks := 0 |> <| p_name ::= safestrcpy_list 16 (chars "unknown") |>) ;;
      mret (Some i)
  end.

Definition initcode : list Z := [
  0x17; 0x05; 0x00; 0x00; 0x13; 0x05; 0x45; 0x02;
  0x97; 0x05; 0x00; 0x00; 0x93; 0x85; 0x35; 0x02;
  0x93; 0x08; 0x70; 0x00; 0x73; 0x00; 0x00; 0x00;
  0x93; 0x08; 0x20; 0x00; 0x73; 0x00; 0x00; 0x00;
  0xef; 0xf0; 0x9f; 0xff; 0x2f; 0x69; 0x6e; 0x69;
  0x74; 0x00; 0x00; 0x24; 0x00; 0x00; 0x00; 0x00;
  0x00; 0x00; 0x00; 0x00].

(** [if (current_policy == 4)] enqueue. *)
Definition enqueue_if_mlfq (i : nat) : K unit :=
  policy ← current_policy;
  when (policy =? SCHED_MLFQ) (enqueue_locked i).

Definition userinit : K unit :=
  o ← allocproc;
  modify (fun s => s <| k_initproc := o |>) ;;
  i ← non_null o;
  p ← get_proc i;
  uvmfirst (p_pagetable p) initcode ;;
  upd_proc i (fun p => p <| p_sz := PGSIZE |>
    <| p_tf ::= fun tf => tf <| tf_epc := 0 |> <| tf_sp := PGSIZE |> |>
    <| p_name ::= safestrcpy_list 16 (chars "initcode") |>) ;;
  cwd ← namei (chars "/");
  upd_proc i (fun p => p <| p_cwd := cwd |>) ;;
  t ← ticks;
  upd_proc i (fun p => p <| p_arrival_time := t |> <| p_priority := 10 |>
    <| p_last_runtime := 1 |> <| p_queue_level := 0 |> <| p_time_slice := 0 |>
    <| p_total_ticks := 0 |> <| p_state := RUNNABLE |> <| p_ready_time := int t |>) ;;
  enqueue_if_mlfq i ;;
  release (LkProc i).

Definition growproc (n : Z) : K Z :=
  o ← myproc;
  i ← non_null o;
  p ← get_proc i;
  let sz := p_sz p in
  if 0 <? n then
    sz ← uvmalloc (p_pagetable p) sz (uint64 (sz + n)) PTE_W;
    if sz =? 0 then mret (-1) else
    upd_proc i (fun p => p <| p_sz := sz |>) ;; mret 0
  else if n <? 0 then
    sz ← uvmdealloc (p_pagetable p) sz (uint64 (sz + n));
    upd_proc i (fun p => p <| p_sz := sz |>) ;; mret 0
  else
    upd_proc i (fun p => p <| p_sz := sz |>) ;; mret 0.

(** The file descriptors that a child shares with its parent. *)
Definition copy_files (me np : nat) : K unit :=
  for_acc (seq 0 NOFILE)
    (fun fd _ =>
       p ← get_proc me;
       o ← non_null (p_ofile p !! fd);
       match o with
       | None => mret tt
       | Some f =>
           f' ← filedup f;
           upd_proc np (fun p => p <| p_ofile ::= <[fd := Some f']> |>)
       end) tt.

(** What [fork] and [fork_with_priority] have in common; [ready] says whether the
    child's ready time is set. *)
Definition fork_child (priority : Z) (ready : bool) : K Z :=
  o ← myproc;
  me ← non_null o;
  on ← allocproc;
  match on with
  | None => mret (-1)
  | Some np =>
      p ← get_proc me;
      c ← get_proc np;
      r ← uvmcopy (p_pagetable p) (p_pagetable c) (p_sz p);
      if r <? 0 then freeproc np ;; release (LkProc np) ;; mret (-1) else
      upd_proc np (fun c => c <| p_sz := p_sz p |>) ;;
      upd_proc np (fun c => c <| p_tf := p_tf p |>) ;;
      upd_proc np (fun c => c <| p_tf ::= fun tf => tf <| tf_a0 := 0 |> |>) ;;
      copy_files me np ;;
      p ← get_proc me;
      cwd ← non_null (p_cwd p);
      cwd ← idup cwd;
      upd_proc np (fun c => c <| p_cwd := Some cwd |>) ;;
      upd_proc np (fun c => c <| p_name ::= safestrcpy_list 16 (until_nul (p_name p)) |>) ;;
      c ← get_proc np;
      let pid := p_pid c in
      release (LkProc np) ;;
      acquire wait_lock ;;
      upd_proc np (fun c => c <| p_parent := Some me |>) ;;
      release wait_lock ;;
      acquire (LkProc np) ;;
      upd_proc np (fun c => c <| p_priority := priority |> <| p_last_runtime := 1 |>
        <| p_queue_level := 0 |> <| p_time_slice := 0 |> <| p_total_ticks := 0 |>
        <| p_state := RUNNABLE |>) ;;
      t ← ticks;
      when ready (upd_proc np (fun c => c <| p_ready_time := int t |>)) ;;
      enqueue_if_mlfq np ;;
      release (LkProc np) ;;
      mret pid
  end.

Definition fork : K Z := fork_child 10 true.
Definition fork_with_priority (priority : Z) : K Z := fork_child priority false.

(** Runs up to [sched], which does not come back. *)
Definition exit (status : Z) : K unit :=
  o ← myproc;
  init ← gets k_initproc;
  if decide (o = init) then panic "init exiting" else
  me ← non_null o;
  for_acc (seq 0 NOFILE)
    (fun fd _ =>
       p ← get_proc me;
       ofd ← non_null (p_ofile p !! fd);
       match ofd with
       | None => mret tt
       | Some f =>
           fileclose f ;;
           upd_proc me (fun p => p <| p_ofile ::= <[fd := None]> |>)
       end) tt ;;
  begin_op ;;
  p ← get_proc me;
  cwd ← non_null (p_cwd p);
  iput cwd ;;
  end_op ;;
  upd_proc me (fun p => p <| p_cwd := None |>) ;;
  acquire wait_lock ;;
  reparent me ;;
  p ← get_proc me;
  wakeup (PProc <$> p_parent p) ;;
  acquire (LkProc me) ;;
  upd_proc me (fun p => p <| p_xstate := status |>) ;;
  upd_proc me (fun p => p <| p_state := ZOMBIE |>) ;;
  release wait_lock ;;
  sched ;;
  panic "zombie exit".

(** The scan of [wait] from slot [i] on: [inl] the result, or [inr havekids]. *)
Fixpoint wait_scan (l : list nat) (me : nat) (addr : Z) (havekids : bool) : K (Z + bool) :=
  match l with
  | [] => mret (inr havekids)
  | j :: l' =>
      pp ← get_proc j;
      if decide (p_parent pp = Some me) then
        acquire (LkProc j) ;;
        pp ← get_proc j;
        if decide (p_state pp = ZOMBIE) then
          let pid := p_pid pp in
          p ← get_proc me;
          r ← (if negb (addr =? 0)
               then copyout (p_pagetable p) addr (le_bytes 4 (uint (p_xstate pp)))
               else mret 0);
          if r <? 0 then
            release (LkProc j) ;; release wait_lock ;; mret (inl (-1))
          else
            freeproc j ;;
            release (LkProc j) ;;
            release wait_lock ;;
            mret (inl pid)
        else
          release (LkProc j) ;;
          wait_scan l' me addr true
      else wait_scan l' me addr havekids
  end.

Fixpoint wait_loop (n : nat) (me : nat) (addr : Z) : K Z :=
  r ← wait_scan (seq 0 NPROC) me addr false;
  match r with
  | inl pid => mret pid
  | inr havekids =>
      k ← (if havekids : bool then killed me else mret 1);
      if negb (k =? 0) then release wait_lock ;; mret (-1) else
      sleep (PProc me) wait_lock ;;
      match n with
      | O => spin
      | S n' => wait_loop n' me addr
      end
  end.

Definition wait (addr : Z) : K Z :=
  o ← myproc;
  me ← non_null o;
  acquire wait_lock ;;
  wait_loop patience me addr.

End ops.
