(* ===== verification/Exec.v ===== *)
(** Loading programs, kernel/exec.c with kernel/elf.h. *)

From Stdlib Require Import Ascii.
From stdpp Require Import base gmap strings numbers list.
From S2P Require Import Prelude Spinlock Kstate Mlfq Sched CString Globals Kalloc Vm Printf Sleeplock Virtio Bio Log Fs Console Pipe File Proc.
Local Open Scope Z_scope.

Definition ELF_MAGIC : Z := 0x464C457F.
Definition ELF_PROG_LOAD : Z := 1.

Definition dword_at (data : list Z) (off : nat) : Z := le_value (take 8 (drop off data)).

(** The fields that are used of [struct elfhdr], 64 bytes, and [struct proghdr],
    56 bytes. *)
Record elfhdr := mkelfhdr { e_magic : Z; e_entry : Z; e_phoff : Z; e_phnum : Z }.
Record proghdr := mkproghdr {
  ph_type : Z; ph_flags : Z; ph_off : Z; ph_vaddr : Z; ph_filesz : Z; ph_memsz : Z
}.

Definition elf_size : Z := 64.
Definition ph_size : Z := 56.

Definition read_elfhdr (d : list Z) : elfhdr :=
  mkelfhdr (word_at d 0) (dword_at d 24) (dword_at d 32) (half d 56).

Definition read_proghdr (d : list Z) : proghdr :=
  mkproghdr (word_at d 0) (word_at d 4) (dword_at d 8) (dword_at d 16) (dword_at d 32)
    (dword_at d 40).

Definition flags2perm (flags : Z) : Z :=
  Z.lor (if has flags 1 then PTE_X else 0) (if has flags 2 then PTE_W else 0).

(** The part of [path] after the last slash. *)
Fixpoint last_elem (path last : list Z) : list Z :=
  match path with
  | [] => last
  | c :: path' => last_elem path' (if c =? slash then path' else last)
  end.

Section ops.
Context `{Layout} `{Patience} `{VirtioDev}.

Fixpoint loadseg_loop (fuel : nat) (pagetable va : Z) (ip : nat) (offset i sz : Z) : K Z :=
  if sz <=? i then mret 0 else
  match fuel with
  | O => spin
  | S fuel' =>
      pa ← walkaddr pagetable (uint64 (va + i));
      if pa =? 0 then panic "loadseg: address should exist" else
      let n := Z.min (sz - i) PGSIZE in
      r ← readi ip (DRam pa) (uint (offset + i)) n;
      if negb (r.1 =? n) then mret (-1)
      else loadseg_loop fuel' pagetable va ip offset (uint (i + PGSIZE)) sz
  end.

Definition loadseg (pagetable va : Z) (ip : nat) (offset sz : Z) : K Z :=
  loadseg_loop (Z.to_nat (sz / PGSIZE + 1)) pagetable va ip offset 0 sz.

(** The loop over the program headers, [n] of which are left: whether all were
    loaded, and the size reached. *)
Fixpoint load_segments (n : nat) (pagetable : Z) (ip : nat) (off sz : Z) : K (bool * Z) :=
  match n with
  | O => mret (true, sz)
  | S n' =>
      r ← readi ip DLocal (uint off) ph_size;
      if negb (r.1 =? ph_size) then mret (false, sz) else
      let ph := read_proghdr r.2 in
      if negb (ph_type ph =? ELF_PROG_LOAD) then load_segments n' pagetable ip (int (off + ph_size)) sz
      else if ph_memsz ph <? ph_filesz ph then mret (false, sz)
      else if uint64 (ph_vaddr ph + ph_memsz ph) <? ph_vaddr ph then mret (false, sz)
      else if negb (ph_vaddr ph mod PGSIZE =? 0) then mret (false, sz)
      else
        sz1 ← uvmalloc pagetable sz (uint64 (ph_vaddr ph + ph_memsz ph)) (flags2perm (ph_flags ph));
        if sz1 =? 0 then mret (false, sz) else
        r ← loadseg pagetable (ph_vaddr ph) ip (uint (ph_off ph)) (uint (ph_filesz ph));
        if r <? 0 then mret (false, sz1)
        else load_segments n' pagetable ip (int (off + ph_size)) sz1
  end.

(** The loop that pushes the argument strings: the stack pointer and [ustack],
    or [None]. *)
Fixpoint push_args (argv : list (list Z)) (pagetable sp stackbase : Z) (ustack : list Z) :
    K (option (Z * list Z)) :=
  match argv with
  | [] => mret (Some (sp, ustack))
  | s :: argv' =>
      if (MAXARG <=? length ustack)%nat then mret None else
      let sp := uint64 (sp - (Z.of_nat (length s) + 1)) in
      let sp := sp - sp mod 16 in
      if sp <? stackbase then mret None else
      r ← copyout pagetable sp (s ++ [0]);
      if r <? 0 then mret None else
      push_args argv' pagetable sp stackbase (ustack ++ [sp])
  end.

Definition exec_bad (pagetable sz : Z) (ip : option nat) : K Z :=
  when (negb (pagetable =? 0)) (proc_freepagetable pagetable sz) ;;
  match ip with
  | Some i => iunlockput i ;; end_op
  | None => mret tt
  end ;;
  mret (-1).

Definition exec (path : list Z) (argv : list (list Z)) : K Z :=
  o ← myproc;
  me ← non_null o;
  begin_op ;;
  oi ← namei path;
  match oi with
  | None => end_op ;; mret (-1)
  | Some ip =>
      ilock ip ;;
      r ← readi ip DLocal 0 elf_size;
      if negb (r.1 =? elf_size) then exec_bad 0 0 (Some ip) else
      let elf := read_elfhdr r.2 in
      if negb (e_magic elf =? ELF_MAGIC) then exec_bad 0 0 (Some ip) else
      pagetable ← proc_pagetable me;
      if pagetable =? 0 then exec_bad 0 0 (Some ip) else
      l ← load_segments (Z.to_nat (e_phnum elf)) pagetable ip (int (e_phoff elf)) 0;
      if negb l.1 then exec_bad pagetable l.2 (Some ip) else
      iunlockput ip ;;
      end_op ;;
      p ← get_proc me;
      let oldsz := p_sz p in
      let sz := PGROUNDUP l.2 in
      sz1 ← uvmalloc pagetable sz (uint64 (sz + (USERSTACK + 1) * PGSIZE)) PTE_W;
      if sz1 =? 0 then exec_bad pagetable sz None else
      let sz := sz1 in
      uvmclear pagetable (uint64 (sz - (USERSTACK + 1) * PGSIZE)) ;;
      let stackbase := uint64 (sz - USERSTACK * PGSIZE) in
      a ← push_args argv pagetable sz stackbase [];
      match a with
      | None => exec_bad pagetable sz None
      | Some (sp, ustack) =>
          let argc := Z.of_nat (length ustack) in
          if (MAXARG <=? length ustack)%nat then fault else
          let sp := uint64 (sp - (argc + 1) * 8) in
          let sp := sp - sp mod 16 in
          if sp <? stackbase then exec_bad pagetable sz None else
          r ← copyout pagetable sp (mjoin (le_bytes 8 <$> (ustack ++ [0])));
          if r <? 0 then exec_bad pagetable sz None else
          upd_proc me (fun p => p <| p_tf ::= fun tf => tf <| tf_a1 := sp |> |>) ;;
          upd_proc me (fun p => p <| p_name ::= safestrcpy_list 16 (last_elem path path) |>) ;;
          p ← get_proc me;
          let oldpagetable := p_pagetable p in
          upd_proc me (fun p => p <| p_pagetable := pagetable |> <| p_sz := sz |>
            <| p_tf ::= fun tf => tf <| tf_epc := e_entry elf |> <| tf_sp := sp |> |>) ;;
          proc_freepagetable oldpagetable oldsz ;;
          mret argc
      end
  end.

End ops.
