(* ===== verification/Syscall.v ===== *)
(** System call arguments, kernel/syscall.c, and the system calls about
    processes, kernel/sysproc.c. *)

From Stdlib Require Import Ascii.
From stdpp Require Import base gmap strings numbers list.
From S2P Require Import Prelude Spinlock Kstate Mlfq Sched CString Globals Kalloc Vm Printf Sleeplock Virtio Bio Log Fs Console Pipe File Proc.
Local Open Scope Z_scope.

(** * Arguments *)

Definition cur_proc : K proc :=
  o ← myproc;
  i ← non_null o;
  get_proc i.

(** The status and the number that was fetched. *)
Definition fetchaddr (addr : Z) : K (Z * Z) :=
  p ← cur_proc;
  if (p_sz p <=? addr) || (p_sz p <? uint64 (addr + 8)) then mret (-1, 0) else
  r ← copyin (p_pagetable p) addr 8;
  if negb (r.1 =? 0) then mret (-1, 0) else mret (0, le_value r.2).

(** The length of the string and what was stored in the buffer. *)
Definition fetchstr (addr max : Z) : K (Z * list Z) :=
  p ← cur_proc;
  r ← copyinstr (p_pagetable p) addr max;
  if r.1 <? 0 then mret (-1, r.2) else
  mret (Z.of_nat (length (until_nul r.2)), r.2).

Definition argraw (n : Z) : K Z :=
  p ← cur_proc;
  let tf := p_tf p in
  if n =? 0 then mret (tf_a0 tf)
  else if n =? 1 then mret (tf_a1 tf)
  else if n =? 2 then mret (tf_a2 tf)
  else if n =? 3 then mret (tf_a3 tf)
  else if n =? 4 then mret (tf_a4 tf)
  else if n =? 5 then mret (tf_a5 tf)
  else panic "argraw".

Definition argint (n : Z) : K Z := a ← argraw n; mret (int a).
Definition argaddr (n : Z) : K Z := argraw n.

(** [None] on error, or the string without its nul. *)
Definition argstr (n max : Z) : K (option (list Z)) :=
  addr ← argaddr n;
  r ← fetchstr addr max;
  mret (if r.1 <? 0 then None else Some (until_nul r.2)).

(** * Processes *)

(** Padding is printed one space at a time. *)
Definition print_padded (s : list Z) (width : Z) : K unit :=
  printf "%s" [AStr (Some s)] ;;
  for_acc (seq 0 (Z.to_nat (width - Z.of_nat (length s)))) (fun _ _ => printf " " [] ;; mret tt) tt.

Definition sys_get_waiting_time : K Z :=
  pid ← argint 0;
  get_waiting_time pid.

Definition sys_yield : K Z := yield ;; mret 0.

Definition top_state (st : procstate) : string :=
  match st with
  | UNUSED => "unused"
  | USED => "used"
  | SLEEPING => "sleeping"
  | RUNNABLE => "runnable"
  | RUNNING => "running"
  | ZOMBIE => "zombie"
  end.

Definition sys_top : K Z :=
  printf "PID	STATE       	PRIO	time	NAME
" [] ;;
  for_acc (seq 0 NPROC)
    (fun i _ =>
       acquire (LkProc i) ;;
       p ← get_proc i;
       (if decide (p_state p = UNUSED) then mret tt else
        printf "%d	" [ANum (p_pid p)] ;;
        print_padded (chars (top_state (p_state p))) 12 ;;
        printf "	%d	%d	%s
" [ANum (p_priority p); ANum (p_arrival_time p);
   AStr (Some (match until_nul (p_name p) with [] => chars "(unnamed)" | l => l end))] ;;
        mret tt) ;;
       release (LkProc i)) tt ;;
  mret 0.

Definition set_priority_visit (pid prio : Z) (i : nat) : K (option Z) :=
  acquire (LkProc i) ;;
  p ← get_proc i;
  if p_pid p =? pid then
    upd_proc i (fun p => p <| p_priority := prio |>) ;;
    release (LkProc i) ;;
    mret (Some 0)
  else release (LkProc i) ;; mret None.

Definition sys_set_priority : K Z :=
  pid ← argint 0;
  prio ← argint 1;
  r ← for_ret (seq 0 NPROC) (set_priority_visit pid prio);
  mret (default (-1) r).

Definition sys_set_sched : K Z :=
  mode ← argint 0;
  if (mode =? 0) || (mode =? 1) || (mode =? 2) || (mode =? 3) || (mode =? 4) then
    modify (fun s => s <| k_policy := mode |>) ;;
    mret 0
  else mret (-1).

Definition sys_getpid : K Z := p ← cur_proc; mret (p_pid p).

Definition sys_kill : K Z := pid ← argint 0; kill pid.

Definition sys_uptime : K Z :=
  acquire tickslock ;;
  xticks ← ticks;
  release tickslock ;;
  mret xticks.

Section ops.
Context `{Layout} `{Patience} `{VirtioDev}.

Definition sys_fork_with_priority : K Z :=
  priority ← argint 0;
  fork_with_priority priority.

Definition sys_exit : K Z :=
  n ← argint 0;
  exit n ;;
  mret 0.

Definition sys_fork : K Z := fork.

Definition sys_wait : K Z := p ← argaddr 0; wait p.

Definition sys_sbrk : K Z :=
  n ← argint 0;
  p ← cur_proc;
  let addr := p_sz p in
  r ← growproc n;
  if r <? 0 then mret (-1) else mret addr.

(** The loop of [sys_sleep]; [-1] when the process was killed. *)
Fixpoint sys_sleep_loop (fuel : nat) (ticks0 n : Z) : K Z :=
  t ← ticks;
  if uint n <=? uint (t - ticks0) then release tickslock ;; mret 0 else
  o ← myproc;
  me ← non_null o;
  k ← killed me;
  if negb (k =? 0) then release tickslock ;; mret (-1) else
  sleep PTicks tickslock ;;
  match fuel with
  | O => spin
  | S fuel' => sys_sleep_loop fuel' ticks0 n
  end.

Definition sys_sleep : K Z :=
  n ← argint 0;
  let n := if n <? 0 then 0 else n in
  acquire tickslock ;;
  ticks0 ← ticks;
  sys_sleep_loop patience ticks0 n.

End ops.
