(* ===== verification/Sysfile.v ===== *)
(** The system calls about files, kernel/sysfile.c. *)

From Stdlib Require Import Ascii.
From stdpp Require Import base gmap strings numbers list.
From S2P Require Import Prelude Spinlock Kstate Mlfq Sched CString Globals Kalloc Vm Printf Sleeplock Virtio Bio Log Fs Console Pipe File Proc Exec Syscall.
Local Open Scope Z_scope.

Definition O_RDONLY : Z := 0x000.
Definition O_WRONLY : Z := 0x001.
Definition O_RDWR : Z := 0x002.
Definition O_CREATE : Z := 0x200.
Definition O_TRUNC : Z := 0x400.

(** The descriptor and the file, [None] on error. *)
Definition argfd (n : Z) : K (option (nat * nat)) :=
  fd ← argint n;
  if (fd <? 0) || (Z.of_nat NOFILE <=? fd) then mret None else
  p ← cur_proc;
  o ← non_null (p_ofile p !! Z.to_nat fd);
  mret (f ← o; Some (Z.to_nat fd, f)).

(** [p->ofile[fd] = o]. *)
Definition set_ofile (fd : nat) (ofl : option nat) : K unit :=
  o ← myproc;
  me ← non_null o;
  upd_proc me (fun p => p <| p_ofile ::= <[fd := ofl]> |>).

Definition fdalloc (f : nat) : K (option nat) :=
  for_ret (seq 0 NOFILE)
    (fun fd =>
       p ← cur_proc;
       o ← non_null (p_ofile p !! fd);
       match o with
       | None => set_ofile fd (Some f) ;; mret (Some fd)
       | Some _ => mret None
       end).

Definition sys_dup : K Z :=
  a ← argfd 0;
  match a with
  | None => mret (-1)
  | Some (_, f) =>
      o ← fdalloc f;
      match o with
      | None => mret (-1)
      | Some fd => filedup f ;; mret (Z.of_nat fd)
      end
  end.

Section ops.
Context `{Layout} `{Patience} `{VirtioDev}.

Definition sys_read : K Z :=
  p ← argaddr 1;
  n ← argint 2;
  a ← argfd 0;
  match a with
  | None => mret (-1)
  | Some (_, f) => fileread f p n
  end.

Definition sys_write : K Z :=
  p ← argaddr 1;
  n ← argint 2;
  a ← argfd 0;
  match a with
  | None => mret (-1)
  | Some (_, f) => filewrite f p n
  end.

Definition sys_close : K Z :=
  a ← argfd 0;
  match a with
  | None => mret (-1)
  | Some (fd, f) => set_ofile fd None ;; fileclose f ;; mret 0
  end.

Definition sys_fstat : K Z :=
  st ← argaddr 1;
  a ← argfd 0;
  match a with
  | None => mret (-1)
  | Some (_, f) => filestat f st
  end.

(** An uninitialised [char name[DIRSIZ]]. *)
Definition name0 : list Z := replicate (Z.to_nat DIRSIZ) 0.

Definition link_bad (ip : nat) : K Z :=
  ilock ip ;;
  upd_inode ip (fun i => i <| i_nlink ::= fun n => short (n - 1) |>) ;;
  iupdate ip ;;
  iunlockput ip ;;
  end_op ;;
  mret (-1).

Definition sys_link : K Z :=
  o ← argstr 0 MAXPATH;
  match o with None => mret (-1) | Some old =>
  o ← argstr 1 MAXPATH;
  match o with None => mret (-1) | Some new =>
  begin_op ;;
  oi ← namei old;
  match oi with None => end_op ;; mret (-1) | Some ip =>
  ilock ip ;;
  i ← get_inode ip;
  if i_type i =? T_DIR then iunlockput ip ;; end_op ;; mret (-1) else
  upd_inode ip (fun i => i <| i_nlink ::= fun n => short (n + 1) |>) ;;
  iupdate ip ;;
  iunlock ip ;;
  r ← nameiparent new name0;
  match r with
  | (None, _) => link_bad ip
  | (Some dp, name) =>
      ilock dp ;;
      d ← get_inode dp;
      i ← get_inode ip;
      l ← (if negb (i_dev d =? i_dev i) then mret (-1) else dirlink dp name (i_inum i));
      if l <? 0 then iunlockput dp ;; link_bad ip else
      iunlockput dp ;;
      iput ip ;;
      end_op ;;
      mret 0
  end end end end.

Fixpoint isdirempty_loop (fuel : nat) (dp : nat) (off : Z) : K bool :=
  i ← get_inode dp;
  if i_size i <=? off then mret true else
  match fuel with
  | O => spin
  | S fuel' =>
      r ← readi dp DLocal off DIRENT;
      if negb (r.1 =? DIRENT) then panic "isdirempty: readi" else
      if negb (de_inum r.2 =? 0) then mret false
      else isdirempty_loop fuel' dp (off + DIRENT)
  end.

Definition isdirempty (dp : nat) : K bool :=
  i ← get_inode dp;
  isdirempty_loop (Z.to_nat (i_size i / DIRENT + 1)) dp (2 * DIRENT).

Definition unlink_bad (dp : nat) : K Z := iunlockput dp ;; end_op ;; mret (-1).

Definition sys_unlink : K Z :=
  o ← argstr 0 MAXPATH;
  match o with None => mret (-1) | Some path =>
  begin_op ;;
  r ← nameiparent path name0;
  match r with
  | (None, _) => end_op ;; mret (-1)
  | (Some dp, name) =>
      ilock dp ;;
      if (namecmp name (chars ".") =? 0) || (namecmp name (chars "..") =? 0) then unlink_bad dp else
      l ← dirlookup dp name;
      match l with None => unlink_bad dp | Some (ip, off) =>
      ilock ip ;;
      i ← get_inode ip;
      if i_nlink i <? 1 then panic "unlink: nlink < 1" else
      e ← (if i_type i =? T_DIR then isdirempty ip else mret true);
      if negb e then iunlockput ip ;; unlink_bad dp else
      w ← writei dp (SLocal (replicate (Z.to_nat DIRENT) 0)) off DIRENT;
      if negb (w =? DIRENT) then panic "unlink: writei" else
      i ← get_inode ip;
      when (i_type i =? T_DIR) (
        upd_inode dp (fun d => d <| i_nlink ::= fun n => short (n - 1) |>) ;;
        iupdate dp) ;;
      iunlockput dp ;;
      upd_inode ip (fun i => i <| i_nlink ::= fun n => short (n - 1) |>) ;;
      iupdate ip ;;
      iunlockput ip ;;
      end_op ;;
      mret 0
      end
  end end.

Definition create_fail (ip dp : nat) : K (option nat) :=
  upd_inode ip (fun i => i <| i_nlink := 0 |>) ;;
  iupdate ip ;;
  iunlockput ip ;;
  iunlockput dp ;;
  mret None.

Definition create (path : list Z) (type major minor : Z) : K (option nat) :=
  r ← nameiparent path name0;
  match r with
  | (None, _) => mret None
  | (Some dp, name) =>
      ilock dp ;;
      l ← dirlookup dp name;
      match l with
      | Some (ip, _) =>
          iunlockput dp ;;
          ilock ip ;;
          i ← get_inode ip;
          if (type =? T_FILE) && ((i_type i =? T_FILE) || (i_type i =? T_DEVICE))
          then mret (Some ip)
          else iunlockput ip ;; mret None
      | None =>
          d ← get_inode dp;
          o ← ialloc (i_dev d) type;
          match o with
          | None => iunlockput dp ;; mret None
          | Some ip =>
              ilock ip ;;
              upd_inode ip (fun i => i <| i_major := major |> <| i_minor := minor |> <| i_nlink := 1 |>) ;;
              iupdate ip ;;
              i ← get_inode ip;
              d ← get_inode dp;
              bad ← (if type =? T_DIR then
                       a ← dirlink ip (chars ".") (i_inum i);
                       if a <? 0 then mret true else
                       b ← dirlink ip (chars "..") (i_inum d);
                       mret (b <? 0)
                     else mret false);
              if bad : bool then create_fail ip dp else
              a ← dirlink dp name (i_inum i);
              if a <? 0 then create_fail ip dp else
              when (type =? T_DIR) (
                upd_inode dp (fun d => d <| i_nlink ::= fun n => short (n + 1) |>) ;;
                iupdate dp) ;;
              iunlockput dp ;;
              mret (Some ip)
          end
      end
  end.

(** The inode that [sys_open] opens, locked. *)
Definition open_inode (path : list Z) (omode : Z) : K (option nat) :=
  if has omode O_CREATE then create path T_FILE 0 0 else
  o ← namei path;
  match o with
  | None => mret None
  | Some ip =>
      ilock ip ;;
      i ← get_inode ip;
      if (i_type i =? T_DIR) && negb (omode =? O_RDONLY) then iunlockput ip ;; mret None
      else mret (Some ip)
  end.

Definition sys_open : K Z :=
  omode ← argint 1;
  o ← argstr 0 MAXPATH;
  match o with None => mret (-1) | Some path =>
  begin_op ;;
  oi ← open_inode path omode;
  match oi with None => end_op ;; mret (-1) | Some ip =>
  i ← get_inode ip;
  if (i_type i =? T_DEVICE) && ((i_major i <? 0) || (NDEV <=? i_major i)) then
    iunlockput ip ;; end_op ;; mret (-1)
  else
  ofl ← filealloc;
  match ofl with None => iunlockput ip ;; end_op ;; mret (-1) | Some f =>
  ofd ← fdalloc f;
  match ofd with
  | None => fileclose f ;; iunlockput ip ;; end_op ;; mret (-1)
  | Some fd =>
      i ← get_inode ip;
      (if i_type i =? T_DEVICE
       then upd_file f (fun fl => fl <| f_type := FD_DEVICE |> <| f_major := i_major i |>)
       else upd_file f (fun fl => fl <| f_type := FD_INODE |> <| f_off := 0 |>)) ;;
      upd_file f (fun fl => fl <| f_ip := ip |>
        <| f_readable := if has omode O_WRONLY then 0 else 1 |>
        <| f_writable := if has omode O_WRONLY || has omode O_RDWR then 1 else 0 |>) ;;
      when (has omode O_TRUNC && (i_type i =? T_FILE)) (itrunc ip) ;;
      iunlock ip ;;
      end_op ;;
      mret (Z.of_nat fd)
  end end end end.

(** The end of [sys_mkdir] and [sys_mknod]. *)
Definition put_created (oi : option nat) : K Z :=
  match oi with
  | None => end_op ;; mret (-1)
  | Some ip => iunlockput ip ;; end_op ;; mret 0
  end.

Definition sys_mkdir : K Z :=
  begin_op ;;
  o ← argstr 0 MAXPATH;
  oi ← (match o with None => mret None | Some path => create path T_DIR 0 0 end);
  put_created oi.

Definition sys_mknod : K Z :=
  begin_op ;;
  major ← argint 1;
  minor ← argint 2;
  o ← argstr 0 MAXPATH;
  oi ← (match o with
        | None => mret None
        | Some path => create path T_DEVICE (short major) (short minor)
        end);
  put_created oi.

Definition sys_chdir : K Z :=
  begin_op ;;
  o ← argstr 0 MAXPATH;
  oi ← (match o with None => mret None | Some path => namei path end);
  match oi with
  | None => end_op ;; mret (-1)
  | Some ip =>
      ilock ip ;;
      i ← get_inode ip;
      if negb (i_type i =? T_DIR) then iunlockput ip ;; end_op ;; mret (-1) else
      iunlock ip ;;
      p ← cur_proc;
      cwd ← non_null (p_cwd p);
      iput cwd ;;
      end_op ;;
      om ← myproc;
      me ← non_null om;
      upd_proc me (fun p => p <| p_cwd := Some ip |>) ;;
      mret 0
  end.

(** The loop of [sys_exec]: the pages and strings that were fetched, and whether
    the terminating null was reached. *)
Fixpoint fetch_args (n : nat) (uargv : Z) (argv : list (Z * list Z)) : K (list (Z * list Z) * bool) :=
  match n with
  | O => mret (argv, false)
  | S n' =>
      r ← fetchaddr (uint64 (uargv + 8 * Z.of_nat (length argv)));
      if r.1 <? 0 then mret (argv, false) else
      let uarg := r.2 in
      if uarg =? 0 then mret (argv, true) else
      page ← kalloc;
      if page =? 0 then mret (argv, false) else
      s ← fetchstr uarg PGSIZE;
      with_ram (write_bytes s.2 page) ;;
      if s.1 <? 0 then mret (argv ++ [(page, until_nul s.2)], false)
      else fetch_args n' uargv (argv ++ [(page, until_nul s.2)])
  end.

Fixpoint free_args (argv : list (Z * list Z)) : K unit :=
  match argv with
  | [] => mret tt
  | a :: argv' => kfree a.1 ;; free_args argv'
  end.

Definition sys_exec : K Z :=
  uargv ← argaddr 1;
  o ← argstr 0 MAXPATH;
  match o with None => mret (-1) | Some path =>
  a ← fetch_args MAXARG uargv [];
  ret ← (if a.2 : bool then exec path (snd <$> a.1) else mret (-1));
  free_args a.1 ;;
  mret ret
  end.

Definition sys_pipe : K Z :=
  fdarray ← argaddr 0;
  o ← pipealloc;
  match o with None => mret (-1) | Some (rf, wf) =>
  o0 ← fdalloc rf;
  match o0 with None => fileclose rf ;; fileclose wf ;; mret (-1) | Some fd0 =>
  o1 ← fdalloc wf;
  match o1 with
  | None => set_ofile fd0 None ;; fileclose rf ;; fileclose wf ;; mret (-1)
  | Some fd1 =>
      pagetable ← mypagetable;
      r ← copyout pagetable fdarray (le_bytes 4 (Z.of_nat fd0));
      r ← (if r <? 0 then mret r
           else copyout pagetable (uint64 (fdarray + 4)) (le_bytes 4 (Z.of_nat fd1)));
      if r <? 0 then
        set_ofile fd0 None ;;
        set_ofile fd1 None ;;
        fileclose rf ;;
        fileclose wf ;;
        mret (-1)
      else mret 0
  end end end.

End ops.
