(* ===== verification/Trap.v ===== *)
(** Traps, kernel/trap.c, the interrupt controller, kernel/plic.c, the system call table of kernel/syscall.c, [forkret] of
    kernel/proc.c and kernel/main.c.

    The registers that a trap handler reads are its argument; what it leaves for
    the return to user space is its result. *)

From Stdlib Require Import Ascii.
From stdpp Require Import base gmap strings numbers list.
From S2P Require Import Prelude Spinlock Kstate Mlfq Sched CString Globals Kalloc Vm Printf Sleeplock Virtio Bio Log Fs Console Pipe File Proc Exec Syscall Sysfile.
Local Open Scope Z_scope.

Definition SSTATUS_SPP : Z := Z.shiftl 1 8.
Definition SSTATUS_SPIE : Z := Z.shiftl 1 5.
Definition UART0_IRQ : Z := 10.
Definition VIRTIO0_IRQ : Z := 1.

(** The control and status registers, the clock, and the interrupt the PLIC
    offers. *)
Record trapregs := mktrapregs {
  r_scause : Z; r_sepc : Z; r_stval : Z; r_sstatus : Z; r_time : Z; plic_irq : Z
}.

(** The state of the hart when it enters [userret]. *)
Record userregs := mkuserregs { u_stvec : Z; u_sepc : Z; u_sstatus : Z; u_satp : Z }.

Definition trapinit : K unit := initlock tickslock "time".

Definition w_stvec (v : Z) : K unit :=
  hart ← cpuid;
  modify (upd_sub (fun g => g <| g_stvec ::= <[hart := v]> |>)).

(** * The interrupt controller *)

Definition PLIC_SENABLE (hart : nat) : Z := PLIC + 0x2080 + Z.of_nat hart * 0x100.
Definition PLIC_SPRIORITY (hart : nat) : Z := PLIC + 0x201000 + Z.of_nat hart * 0x2000.
Definition PLIC_SCLAIM (hart : nat) : Z := PLIC + 0x201004 + Z.of_nat hart * 0x2000.

Definition write_plic (a v : Z) : K unit := modify (upd_sub (fun g => g <| g_plic ::= <[a := v]> |>)).

Definition plicinit : K unit :=
  write_plic (PLIC + UART0_IRQ * 4) 1 ;;
  write_plic (PLIC + VIRTIO0_IRQ * 4) 1.

Definition plicinithart : K unit :=
  hart ← cpuid;
  write_plic (PLIC_SENABLE hart) (Z.lor (Z.shiftl 1 UART0_IRQ) (Z.shiftl 1 VIRTIO0_IRQ)) ;;
  write_plic (PLIC_SPRIORITY hart) 0.

Definition plic_claim (r : trapregs) : K Z := mret (plic_irq r).

Definition plic_complete (irq : Z) : K unit :=
  hart ← cpuid;
  write_plic (PLIC_SCLAIM hart) irq.

(** * Traps *)

Definition clockintr (r : trapregs) : K unit :=
  id ← cpuid;
  when (id =? 0)%nat (
    acquire tickslock ;;
    t ← ticks;
    modify (fun s => s <| k_ticks := uint (t + 1) |>) ;;
    wakeup (Some PTicks) ;;
    release tickslock) ;;
  hart ← cpuid;
  modify (upd_sub (fun g => g <| g_stimecmp ::= <[hart := uint64 (r_time r + 1000000)]> |>)).

Section ops.
Context `{Layout} `{Patience} `{VirtioDev}.

Definition trapinithart : K unit := w_stvec kernelvec.

Definition devintr (r : trapregs) : K Z :=
  if r_scause r =? 0x8000000000000009 then
    irq ← plic_claim r;
    (if irq =? UART0_IRQ then uartintr
     else if irq =? VIRTIO0_IRQ then virtio_disk_intr
     else if negb (irq =? 0) then
       printf "unexpected interrupt irq=%d
" [ANum irq] ;; mret tt
     else mret tt) ;;
    when (negb (irq =? 0)) (plic_complete irq) ;;
    mret 1
  else if r_scause r =? 0x8000000000000005 then clockintr r ;; mret 2
  else mret 0.

(** [syscalls[num]]. *)
Definition syscalls (num : Z) : option (K Z) :=
  (if num =? 1 then Some sys_fork
  else if num =? 2 then Some sys_exit
  else if num =? 3 then Some sys_wait
  else if num =? 4 then Some sys_pipe
  else if num =? 5 then Some sys_read
  else if num =? 6 then Some sys_kill
  else if num =? 7 then Some sys_exec
  else if num =? 8 then Some sys_fstat
  else if num =? 9 then Some sys_chdir
  else if num =? 10 then Some sys_dup
  else if num =? 11 then Some sys_getpid
  else if num =? 12 then Some sys_sbrk
  else if num =? 13 then Some sys_sleep
  else if num =? 14 then Some sys_uptime
  else if num =? 15 then Some sys_open
  else if num =? 16 then Some sys_write
  else if num =? 17 then Some sys_mknod
  else if num =? 18 then Some sys_unlink
  else if num =? 19 then Some sys_link
  else if num =? 20 then Some sys_mkdir
  else if num =? 21 then Some sys_close
  else if num =? 22 then Some sys_set_sched
  else if num =? 23 then Some sys_set_priority
  else if num =? 24 then Some sys_top
  else if num =? 25 then Some sys_fork_with_priority
  else if num =? 26 then Some sys_yield
  else if num =? 27 then Some sys_get_waiting_time
  else None)%Z.

Definition syscall : K unit :=
  o ← myproc;
  i ← non_null o;
  p ← get_proc i;
  let num := int (tf_a7 (p_tf p)) in
  match syscalls num with
  | Some f =>
      a ← f;
      upd_proc i (fun p => p <| p_tf ::= fun tf => tf <| tf_a0 := uint64 a |> |>)
  | None =>
      printf "%d %s: unknown sys call %d
" [ANum (p_pid p); AStr (Some (until_nul (p_name p))); ANum num] ;;
      upd_proc i (fun p => p <| p_tf ::= fun tf => tf <| tf_a0 := uint64 (-1) |> |>)
  end.

Definition usertrapret (r : trapregs) : K userregs :=
  o ← myproc;
  i ← non_null o;
  intr_off ;;
  let trampoline_uservec := TRAMPOLINE + (uservec - trampoline) in
  w_stvec trampoline_uservec ;;
  id ← cpuid;
  satp ← gets (fun s => default 0 (g_satp (k_sub s) !! id));
  upd_proc i (fun p => p <| p_tf ::= fun tf =>
    tf <| tf_kernel_satp := satp |> <| tf_kernel_sp := uint64 (p_kstack p + PGSIZE) |>
       <| tf_kernel_trap := usertrap_addr |> <| tf_kernel_hartid := Z.of_nat id |> |>) ;;
  let x := Z.land (r_sstatus r) (uint64 (Z.lnot SSTATUS_SPP)) in
  let x := Z.lor x SSTATUS_SPIE in
  p ← get_proc i;
  mret (mkuserregs trampoline_uservec (tf_epc (p_tf p)) x
          (MAKE_SATP (p_pagetable p))).

Definition max_ticks (level : Z) : option Z := at_idx [5; 10; 20] level.

(** The part of [usertrap] that a timer interrupt runs. *)
Definition usertrap_timer (i : nat) : K unit :=
  p ← get_proc i;
  when (bool_decide (p_state p = RUNNING))
    (upd_proc i (fun p => p <| p_total_ticks ::= fun n => int (n + 1) |>)) ;;
  policy ← current_policy;
  p ← get_proc i;
  if (policy =? 0) && bool_decide (p_state p = RUNNING) then yield
  else if (policy =? 4) && bool_decide (p_state p = RUNNING) then
    upd_proc i (fun p => p <| p_time_slice ::= fun n => int (n + 1) |>) ;;
    p ← get_proc i;
    m ← non_null (max_ticks (p_queue_level p));
    when (m <=? p_time_slice p) (
      t ← ticks;
      (if p_queue_level p <? Z.of_nat QUEUE_LEVELS - 1 then
         printf "PID=%d exceeded time slice at tick=%d, demoting from level %d to %d
" [ANum (p_pid p); ANum t; ANum (p_queue_level p); ANum (p_queue_level p + 1)] ;;
         upd_proc i (fun p => p <| p_queue_level ::= fun l => int (l + 1) |>)
       else
         printf "PID=%d reached time slice limit at tick=%d (already at lowest level %d)
" [ANum (p_pid p); ANum t; ANum (p_queue_level p)] ;;
         mret tt) ;;
      upd_proc i (fun p => p <| p_time_slice := 0 |>) ;;
      yield)
  else mret tt.

Definition usertrap (r : trapregs) : K userregs :=
  if has (r_sstatus r) SSTATUS_SPP then panic "usertrap: not from user mode" else
  w_stvec kernelvec ;;
  o ← myproc;
  i ← non_null o;
  upd_proc i (fun p => p <| p_tf ::= fun tf => tf <| tf_epc := r_sepc r |> |>) ;;
  which_dev ←
    (if r_scause r =? 8 then
       k ← killed i;
       when (negb (k =? 0)) (exit (-1)) ;;
       upd_proc i (fun p => p <| p_tf ::= fun tf => tf <| tf_epc ::= fun e => uint64 (e + 4) |> |>) ;;
       intr_on ;;
       syscall ;;
       mret 0
     else
       which_dev ← devintr r;
       when (which_dev =? 0) (setkilled i) ;;
       mret which_dev);
  k ← killed i;
  when (negb (k =? 0)) (exit (-1)) ;;
  when (which_dev =? 2) (usertrap_timer i) ;;
  usertrapret r.

(** The result is what the handler writes back to sepc and sstatus at its end, the
    values it read at its start: the scheduler and other processes may have changed the
    registers meanwhile. *)
Definition kerneltrap (r : trapregs) : K (Z * Z) :=
  if negb (has (r_sstatus r) SSTATUS_SPP) then panic "kerneltrap: not from supervisor mode" else
  on ← intr_get;
  if on : bool then panic "kerneltrap: interrupts enabled" else
  which_dev ← devintr r;
  if which_dev =? 0 then
    printf "kerneltrap: unexpected scause 0x%lx sepc=0x%lx stval=0x%lx
" [ANum (r_scause r); ANum (r_sepc r); ANum (r_stval r)] ;;
    panic "kerneltrap"
  else
  (if which_dev =? 2 then
     o ← myproc;
     match o with
     | Some _ =>
         policy ← current_policy;
         when ((policy =? 0) || (policy =? 4)) yield
     | None => mret tt
     end
   else mret tt) ;;
  mret (r_sepc r, r_sstatus r).

Definition forkret (r : trapregs) : K userregs :=
  o ← myproc;
  i ← non_null o;
  release (LkProc i) ;;
  first ← gets k_first;
  when first (
    fsinit ROOTDEV ;;
    modify (fun s => s <| k_first := false |>)) ;;
  t ← ticks;
  upd_proc i (fun p => p <| p_runtime_start_ticks := int t |>) ;;
  usertrapret r.

(** [main] of the first hart, and of another one once [started] is set; then the
    hart runs one round of the scheduler for each of [irqs], the interrupts that it
    takes in front of it. *)
Definition main (irqs : list (K unit)) : K unit :=
  id ← cpuid;
  (if (id =? 0)%nat then
     consoleinit ;;
     printfinit ;;
     printf "
" [] ;;
     printf "xv6 kernel is booting
" [] ;;
     printf "
" [] ;;
     kinit ;;
     kvminit ;;
     kvminithart ;;
     procinit ;;
     trapinit ;;
     trapinithart ;;
     plicinit ;;
     plicinithart ;;
     binit ;;
     iinit ;;
     fileinit ;;
     virtio_disk_init ;;
     userinit ;;
     modify (upd_sub (fun g => g <| g_started := 1 |>))
   else
     started ← gets (fun s => g_started (k_sub s));
     if started =? 0 then spin else
     printf "hart %d starting
" [ANum (Z.of_nat id)] ;;
     kvminithart ;;
     trapinithart ;;
     plicinithart) ;;
  scheduler irqs.

End ops.
