(* ===== verification/TimeSlice.v ===== *)
(** Time slices under MLFQ: what a timer interrupt in user mode does to the running
    process (the last part of usertrap in kernel/trap.c), and the runs of the
    kernel's printf that it needs. *)

From Stdlib Require Import Ascii.
From stdpp Require Import base gmap strings numbers list.
From S2P Require Import Prelude Spinlock Kstate Mlfq Sched MlfqSched Boot Switch CString Globals Kalloc Printf Trap.
Local Open Scope Z_scope.

(** * Output *)

(** [s'] is [s] after output: the UART is in another state and locks were taken and
    released. *)
Definition printed (s s' : kst) : Prop :=
  ∃ m u, balanced (k_mach s) m ∧ s' = on_mach m (upd_sub (fun g => g <| g_uart := u |>) s).

(** The hart can print. *)
Definition can_print (s : kst) : Prop := hart_ok (k_mach s) ∧ g_panicked (k_sub s) = false.

Lemma printed_refl s : printed s s.
Proof. exists (k_mach s), (g_uart (k_sub s)). split; [apply balanced_refl|]. by destruct s as [? ? ? ? ? ? ? ? ? []]. Qed.

Lemma printed_trans s1 s2 s3 : printed s1 s2 → printed s2 s3 → printed s1 s3.
Proof.
  intros (m1 & u1 & Hb1 & ->) (m2 & u2 & Hb2 & ->). exists m2, u2.
  split; [by eapply balanced_trans|]. done.
Qed.

Lemma printed_can s s' : can_print s → printed s s' → can_print s'.
Proof. intros [Hok Hp] (m & u & Hb & ->). split; [by eapply balanced_ok|done]. Qed.

(** The state with other answers and output of the UART. *)
Definition on_uart (u : uart) (s : kst) : kst := upd_sub (fun g => g <| g_uart := u |>) s.

Lemma tx_idle_run s :
  tx_idle s = Ret (default true (head (uart_idle (g_uart (k_sub s)))))
                  (on_uart ((g_uart (k_sub s)) <| uart_idle ::= tail |>) s).
Proof. reflexivity. Qed.

Lemma wait_idle_run l s :
  uart_idle (g_uart (k_sub s)) = l → ∃ u, wait_idle l s = Ret tt (on_uart u s).
Proof.
  revert s. induction l as [|b l IH]; intros s Hl; cbn [wait_idle];
    (erewrite bind_Ret; [|apply tx_idle_run]); rewrite Hl; cbn [head default].
  - eexists. reflexivity.
  - destruct b; [eexists; reflexivity|].
    destruct (IH (on_uart ((g_uart (k_sub s)) <| uart_idle ::= tail |>) s)) as [u Hu].
    { cbn. by rewrite Hl. }
    exists u. etransitivity; [exact Hu|reflexivity].
Qed.

(** [push_off] and [pop_off] around something that leaves the machine alone. *)
Lemma pop_push_run (s s1 : kst) c :
  cpus (k_mach s) !! tp (k_mach s) = Some c → hart_ok (k_mach s) →
  k_mach s1 = (k_mach s) <| cpus ::= alter cpu_push (tp (k_mach s)) |> →
  pop_off s1 = Ret tt (on_mach (settle (k_mach s)) s1).
Proof.
  intros Hc (c' & Hc' & H0 & Hs) Hm. assert (c' = c) as -> by congruence.
  rewrite (pop_off_run s1 (cpu_push c)).
  - f_equal. unfold on_mach. simpl. rewrite Hm. unfold settle. f_equal. simpl. f_equal.
    rewrite list_alter_alter_eq. apply list_alter_ext; [|done].
    intros x Hx. assert (x = c) as -> by congruence. by apply cpu_pop_push.
  - simpl. rewrite Hm. simpl. by rewrite list_lookup_alter_eq, Hc.
  - done.
  - simpl. lia.
Qed.

Lemma uartputc_sync_run c s :
  can_print s → ∃ s', uartputc_sync c s = Ret tt s' ∧ printed s s'.
Proof.
  intros [Hok Hp]. pose proof Hok as (cp & Hc & H0 & Hs). unfold uartputc_sync.
  erewrite bind_Ret; [|by eapply push_off_run].
  set (s1 := set_mach _ s). erewrite bind_Ret; [|reflexivity].
  change (g_panicked (k_sub s1)) with (g_panicked (k_sub s)). rewrite Hp.
  erewrite bind_Ret; [|reflexivity].
  destruct (wait_idle_run _ s1 eq_refl) as [u Hu]. erewrite bind_Ret; [|exact Hu].
  unfold write_thr, upd_uart. erewrite bind_Ret; [|reflexivity].
  eexists. split; [by eapply (pop_push_run s)|].
  exists (settle (k_mach s)). eexists. split; [by right|]. reflexivity.
Qed.

(** Code that only prints, and gives [a]. *)
Definition prints {A} (m : K A) (a : A) : Prop :=
  ∀ s, can_print s → ∃ s', m s = Ret a s' ∧ printed s s'.

Lemma prints_ret {A} (a : A) : prints (mret a) a.
Proof. intros s _. exists s. split; [done|apply printed_refl]. Qed.

Lemma prints_bind {A B} (m : K A) a (f : A → K B) b : prints m a → prints (f a) b → prints (m ≫= f) b.
Proof.
  intros Hm Hf s Hs. destruct (Hm s Hs) as (s1 & H1 & P1).
  destruct (Hf s1) as (s2 & H2 & P2); [by eapply printed_can|].
  exists s2. split; [by erewrite bind_Ret|by eapply printed_trans].
Qed.

Lemma prints_consputc c : prints (consputc c) tt.
Proof.
  unfold consputc. destruct (c =? BACKSPACE).
  - eapply prints_bind; [intros s; apply uartputc_sync_run|].
    eapply prints_bind; intros s; apply uartputc_sync_run.
  - intros s. apply uartputc_sync_run.
Qed.

Lemma prints_chars l : prints (put_chars l) tt.
Proof.
  induction l as [|c l IH]; [apply prints_ret|].
  eapply prints_bind; [apply prints_consputc|exact IH].
Qed.

(** An int has at most ten digits and a sign. *)
Lemma prints_int z : prints (Printf.printint (int z) 10 1) tt.
Proof.
  unfold Printf.printint. destruct (Nat.ltb_spec 16 (length (printint_buf (int z) 10 1))) as [Hl|_];
    [|apply prints_chars].
  exfalso. revert Hl. unfold printint_buf. pose proof (int_range z) as Hz.
  change (negb (1 =? 0)) with true. cbn [andb]. rewrite length_app.
  destruct (Z.ltb_spec (int z) 0) as [Hn|Hn]; rewrite uint64_small by lia.
  - pose proof (int_digits_short digits 64 (- int z) 10 10 ltac:(lia) ltac:(simpl; lia) ltac:(lia)).
    simpl length at 2. lia.
  - pose proof (int_digits_short digits 64 (int z) 10 10 ltac:(lia) ltac:(simpl; lia) ltac:(lia)).
    simpl length at 2. lia.
Qed.

(** The format has no conversion but %d, and no more of them than [n]. *)
Fixpoint only_d (fmt : list Z) (n : nat) : bool :=
  match fmt with
  | [] => true
  | c :: f =>
      if ischar c "%" then
        match f, n with
        | d :: f1, S n' => ischar d "d" && only_d f1 n'
        | _, _ => false
        end
      else only_d f n
  end.

Lemma prints_format k fmt zs :
  (length fmt ≤ k)%nat → only_d fmt (length zs) = true → prints (format fmt (ANum <$> zs)) tt.
Proof.
  revert fmt zs. induction k as [|k IH]; intros fmt zs Hk Hd.
  { destruct fmt; [apply prints_ret|simpl in Hk; lia]. }
  destruct fmt as [|c f]; [apply prints_ret|]. cbn [length] in Hk. cbn [only_d] in Hd.
  cbn [format]. destruct (ischar c "%"); cbn [negb].
  - destruct f as [|d f1]; [done|]. destruct zs as [|z zs]; [done|]. cbn [length] in *.
    apply andb_prop in Hd as [-> Hd]. cbn [fmap list_fmap num_arg].
    eapply prints_bind; [apply prints_int|]. apply (IH f1 zs); [lia|done].
  - eapply prints_bind; [apply prints_consputc|]. apply IH; [lia|done].
Qed.

(** [printf] of such a format returns with output done and the locks as they were. *)
Lemma printf_run fmt zs s :
  can_print s → free pr_lock (k_mach s) → only_d (chars fmt) (length zs) = true →
  ∃ s', printf fmt (ANum <$> zs) s = Ret 0 s' ∧ printed s s'.
Proof.
  intros Hs Hf Hd. pose proof Hs as [Hok Hp]. unfold printf. erewrite bind_Ret; [|reflexivity].
  pose proof (prints_format (length (chars fmt)) (chars fmt) zs (le_n _) Hd) as Hfmt.
  destruct (g_pr_locking (k_sub s) =? 0); unfold when; cbn [negb].
  { erewrite bind_Ret; [|reflexivity]. destruct (Hfmt s Hs) as (s1 & H1 & P1).
    exists s1. split; [|done]. erewrite bind_Ret; [|exact H1]. reflexivity. }
  erewrite bind_Ret; [|by apply acquire_lock].
  destruct (Hfmt (with_lock pr_lock s)) as (s1 & H1 & m & u & Hb & ->).
  { split; [by apply hart_ok_held|done]. }
  erewrite bind_Ret; [|exact H1].
  assert (m = held pr_lock (k_mach s)) as ->.
  { destruct Hb as [->| ->]; [done|]. simpl. by apply settle_held. }
  erewrite bind_Ret; [|by eapply (release_held pr_lock _ (k_mach s))].
  eexists. split; [reflexivity|]. exists (settle (k_mach s)), u. split; [by right|reflexivity].
Qed.

(** * The running process after output *)

Lemma running_printed i p s s' :
  running i s → p_state p = RUNNING → printed s s' → running i (put_proc i p s').
Proof.
  intros [(Hok & Hf & Hl) (c & p0 & Hc & Hn & Hpr & Hp0 & _)] Hst (m & u & Hb & ->).
  split; [apply at_rest_put_proc; split; [|split]|].
  - by eapply balanced_ok.
  - intros j Hj. eapply balanced_free; [by apply Hf|done].
  - done.
  - destruct (balanced_cpu _ _ _ Hc Hb) as (c1 & Hc1 & Hp1 & Hn1). exists c1, p.
    split; [done|]. split; [by rewrite Hn1|]. split; [by rewrite Hp1|].
    split; [by eapply lookup_put_proc|done].
Qed.

Lemma mlfq_inv_printed i p s s' q :
  mlfq_inv s q → 0 <= p_queue_level p < Z.of_nat QUEUE_LEVELS → printed s s' →
  mlfq_inv (put_proc i p s') q.
Proof.
  intros (Hf & Hlv & Habs & Hwf) Hp (m & u & Hb & ->).
  split; [by eapply balanced_free|]. split; [by apply levels_ok_insert|]. split; [|done].
  by eapply mlfq_abs_ext; [..|exact Habs].
Qed.

Lemma printed_sie i s s' :
  running i s → printed s s' →
  ∃ c c', cpus (k_mach s) !! tp (k_mach s) = Some c ∧
    cpus (k_mach s') !! tp (k_mach s') = Some c' ∧ c_sie c' = c_sie c.
Proof.
  intros [_ (c & _ & Hc & _)] (m & u & [->| ->] & ->); exists c.
  - by exists c.
  - exists (cpu_settle c). split; [done|]. split; [by simpl; rewrite list_lookup_alter_eq, Hc|].
    unfold cpu_settle. by destruct (_ =? 0).
Qed.

(** * A tick of the timer *)

(** Ticks a process may use at a level, and the level it goes to then. *)
Definition quantum (level : Z) : Z := if level =? 0 then 5 else if level =? 1 then 10 else 20.
Definition demoted (level : Z) : Z := Z.min (level + 1) (Z.of_nat QUEUE_LEVELS - 1).

(** One more tick used. *)
Definition ticked (p : proc) : proc :=
  p <| p_total_ticks ::= fun n => int (n + 1) |> <| p_time_slice ::= fun n => int (n + 1) |>.

(** Sent back to the queues at tick [now] with a new slice. *)
Definition expired (now : Z) (p : proc) : proc :=
  (ticked p) <| p_queue_level ::= demoted |> <| p_time_slice := 0 |>
    <| p_last_runtime := Z.max 1 (int (uint (now - p_runtime_start_ticks p))) |>
    <| p_state := RUNNABLE |>.

Lemma max_ticks_quantum l : 0 <= l < Z.of_nat QUEUE_LEVELS → max_ticks l = Some (quantum l).
Proof.
  intros Hl. change (Z.of_nat QUEUE_LEVELS) with 3 in Hl.
  assert (l = 0 ∨ l = 1 ∨ l = 2) as [->|[->| ->]] by lia; reflexivity.
Qed.

(** The message, and the level after it. *)
Lemma demote_run i p s :
  can_print s → free pr_lock (k_mach s) → k_procs s !! i = Some p →
  0 <= p_queue_level p < Z.of_nat QUEUE_LEVELS →
  ∃ s', printed s s' ∧
   (if p_queue_level p <? Z.of_nat QUEUE_LEVELS - 1 then
      printf "PID=%d exceeded time slice at tick=%d, demoting from level %d to %d
" [ANum (p_pid p); ANum (k_ticks s); ANum (p_queue_level p); ANum (p_queue_level p + 1)] ;;
      upd_proc i (fun p => p <| p_queue_level ::= fun l => int (l + 1) |>)
    else
      printf "PID=%d reached time slice limit at tick=%d (already at lowest level %d)
" [ANum (p_pid p); ANum (k_ticks s); ANum (p_queue_level p)] ;;
      mret tt) s = Ret tt (put_proc i (p <| p_queue_level ::= demoted |>) s').
Proof.
  intros Hs Hf Hp Hl. change (Z.of_nat QUEUE_LEVELS) with 3 in *.
  assert (∀ s', printed s s' → k_procs s' !! i = Some p) as Hlk by (by intros s' (m & u & _ & ->)).
  destruct (Z.ltb_spec (p_queue_level p) (3 - 1)) as [Hlt|Hge].
  - match goal with |- context [printf ?fmt _] =>
      destruct (printf_run fmt [p_pid p; k_ticks s; p_queue_level p; p_queue_level p + 1] s Hs Hf)
        as (s' & Hr & P); [reflexivity|] end.
    exists s'. split; [exact P|]. erewrite bind_Ret; [|exact Hr].
    rewrite (upd_proc_put _ _ _ _ (Hlk s' P)). do 2 f_equal.
    destruct p; unfold demoted; change (Z.of_nat QUEUE_LEVELS) with 3; simpl in *. f_equal. rewrite int_small; lia.
  - match goal with |- context [printf ?fmt _] =>
      destruct (printf_run fmt [p_pid p; k_ticks s; p_queue_level p] s Hs Hf)
        as (s' & Hr & P); [reflexivity|] end.
    exists s'. split; [exact P|]. erewrite bind_Ret; [|exact Hr].
    unfold mret, M_ret. f_equal. symmetry. apply put_proc_id. rewrite (Hlk s' P). f_equal.
    destruct p; unfold demoted; change (Z.of_nat QUEUE_LEVELS) with 3; simpl in *. f_equal. lia.
Qed.

(** [usertrap_timer] up to the comparison with the quantum. *)
Lemma usertrap_timer_run i p s :
  k_procs s !! i = Some p → p_state p = RUNNING → k_policy s = SCHED_MLFQ →
  0 <= p_queue_level p < Z.of_nat QUEUE_LEVELS →
  usertrap_timer i s =
    when (quantum (p_queue_level p) <=? p_time_slice (ticked p)) (
      t ← ticks;
      (if p_queue_level p <? Z.of_nat QUEUE_LEVELS - 1 then
         printf "PID=%d exceeded time slice at tick=%d, demoting from level %d to %d
" [ANum (p_pid p); ANum t; ANum (p_queue_level p); ANum (p_queue_level p + 1)] ;;
         upd_proc i (fun p => p <| p_queue_level ::= fun l => int (l + 1) |>)
       else
         printf "PID=%d reached time slice limit at tick=%d (already at lowest level %d)
" [ANum (p_pid p); ANum t; ANum (p_queue_level p)] ;;
         mret tt) ;;
      upd_proc i (fun p => p <| p_time_slice := 0 |>) ;;
      yield) (put_proc i (ticked p) s).
Proof.
  intros Hp Hst Hpol Hl. unfold usertrap_timer.
  erewrite bind_Ret; [|by apply get_proc_run]. rewrite (bool_decide_true _ Hst). unfold when at 1.
  erewrite bind_Ret; [|by eapply upd_proc_put].
  erewrite bind_Ret; [|instantiate (2 := k_policy s); reflexivity].
  erewrite bind_Ret; [|apply get_proc_run; by eapply lookup_put_proc].
  rewrite Hpol. simpl p_state. rewrite (bool_decide_true _ Hst).
  change (SCHED_MLFQ =? 0) with false. change (SCHED_MLFQ =? 4) with true. cbn [andb].
  erewrite bind_Ret; [|eapply upd_proc_put; by eapply lookup_put_proc].
  rewrite put_proc_put_proc.
  erewrite bind_Ret; [|apply get_proc_run; by eapply lookup_put_proc].
  simpl p_queue_level. rewrite (max_ticks_quantum _ Hl). reflexivity.
Qed.

(** C15. Under MLFQ a timer interrupt in user mode charges the running process one
    tick. While the ticks used stay below the quantum of its level (5, 10, 20)
    nothing else happens. When the quantum is used up, the process moves one level
    down (from the lowest level it stays), starts a new slice and gives up the hart:
    the scheduler gets it RUNNABLE, last in the queue of its new level, with p->lock
    as the only lock held, every other process as it was; entered again, it returns
    with no lock held. *)
Theorem time_slice_demotes i p c s q :
  running i s → k_procs s !! i = Some p → cpus (k_mach s) !! tp (k_mach s) = Some c →
  mlfq_inv s q → k_policy s = SCHED_MLFQ →
  g_panicked (k_sub s) = false → free pr_lock (k_mach s) →
  if p_time_slice (ticked p) <? quantum (p_queue_level p)
  then usertrap_timer i s = Ret tt (put_proc i (ticked p) s)
  else ∃ s1 k, usertrap_timer i s = Swtch ToSched s1 k ∧ handover i s1 ∧
         k_procs s1 = <[i := expired (k_ticks s) p]> (k_procs s) ∧
         mlfq_abs s1 (q_enqueue (Z.to_nat (demoted (p_queue_level p))) i q) ∧
         comes_back i (c_sie c) k.
Proof.
  intros Hr Hp Hc Hinv Hpol Hpan Hpr. pose proof Hr as [(Hok & _) (c0 & p0 & _ & _ & _ & Hp0 & Hst)].
  assert (p0 = p) as -> by congruence.
  assert (0 <= p_queue_level p < Z.of_nat QUEUE_LEVELS) as Hl.
  { apply Hinv. by eapply list_elem_of_lookup_2. }
  rewrite (usertrap_timer_run i p s Hp Hst Hpol Hl).
  destruct (Z.ltb_spec (p_time_slice (ticked p)) (quantum (p_queue_level p))) as [Hlt|Hge].
  { destruct (Z.leb_spec (quantum (p_queue_level p)) (p_time_slice (ticked p))); [lia|done]. }
  destruct (Z.leb_spec (quantum (p_queue_level p)) (p_time_slice (ticked p))); [|lia].
  unfold when. erewrite bind_Ret; [|reflexivity].
  set (s0 := put_proc i (ticked p) s).
  destruct (demote_run i (ticked p) s0) as (s1 & P & Hd); [done|done|by eapply lookup_put_proc|done|].
  erewrite bind_Ret; [|exact Hd].
  set (p1 := (ticked p) <| p_queue_level ::= demoted |>) in *.
  assert (k_procs s1 !! i = Some (ticked p)) as Hp1.
  { destruct P as (m & u & _ & ->). by eapply lookup_put_proc. }
  erewrite bind_Ret; [|eapply upd_proc_put; by eapply lookup_put_proc]. rewrite put_proc_put_proc.
  set (p2 := p1 <| p_time_slice := 0 |>).
  assert (running i s0) as Hr0.
  { by apply (running_printed i (ticked p) s s Hr); [|apply printed_refl]. }
  destruct (printed_sie i s0 s1 Hr0 P) as (c1 & c2 & Hc1 & Hc2 & Hsie).
  assert (c1 = c) as -> by (change (k_mach s0) with (k_mach s) in Hc1; congruence).
  destruct (yield_run i p2 c2 (put_proc i p2 s1) q) as (s2 & k & Hy & Hho & Hps & Habs & Hback).
  - by apply (running_printed i p2 s0).
  - by eapply lookup_put_proc.
  - done.
  - apply (mlfq_inv_printed i p2 s0); [|unfold p2, p1, demoted; simpl; lia|done].
    by apply (mlfq_inv_printed i (ticked p) s); [..|apply printed_refl].
  - exists s2, k. rewrite <- Hsie. split; [done|]. split; [done|].
    destruct P as (m & u & _ & ->). split; [|split; [|done]].
    + rewrite Hps. simpl. by rewrite !list_insert_insert_eq.
    + simpl in Habs. rewrite Hpol in Habs. exact Habs.
Qed.

(** Process 0 runs at level 1 and has used nine of its ten ticks. *)
Definition ex_slice_proc : proc :=
  (a_proc 1 RUNNING) <| p_queue_level := 1 |> <| p_time_slice := 9 |>.

Definition ex_slice : kst :=
  on_mach (cpu_runs (Some 0%nat) boot_mach)
    (put_proc 0 ex_slice_proc (boot_with (sub0 ∅) SCHED_MLFQ 30)).

Lemma ex_slice_proc_0 : k_procs ex_slice !! 0%nat = Some ex_slice_proc.
Proof. exact (lookup_put_proc 0 ex_slice_proc proc0 _ (boot_lookup _ _ _ _ NPROC_pos)). Qed.

Lemma ex_slice_running : running 0 ex_slice.
Proof.
  split; [split; [|split]|].
  - exists (mkcpu (Some 0%nat) 0 false false). split; [done|]. simpl. lia.
  - intros i Hi. exact (boot_proc_lock i Hi).
  - exact (eq_trans (length_insert _ _ _) (length_replicate _ _)).
  - exists (mkcpu (Some 0%nat) 0 false false), ex_slice_proc.
    split; [done|]. split; [done|]. split; [done|]. split; [apply ex_slice_proc_0|done].
Qed.

Lemma ex_slice_inv : mlfq_inv ex_slice (replicate QUEUE_LEVELS []).
Proof.
  destruct (inv_put_proc 0 ex_slice_proc (boot_with (sub0 ∅) SCHED_MLFQ 30) _ (boot_inv _ _ _))
    as (H1 & H2 & H3 & H4); [done|].
  split; [exact H1|]. split; [exact H2|]. split; [|exact H4].
  by eapply mlfq_abs_ext; [..|exact H3].
Qed.

Lemma time_slice_demotes_witness :
  ∃ s1 k, usertrap_timer 0 ex_slice = Swtch ToSched s1 k ∧ mlfq_abs s1 [[]; []; [0%nat]].
Proof.
  destruct (time_slice_demotes 0 ex_slice_proc (mkcpu (Some 0%nat) 0 false false) ex_slice
    (replicate QUEUE_LEVELS [])) as (s1 & k & Hy & _ & _ & Hq & _).
  - apply ex_slice_running.
  - apply ex_slice_proc_0.
  - reflexivity.
  - apply ex_slice_inv.
  - reflexivity.
  - reflexivity.
  - apply boot_global_lock. unfold lock_names. set_solver.
  - exists s1, k. split; [exact Hy|exact Hq].
Defined.
