(* ===== verification/Asm.v ===== *)
(** The assembly of the kernel: swtch.S, trampoline.S, kernelvec.S and entry.S, as
    lists of instructions of a small RISC-V interpreter.

    Registers are numbered as in the RISC-V manual and hold 64-bit words; control
    and status registers are known by their number.  Memory consists of 64-bit
    words at their physical addresses (all accesses of these files are aligned),
    and is reached through the translation of the page table in satp. *)

From stdpp Require Import base gmap strings numbers list.
From S2P Require Import Prelude Spinlock Kstate.
Local Open Scope Z_scope.

(** * Machine *)

Definition zero : nat := 0%nat.
Definition ra : nat := 1%nat.
Definition sp : nat := 2%nat.
Definition gp : nat := 3%nat.
Definition tp_ : nat := 4%nat.
Definition t0 : nat := 5%nat.
Definition t1 : nat := 6%nat.
Definition t2 : nat := 7%nat.
Definition s0 : nat := 8%nat.
Definition s1 : nat := 9%nat.
Definition a0 : nat := 10%nat.
Definition a1 : nat := 11%nat.
Definition a2 : nat := 12%nat.
Definition a3 : nat := 13%nat.
Definition a4 : nat := 14%nat.
Definition a5 : nat := 15%nat.
Definition a6 : nat := 16%nat.
Definition a7 : nat := 17%nat.
Definition s2 : nat := 18%nat.
Definition s3 : nat := 19%nat.
Definition s4 : nat := 20%nat.
Definition s5 : nat := 21%nat.
Definition s6 : nat := 22%nat.
Definition s7 : nat := 23%nat.
Definition s8 : nat := 24%nat.
Definition s9 : nat := 25%nat.
Definition s10 : nat := 26%nat.
Definition s11 : nat := 27%nat.
Definition t3 : nat := 28%nat.
Definition t4 : nat := 29%nat.
Definition t5 : nat := 30%nat.
Definition t6 : nat := 31%nat.

Definition satp : Z := 0x180.
Definition sscratch : Z := 0x140.
Definition sepc : Z := 0x141.
Definition mhartid : Z := 0xf14.

Inductive instr : Type :=
| Sd (r : nat) (off : Z) (base : nat)
| Ld (r : nat) (off : Z) (base : nat)
| Li (r : nat) (v : Z)
| La (r : nat) (symbol : string)
| Addi (r s : nat) (v : Z)
| Add (r s t : nat)
| Mul (r s t : nat)
| Csrw (c : Z) (r : nat)
| Csrr (r : nat) (c : Z)
| Sfence
| Call (f : string)
| Jr (r : nat)
| J (label : string)
| Sret.

(** [regs] and [csrs] are total, [words] is the memory. *)
Record hart := mkhart { regs : nat → Z; csrs : Z → Z; words : gmap Z Z }.

(** How a piece of code ends: at a jump to an address, at a call of a C function
    with the code that follows it, at a return to user mode or from an interrupt,
    in an endless loop, or at an access to memory that is not there. *)
Inductive outcome : Type :=
| Goto (pc : Z) (h : hart)
| Called (f : string) (rest : list instr) (h : hart)
| Returned (pc : Z) (h : hart)
| Loops (h : hart)
| Trapped.

Definition set_reg (r : nat) (v : Z) (h : hart) : hart :=
  mkhart (fun r' => if decide (r' = r) then v else regs h r') (csrs h) (words h).
Definition set_csr (c v : Z) (h : hart) : hart :=
  mkhart (regs h) (fun c' => if decide (c' = c) then v else csrs h c') (words h).
Definition set_word_at (a v : Z) (h : hart) : hart :=
  mkhart (regs h) (csrs h) (<[a := v]> (words h)).

Section exec.
Context (xlate : Z → Z → option Z) (symbol : string → Z).

(** The physical address that register [base] plus [off] refers to, when there is
    memory at it. *)
Definition phys (h : hart) (off : Z) (base : nat) : option Z :=
  a ← xlate (csrs h satp) (uint64 (regs h base + off));
  _ ← words h !! a;
  Some a.

Fixpoint exec (code : list instr) (h : hart) : outcome :=
  match code with
  | [] => Trapped
  | i :: rest =>
      match i with
      | Sd r off base =>
          match phys h off base with
          | Some a => exec rest (set_word_at a (regs h r) h)
          | None => Trapped
          end
      | Ld r off base =>
          match a ← phys h off base; words h !! a with
          | Some v => exec rest (set_reg r v h)
          | None => Trapped
          end
      | Li r v => exec rest (set_reg r v h)
      | La r x => exec rest (set_reg r (symbol x) h)
      | Addi r s v => exec rest (set_reg r (uint64 (regs h s + v)) h)
      | Add r s t => exec rest (set_reg r (uint64 (regs h s + regs h t)) h)
      | Mul r s t => exec rest (set_reg r (uint64 (regs h s * regs h t)) h)
      | Csrw c r => exec rest (set_csr c (regs h r) h)
      | Csrr r c => exec rest (set_reg r (csrs h c) h)
      | Sfence => exec rest h
      | Call f => Called f rest h
      | Jr r => Goto (regs h r) h
      | J _ => Loops h
      | Sret => Returned (csrs h sepc) h
      end
  end.

Lemma exec_ld r off base rest h :
  exec (Ld r off base :: rest) h =
  match a ← phys h off base; words h !! a with
  | Some v => exec rest (set_reg r v h)
  | None => Trapped
  end.
Proof. reflexivity. Qed.
Lemma exec_csrw c r rest h : exec (Csrw c r :: rest) h = exec rest (set_csr c (regs h r) h).
Proof. reflexivity. Qed.
Lemma exec_csrr c r rest h : exec (Csrr r c :: rest) h = exec rest (set_reg r (csrs h c) h).
Proof. reflexivity. Qed.
Lemma exec_li r v rest h : exec (Li r v :: rest) h = exec rest (set_reg r v h).
Proof. reflexivity. Qed.
Lemma exec_addi r s v rest h :
  exec (Addi r s v :: rest) h = exec rest (set_reg r (uint64 (regs h s + v)) h).
Proof. reflexivity. Qed.
Lemma exec_sfence rest h : exec (Sfence :: rest) h = exec rest h.
Proof. reflexivity. Qed.

End exec.

(** * The code *)

Definition swtch_code : list instr := [
  Sd ra 0 a0; Sd sp 8 a0; Sd s0 16 a0; Sd s1 24 a0; Sd s2 32 a0; Sd s3 40 a0; Sd s4 48 a0;
  Sd s5 56 a0; Sd s6 64 a0; Sd s7 72 a0; Sd s8 80 a0; Sd s9 88 a0; Sd s10 96 a0; Sd s11 104 a0;
  Ld ra 0 a1; Ld sp 8 a1; Ld s0 16 a1; Ld s1 24 a1; Ld s2 32 a1; Ld s3 40 a1; Ld s4 48 a1;
  Ld s5 56 a1; Ld s6 64 a1; Ld s7 72 a1; Ld s8 80 a1; Ld s9 88 a1; Ld s10 96 a1; Ld s11 104 a1;
  Jr ra ].

Definition uservec_code : list instr := [
  Csrw sscratch a0;
  Li a0 TRAPFRAME;
  Sd ra 40 a0; Sd sp 48 a0; Sd gp 56 a0; Sd tp_ 64 a0; Sd t0 72 a0; Sd t1 80 a0; Sd t2 88 a0;
  Sd s0 96 a0; Sd s1 104 a0; Sd a1 120 a0; Sd a2 128 a0; Sd a3 136 a0; Sd a4 144 a0; Sd a5 152 a0;
  Sd a6 160 a0; Sd a7 168 a0; Sd s2 176 a0; Sd s3 184 a0; Sd s4 192 a0; Sd s5 200 a0; Sd s6 208 a0;
  Sd s7 216 a0; Sd s8 224 a0; Sd s9 232 a0; Sd s10 240 a0; Sd s11 248 a0; Sd t3 256 a0; Sd t4 264 a0;
  Sd t5 272 a0; Sd t6 280 a0;
  Csrr t0 sscratch;
  Sd t0 112 a0;
  Ld sp 8 a0;
  Ld tp_ 32 a0;
  Ld t0 16 a0;
  Ld t1 0 a0;
  Sfence;
  Csrw satp t1;
  Sfence;
  Jr t0 ].

Definition userret_code : list instr := [
  Sfence;
  Csrw satp a0;
  Sfence;
  Li a0 TRAPFRAME;
  Ld ra 40 a0; Ld sp 48 a0; Ld gp 56 a0; Ld tp_ 64 a0; Ld t0 72 a0; Ld t1 80 a0; Ld t2 88 a0;
  Ld s0 96 a0; Ld s1 104 a0; Ld a1 120 a0; Ld a2 128 a0; Ld a3 136 a0; Ld a4 144 a0; Ld a5 152 a0;
  Ld a6 160 a0; Ld a7 168 a0; Ld s2 176 a0; Ld s3 184 a0; Ld s4 192 a0; Ld s5 200 a0; Ld s6 208 a0;
  Ld s7 216 a0; Ld s8 224 a0; Ld s9 232 a0; Ld s10 240 a0; Ld s11 248 a0; Ld t3 256 a0; Ld t4 264 a0;
  Ld t5 272 a0; Ld t6 280 a0;
  Ld a0 112 a0;
  Sret ].

Definition kernelvec_code : list instr := [
  Addi sp sp (-256);
  Sd ra 0 sp; Sd sp 8 sp; Sd gp 16 sp; Sd tp_ 24 sp; Sd t0 32 sp; Sd t1 40 sp; Sd t2 48 sp;
  Sd a0 72 sp; Sd a1 80 sp; Sd a2 88 sp; Sd a3 96 sp; Sd a4 104 sp; Sd a5 112 sp; Sd a6 120 sp;
  Sd a7 128 sp; Sd t3 216 sp; Sd t4 224 sp; Sd t5 232 sp; Sd t6 240 sp;
  Call "kerneltrap";
  Ld ra 0 sp; Ld sp 8 sp; Ld gp 16 sp; Ld t0 32 sp; Ld t1 40 sp; Ld t2 48 sp;
  Ld a0 72 sp; Ld a1 80 sp; Ld a2 88 sp; Ld a3 96 sp; Ld a4 104 sp; Ld a5 112 sp; Ld a6 120 sp;
  Ld a7 128 sp; Ld t3 216 sp; Ld t4 224 sp; Ld t5 232 sp; Ld t6 240 sp;
  Addi sp sp 256;
  Sret ].

Definition entry_code : list instr := [
  La sp "stack0";
  Li a0 (1024 * 4);
  Csrr a1 mhartid;
  Addi a1 a1 1;
  Mul a0 a0 a1;
  Add sp sp a0;
  Call "start";
  J "spin" ].

(** * Blocks of stores and loads

    [l] pairs a register with the offset it is stored at or loaded from. *)

Definition stores (base : nat) (l : list (nat * Z)) : list instr :=
  (fun '(r, off) => Sd r off base) <$> l.
Definition loads (base : nat) (l : list (nat * Z)) : list instr :=
  (fun '(r, off) => Ld r off base) <$> l.

(** The register a block stores at an offset, the offset it loads a register from. *)
Fixpoint stored_at (off : Z) (l : list (nat * Z)) : option nat :=
  match l with
  | [] => None
  | (r, o) :: l =>
      match stored_at off l with
      | Some r => Some r
      | None => if decide (off = o) then Some r else None
      end
  end.
Fixpoint loaded_from (r : nat) (l : list (nat * Z)) : option Z :=
  match l with
  | [] => None
  | (r', o) :: l =>
      match loaded_from r l with
      | Some o => Some o
      | None => if decide (r = r') then Some o else None
      end
  end.

(** The structure of 64-bit fields [ws] is in memory at [pa]. *)
Definition holds (pa : Z) (ws : list Z) (m : gmap Z Z) : Prop :=
  ∀ (i : nat) w, ws !! i = Some w → m !! (pa + 8 * Z.of_nat i) = Some w.

(** The fields of the structures of proc.h in their order in memory. *)
Definition ctx_words (c : context) : list Z := [
  ctx_ra c; ctx_sp c; ctx_s0 c; ctx_s1 c; ctx_s2 c; ctx_s3 c; ctx_s4 c; ctx_s5 c; ctx_s6 c;
  ctx_s7 c; ctx_s8 c; ctx_s9 c; ctx_s10 c; ctx_s11 c ].
Definition tf_words (t : trapframe) : list Z := [
  tf_kernel_satp t; tf_kernel_sp t; tf_kernel_trap t; tf_epc t; tf_kernel_hartid t;
  tf_ra t; tf_sp t; tf_gp t; tf_tp t; tf_t0 t; tf_t1 t; tf_t2 t; tf_s0 t; tf_s1 t;
  tf_a0 t; tf_a1 t; tf_a2 t; tf_a3 t; tf_a4 t; tf_a5 t; tf_a6 t; tf_a7 t;
  tf_s2 t; tf_s3 t; tf_s4 t; tf_s5 t; tf_s6 t; tf_s7 t; tf_s8 t; tf_s9 t; tf_s10 t; tf_s11 t;
  tf_t3 t; tf_t4 t; tf_t5 t; tf_t6 t ].

(** The registers a C function preserves, as swtch keeps them. *)
Definition saved_context (r : nat → Z) : context :=
  mkcontext (r ra) (r sp) (r s0) (r s1) (r s2) (r s3) (r s4) (r s5) (r s6) (r s7) (r s8) (r s9)
    (r s10) (r s11).

(** The trapframe once the user registers are saved in it. *)
Definition saved_frame (r : nat → Z) (t : trapframe) : trapframe :=
  mktrapframe (tf_kernel_satp t) (tf_kernel_sp t) (tf_kernel_trap t) (tf_epc t)
    (tf_kernel_hartid t) (r ra) (r sp) (r gp) (r tp_) (r t0) (r t1) (r t2) (r s0) (r s1)
    (r a0) (r a1) (r a2) (r a3) (r a4) (r a5) (r a6) (r a7)
    (r s2) (r s3) (r s4) (r s5) (r s6) (r s7) (r s8) (r s9) (r s10) (r s11)
    (r t3) (r t4) (r t5) (r t6).

(** The field of a trapframe that keeps user register [r]: fields 5 to 35 are
    registers 1 to 31. *)
Definition user_reg (t : trapframe) (r : nat) : Z := tf_words t !!! (r + 4)%nat.

Section blocks.
Context (xlate : Z → Z → option Z) (symbol : string → Z).

(** [base] points at memory at physical address [pa] for offsets below [n]. *)
Definition points (h : hart) (base : nat) (pa n : Z) : Prop :=
  ∀ off, 0 ≤ off < n → off `mod` 8 = 0 →
    xlate (csrs h satp) (uint64 (regs h base + off)) = Some (pa + off) ∧
    is_Some (words h !! (pa + off)).

Definition within (n : Z) (l : list (nat * Z)) : Prop :=
  Forall (fun '(_, off) => 0 ≤ off < n ∧ off `mod` 8 = 0) l.

Lemma points_phys h base pa n off :
  points h base pa n → 0 ≤ off < n → off `mod` 8 = 0 → phys xlate h off base = Some (pa + off).
Proof.
  intros Hp H1 H2. destruct (Hp off H1 H2) as [Hx [v Hv]]. unfold phys. simpl.
  rewrite Hx. simpl. by rewrite Hv.
Qed.

Lemma exec_stores base pa n l rest h :
  points h base pa n → within n l →
  ∃ h', exec xlate symbol (stores base l ++ rest) h = exec xlate symbol rest h' ∧
    regs h' = regs h ∧ csrs h' = csrs h ∧ points h' base pa n ∧
    ∀ a, words h' !! a =
         match stored_at (a - pa) l with Some r => Some (regs h r) | None => words h !! a end.
Proof.
  intros Hp Hl. revert h Hp. induction l as [|[r off] l IH]; intros h Hp.
  { by exists h. }
  apply Forall_cons in Hl as [[Ho Hm] Hl]. change (stores base ((r, off) :: l) ++ rest) with (Sd r off base :: (stores base l ++ rest)).
  cbn [exec].
  rewrite (points_phys h base pa n off Hp Ho Hm).
  destruct (IH Hl (set_word_at (pa + off) (regs h r) h)) as (h' & -> & Hr & Hc & Hp' & Hw).
  { intros o Ho' Hm'. destruct (Hp o Ho' Hm') as [Hx Hs]. split; [done|]. simpl.
    destruct (decide (o = off)) as [->|Hne].
    - rewrite lookup_insert. case_decide; [eauto|done].
    - rewrite lookup_insert_ne; [done|lia]. }
  exists h'. split_and!; [done..|]. intros a. rewrite Hw. cbn [stored_at].
  destruct (stored_at (a - pa) l) as [r'|]; [done|]. simpl. case_decide as Ha.
  - replace a with (pa + off) by lia. by rewrite lookup_insert_eq.
  - rewrite lookup_insert_ne; [done|lia].
Qed.

Lemma exec_loads base pa n l rest h :
  points h base pa n → within n l → base ∉ l.*1 →
  ∃ h', exec xlate symbol (loads base l ++ rest) h = exec xlate symbol rest h' ∧
    words h' = words h ∧ csrs h' = csrs h ∧ points h' base pa n ∧
    ∀ r, match loaded_from r l with
         | Some off => words h !! (pa + off) = Some (regs h' r)
         | None => regs h' r = regs h r
         end.
Proof.
  intros Hp Hl Hb. revert h Hp. induction l as [|[r off] l IH]; intros h Hp.
  { by exists h. }
  apply Forall_cons in Hl as [[Ho Hm] Hl]. apply not_elem_of_cons in Hb as [Hb Hbl].
  change (loads base ((r, off) :: l) ++ rest) with (Ld r off base :: (loads base l ++ rest)).
  cbn [exec]. rewrite (points_phys h base pa n off Hp Ho Hm). simpl.
  destruct (Hp off Ho Hm) as [_ [v Hv]]. rewrite Hv.
  destruct (IH Hl Hbl (set_reg r v h)) as (h' & -> & Hw & Hc & Hp' & Hr).
  { intros o Ho' Hm'. simpl. rewrite decide_False; [|done]. by apply Hp. }
  exists h'. split_and!; [done..|]. intros r'. specialize (Hr r'). cbn [loaded_from].
  simpl in Hb. destruct (loaded_from r' l) as [o|]; [done|].
  rewrite Hr. simpl. case_decide; [by subst|done].
Qed.

(** Two registers with the same value point at the same memory. *)
Lemma points_at h h' base base' pa n :
  points h base pa n → csrs h' satp = csrs h satp → regs h' base' = regs h base →
  (∀ a, is_Some (words h !! a) → is_Some (words h' !! a)) → points h' base' pa n.
Proof. intros Hp Hc Hr Hw off H1 H2. rewrite Hc, Hr. destruct (Hp off H1 H2). eauto. Qed.

End blocks.

Lemma holds_mapped pa ws m off :
  holds pa ws m → 0 ≤ off < 8 * Z.of_nat (length ws) → off `mod` 8 = 0 → is_Some (m !! (pa + off)).
Proof.
  intros Hh Ho [k ->]%Z.mod_divide; [|done].
  destruct (lookup_lt_is_Some_2 ws (Z.to_nat k)) as [w Hw]; [lia|].
  apply Hh in Hw. replace (k * 8) with (8 * Z.of_nat (Z.to_nat k)) by lia. by exists w.
Qed.

Lemma holds_field pa ws m i w : holds pa ws m → ws !! i = Some w → m !! (pa + 8 * Z.of_nat i) = Some w.
Proof. intros Hh. apply Hh. Qed.

Lemma stored_outside n l off : within n l → ¬ (0 ≤ off < n) → stored_at off l = None.
Proof.
  induction 1 as [|[r o] l [Ho _] Hl IH]; [done|]. intros Hn. cbn [stored_at].
  rewrite (IH Hn). case_decide; [lia|done].
Qed.

Lemma stored_app off l1 l2 :
  stored_at off (l1 ++ l2) =
  match stored_at off l2 with Some r => Some r | None => stored_at off l1 end.
Proof.
  induction l1 as [|[r o] l1 IH]; cbn [app stored_at]; [by destruct stored_at|].
  rewrite IH. by destruct (stored_at off l2).
Qed.

Lemma stored_in off l r : stored_at off l = Some r → r ∈ l.*1.
Proof.
  induction l as [|[r' o] l IH]; [done|]. cbn [stored_at]. intros Hs. apply elem_of_cons.
  destruct (stored_at off l) as [r''|]; [right; by apply IH|]. case_decide; left; by simplify_eq.
Qed.

(** The structure that a block of stores leaves. *)
Lemma holds_stored pa l (m : gmap Z Z) h ws m' :
  (∀ a, m' !! a = match stored_at (a - pa) l with Some r => Some (regs h r) | None => m !! a end) →
  (∀ (i : nat) w, ws !! i = Some w →
     match stored_at (8 * Z.of_nat i) l with
     | Some r => Some (regs h r)
     | None => m !! (pa + 8 * Z.of_nat i)
     end = Some w) →
  holds pa ws m'.
Proof.
  intros Hm Hw i w Hi. rewrite Hm, <- (Hw i w Hi).
  by replace (pa + 8 * Z.of_nat i - pa) with (8 * Z.of_nat i) by lia.
Qed.

(** Finds the field of a structure that a register was loaded from. *)
Ltac by_field H :=
  let rec go i n :=
    lazymatch n with S ?n => first [ eapply (H i); reflexivity | go (S i) n ] end in
  go 0%nat 36%nat.

(** Proves [holds] of a concrete structure, field by field. *)
Ltac fields i Hw :=
  first [ discriminate Hw | destruct i as [|i]; [injection Hw as <- | fields i Hw] ].
Ltac each_field :=
  let i := fresh "i" in let w := fresh "w" in let Hw := fresh "Hw" in
  intros i w Hw; fields i Hw.

Ltac eval_stored :=
  match goal with
  | |- context [stored_at ?o ?l] =>
      let v := eval vm_compute in (stored_at o l) in change (stored_at o l) with v
  end; cbv beta match.

(** * Switching between contexts *)

Definition ctx_slots : list (nat * Z) := [
  (ra, 0); (sp, 8); (s0, 16); (s1, 24); (s2, 32); (s3, 40); (s4, 48); (s5, 56); (s6, 64); (s7, 72);
  (s8, 80); (s9, 88); (s10, 96); (s11, 104) ].

Lemma swtch_blocks : swtch_code = stores a0 ctx_slots ++ loads a1 ctx_slots ++ [Jr ra].
Proof. reflexivity. Qed.

Lemma ctx_slots_within : within 112 ctx_slots.
Proof. repeat constructor; done. Qed.

Section swtch.
Context (xlate : Z → Z → option Z) (symbol : string → Z).

Lemma swtch_runs h pold pnew c :
  points xlate h a0 pold 112 → points xlate h a1 pnew 112 →
  pold + 112 ≤ pnew ∨ pnew + 112 ≤ pold →
  holds pnew (ctx_words c) (words h) →
  ∃ h', exec xlate symbol swtch_code h = Goto (ctx_ra c) h' ∧
    saved_context (regs h') = c ∧
    holds pold (ctx_words (saved_context (regs h))) (words h') ∧
    (∀ a, a < pold ∨ pold + 112 ≤ a → words h' !! a = words h !! a) ∧
    csrs h' = csrs h.
Proof.
  intros Ho Hn Hd Hc. rewrite swtch_blocks.
  destruct (exec_stores xlate symbol a0 pold 112 ctx_slots (loads a1 ctx_slots ++ [Jr ra]) h)
    as (h1 & -> & Hr1 & Hc1 & _ & Hw1); [done|exact ctx_slots_within|].
  destruct (exec_loads xlate symbol a1 pnew 112 ctx_slots [Jr ra] h1)
    as (h2 & -> & Hw2 & Hc2 & _ & Hr2); [|exact ctx_slots_within|by vm_compute; set_solver|].
  { apply (points_at xlate h _ a1); [done|by rewrite Hc1|by rewrite Hr1|].
    intros a Ha. rewrite Hw1. by destruct stored_at. }
  assert (Hk : ∀ (i : nat) r w, ctx_words c !! i = Some w →
                 loaded_from r ctx_slots = Some (8 * Z.of_nat i) → regs h2 r = w).
  { intros i r w Hi Hl. specialize (Hr2 r). rewrite Hl, Hw1 in Hr2.
    apply lookup_lt_Some in Hi as Hlt. simpl in Hlt.
    rewrite (stored_outside 112) in Hr2; [|exact ctx_slots_within|lia].
    rewrite (Hc i w Hi) in Hr2. by injection Hr2. }
  assert (Hs : saved_context (regs h2) = c).
  { destruct c. unfold saved_context. f_equal; by_field Hk. }
  exists h2. split_and!.
  - cbn [exec]. by rewrite <- Hs.
  - done.
  - rewrite Hw2. apply (holds_stored pold ctx_slots (words h) h); [done|].
    each_field; reflexivity.
  - intros a Ha. rewrite Hw2, Hw1, (stored_outside 112); [done|exact ctx_slots_within|lia].
  - by rewrite Hc2, Hc1.
Qed.
End swtch.

(** * Entering and leaving the kernel *)

Definition user_slots : list (nat * Z) := [
  (ra, 40); (sp, 48); (gp, 56); (tp_, 64); (t0, 72); (t1, 80); (t2, 88); (s0, 96); (s1, 104);
  (a1, 120); (a2, 128); (a3, 136); (a4, 144); (a5, 152); (a6, 160); (a7, 168);
  (s2, 176); (s3, 184); (s4, 192); (s5, 200); (s6, 208); (s7, 216); (s8, 224); (s9, 232);
  (s10, 240); (s11, 248); (t3, 256); (t4, 264); (t5, 272); (t6, 280) ].
Definition kernel_slots : list (nat * Z) := [(sp, 8); (tp_, 32); (t0, 16); (t1, 0)].

Lemma uservec_blocks :
  uservec_code = Csrw sscratch a0 :: Li a0 TRAPFRAME :: stores a0 user_slots ++
    Csrr t0 sscratch :: stores a0 [(t0, 112)] ++ loads a0 kernel_slots ++
    [Sfence; Csrw satp t1; Sfence; Jr t0].
Proof. reflexivity. Qed.

Lemma userret_blocks :
  userret_code = Sfence :: Csrw satp a0 :: Sfence :: Li a0 TRAPFRAME :: loads a0 user_slots ++
    [Ld a0 112 a0; Sret].
Proof. reflexivity. Qed.

Lemma user_slots_within : within 288 user_slots.
Proof. repeat constructor; done. Qed.

Lemma frame_saved pa h tf m' :
  (∀ a, m' !! a =
        match stored_at (a - pa) (user_slots ++ [(a0, 112)]) with
        | Some r => Some (regs h r)
        | None => words h !! a
        end) →
  holds pa (tf_words tf) (words h) → holds pa (tf_words (saved_frame (regs h) tf)) m'.
Proof.
  intros Hm Hh. apply (holds_stored pa _ (words h) h _ _ Hm).
  each_field; eval_stored;
    lazymatch goal with |- Some _ = _ => reflexivity | |- _ => apply Hh; reflexivity end.
Qed.

Lemma user_reg_saved u tf r : (1 ≤ r ≤ 31)%nat → user_reg (saved_frame u tf) r = u r.
Proof. intros [H1 H2]. do 32 (destruct r as [|r]; [first [lia|reflexivity]|]). lia. Qed.

Section trampoline.
Context (xlate : Z → Z → option Z) (symbol : string → Z).

(** The page table [s] maps TRAPFRAME to the page at [pa]. *)
Definition maps_frame (s pa : Z) : Prop :=
  ∀ off, 0 ≤ off < 288 → off `mod` 8 = 0 → xlate s (TRAPFRAME + off) = Some (pa + off).

Lemma frame_points h pa tf :
  maps_frame (csrs h satp) pa → holds pa (tf_words tf) (words h) → regs h a0 = TRAPFRAME →
  points xlate h a0 pa 288.
Proof.
  intros Hm Hh Ha off Ho Hd. rewrite Ha, uint64_small; [|change TRAPFRAME with 274877898752; lia].
  split; [by apply Hm|]. by apply (holds_mapped _ (tf_words tf)).
Qed.

Lemma uservec_runs h pa tf :
  maps_frame (csrs h satp) pa → holds pa (tf_words tf) (words h) →
  ∃ h', exec xlate symbol uservec_code h = Goto (tf_kernel_trap tf) h' ∧
    holds pa (tf_words (saved_frame (regs h) tf)) (words h') ∧
    (∀ a, a < pa ∨ pa + 288 ≤ a → words h' !! a = words h !! a) ∧
    regs h' sp = tf_kernel_sp tf ∧ regs h' tp_ = tf_kernel_hartid tf ∧
    csrs h' satp = tf_kernel_satp tf.
Proof.
  intros Hm Hh. rewrite uservec_blocks, exec_csrw, exec_li.
  set (h0 := set_reg a0 TRAPFRAME (set_csr sscratch (regs h a0) h)).
  assert (Hp : points xlate h0 a0 pa 288) by (by apply (frame_points _ _ tf)).
  edestruct (exec_stores xlate symbol a0 pa 288 user_slots) as (h1 & -> & Hr1 & Hc1 & Hp1 & Hw1);
    [done|exact user_slots_within|].
  rewrite exec_csrr. set (h2 := set_reg t0 (csrs h1 sscratch) h1).
  edestruct (exec_stores xlate symbol a0 pa 288 [(t0, 112)]) as (h3 & -> & Hr3 & Hc3 & Hp3 & Hw3);
    [|repeat constructor; done|].
  { by apply (points_at xlate h1 h2 a0). }
  edestruct (exec_loads xlate symbol a0 pa 288 kernel_slots) as (h4 & -> & Hw4 & Hc4 & _ & Hr4);
    [done|repeat constructor; done|by vm_compute; set_solver|].
  assert (Hw : ∀ a, words h3 !! a =
            match stored_at (a - pa) (user_slots ++ [(a0, 112)]) with
            | Some r => Some (regs h r)
            | None => words h !! a
            end).
  { intros a. rewrite Hw3, Hw1, stored_app. cbn [stored_at]. case_decide.
    - cbn. by rewrite Hc1.
    - destruct (stored_at (a - pa) user_slots) as [r|] eqn:Hs; [|done].
      cbn. rewrite decide_False; [done|]. intros ->. apply stored_in in Hs.
      revert Hs. vm_compute. set_solver. }
  assert (Hf : holds pa (tf_words (saved_frame (regs h) tf)) (words h3)).
  { by apply (frame_saved pa h). }
  assert (Hk : ∀ (i : nat) r w, tf_words (saved_frame (regs h) tf) !! i = Some w →
                 loaded_from r kernel_slots = Some (8 * Z.of_nat i) → regs h4 r = w).
  { intros i r w Hi Hl. specialize (Hr4 r). rewrite Hl, (Hf i w Hi) in Hr4. by injection Hr4. }
  rewrite exec_sfence, exec_csrw, exec_sfence.
  exists (set_csr satp (regs h4 t1) h4). split_and!;
    [cbn [exec]; f_equal; by_field Hk| | |by_field Hk..].
  - cbn [words set_csr]. by rewrite Hw4.
  - intros a Ha. cbn [words set_csr]. rewrite Hw4, Hw, (stored_outside 288); [done| |lia].
    repeat constructor; done.
Qed.

Lemma userret_runs h pa tf :
  maps_frame (regs h a0) pa → holds pa (tf_words tf) (words h) →
  ∃ h', exec xlate symbol userret_code h = Returned (csrs h sepc) h' ∧
    (∀ r, (1 ≤ r ≤ 31)%nat → regs h' r = user_reg tf r) ∧
    words h' = words h ∧ csrs h' satp = regs h a0.
Proof.
  intros Hm Hh. rewrite userret_blocks, exec_sfence, exec_csrw, exec_sfence, exec_li.
  set (h0 := set_reg a0 TRAPFRAME (set_csr satp (regs h a0) h)).
  assert (Hp : points xlate h0 a0 pa 288) by (by apply (frame_points _ _ tf)).
  edestruct (exec_loads xlate symbol a0 pa 288 user_slots) as (h1 & -> & Hw1 & Hc1 & Hp1 & Hr1);
    [done|exact user_slots_within|by vm_compute; set_solver|].
  rewrite exec_ld, (points_phys xlate h1 a0 pa 288 112 Hp1); [|done..]. simpl.
  assert (Ha : words h1 !! (pa + 112) = Some (tf_a0 tf)).
  { rewrite Hw1. by apply (Hh 14%nat). }
  rewrite Ha. exists (set_reg a0 (tf_a0 tf) h1). split_and!.
  - cbn. by rewrite Hc1.
  - assert (Hk : ∀ (i : nat) r w, tf_words tf !! i = Some w →
                 loaded_from r user_slots = Some (8 * Z.of_nat i) → regs h1 r = w).
    { intros i r w Hi Hl. specialize (Hr1 r). rewrite Hl in Hr1.
      change (words h0) with (words h) in Hr1. rewrite (Hh i w Hi) in Hr1. by injection Hr1. }
    intros r Hr. destruct (decide (r = a0)) as [->|Hne]; [done|].
    cbn [regs set_reg]. rewrite decide_False by done. apply (Hk (r + 4)%nat).
    + unfold user_reg. apply list_lookup_lookup_total_lt. simpl. lia.
    + destruct Hr as [H1 H31]. clear -Hne H1 H31.
      do 32 (destruct r as [|r]; [first [lia|done|reflexivity]|]). lia.
  - done.
  - cbn. by rewrite Hc1.
Qed.

End trampoline.

(** * Interrupts inside the kernel *)

Definition scratch_slots : list (nat * Z) := [
  (gp, 16); (t0, 32); (t1, 40); (t2, 48); (a0, 72); (a1, 80); (a2, 88); (a3, 96); (a4, 104);
  (a5, 112); (a6, 120); (a7, 128); (t3, 216); (t4, 224); (t5, 232); (t6, 240) ].
Definition pushed_slots : list (nat * Z) := [
  (ra, 0); (sp, 8); (gp, 16); (tp_, 24); (t0, 32); (t1, 40); (t2, 48); (a0, 72); (a1, 80); (a2, 88);
  (a3, 96); (a4, 104); (a5, 112); (a6, 120); (a7, 128); (t3, 216); (t4, 224); (t5, 232); (t6, 240) ].
Definition kernelvec_return : list instr :=
  loads sp [(ra, 0)] ++ Ld sp 8 sp :: loads sp scratch_slots ++ [Addi sp sp 256; Sret].

(** The registers that a C function such as kerneltrap gives back unchanged. *)
Definition callee_saved : list nat := [s0; s1; s2; s3; s4; s5; s6; s7; s8; s9; s10; s11].

Lemma kernelvec_blocks :
  kernelvec_code =
  Addi sp sp (-256) :: stores sp pushed_slots ++ Call "kerneltrap" :: kernelvec_return.
Proof. reflexivity. Qed.

Lemma pushed_within : within 256 pushed_slots.
Proof. repeat constructor; done. Qed.
Lemma scratch_within : within 256 scratch_slots.
Proof. repeat constructor; done. Qed.

(** Every register but sp, ra and tp is either pushed and popped again or preserved
    by the handler. *)
Lemma register_cases r :
  (1 ≤ r ≤ 31)%nat → r ≠ tp_ → r ≠ sp → r ≠ ra →
  (loaded_from r scratch_slots = None ∧ r ∈ callee_saved) ∨
  (∃ off, loaded_from r scratch_slots = Some off ∧ 0 ≤ off < 256 ∧ stored_at off pushed_slots = Some r).
Proof.
  intros [H1 H2] Ht Hs Hr.
  do 32 (destruct r as [|r];
    [first [ lia | done | left; split; [reflexivity|vm_compute; set_solver]
           | right; eexists; split_and!; [reflexivity|done|done|reflexivity] ]|]).
  lia.
Qed.

Section kernelvec.
Context (xlate : Z → Z → option Z) (symbol : string → Z).

(** The registers come back when the handler returns with the frame on the stack
    as it was pushed. *)
Lemma kernelvec_returns u h pa :
  points xlate h sp pa 256 →
  (∀ off r, stored_at off pushed_slots = Some r → words h !! (pa + off) = Some (u r)) →
  regs h sp = u sp → (∀ r, r ∈ callee_saved → regs h r = u r) →
  ∃ h', exec xlate symbol kernelvec_return h = Returned (csrs h sepc) h' ∧
    words h' = words h ∧ regs h' tp_ = regs h tp_ ∧
    regs h' sp = uint64 (u sp + 256) ∧
    ∀ r, (1 ≤ r ≤ 31)%nat → r ≠ tp_ → r ≠ sp → regs h' r = u r.
Proof.
  intros Hp Hu Hsp Hcs. unfold kernelvec_return.
  edestruct (exec_loads xlate symbol sp pa 256 [(ra, 0)]) as (h1 & -> & Hw1 & Hc1 & Hp1 & Hr1);
    [done|repeat constructor; done|by vm_compute; set_solver|].
  assert (Hsp1 : regs h1 sp = u sp) by (rewrite <- Hsp; exact (Hr1 sp)).
  rewrite exec_ld, (points_phys xlate h1 sp pa 256 8 Hp1); [|done..].
  cbn [mbind option_bind].
  rewrite Hw1, (Hu 8 sp eq_refl). set (h2 := set_reg sp (u sp) h1).
  edestruct (exec_loads xlate symbol sp pa 256 scratch_slots) as (h3 & -> & Hw3 & Hc3 & _ & Hr3);
    [|exact scratch_within|by vm_compute; set_solver|].
  { apply (points_at xlate h1 h2 sp); [done|done|by rewrite Hsp1|done]. }
  rewrite exec_addi. eexists. split_and!; [cbn; rewrite Hc3; cbn; by rewrite Hc1|..]; cbn.
  - by rewrite Hw3.
  - rewrite (Hr3 tp_). exact (Hr1 tp_).
  - by rewrite (Hr3 sp).
  - intros r Hr Ht Hs. rewrite decide_False by done. destruct (decide (r = ra)) as [->|Hra].
    { rewrite (Hr3 ra). specialize (Hr1 ra). cbn [loaded_from] in Hr1.
      rewrite decide_True, (Hu 0 ra eq_refl) in Hr1 by done. by injection Hr1. }
    specialize (Hr3 r). specialize (Hr1 r). cbn [loaded_from] in Hr1.
    rewrite decide_False in Hr1 by done.
    destruct (register_cases r) as [[Hn Hin]|(off & Ho & _ & Hst)]; [done..| |].
    + rewrite Hn in Hr3. rewrite Hr3. cbn. rewrite decide_False by done. rewrite Hr1. by apply Hcs.
    + rewrite Ho in Hr3. change (words h2) with (words h1) in Hr3.
      rewrite Hw1, (Hu off r Hst) in Hr3. by injection Hr3.
Qed.

End kernelvec.

(** * What the assembly promises *)

(** C24. uservec, entered with a user page table that maps the trapframe page, saves
    all 31 user registers in the trapframe, changes no other memory, and jumps to
    kernel_trap on the kernel's stack, page table and hart; userret with that page
    table later loads every register from the trapframe, so each register whose slot
    the kernel left alone has its old value. *)
Theorem trap_round_trip xlate symbol h pa tf :
  maps_frame xlate (csrs h satp) pa → holds pa (tf_words tf) (words h) →
  ∃ h1, exec xlate symbol uservec_code h = Goto (tf_kernel_trap tf) h1 ∧
    holds pa (tf_words (saved_frame (regs h) tf)) (words h1) ∧
    (∀ a, a < pa ∨ pa + 288 ≤ a → words h1 !! a = words h !! a) ∧
    regs h1 sp = tf_kernel_sp tf ∧ regs h1 tp_ = tf_kernel_hartid tf ∧
    csrs h1 satp = tf_kernel_satp tf ∧
    ∀ h2 tf2, regs h2 a0 = csrs h satp → holds pa (tf_words tf2) (words h2) →
    ∃ h3, exec xlate symbol userret_code h2 = Returned (csrs h2 sepc) h3 ∧
      csrs h3 satp = csrs h satp ∧ words h3 = words h2 ∧
      ∀ r, (1 ≤ r ≤ 31)%nat →
        regs h3 r = user_reg tf2 r ∧
        (user_reg tf2 r = user_reg (saved_frame (regs h) tf) r → regs h3 r = regs h r).
Proof.
  intros Hm Hh. destruct (uservec_runs xlate symbol h pa tf Hm Hh) as (h1 & H1 & Hf & Ho & Hs & Ht & Hc).
  exists h1. split_and!; [done..|]. intros h2 tf2 Ha Hh2.
  destruct (userret_runs xlate symbol h2 pa tf2) as (h3 & H3 & Hr & Hw & Hsat); [by rewrite Ha|done|].
  exists h3. split_and!; [done|by rewrite Hsat|done|]. intros r Hr31. split; [by apply Hr|].
  intros He. by rewrite (Hr r Hr31), He, user_reg_saved.
Qed.

(** C25. swtch saves the callee-saved registers in the old context, loads the new
    context and returns to its ra, changing no memory outside the old context; a
    later swtch to the saved context, from any other context and on any hart,
    returns to the caller of the first one with its registers. *)
Theorem swtch_round_trip xlate symbol h pold pnew c :
  points xlate h a0 pold 112 → points xlate h a1 pnew 112 →
  pold + 112 ≤ pnew ∨ pnew + 112 ≤ pold → holds pnew (ctx_words c) (words h) →
  ∃ h1, exec xlate symbol swtch_code h = Goto (ctx_ra c) h1 ∧ saved_context (regs h1) = c ∧
    (∀ a, a < pold ∨ pold + 112 ≤ a → words h1 !! a = words h !! a) ∧
    ∀ h2 pother, points xlate h2 a0 pother 112 → points xlate h2 a1 pold 112 →
      pother + 112 ≤ pold ∨ pold + 112 ≤ pother →
      (∀ a, pold ≤ a < pold + 112 → words h2 !! a = words h1 !! a) →
      ∃ h3, exec xlate symbol swtch_code h2 = Goto (regs h ra) h3 ∧
        saved_context (regs h3) = saved_context (regs h) ∧
        holds pother (ctx_words (saved_context (regs h2))) (words h3).
Proof.
  intros Ho Hn Hd Hc.
  destruct (swtch_runs xlate symbol h pold pnew c Ho Hn Hd Hc) as (h1 & H1 & Hs & Hh & Hw & _).
  exists h1. split_and!; [done..|]. intros h2 pother Ho2 Hn2 Hd2 Hsame.
  destruct (swtch_runs xlate symbol h2 pother pold (saved_context (regs h)) Ho2 Hn2 Hd2)
    as (h3 & H3 & Hs3 & Hh3 & _ & _).
  { intros i w Hi. apply lookup_lt_Some in Hi as Hlt. simpl in Hlt. rewrite Hsame by lia. by apply Hh. }
  by exists h3.
Qed.

(** C26. kernelvec calls kerneltrap with the caller-saved registers, ra, gp and tp
    pushed below the interrupted stack; when kerneltrap gives back the stack
    pointer, the frame and the callee-saved registers, the interrupted code goes on
    with every register but tp as it was, and tp is that of the hart it is on now. *)
Theorem kernelvec_round_trip xlate symbol h pa :
  0 ≤ regs h sp < 2 ^ 64 →
  points xlate (set_reg sp (uint64 (regs h sp - 256)) h) sp pa 256 →
  ∃ rest h1, exec xlate symbol kernelvec_code h = Called "kerneltrap" rest h1 ∧
    regs h1 sp = uint64 (regs h sp - 256) ∧
    (∀ a, a < pa ∨ pa + 256 ≤ a → words h1 !! a = words h !! a) ∧
    ∀ h2, csrs h2 satp = csrs h1 satp → regs h2 sp = regs h1 sp →
      (∀ a, pa ≤ a < pa + 256 → words h2 !! a = words h1 !! a) →
      (∀ r, r ∈ callee_saved → regs h2 r = regs h1 r) →
      ∃ h3, exec xlate symbol rest h2 = Returned (csrs h2 sepc) h3 ∧
        words h3 = words h2 ∧ regs h3 tp_ = regs h2 tp_ ∧
        ∀ r, (1 ≤ r ≤ 31)%nat → r ≠ tp_ → regs h3 r = regs h r.
Proof.
  intros Hr Hp. set (h0 := set_reg sp (uint64 (regs h sp - 256)) h) in *.
  rewrite kernelvec_blocks, exec_addi. change (set_reg sp _ h) with h0.
  edestruct (exec_stores xlate symbol sp pa 256 pushed_slots) as (h1 & -> & Hr1 & Hc1 & Hp1 & Hw1);
    [done|exact pushed_within|].
  exists kernelvec_return, h1. split_and!; [done|by rewrite Hr1|..].
  { intros a Ha. rewrite Hw1, (stored_outside 256); [done|exact pushed_within|lia]. }
  intros h2 Hc2 Hs2 Hw2 Hcs.
  destruct (kernelvec_returns xlate symbol (regs h1) h2 pa) as (h3 & H3 & Hw3 & Ht3 & Hsp3 & Hr3).
  - intros off H1 H2. rewrite Hc2, Hs2. destruct (Hp1 off H1 H2) as [Hx Hv]. split; [done|].
    rewrite Hw2 by lia. done.
  - intros off r Hst. destruct (decide (0 ≤ off < 256)) as [Hin|Hout].
    + rewrite Hw2, Hw1 by lia. replace (pa + off - pa) with off by lia. by rewrite Hst, Hr1.
    + rewrite (stored_outside 256) in Hst; [done|exact pushed_within|done].
  - done.
  - done.
  - exists h3. split_and!; [done..|]. intros r Hr31 Ht. destruct (decide (r = sp)) as [->|Hne].
    + rewrite Hsp3, Hr1. change (regs h0 sp) with (uint64 (regs h sp - 256)).
      unfold uint64. rewrite Zplus_mod_idemp_l.
      replace (regs h sp - 256 + 256) with (regs h sp) by lia. by apply Z.mod_small.
    + rewrite (Hr3 r Hr31 Ht Hne), Hr1. cbn. by rewrite decide_False.
Qed.

(** Each hart starts on a stack of its own: [entry] sets sp to the end of the page of
    stack0 that belongs to it. *)
Theorem entry_stacks xlate symbol h :
  0 ≤ csrs h mhartid < Z.of_nat NCPU → 0 ≤ symbol "stack0" ≤ 2 ^ 63 →
  ∃ h', exec xlate symbol entry_code h = Called "start" [J "spin"] h' ∧
    regs h' sp = symbol "stack0" + (csrs h mhartid + 1) * 4096 ∧
    symbol "stack0" < regs h' sp ≤ symbol "stack0" + 4096 * Z.of_nat NCPU.
Proof.
  intros Hh Hs. unfold NCPU in *. eexists. split; [reflexivity|].
  set (h' := set_reg sp _ _).
  assert (regs h' sp = symbol "stack0" + (csrs h mhartid + 1) * 4096) as ->.
  { change (regs h' sp) with (uint64 (symbol "stack0" + uint64 (4096 * uint64 (csrs h mhartid + 1)))).
    rewrite (uint64_small (csrs h mhartid + 1)) by lia.
    rewrite (uint64_small (4096 * _)), uint64_small by lia. lia. }
  lia.
Qed.

(** * Examples *)

(** A translation with a trapframe page at 0x87f00000 under the user's page table 1,
    and the identity under the kernel's page table 0. *)
Definition ex_xlate (s va : Z) : option Z :=
  if decide (s = 1 ∧ TRAPFRAME ≤ va < TRAPFRAME + PGSIZE)
  then Some (0x87f00000 + (va - TRAPFRAME)) else if decide (s = 0) then Some va else None.
Definition ex_symbol (x : string) : Z := if decide (x = "stack0") then 0x80008000 else 0.

Definition struct_at (pa : Z) (ws : list Z) : gmap Z Z :=
  list_to_map (imap (fun i w => (pa + 8 * Z.of_nat i, w)) ws).

Definition ex_tf : trapframe :=
  saved_frame (fun _ => 0) (mktrapframe 0 0x3fffff8000 0x80002000 0x1000 3
    0 0 0 0 0 0 0 0 0 0 0 0 0 0 0 0 0 0 0 0 0 0 0 0 0 0 0 0 0 0 0).
(** A user process with register [r] holding [100 + r]. *)
Definition ex_user : hart :=
  mkhart (fun r => 100 + Z.of_nat r) (fun c => if decide (c = satp) then 1 else 0)
    (struct_at 0x87f00000 (tf_words ex_tf)).

Lemma ex_maps_frame : maps_frame ex_xlate 1 0x87f00000.
Proof.
  intros off Ho _. unfold ex_xlate. rewrite decide_True; [f_equal; lia|].
  change TRAPFRAME with 274877898752. change PGSIZE with 4096. lia.
Qed.

Lemma trap_round_trip_witness :
  ∃ h1, exec ex_xlate ex_symbol uservec_code ex_user = Goto 0x80002000 h1 ∧
    regs h1 sp = 0x3fffff8000 ∧
    ∃ h3, exec ex_xlate ex_symbol userret_code (set_reg a0 1 (set_csr satp 0 h1))
            = Returned (csrs h1 sepc) h3 ∧ regs h3 s11 = 127.
Proof.
  destruct (trap_round_trip ex_xlate ex_symbol ex_user 0x87f00000 ex_tf ex_maps_frame)
    as (h1 & H1 & Hf & _ & Hs & _ & _ & Hret).
  { each_field; vm_compute; reflexivity. }
  exists h1. split; [exact H1|]. split; [exact Hs|].
  destruct (Hret (set_reg a0 1 (set_csr satp 0 h1)) (saved_frame (regs ex_user) ex_tf))
    as (h3 & H3 & _ & _ & Hr); [reflexivity|exact Hf|].
  exists h3. split; [exact H3|]. apply (Hr s11); [unfold s11; lia|reflexivity].
Defined.

(** A hart that switches from the context at 0x80020000 to the one at 0x80021000. *)
Definition ex_ctx : context := saved_context (fun r => 0x80000000 + 8 * Z.of_nat r).
Definition ex_switching : hart :=
  mkhart (fun r => if decide (r = a0) then 0x80020000 else
                   if decide (r = a1) then 0x80021000 else 500 + Z.of_nat r) (fun _ => 0)
    (struct_at 0x80020000 (replicate 14 0) ∪ struct_at 0x80021000 (ctx_words ex_ctx)).

Lemma points_ex h base n ws :
  csrs h satp = 0 → 0 ≤ regs h base → regs h base + n < 2 ^ 64 → n = 8 * Z.of_nat (length ws) →
  holds (regs h base) ws (words h) → points ex_xlate h base (regs h base) n.
Proof.
  intros Hc H0 H1 -> Hh off Ho Hm. rewrite Hc, uint64_small by lia. split.
  - unfold ex_xlate. by rewrite decide_False, decide_True by naive_solver.
  - by apply (holds_mapped _ ws).
Qed.

Lemma swtch_round_trip_witness :
  ∃ h1, exec ex_xlate ex_symbol swtch_code ex_switching = Goto 0x80000008 h1 ∧
        saved_context (regs h1) = ex_ctx.
Proof.
  destruct (swtch_round_trip ex_xlate ex_symbol ex_switching 0x80020000 0x80021000 ex_ctx)
    as (h1 & H1 & Hs & _).
  - apply (points_ex ex_switching a0 112 (replicate 14 0)); [done..|].
    each_field; vm_compute; reflexivity.
  - apply (points_ex ex_switching a1 112 (ctx_words ex_ctx)); [done..|].
    each_field; vm_compute; reflexivity.
  - left. lia.
  - each_field; vm_compute; reflexivity.
  - exists h1. exact (conj H1 Hs).
Defined.

(** A hart interrupted in the kernel with its stack at 0x80030100. *)
Definition ex_interrupted : hart :=
  mkhart (fun r => if decide (r = sp) then 0x80030100 else 700 + Z.of_nat r) (fun _ => 0)
    (struct_at 0x80030000 (replicate 32 0)).

Lemma kernelvec_round_trip_witness :
  ∃ rest h1, exec ex_xlate ex_symbol kernelvec_code ex_interrupted = Called "kerneltrap" rest h1 ∧
    ∃ h3, exec ex_xlate ex_symbol rest (set_reg a0 0 h1) = Returned (csrs h1 sepc) h3 ∧ regs h3 a0 = 710.
Proof.
  destruct (kernelvec_round_trip ex_xlate ex_symbol ex_interrupted 0x80030000)
    as (rest & h1 & H1 & _ & _ & Hret); [done| |].
  - apply (points_ex (set_reg sp (uint64 (regs ex_interrupted sp - 256)) ex_interrupted) sp 256
             (replicate 32 0)); [done..|].
    each_field; vm_compute; reflexivity.
  - exists rest, h1. split; [exact H1|].
    destruct (Hret (set_reg a0 0 h1)) as (h3 & H3 & _ & _ & Hr); [done..| |].
    { intros r Hr. cbn. rewrite decide_False; [done|]. intros ->. revert Hr. clear. vm_compute. set_solver. }
    exists h3. split; [exact H3|]. apply (Hr a0); [unfold a0; lia|done].
Defined.
