(* ===== verification/Start.v ===== *)
(** Machine-mode startup: the register accessors of kernel/riscv.h over the
    control and status registers of a hart, and kernel/start.c.

    A write of a control register keeps the 64 bits written. *)

From stdpp Require Import base gmap strings numbers list.
From S2P Require Import Prelude Kstate Asm.
Local Open Scope Z_scope.

(** * Register numbers *)

Definition sstatus : Z := 0x100.
Definition stvec : Z := 0x105.
Definition scause : Z := 0x142.
Definition stval : Z := 0x143.
Definition sip : Z := 0x144.
Definition medeleg : Z := 0x302.
Definition mideleg : Z := 0x303.

(** * kernel/riscv.h *)

Definition MSTATUS_MPP_M : Z := Z.shiftl 3 11.
Definition MSTATUS_MPP_U : Z := Z.shiftl 0 11.
Definition MSTATUS_MIE : Z := Z.shiftl 1 3.
Definition SSTATUS_SIE : Z := Z.shiftl 1 1.

Definition r_sstatus (h : hart) : Z := csrs h sstatus.
Definition w_sstatus (x : Z) (h : hart) : hart := set_csr sstatus x h.
Definition r_sip (h : hart) : Z := csrs h sip.
Definition w_sip (x : Z) (h : hart) : hart := set_csr sip x h.
Definition w_sepc (x : Z) (h : hart) : hart := set_csr sepc x h.
Definition r_sepc (h : hart) : Z := csrs h sepc.
Definition r_medeleg (h : hart) : Z := csrs h medeleg.
Definition r_mideleg (h : hart) : Z := csrs h mideleg.
Definition w_stvec (x : Z) (h : hart) : hart := set_csr stvec x h.
Definition r_stvec (h : hart) : Z := csrs h stvec.
Definition r_scause (h : hart) : Z := csrs h scause.
Definition r_stval (h : hart) : Z := csrs h stval.
Definition r_sp (h : hart) : Z := regs h sp.
Definition r_ra (h : hart) : Z := regs h ra.

Definition lnot64 (x : Z) : Z := uint64 (Z.lnot x).

Definition intr_on (h : hart) : hart := w_sstatus (Z.lor (r_sstatus h) SSTATUS_SIE) h.
Definition intr_off (h : hart) : hart := w_sstatus (Z.land (r_sstatus h) (lnot64 SSTATUS_SIE)) h.
Definition intr_get (h : hart) : bool := negb (Z.land (r_sstatus h) SSTATUS_SIE =? 0).

(** * kernel/start.c *)



(** * What mret does with it *)






(** A set of bits [m] is on in [x]. *)
Definition all_on (m x : Z) : Prop := Z.land x m = m.

(** * Bits *)

Lemma testbit_lnot64 x i : 0 ≤ i < 64 → Z.testbit (lnot64 x) i = negb (Z.testbit x i).
Proof.
  intros Hi. unfold lnot64, uint64. rewrite Z.mod_pow2_bits_low by lia. apply Z.lnot_spec. lia.
Qed.

Lemma land_lnot64_range x m : 0 ≤ x < 2 ^ 64 → 0 ≤ m → Z.land x (lnot64 m) = Z.ldiff x m.
Proof.
  intros Hx Hm. apply Z.bits_inj'. intros i Hi. rewrite Z.land_spec, Z.ldiff_spec.
  destruct (decide (i < 64)) as [Hlt|Hge].
  - by rewrite testbit_lnot64 by lia.
  - rewrite (Z.bits_above_log2 x i); [done|lia|]. destruct (decide (x = 0)) as [->|]; [simpl; lia|].
    apply (Z.lt_le_trans _ 64); [apply Z.log2_lt_pow2; lia|lia].
Qed.

Lemma all_on_lor m x y : all_on m y → all_on m (Z.lor x y).
Proof.
  unfold all_on. intros H. apply Z.bits_inj'. intros i Hi.
  assert (Hb := f_equal (fun z => Z.testbit z i) H). simpl in Hb. rewrite Z.land_spec in Hb.
  rewrite Z.land_spec, Z.lor_spec. by destruct (Z.testbit x i), (Z.testbit y i), (Z.testbit m i).
Qed.

Lemma all_on_self m x : all_on m (Z.lor x m).
Proof. apply all_on_lor. apply Z.land_diag. Qed.








(** The interrupt switch of a hart reads what was last written. *)
Lemma intr_get_on h : 0 ≤ r_sstatus h < 2 ^ 64 → intr_get (intr_on h) = true.
Proof.
  intros Hr. unfold intr_get. change (r_sstatus (intr_on h)) with (Z.lor (r_sstatus h) SSTATUS_SIE).
  by rewrite (all_on_self SSTATUS_SIE).
Qed.

Lemma intr_get_off h : 0 ≤ r_sstatus h < 2 ^ 64 → intr_get (intr_off h) = false.
Proof.
  intros Hr. unfold intr_get.
  change (r_sstatus (intr_off h)) with (Z.land (r_sstatus h) (lnot64 SSTATUS_SIE)).
  rewrite land_lnot64_range by done. by rewrite Z.land_ldiff.
Qed.
