(* ===== verification/User.v ===== *)
(** User programs: the system calls of user/usys.pl as events, the library
    routines of user/ulib.c and user/printf.c.

    A program is a tree of system calls.  The kernel's answer to a call is the
    value it returns in a0 and the values it stores through the pointers of the
    call, in order: the bytes that [read] delivers, the status of [wait], the two
    descriptors of [pipe], the fields of [fstat].  Strings are the lists of their
    characters without the nul; characters are unsigned. *)

From Stdlib Require Import Ascii.
From stdpp Require Import base gmap strings numbers list.
From S2P Require Import Prelude CString Printf.
Local Open Scope Z_scope.

(** * System calls *)

(** [SysRaw] is a call with pointers that are not to objects of the program, [MemRead] and
    [MemWrite] are accesses to memory at such addresses: they enter the kernel when the
    page is not there, and the program goes on only when the kernel lets it. *)
Inductive ucall : Type :=
| SysFork
| SysWait
| SysPipe
| SysRead (fd n : Z)
| SysKill (pid : Z)
| SysExec (path : list Z) (argv : list (list Z))
| SysFstat (fd : Z)
| SysChdir (path : list Z)
| SysDup (fd : Z)
| SysGetpid
| SysSbrk (n : Z)
| SysSleep (n : Z)
| SysUptime
| SysOpen (path : list Z) (mode : Z)
| SysWrite (fd : Z) (bytes : list Z)
| SysMknod (path : list Z) (major minor : Z)
| SysUnlink (path : list Z)
| SysLink (old new : list Z)
| SysMkdir (path : list Z)
| SysClose (fd : Z)
| SysSetSched (mode : Z)
| SysSetPriority (pid prio : Z)
| SysTop
| SysForkWithPriority (priority : Z)
| SysYield
| SysGetWaitingTime (pid : Z)
| SysRaw (num : Z) (args : list Z)
| MemRead (a : Z)
| MemWrite (a v : Z).

(** The number each stub loads into a7; exit, number 2, does not return and is
    [Exits] below.  Accesses to memory have none. *)
Definition sys_num (c : ucall) : option Z :=
  match c with
  | SysFork => Some 1 | SysWait => Some 3 | SysPipe => Some 4 | SysRead _ _ => Some 5 | SysKill _ => Some 6
  | SysExec _ _ => Some 7 | SysFstat _ => Some 8 | SysChdir _ => Some 9 | SysDup _ => Some 10
  | SysGetpid => Some 11 | SysSbrk _ => Some 12 | SysSleep _ => Some 13 | SysUptime => Some 14
  | SysOpen _ _ => Some 15 | SysWrite _ _ => Some 16 | SysMknod _ _ _ => Some 17 | SysUnlink _ => Some 18
  | SysLink _ _ => Some 19 | SysMkdir _ => Some 20 | SysClose _ => Some 21 | SysSetSched _ => Some 22
  | SysSetPriority _ _ => Some 23 | SysTop => Some 24 | SysForkWithPriority _ => Some 25
  | SysYield => Some 26 | SysGetWaitingTime _ => Some 27
  | SysRaw num _ => Some num
  | MemRead _ | MemWrite _ _ => None
  end.

(** * Programs *)

(** [Undefined] is a read or write outside an object, [Unfinished] a loop whose
    turns ran out. *)
Inductive uprog (A : Type) : Type :=
| Pure (a : A)
| Exits (status : Z)
| Sys (c : ucall) (k : Z → list Z → uprog A)
| Undefined
| Unfinished.
Arguments Pure {A} a.
Arguments Exits {A} status.
Arguments Sys {A} c k.
Arguments Undefined {A}.
Arguments Unfinished {A}.

Fixpoint ubind {A B} (p : uprog A) (f : A → uprog B) : uprog B :=
  match p with
  | Pure a => f a
  | Exits n => Exits n
  | Sys c k => Sys c (fun r out => ubind (k r out) f)
  | Undefined => Undefined
  | Unfinished => Unfinished
  end.

#[global] Instance uprog_ret : MRet uprog := fun _ a => Pure a.
#[global] Instance uprog_bind : MBind uprog := fun _ _ f p => ubind p f.

(** A call whose stored values do not matter, and one whose answer is ignored. *)
Definition call (c : ucall) : uprog Z := Sys c (fun r _ => Pure r).
Definition call_ (c : ucall) : uprog unit := Sys c (fun _ _ => Pure tt).

Definition fork : uprog Z := call SysFork.
Definition exit {A} (status : Z) : uprog A := Exits status.
Definition wait : uprog Z := call SysWait.
(** [wait(&xstatus)] and [pipe(fds)] with what the variables have when the kernel stores
    nothing. *)
Definition wait_into (xstatus : Z) : uprog (Z * Z) :=
  Sys SysWait (fun r out => Pure (r, default xstatus (head out))).
Definition pipe (fds : Z * Z) : uprog (Z * (Z * Z)) :=
  Sys SysPipe (fun r out => Pure (r, match out with [a; b] => (a, b) | _ => fds end)).
Definition write (fd : Z) (bytes : list Z) : uprog Z := call (SysWrite fd bytes).
Definition read (fd n : Z) : uprog (Z * list Z) := Sys (SysRead fd n) (fun r out => Pure (r, out)).
Definition open (path : list Z) (mode : Z) : uprog Z := call (SysOpen path mode).
Definition close (fd : Z) : uprog Z := call (SysClose fd).
Definition uptime : uprog Z := call SysUptime.

(** What becomes of a program. *)
Inductive ending (A : Type) : Type :=
| Returns (a : A)
| Exited (status : Z)
| Crashed
| Running.
Arguments Returns {A} a.
Arguments Exited {A} status.
Arguments Crashed {A}.
Arguments Running {A}.

(** A run against a kernel that answers calls from a state of its own. *)
Fixpoint run {S A} (kernel : S → ucall → S * Z * list Z) (p : uprog A) (s : S) : S * ending A :=
  match p with
  | Pure a => (s, Returns a)
  | Exits n => (s, Exited n)
  | Sys c k => let '(s', r, out) := kernel s c in run kernel (k r out) s'
  | Undefined => (s, Crashed)
  | Unfinished => (s, Running)
  end.

Lemma run_bind {S A B} (kernel : S → ucall → S * Z * list Z) (p : uprog A) (f : A → uprog B) s :
  run kernel (p ≫= f) s =
  match run kernel p s with
  | (s', Returns a) => run kernel (f a) s'
  | (s', Exited n) => (s', Exited n)
  | (s', Crashed) => (s', Crashed)
  | (s', Running) => (s', Running)
  end.
Proof.
  revert s. induction p as [a|n|c k IH| |]; intros s; simpl; try done.
  destruct (kernel s c) as [[s' r] out]. apply IH.
Qed.

(** Whatever the kernel answers, the program finishes without undefined behaviour, and
    [Q] holds of what it returns when it does not exit. *)
Fixpoint wp {A} (p : uprog A) (Q : A → Prop) : Prop :=
  match p with
  | Pure a => Q a
  | Exits _ => True
  | Sys _ k => ∀ r out, wp (k r out) Q
  | Undefined => False
  | Unfinished => False
  end.

Lemma wp_bind {A B} (p : uprog A) (f : A → uprog B) Q :
  wp p (fun a => wp (f a) Q) → wp (ubind p f) Q.
Proof. induction p; simpl; eauto. Qed.

Lemma wp_mono {A} (p : uprog A) (Q Q' : A → Prop) : wp p Q → (∀ a, Q a → Q' a) → wp p Q'.
Proof. induction p; simpl; eauto. Qed.

(** A run of such a program ends, and as [Q] says when it returns. *)
Lemma wp_run {S A} (kernel : S → ucall → S * Z * list Z) (p : uprog A) Q s :
  wp p Q →
  match (run kernel p s).2 with Returns a => Q a | Exited _ => True | _ => False end.
Proof.
  revert s. induction p as [a|n|c k IH| |]; intros s; simpl; try done.
  intros Hk. destruct (kernel s c) as [[s' r] out]. by apply IH.
Qed.

(** ** Programs with a state of their own *)

Definition UM (St A : Type) : Type := St → uprog (A * St).
#[global] Instance UM_ret {St} : MRet (UM St) := fun _ a s => Pure (a, s).
#[global] Instance UM_bind {St} : MBind (UM St) := fun _ _ f m s => ubind (m s) (fun '(a, s') => f a s').

Definition lift {St A} (p : uprog A) : UM St A := fun s => ubind p (fun a => Pure (a, s)).
Definition get {St} : UM St St := fun s => Pure (s, s).
Definition upd {St} (f : St → St) : UM St unit := fun s => Pure (tt, f s).
Definition stuck {St A} : UM St A := fun _ => Undefined.
Definition loops {St A} : UM St A := fun _ => Unfinished.

(** [m] finishes without undefined behaviour from [s], whatever the kernel answers,
    and satisfies [Q] unless it exits. *)
Definition pwp {St A} (m : UM St A) (s : St) (Q : A → St → Prop) : Prop :=
  wp (m s) (fun '(a, s') => Q a s').

Lemma pwp_bind {St A B} (m : UM St A) (f : A → UM St B) s Q :
  pwp m s (fun a s' => pwp (f a) s' Q) → pwp (m ≫= f) s Q.
Proof. intros H. apply wp_bind. eapply wp_mono; [exact H|]. by intros [a s']. Qed.

Lemma pwp_mono {St A} (m : UM St A) s (Q Q' : A → St → Prop) :
  pwp m s Q → (∀ a s', Q a s' → Q' a s') → pwp m s Q'.
Proof. intros H HQ. eapply wp_mono; [exact H|]. intros [a s']. apply HQ. Qed.

(** The usual step: a bind whose first part has a specification. *)
Lemma pwp_step {St A B} (m : UM St A) (f : A → UM St B) s (Q : A → St → Prop) Q' :
  pwp m s Q → (∀ a s', Q a s' → pwp (f a) s' Q') → pwp (m ≫= f) s Q'.
Proof. intros Hm Hf. apply pwp_bind. by apply (pwp_mono _ _ Q). Qed.

Lemma pwp_get {St B} (f : St → UM St B) s Q : pwp (f s) s Q → pwp (get ≫= f) s Q.
Proof. intros H. by apply pwp_bind. Qed.

Lemma pwp_upd {St B} g (f : unit → UM St B) s Q : pwp (f tt) (g s) Q → pwp (upd g ≫= f) s Q.
Proof. intros H. by apply pwp_bind. Qed.

Lemma pwp_ret {St A} (a : A) (s : St) (Q : A → St → Prop) : Q a s → pwp (mret a) s Q.
Proof. done. Qed.

(** * user/ulib.c *)

(** ** Strings in memory

    As in the kernel's string.c, an access to an address that is not mapped makes
    the function fail, and loops without a bound take fuel. *)

Fixpoint strcpy_from (fuel : nat) (s t : Z) (m : mem) : option mem :=
  match fuel with
  | O => None
  | S fuel' =>
      b ← m !! t;
      _ ← m !! s;
      let m' := <[s := b]> m in
      if b =? 0 then Some m' else strcpy_from fuel' (s + 1) (t + 1) m'
  end.
Definition strcpy (fuel : nat) (s t : Z) (m : mem) : option (Z * mem) :=
  m' ← strcpy_from fuel s t m; Some (s, m').

Fixpoint strcmp (fuel : nat) (p q : Z) (m : mem) : option Z :=
  match fuel with
  | O => None
  | S fuel' =>
      a ← m !! p;
      b ← m !! q;
      if negb (a =? 0) && (a =? b) then strcmp fuel' (p + 1) (q + 1) m else Some (a - b)
  end.

Fixpoint strlen_from (fuel : nat) (s n : Z) (m : mem) : option Z :=
  match fuel with
  | O => None
  | S fuel' => b ← m !! (s + n); if b =? 0 then Some (uint n) else strlen_from fuel' s (n + 1) m
  end.
Definition strlen (fuel : nat) (s : Z) (m : mem) : option Z := strlen_from fuel s 0 m.

Fixpoint memset_from (k : nat) (p c : Z) (m : mem) : option mem :=
  match k with
  | O => Some m
  | S k' => _ ← m !! p; memset_from k' (p + 1) c (<[p := uchar c]> m)
  end.
Definition memset (dst c n : Z) (m : mem) : option mem := memset_from (Z.to_nat n) dst c m.

(** 0 is the null pointer. *)
Fixpoint strchr_from (fuel : nat) (s c : Z) (m : mem) : option Z :=
  match fuel with
  | O => None
  | S fuel' =>
      b ← m !! s;
      if b =? 0 then Some 0 else if b =? c then Some s else strchr_from fuel' (s + 1) c m
  end.

(** [n] is an int: a negative one copies nothing. *)
Definition memmove (dst src n : Z) (m : mem) : option mem :=
  if dst <? src then copy_up (Z.to_nat n) dst src m
  else copy_down (Z.to_nat n) (dst + n) (src + n) m.

Fixpoint memcmp_from (k : nat) (p1 p2 : Z) (m : mem) : option Z :=
  match k with
  | O => Some 0
  | S k' =>
      a ← m !! p1;
      b ← m !! p2;
      if negb (a =? b) then Some (a - b) else memcmp_from k' (p1 + 1) (p2 + 1) m
  end.
Definition memcmp (s1 s2 n : Z) (m : mem) : option Z := memcmp_from (Z.to_nat n) s1 s2 m.

Definition memcpy (dst src n : Z) (m : mem) : option mem := memmove dst src (int n) m.

(** ** Strings as lists *)

(** [strchr] as a test: the nul is never found. *)
Definition strchr (s : list Z) (c : Z) : bool := bool_decide (c ∈ s) && negb (c =? 0).

Fixpoint atoi_from (s : list Z) (n : Z) : Z :=
  match s with
  | [] => n
  | c :: s' =>
      if (chr "0" <=? c) && (c <=? chr "9") then atoi_from s' (int (n * 10 + c - chr "0")) else n
  end.
Definition atoi (s : list Z) : Z := atoi_from s 0.

(** [k] more characters fit before the nul; [line] is what the buffer has. *)
Fixpoint gets_from (k : nat) (line : list Z) : uprog (list Z) :=
  match k with
  | O => Pure line
  | S k' =>
      x ← read 0 1;
      let '(cc, out) := x in
      if cc <? 1 then Pure line else
      let c := default 0 (head out) in
      if (c =? chr "010") || (c =? chr "013") then Pure (line ++ [c])
      else gets_from k' (line ++ [c])
  end.
Definition gets (max : Z) : uprog (list Z) := gets_from (Z.to_nat (max - 1)) [].

(** The fields of [struct stat] that the kernel stores. *)
Record ustat := mkustat { st_dev : Z; st_ino : Z; st_type : Z; st_nlink : Z; st_size : Z }.
Definition stat_of (out : list Z) : option ustat :=
  match out with
  | [d; i; t; n; z] => Some (mkustat d i t n z)
  | _ => None
  end.
Definition fstat (fd : Z) : uprog (Z * option ustat) :=
  Sys (SysFstat fd) (fun r out => Pure (r, stat_of out)).

Definition O_RDONLY : Z := 0x000.
Definition O_WRONLY : Z := 0x001.
Definition O_RDWR : Z := 0x002.
Definition O_CREATE : Z := 0x200.
Definition O_TRUNC : Z := 0x400.

Definition stat (n : list Z) : uprog (Z * option ustat) :=
  fd ← open n O_RDONLY;
  if fd <? 0 then Pure (-1, None) else
  x ← fstat fd;
  _ ← close fd;
  Pure x.

(** The wrapper around main(). *)
Definition start (main : uprog Z) : uprog unit := _ ← main; exit 0.

(** * user/printf.c *)

Definition udigits : list Z := chars "0123456789ABCDEF".

Definition putc (fd c : Z) : uprog unit := call_ (SysWrite fd [c]).

Fixpoint puts (fd : Z) (l : list Z) : uprog unit :=
  match l with
  | [] => Pure tt
  | c :: l' => _ ← putc fd c; puts fd l'
  end.

(** What [printint] puts into [buf], in the order of the array; [xx] is an int and
    the 32 bits of [x] have at most 32 digits. *)
Definition uprintint_buf (xx base : Z) (sgn : bool) : list Z :=
  let neg := sgn && (xx <? 0) in
  let x := if neg then uint (- xx) else uint xx in
  int_digits udigits 32 x base ++ (if neg then [chr "-"] else []).

(** [char buf[16]]: a store past its end is undefined. *)
Definition printint (fd xx base : Z) (sgn : bool) : uprog unit :=
  let buf := uprintint_buf xx base sgn in
  if (16 <? length buf)%nat then Undefined else puts fd (rev buf).

Fixpoint ptr_digits (n : nat) (fd x : Z) : uprog unit :=
  match n with
  | O => Pure tt
  | S n' =>
      _ ← putc fd (default 0 (udigits !! Z.to_nat (Z.shiftr x 60)));
      ptr_digits n' fd (uint64 (Z.shiftl x 4))
  end.

Definition printptr (fd x : Z) : uprog unit :=
  _ ← putc fd (chr "0"); _ ← putc fd (chr "x"); ptr_digits 16 fd x.

(** [va_arg]; reading past the arguments is undefined. *)
Definition num_arg (ap : list arg) (k : Z → list arg → uprog unit) : uprog unit :=
  match ap with ANum z :: ap' => k z ap' | _ => Undefined end.
Definition str_arg (ap : list arg) (k : option (list Z) → list arg → uprog unit) : uprog unit :=
  match ap with AStr o :: ap' => k o ap' | _ => Undefined end.

(** The loop over [fmt], in state 0, from the character at [i] on.  The 64-bit
    arguments of the l conversions become ints on the way into [printint]. *)
Fixpoint vprintf (fd : Z) (fmt : list Z) (ap : list arg) : uprog unit :=
  match fmt with
  | [] => Pure tt
  | cx :: f0 =>
    if negb (ischar cx "%") then _ ← putc fd cx; vprintf fd f0 ap else
    match f0 with
    | [] => Pure tt
    | c0 :: f1 =>
      let c1 := default 0 (head f1) in
      let c2 := if c1 =? 0 then 0 else default 0 (head (tail f1)) in
      if ischar c0 "d" then
        num_arg ap (fun z ap => _ ← printint fd (int z) 10 true; vprintf fd f1 ap)
      else if ischar c0 "l" && ischar c1 "d" then
        num_arg ap (fun z ap => _ ← printint fd (int z) 10 true;
          match f1 with _ :: f2 => vprintf fd f2 ap | [] => Pure tt end)
      else if ischar c0 "l" && ischar c1 "l" && ischar c2 "d" then
        num_arg ap (fun z ap => _ ← printint fd (int z) 10 true;
          match f1 with _ :: _ :: f3 => vprintf fd f3 ap | _ => Pure tt end)
      else if ischar c0 "u" then
        num_arg ap (fun z ap => _ ← printint fd (int z) 10 false; vprintf fd f1 ap)
      else if ischar c0 "l" && ischar c1 "u" then
        num_arg ap (fun z ap => _ ← printint fd (int z) 10 false;
          match f1 with _ :: f2 => vprintf fd f2 ap | [] => Pure tt end)
      else if ischar c0 "l" && ischar c1 "l" && ischar c2 "u" then
        num_arg ap (fun z ap => _ ← printint fd (int z) 10 false;
          match f1 with _ :: _ :: f3 => vprintf fd f3 ap | _ => Pure tt end)
      else if ischar c0 "x" then
        num_arg ap (fun z ap => _ ← printint fd (int z) 16 false; vprintf fd f1 ap)
      else if ischar c0 "l" && ischar c1 "x" then
        num_arg ap (fun z ap => _ ← printint fd (int z) 16 false;
          match f1 with _ :: f2 => vprintf fd f2 ap | [] => Pure tt end)
      else if ischar c0 "l" && ischar c1 "l" && ischar c2 "x" then
        num_arg ap (fun z ap => _ ← printint fd (int z) 16 false;
          match f1 with _ :: _ :: f3 => vprintf fd f3 ap | _ => Pure tt end)
      else if ischar c0 "p" then
        num_arg ap (fun z ap => _ ← printptr fd (uint64 z); vprintf fd f1 ap)
      else if ischar c0 "s" then
        str_arg ap (fun o ap => _ ← puts fd (default (chars "(null)") o); vprintf fd f1 ap)
      else if ischar c0 "%" then _ ← putc fd (chr "%"); vprintf fd f1 ap
      else _ ← putc fd (chr "%"); _ ← putc fd c0; vprintf fd f1 ap
    end
  end.

Definition fprintf (fd : Z) (fmt : list Z) (ap : list arg) : uprog unit := vprintf fd fmt ap.
Definition printf (fmt : list Z) (ap : list arg) : uprog unit := vprintf 1 fmt ap.

(** A literal that ends in a newline. *)
Definition line (s : string) : list Z := chars s ++ [10].

(** Printing a string and a literal without conversions always finishes. *)
Lemma wp_puts fd l (Q : unit → Prop) : Q tt → wp (puts fd l) Q.
Proof. intros HQ. induction l as [|c l IH]; simpl; [done|]. intros _ _. apply IH. Qed.

(** The parts of a format: plain characters and strings. *)
Lemma wp_plain fd l fmt ap (Q : unit → Prop) :
  Forall (fun c => c ≠ chr "%") l → wp (vprintf fd fmt ap) Q → wp (vprintf fd (l ++ fmt) ap) Q.
Proof.
  intros Hl HQ. induction Hl as [|c l Hc Hl IH]; [done|]. cbn [app vprintf].
  unfold ischar. destruct (Z.eqb_spec c (chr "%")); [done|]. simpl. by intros.
Qed.

Lemma wp_str fd o fmt ap (Q : unit → Prop) :
  wp (vprintf fd fmt ap) Q → wp (vprintf fd (chars "%s" ++ fmt) (AStr o :: ap)) Q.
Proof.
  intros HQ. change (chars "%s" ++ fmt) with (chr "%" :: chr "s" :: fmt). cbn [vprintf].
  change (negb (ischar (chr "%") "%")) with false. cbn [str_arg].
  change (wp (ubind (puts fd (default (chars "(null)") o)) (fun _ => vprintf fd fmt ap)) Q).
  by apply wp_bind, wp_puts.
Qed.

(** * Printing and reading numbers *)

(** The kernel of a program that only writes: its state is what was written. *)
Definition writes (out : list Z) (c : ucall) : list Z * Z * list Z :=
  match c with
  | SysWrite _ bytes => (out ++ bytes, Z.of_nat (length bytes), [])
  | _ => (out, -1, [])
  end.

Definition is_digit (c : Z) : bool := (chr "0" <=? c) && (c <=? chr "9").
(** The number that decimal digits denote. *)
Definition dec_value (ds : list Z) : Z := foldl (fun n c => n * 10 + (c - chr "0")) 0 ds.

Lemma run_puts fd l out : run writes (puts fd l) out = (out ++ l, Returns tt).
Proof.
  revert out. induction l as [|c l IH]; intros out; simpl; [by rewrite app_nil_r|].
  rewrite IH. by rewrite <- app_assoc.
Qed.

Lemma udigits_dec d : 0 ≤ d < 10 → default 0 (udigits !! Z.to_nat d) = chr "0" + d.
Proof.
  intros Hd.
  assert (d = 0 ∨ d = 1 ∨ d = 2 ∨ d = 3 ∨ d = 4 ∨ d = 5 ∨ d = 6 ∨ d = 7 ∨ d = 8 ∨ d = 9)
    as Hc by lia.
  by repeat destruct Hc as [->|Hc]; subst.
Qed.

(** Enough turns of the loop give all digits, most significant first in [rev]. *)
Lemma int_digits_value fuel x :
  0 ≤ x < 10 ^ Z.of_nat fuel → (0 < fuel)%nat →
  dec_value (rev (int_digits udigits fuel x 10)) = x ∧
  Forall (fun c => is_digit c = true) (int_digits udigits fuel x 10).
Proof.
  revert x. induction fuel as [|fuel IH]; intros x Hx Hf; [lia|]. cbn [int_digits].
  pose proof (Z.mod_pos_bound x 10 ltac:(lia)) as Hm. pose proof (Z.div_mod x 10 ltac:(lia)) as Hd.
  rewrite udigits_dec by done. set (d := x mod 10) in *.
  assert (Hdig : is_digit (chr "0" + d) = true).
  { unfold is_digit. change (chr "0") with 48. change (chr "9") with 57. lia. }
  destruct (Z.eqb_spec (x / 10) 0) as [H0|H0].
  - split; [|by repeat constructor]. cbn. change (chr "0") with 48. lia.
  - rewrite Nat2Z.inj_succ, Z.pow_succ_r in Hx by lia.
    assert (Hq : 0 ≤ x / 10 < 10 ^ Z.of_nat fuel).
    { split; [apply Z.div_pos; lia|]. apply Z.div_lt_upper_bound; lia. }
    destruct (IH (x / 10) Hq) as [IH1 IH2].
    { destruct fuel; [|lia]. change (10 ^ Z.of_nat 0) with 1 in Hq. lia. }
    split; [|by constructor]. cbn [rev]. unfold dec_value in *. rewrite foldl_app, IH1.
    cbn [foldl]. lia.
Qed.

(** [atoi] computes the value of digits that fit an int. *)
Lemma atoi_dec ds n :
  Forall (fun c => is_digit c = true) ds → 0 ≤ n →
  foldl (fun n c => n * 10 + (c - chr "0")) n ds < 2 ^ 31 →
  atoi_from ds n = foldl (fun n c => n * 10 + (c - chr "0")) n ds.
Proof.
  intros Hds. revert n. induction Hds as [|c ds Hc Hds IH]; intros n Hn Hlt; [done|].
  cbn [foldl] in Hlt. assert (Hc' := Hc). apply andb_prop in Hc as [H1 H2].
  apply Z.leb_le in H1, H2.
  assert (Hmono : ∀ l k, Forall (fun c => is_digit c = true) l → 0 ≤ k →
            k ≤ foldl (fun n c => n * 10 + (c - chr "0")) k l).
  { induction l as [|e l IHl]; intros k Hl Hk; [done|]. cbn [foldl].
    apply Forall_cons in Hl as [[He1%Z.leb_le He2%Z.leb_le]%andb_prop Hl].
    specialize (IHl (k * 10 + (e - chr "0")) Hl). lia. }
  pose proof (Hmono ds (n * 10 + (c - chr "0")) Hds ltac:(lia)) as Hle.
  cbn [atoi_from foldl]. unfold is_digit in Hc'. rewrite Hc'.
  rewrite int_small by lia. replace (n * 10 + c - chr "0") with (n * 10 + (c - chr "0")) by lia.
  apply IH; lia.
Qed.

(** The buffer of [printint] is large enough for the bases [printf] uses. *)
Lemma uprintint_buf_fits xx base sgn : 10 ≤ base → (length (uprintint_buf xx base sgn) ≤ 11)%nat.
Proof.
  intros Hb. unfold uprintint_buf. set (x := if sgn && (xx <? 0) then uint (- xx) else uint xx).
  assert (Hx : 0 ≤ x < 2 ^ 32) by (subst x; case_match; apply uint_range).
  rewrite length_app.
  assert ((length (int_digits udigits 32 x base) ≤ 10)%nat).
  { apply int_digits_short; [lia| |lia]. split; [lia|].
    apply (Z.lt_le_trans _ (10 ^ Z.of_nat 10)); [lia|]. apply Z.pow_le_mono_l. lia. }
  clearbody x. destruct (sgn && _); cbn [length]; lia.
Qed.

(** ** The types of a format *)

Lemma wp_bind_iff {A B} (p : uprog A) (f : A → uprog B) Q : wp (ubind p f) Q ↔ wp p (fun a => wp (f a) Q).
Proof. split; [|apply wp_bind]. induction p; simpl; eauto. Qed.

Lemma wp_puts_iff fd l (Q : unit → Prop) : wp (puts fd l) Q ↔ Q tt.
Proof. split; [|apply wp_puts]. induction l as [|c l IH]; simpl; [done|]. intros H. exact (IH (H 0 [])). Qed.

Lemma wp_printint_iff fd xx base sgn (Q : unit → Prop) : 10 ≤ base → wp (printint fd xx base sgn) Q ↔ Q tt.
Proof.
  intros Hb. unfold printint. destruct (Nat.ltb_spec 16 (length (uprintint_buf xx base sgn))) as [Hl|_].
  - pose proof (uprintint_buf_fits xx base sgn Hb). lia.
  - apply wp_puts_iff.
Qed.

Lemma wp_printptr_iff fd x (Q : unit → Prop) : wp (printptr fd x) Q ↔ Q tt.
Proof.
  unfold printptr. generalize 16%nat. intros n. split.
  - intros H. specialize (H 0 [] 0 []). cbn in H. revert x H. induction n as [|n IH]; intros x H; [done|]. exact (IH _ (H 0 [])).
  - intros H _ _ _ _. cbn. revert x. induction n as [|n IH]; intros x; [done|]. intros _ _. apply IH.
Qed.

(** What the conversions of a format take from the arguments. *)
Inductive argtype : Type := TNum | TStr.

Fixpoint argtypes (fmt : list Z) : list argtype :=
  match fmt with
  | [] => []
  | cx :: f0 =>
      if negb (ischar cx "%") then argtypes f0 else
      match f0 with
      | [] => []
      | c0 :: f1 =>
          if ischar c0 "d" || ischar c0 "u" || ischar c0 "x" || ischar c0 "p" then TNum :: argtypes f1
          else if ischar c0 "s" then TStr :: argtypes f1
          else if ischar c0 "l" then
            match f1 with
            | c1 :: f2 =>
                if ischar c1 "d" || ischar c1 "u" || ischar c1 "x" then TNum :: argtypes f2
                else if ischar c1 "l" then
                  match f2 with
                  | c2 :: f3 => if ischar c2 "d" || ischar c2 "u" || ischar c2 "x" then TNum :: argtypes f3 else argtypes f1
                  | [] => argtypes f1
                  end
                else argtypes f1
            | [] => []
            end
          else argtypes f1
      end
  end.

(** The arguments begin with ones of the given types. *)
Fixpoint typed (ts : list argtype) (ap : list arg) : bool :=
  match ts, ap with
  | [], _ => true
  | TNum :: ts', ANum _ :: ap' => typed ts' ap'
  | TStr :: ts', AStr _ :: ap' => typed ts' ap'
  | _, _ => false
  end.

Lemma wp_num_iff ts ap (p : Z → uprog unit) (k : list arg → uprog unit) (Q : unit → Prop) :
  (∀ z (R : unit → Prop), wp (p z) R ↔ R tt) → (∀ ap', wp (k ap') Q ↔ typed ts ap' = true ∧ Q tt) →
  wp (num_arg ap (fun z ap => _ ← p z; k ap)) Q ↔ typed (TNum :: ts) ap = true ∧ Q tt.
Proof.
  intros Hp Hk. destruct ap as [|[z|o] ap']; cbn [num_arg typed]; [naive_solver| |naive_solver].
  unfold mbind, uprog_bind. by rewrite wp_bind_iff, Hp, Hk.
Qed.

Lemma wp_str_iff fd ts ap (k : list arg → uprog unit) (Q : unit → Prop) :
  (∀ ap', wp (k ap') Q ↔ typed ts ap' = true ∧ Q tt) →
  wp (str_arg ap (fun o ap => _ ← puts fd (default (chars "(null)") o); k ap)) Q ↔ typed (TStr :: ts) ap = true ∧ Q tt.
Proof.
  intros Hk. destruct ap as [|[z|o] ap']; cbn [str_arg typed]; [naive_solver..|].
  unfold mbind, uprog_bind. by rewrite wp_bind_iff, wp_puts_iff, Hk.
Qed.

Lemma wp_putc_iff fd c (k : uprog unit) (Q : unit → Prop) : wp (_ ← putc fd c; k) Q ↔ wp k Q.
Proof. split; [intros H; exact (H 0 [])|by intros H _ _]. Qed.

(** Decides the tests of a character that is known. *)
Ltac known_chars :=
  repeat match goal with
  | |- context [ischar (chr ?a) ?b] =>
      let v := eval vm_compute in (ischar (chr a) b) in change (ischar (chr a) b) with v
  | |- context [ischar 0 ?b] =>
      let v := eval vm_compute in (ischar 0 b) in change (ischar 0 b) with v
  | H : ischar _ _ = false |- _ => rewrite H; clear H
  end; rewrite ?andb_false_r; cbn [andb orb negb].

Ltac is_char c a :=
  let H := fresh "Hc" in
  destruct (ischar c a) eqn:H; [apply Z.eqb_eq in H; subst c|].

Lemma wp_vprintf_iff fd fmt ap (Q : unit → Prop) : wp (vprintf fd fmt ap) Q ↔ typed (argtypes fmt) ap = true ∧ Q tt.
Proof.
  remember (length fmt) as n eqn:En. assert (length fmt <= n)%nat as Hn by lia. clear En.
  revert fmt ap Hn. induction n as [|n IH]; intros [|cx f0] ap Hn; simpl in Hn; try lia; [naive_solver..|].
  assert (∀ fmt, (length fmt <= n)%nat → ∀ ap, wp (vprintf fd fmt ap) Q ↔ typed (argtypes fmt) ap = true ∧ Q tt) as IH'
    by auto. clear IH.
  cbn [vprintf argtypes]. destruct (negb (ischar cx "%")).
  { rewrite wp_putc_iff. apply IH'. lia. }
  destruct f0 as [|c0 f1]; [naive_solver|]. simpl in Hn.
  assert (∀ z b s (R : unit → Prop), 10 ≤ b → wp (printint fd z b s) R ↔ R tt) as Hpi by (intros; by apply wp_printint_iff).
  is_char c0 "d"%char; [known_chars; apply wp_num_iff; [intros; by apply Hpi|apply IH'; lia]|].
  is_char c0 "u"%char; [known_chars; apply wp_num_iff; [intros; by apply Hpi|apply IH'; lia]|].
  is_char c0 "x"%char; [known_chars; apply wp_num_iff; [intros; by apply Hpi|apply IH'; lia]|].
  is_char c0 "p"%char; [known_chars; apply wp_num_iff; [intros; apply wp_printptr_iff|apply IH'; lia]|].
  is_char c0 "s"%char; [known_chars; apply wp_str_iff, IH'; lia|].
  destruct (ischar c0 "l") eqn:El; known_chars.
  2: { destruct (ischar c0 "%"); rewrite ?wp_putc_iff; apply IH'; lia. }
  apply Z.eqb_eq in El. subst c0. known_chars. destruct f1 as [|c1 f2].
  { cbn [head default]. known_chars. rewrite !wp_putc_iff. naive_solver. }
  simpl in Hn. cbn [head default tail id].
  is_char c1 "d"%char; [known_chars; apply wp_num_iff; [intros; by apply Hpi|apply IH'; lia]|].
  is_char c1 "u"%char; [known_chars; apply wp_num_iff; [intros; by apply Hpi|apply IH'; lia]|].
  is_char c1 "x"%char; [known_chars; apply wp_num_iff; [intros; by apply Hpi|apply IH'; lia]|].
  is_char c1 "l"%char; known_chars.
  2: { rewrite !wp_putc_iff. apply IH'. simpl. lia. }
  change (chr "l" =? 0) with false. cbn match. destruct f2 as [|c2 f3].
  { cbn [head default]. known_chars. rewrite !wp_putc_iff. apply IH'. simpl. lia. }
  simpl in Hn. cbn [head default id].
  is_char c2 "d"%char; [known_chars; apply wp_num_iff; [intros; by apply Hpi|apply IH'; lia]|].
  is_char c2 "u"%char; [known_chars; apply wp_num_iff; [intros; by apply Hpi|apply IH'; lia]|].
  is_char c2 "x"%char; [known_chars; apply wp_num_iff; [intros; by apply Hpi|apply IH'; lia]|].
  known_chars. rewrite !wp_putc_iff. apply IH'. simpl. lia.
Qed.

(** printf is type safe: whatever the kernel answers, fprintf of a format
    finishes without reading past its arguments, taking one for one of another type,
    or overflowing its digit buffer, if and only if the arguments begin with ones of
    the types that the conversions of the format ask for, in order, where d, u, x
    (also with l and ll) and p take numbers and s takes a string. *)
Theorem printf_typed fd fmt ap : wp (fprintf fd fmt ap) (fun _ => True) ↔ typed (argtypes fmt) ap = true.
Proof. unfold fprintf. rewrite wp_vprintf_iff. naive_solver. Qed.

(** ** Programs that finish

    A program made of calls, branches and well-typed output finishes whatever the kernel
    answers.  The tactic follows its structure; the hints are lemmas about its parts. *)

Lemma wp_call c (Q : Z → Prop) : (∀ r, Q r) → wp (call c) Q.
Proof. intros H r out. apply H. Qed.

Lemma wp_printf fd fmt ap (Q : unit → Prop) : typed (argtypes fmt) ap = true → Q tt → wp (vprintf fd fmt ap) Q.
Proof. intros H HQ. by apply wp_vprintf_iff. Qed.

Create HintDb wp discriminated.

Ltac head_of t := lazymatch t with ?f _ => head_of f | _ => t end.

Ltac wp_step :=
  lazymatch goal with
  | |- wp (Pure _) _ => cbn [wp]
  | |- wp (Exits _) _ => exact I
  | |- wp (exit _) _ => exact I
  | |- wp (vprintf _ _ _) _ => apply wp_printf; [vm_compute; reflexivity|]
  | |- wp (printf _ _) _ => apply wp_printf; [vm_compute; reflexivity|]
  | |- wp (fprintf _ _ _) _ => apply wp_printf; [vm_compute; reflexivity|]
  | |- wp (call _) _ => apply wp_call; intros ?
  | |- wp (Sys _ _) _ => intros ? ?
  | |- wp (ubind _ _) _ => apply wp_bind
  | |- wp (mbind _ _) _ => apply wp_bind
  | |- wp (if ?b then _ else _) _ => destruct b
  | |- wp (let (_, _) := ?x in _) _ => destruct x
  | |- wp (match ?x with _ => _ end) _ => destruct x
  | |- ∀ _, _ => intros ?
  | |- _ → _ => intros ?
  | |- True => exact I
  | |- wp ?p _ => first [solve [eauto 2 with wp nocore]|let h := head_of p in unfold h]
  end.

Ltac wp_auto := repeat (cbv beta zeta; wp_step).

(** printf("%d", x) writes a minus sign for a negative x and then decimal
    digits whose value is the absolute value of x, for every int including -2^31,
    without overflowing its buffer; atoi reads a printed non-negative number back. *)
Theorem printf_decimal x out :
  - 2 ^ 31 ≤ x < 2 ^ 31 →
  ∃ ds, run writes (printf (chars "%d") [ANum x]) out =
          (out ++ (if x <? 0 then [chr "-"] else []) ++ ds, Returns tt) ∧
    Forall (fun c => is_digit c = true) ds ∧ dec_value ds = Z.abs x ∧
    (0 ≤ x → atoi ds = x).
Proof.
  intros Hx. unfold printf. change (chars "%d") with [chr "%"; chr "d"].
  cbn [vprintf]. change (negb (ischar (chr "%") "%")) with false.
  change (ischar (chr "d") "d") with true. cbn [num_arg]. rewrite (int_small x) by lia.
  rewrite run_bind. unfold printint.
  destruct (Nat.ltb_spec 16 (length (uprintint_buf x 10 true))) as [Hl|_].
  { pose proof (uprintint_buf_fits x 10 true ltac:(lia)). lia. }
  rewrite run_puts. exists (rev (int_digits udigits 32 (Z.abs x) 10)).
  destruct (int_digits_value 32 (Z.abs x)) as [Hv Hd]; [lia..|].
  assert (Hd' := Forall_rev Hd). split_and!; [|exact Hd'|exact Hv|].
  - cbn [run mbind]. unfold uprintint_buf. cbn [andb]. destruct (Z.ltb_spec x 0) as [Hneg|Hpos].
    + rewrite uint_small by lia. rewrite rev_app_distr. by replace (- x) with (Z.abs x) by lia.
    + rewrite uint_small by lia. rewrite app_nil_r. by replace (Z.abs x) with x by lia.
  - intros H0. unfold atoi. rewrite atoi_dec; [unfold dec_value in Hv; lia|done|done|].
    unfold dec_value in Hv. lia.
Qed.

Lemma printf_decimal_witness :
  run writes (printf (chars "%d") [ANum (-2147483648)]) [] = (chars "-2147483648", Returns tt) ∧
  ∃ ds, run writes (printf (chars "%d") [ANum 1024]) [] = (ds, Returns tt) ∧ atoi ds = 1024.
Proof.
  split; [vm_compute; reflexivity|].
  destruct (printf_decimal 1024 []) as (ds & H1 & _ & _ & H2); [lia|].
  exists ds. split; [exact H1|]. apply H2. lia.
Defined.
