(* ===== verification/Uprintf.v ===== *)
(** What printf of the user library (user/printf.c) writes: for a format of plain
    characters and the conversions that its comment documents, d, x, p, s and the
    percent sign, exactly the text that the format and the arguments describe. *)

From Stdlib Require Import Ascii.
From stdpp Require Import base strings numbers list.
From S2P Require Import Prelude Printf User.
Local Open Scope Z_scope.

(** * Numerals *)









(** * Output *)











(** * Formats *)






