(* ===== verification/Umalloc.v ===== *)
(** The memory allocator of user programs, user/umalloc.c: the circular list of free
    blocks, malloc, free and morecore over the memory that sbrk gives.

    Memory is read and written in units of one Header, 16 bytes: [units] maps the
    address of a unit to the two fields it holds when it is seen as a Header.  A unit
    that the process does not have is not in the map, and an access to it is a fault. *)

From stdpp Require Import base gmap numbers list sorting.
From S2P Require Import Prelude User.
Local Open Scope Z_scope.

(** * The code *)

Record hdr := mkhdr { h_ptr : Z; h_size : Z }.

#[global] Instance eta_hdr : Settable hdr := fun h => mkhdr (h_ptr h) (h_size h).

Record arena := mkarena { units : gmap Z hdr; freep : Z }.

#[global] Instance eta_arena : Settable arena := fun s => mkarena (units s) (freep s).

Definition HEADER : Z := 16.

(** [*p], and assignments to its fields. *)
Definition load (p : Z) : UM arena hdr :=
  s ← get;
  match units s !! p with Some h => mret h | None => stuck end.

Definition upd_hdr (f : hdr → hdr) (p : Z) : UM arena unit :=
  h ← load p;
  upd (fun s => s <| units ::= <[p := f h]> |>).

Definition set_ptr (p v : Z) : UM arena unit := upd_hdr (fun h => h <| h_ptr := v |>) p.
Definition set_size (p v : Z) : UM arena unit := upd_hdr (fun h => h <| h_size := v |>) p.
Definition set_freep (p : Z) : UM arena unit := upd (fun s => s <| freep := p |>).
Definition get_freep : UM arena Z := s ← get; mret (freep s).

Section code.
(** The address of [base]. *)
Context (base : Z).

(** The loop of [free]: where in the list does [bp] belong? *)
Fixpoint find_pos (fuel : nat) (bp p : Z) : UM arena Z :=
  match fuel with
  | O => loops
  | S fuel' =>
      h ← load p;
      if (p <? bp) && (bp <? h_ptr h) then mret p
      else if (h_ptr h <=? p) && ((p <? bp) || (bp <? h_ptr h)) then mret p
      else find_pos fuel' bp (h_ptr h)
  end.

(** [bp] takes the block after [p] in, or points to it. *)
Definition join_upper (bp p : Z) : UM arena unit :=
  hb ← load bp;
  hp ← load p;
  if bp + HEADER * h_size hb =? h_ptr hp then
    hn ← load (h_ptr hp);
    set_size bp (uint (h_size hb + h_size hn)) ;;
    hp ← load p;
    hn ← load (h_ptr hp);
    set_ptr bp (h_ptr hn)
  else set_ptr bp (h_ptr hp).

(** [p] takes [bp] in, or points to it. *)
Definition join_lower (bp p : Z) : UM arena unit :=
  hp ← load p;
  if p + HEADER * h_size hp =? bp then
    hb ← load bp;
    set_size p (uint (h_size hp + h_size hb)) ;;
    hb ← load bp;
    set_ptr p (h_ptr hb)
  else set_ptr p bp.

Definition free (fuel : nat) (ap : Z) : UM arena unit :=
  let bp := ap - HEADER in
  f ← get_freep;
  p ← find_pos fuel bp f;
  join_upper bp p ;;
  join_lower bp p ;;
  set_freep p.

(** The units that a grown process has at [p]: zero, and only as many as the int that
    sbrk gets says. *)
Fixpoint fresh (p : Z) (k : nat) : gmap Z hdr :=
  match k with
  | O => ∅
  | S k' => <[p := mkhdr 0 0]> (fresh (p + HEADER) k')
  end.

(** What is left of [u] when the break was [p] and [n] is negative: the kernel takes the
    pages behind the one with the new break, and nothing when there is no such address. *)
Definition shrunk (p n : Z) (u : gmap Z hdr) : gmap Z hdr :=
  if (n <? 0) && (0 <=? p + n) then
    filter (fun x => x.1 + HEADER <= (p + n + 4095) / 4096 * 4096) u
  else u.

Definition sbrk (n : Z) : UM arena Z :=
  p ← lift (call (SysSbrk n));
  (if p =? -1 then mret tt
   else upd (fun s => s <| units ::= fun u => fresh p (Z.to_nat (n / HEADER)) ∪ shrunk p n u |>)) ;;
  mret p.

Definition morecore (fuel : nat) (nu : Z) : UM arena Z :=
  let nu := if nu <? 4096 then 4096 else nu in
  p ← sbrk (int (nu * HEADER));
  if p =? -1 then mret 0
  else
    set_size p nu ;;
    free fuel (p + HEADER) ;;
    get_freep.

(** The branch of [malloc] that takes [nunits] from the block at [p]. *)
Definition carve (nunits prevp p : Z) (h : hdr) : UM arena Z :=
  r ← (if h_size h =? nunits then set_ptr prevp (h_ptr h) ;; mret p
       else
         set_size p (h_size h - nunits) ;;
         let q := p + HEADER * (h_size h - nunits) in
         set_size q nunits ;;
         mret q);
  set_freep prevp ;;
  mret (r + HEADER).

Fixpoint malloc_loop (fuel : nat) (nunits prevp p : Z) : UM arena Z :=
  match fuel with
  | O => loops
  | S fuel' =>
      h ← load p;
      if nunits <=? h_size h then carve nunits prevp p h
      else
        f ← get_freep;
        if p =? f then
          p ← morecore fuel nunits;
          if p =? 0 then mret 0
          else h ← load p; malloc_loop fuel' nunits p (h_ptr h)
        else malloc_loop fuel' nunits p (h_ptr h)
  end.

Definition units_for (nbytes : Z) : Z := uint ((nbytes + HEADER - 1) / HEADER + 1).

Definition malloc (fuel : nat) (nbytes : Z) : UM arena Z :=
  let nunits := units_for nbytes in
  f ← get_freep;
  prevp ← (if f =? 0 then
             set_freep base ;; set_ptr base base ;; set_size base 0 ;; mret base
           else mret f);
  h ← load prevp;
  malloc_loop fuel nunits prevp (h_ptr h).
End code.

(** * Runs of the memory operations *)

Lemma um_bind {St A B} (m : UM St A) (f : A → UM St B) s a s' :
  m s = Pure (a, s') → (m ≫= f) s = f a s'.
Proof. intros H. unfold mbind, UM_bind. by rewrite H. Qed.

Lemma load_run p s h : units s !! p = Some h → load p s = Pure (h, s).
Proof. intros H. unfold load. erewrite um_bind; [|reflexivity]. by rewrite H. Qed.

(** [s] with the unit at [p] changed. *)
Definition put (p : Z) (h : hdr) (s : arena) : arena := s <| units ::= <[p := h]> |>.

Lemma set_ptr_run p v s h : units s !! p = Some h → set_ptr p v s = Pure (tt, put p (h <| h_ptr := v |>) s).
Proof. intros H. unfold set_ptr, upd_hdr. by erewrite um_bind; [|by apply load_run]. Qed.

Lemma set_size_run p v s h : units s !! p = Some h → set_size p v s = Pure (tt, put p (h <| h_size := v |>) s).
Proof. intros H. unfold set_size, upd_hdr. by erewrite um_bind; [|by apply load_run]. Qed.

Lemma put_same p h h' s : units (put p h s) !! p = Some h' ↔ h = h'.
Proof. unfold put. simpl. rewrite lookup_insert_eq. naive_solver. Qed.

Lemma put_other p q h s : p ≠ q → units (put p h s) !! q = units s !! q.
Proof. intros Hne. unfold put. simpl. by rewrite lookup_insert_ne. Qed.

Lemma put_put p h h' s : put p h' (put p h s) = put p h' s.
Proof. unfold put. destruct s as [u f]. simpl. f_equal. unfold set_field. simpl. by rewrite insert_insert_eq. Qed.

(** * The ring of free blocks *)

(** A block: the address of its header, its size in units. *)
Notation block := (Z * Z)%type.

Definition blk_end (x : block) : Z := x.1 + HEADER * x.2.

Definition first (N : list block) (e : Z) : Z := match N with [] => e | x :: _ => x.1 end.

(** The headers of the blocks [N] are linked in this order, the last one to [e]. *)
Fixpoint chain (u : gmap Z hdr) (N : list block) (e : Z) : Prop :=
  match N with
  | [] => True
  | x :: N' => u !! x.1 = Some (mkhdr (first N' e) x.2) ∧ chain u N' e
  end.

(** In ascending order, and with a gap between any two. *)
Definition apart : list block → Prop := StronglySorted (fun x y => x.1 <= blk_end x < y.1).

Lemma first_app N1 N2 e : first (N1 ++ N2) e = first N1 (first N2 e).
Proof. by destruct N1. Qed.

Lemma chain_app u N1 N2 e : chain u (N1 ++ N2) e ↔ chain u N1 (first N2 e) ∧ chain u N2 e.
Proof.
  induction N1 as [|x N1 IH]; simpl; [tauto|]. rewrite IH, first_app. tauto.
Qed.

Lemma chain_ext u u' N e :
  (∀ x, x ∈ N → u' !! x.1 = u !! x.1) → chain u N e → chain u' N e.
Proof.
  induction N as [|x N IH]; simpl; [done|]. intros Hu [Hx Hc]. split.
  - rewrite Hu; [done|by left].
  - apply IH; [|done]. intros y Hy. apply Hu. by right.
Qed.

Lemma chain_lookup u N e x : chain u N e → x ∈ N → ∃ q, u !! x.1 = Some (mkhdr q x.2).
Proof.
  intros Hc (N1 & N2 & ->)%list_elem_of_split. apply chain_app in Hc as [_ [Hx _]]. eauto.
Qed.

(** The ring can be entered anywhere. *)
Lemma chain_rotate u N1 N2 e :
  N2 ≠ [] → chain u (N1 ++ N2) (first (N1 ++ N2) e) → chain u (N2 ++ N1) (first (N2 ++ N1) e).
Proof.
  intros Hne. rewrite !chain_app, !first_app. destruct N2 as [|y N2]; [done|].
  destruct N1 as [|x N1]; simpl; tauto.
Qed.

Lemma apart_app N1 N2 :
  apart (N1 ++ N2) ↔ (∀ x y, x ∈ N1 → y ∈ N2 → x.1 <= blk_end x < y.1) ∧ apart N1 ∧ apart N2.
Proof. apply StronglySorted_app. Qed.

Lemma apart_cons x N : apart (x :: N) ↔ (∀ y, y ∈ N → x.1 <= blk_end x < y.1) ∧ apart N.
Proof.
  unfold apart. split.
  - intros H. inversion_clear H as [|? ? Hs Hf]. split; [|done]. by apply Forall_forall.
  - intros [Hf Hs]. constructor; [done|]. by apply Forall_forall.
Qed.

(** ** The loop of free *)

(** From a block at or below the place of [bp] upwards: [t] is the last block below. *)
Lemma find_pos_up bp s W t N e fuel :
  chain (units s) (W ++ t :: N) e → apart (W ++ t :: N) → (length W < fuel)%nat →
  t.1 < bp → e <= t.1 → (∀ y, y ∈ N → bp < y.1) →
  find_pos fuel bp (first (W ++ t :: N) e) s = Pure (t.1, s).
Proof.
  intros Hc Ha Hf Ht He HN. revert fuel Hc Ha Hf. induction W as [|x W IH]; intros [|fuel] Hc Ha Hf;
    simpl in Hf; try lia; destruct Hc as [Hx Hc]; simpl; (erewrite um_bind; [|by apply load_run]); simpl.
  - destruct N as [|y N]; simpl.
    + destruct (Z.ltb_spec t.1 bp), (Z.ltb_spec bp e), (Z.leb_spec e t.1); try lia; done.
    + specialize (HN y ltac:(by left)).
      destruct (Z.ltb_spec t.1 bp), (Z.ltb_spec bp y.1); try lia; done.
  - apply apart_cons in Ha as [Hlt Ha].
    assert (x.1 < first (W ++ t :: N) e < bp) as Hz.
    { destruct W as [|z W]; simpl in *; [specialize (Hlt t ltac:(by left)); lia|].
      apply apart_cons in Ha as [Hz _]. specialize (Hlt z ltac:(by left)).
      specialize (Hz t). rewrite elem_of_app, elem_of_cons in Hz. specialize (Hz ltac:(tauto)). lia. }
    destruct (Z.ltb_spec bp (first (W ++ t :: N) e)), (Z.leb_spec (first (W ++ t :: N) e) x.1); try lia.
    rewrite andb_false_r. simpl. apply IH; [done..|lia].
Qed.

(** From a block above the place of [bp] to the end of the list, and round. *)
Lemma find_pos_wrap bp s W e k :
  chain (units s) W e → apart W → e < bp → (∀ y, y ∈ W → bp < y.1) →
  find_pos (length W + k) bp (first W e) s = find_pos k bp e s.
Proof.
  intros Hc Ha He HW. induction W as [|x W IH]; [done|].
  destruct Hc as [Hx Hc]. apply apart_cons in Ha as [Hlt Ha]. simpl.
  erewrite um_bind; [|by apply load_run]. simpl. pose proof (HW x ltac:(by left)) as Hbx.
  destruct (Z.ltb_spec x.1 bp); [lia|]. simpl.
  destruct (Z.leb_spec (first W e) x.1) as [Hle|Hgt]; simpl.
  - destruct W as [|y W]; [|specialize (Hlt y ltac:(by left)); simpl in Hle; lia].
    simpl in *. destruct (Z.ltb_spec bp e); [lia|done].
  - apply IH; [done..|]. intros y Hy. apply HW. by right.
Qed.

(** Wherever it starts, the loop ends at the last block below [bp]. *)
Lemma find_pos_run base bp s N1 t N2 x fuel :
  chain (units s) (N1 ++ t :: N2) base → apart (N1 ++ t :: N2) → first (N1 ++ [t]) base = base →
  x ∈ N1 ++ t :: N2 → (∀ y, y ∈ N2 → bp < y.1) → t.1 < bp →
  (2 * length (N1 ++ t :: N2) ≤ fuel)%nat →
  find_pos fuel bp x.1 s = Pure (t.1, s).
Proof.
  intros Hc Ha Hb Hx HN Ht Hf. rewrite length_app in Hf. simpl in Hf.
  assert (base <= t.1) as Hbt.
  { destruct N1 as [|y N1]; simpl in Hb; [lia|]. apply apart_cons in Ha as [Hy _].
    specialize (Hy t). rewrite elem_of_app, elem_of_cons in Hy. specialize (Hy ltac:(tauto)). lia. }
  assert (∀ k, (length N1 < k)%nat → find_pos k bp base s = Pure (t.1, s)) as Hup.
  { intros k Hk. rewrite <- (find_pos_up bp s N1 t N2 base k); try done.
    f_equal. destruct N1; simpl in *; done. }
  assert (x ∈ N1 ++ [t] ∨ x ∈ N2) as [Hx1|Hx2] by (revert Hx; clear; set_solver).
  - assert (∃ W1 W2, N1 ++ [t] = W1 ++ x :: W2) as (W1 & W2 & E) by (by apply list_elem_of_split).
    destruct (decide (W2 = [])) as [->|Hne].
    + apply app_inj_tail in E as [-> ->]. apply chain_app in Hc as [_ Hc]. apply apart_app in Ha as (_ & _ & Ha).
      apply (find_pos_up bp s [] x N2 base fuel); try done. simpl. lia.
    + destruct (exists_last Hne) as (W3 & t' & ->). rewrite app_comm_cons, app_assoc in E.
      apply app_inj_tail in E as [-> <-]. rewrite <- app_assoc in Hc, Ha.
      apply chain_app in Hc as [_ Hc]. apply apart_app in Ha as (_ & _ & Ha).
      apply (find_pos_up bp s (x :: W3) t N2 base fuel); try done.
      rewrite length_app in Hf. simpl in *. lia.
  - apply list_elem_of_split in Hx2 as (W1 & W2 & ->).
    assert (∃ k, fuel = (length (x :: W2) + k)%nat ∧ (length N1 < k)%nat) as (k & -> & Hk).
    { exists (fuel - length (x :: W2))%nat. rewrite length_app in Hf. simpl in *. lia. }
    rewrite app_comm_cons, app_assoc in Hc, Ha. apply chain_app in Hc as [_ Hc].
    apply apart_app in Ha as (_ & _ & Ha).
    rewrite <- (Hup k Hk). apply (find_pos_wrap bp s (x :: W2)); [done|done|lia|].
    intros y Hy. apply HN. apply elem_of_app. by right.
Qed.

(** ** Joining blocks *)

(** [x] in front of [N], joined with the first block of [N] when they touch. *)
Definition glue (x : block) (N : list block) : list block :=
  match N with
  | y :: N' => if blk_end x =? y.1 then (x.1, x.2 + y.2) :: N' else x :: N
  | [] => [x]
  end.

Lemma glue_cons x N : ∃ n N', glue x N = (x.1, n) :: N' ∧ N' ⊆ N.
Proof.
  destruct N as [|y N]; [exists x.2, []; by destruct x|]. simpl.
  destruct (_ =? _); [exists (x.2 + y.2), N; split; [done|set_solver]|].
  exists x.2, (y :: N). by destruct x.
Qed.

Lemma first_glue x N e : first (glue x N) e = x.1.
Proof. by destruct (glue_cons x N) as (n & N' & -> & _). Qed.

(** The bytes of a list of blocks. *)
Definition in_blocks (N : list block) (z : Z) : Prop := ∃ x, x ∈ N ∧ x.1 <= z < blk_end x.

Lemma in_blocks_cons x N z : in_blocks (x :: N) z ↔ x.1 <= z < blk_end x ∨ in_blocks N z.
Proof. unfold in_blocks. set_solver. Qed.

Lemma in_blocks_app N1 N2 z : in_blocks (N1 ++ N2) z ↔ in_blocks N1 z ∨ in_blocks N2 z.
Proof. unfold in_blocks. set_solver. Qed.

Lemma in_blocks_glue x N z :
  0 <= x.2 → (∀ y, y ∈ N → 0 <= y.2) → in_blocks (glue x N) z ↔ x.1 <= z < blk_end x ∨ in_blocks N z.
Proof.
  intros Hx HN. destruct N as [|y N]; simpl; [by rewrite in_blocks_cons|].
  specialize (HN y ltac:(by left)). destruct (Z.eqb_spec (blk_end x) y.1) as [E|]; rewrite !in_blocks_cons; [|done].
  rewrite <- Logic.or_assoc. apply or_iff_compat_r. unfold blk_end, HEADER in *. simpl. lia.
Qed.

Lemma apart_glue x N :
  0 <= x.2 → (∀ y, y ∈ N → 0 <= y.2 ∧ blk_end x <= y.1) → apart N → apart (glue x N).
Proof.
  intros Hx HN Ha. destruct N as [|y N]; simpl; [apply apart_cons; split; [by intros y ?%not_elem_of_nil|constructor]|].
  apply apart_cons in Ha as [Hy Ha]. destruct (Z.eqb_spec (blk_end x) y.1) as [E|Hne].
  - apply apart_cons. split; [|done]. intros z Hz. specialize (Hy z Hz).
    destruct (HN y ltac:(by left)). unfold blk_end, HEADER in *. simpl. lia.
  - apply apart_cons. split; [|by apply apart_cons]. intros z Hz.
    assert (blk_end x < y.1 ∧ y.1 <= z.1) as [? ?].
    { destruct (HN y ltac:(by left)). split; [lia|].
      apply elem_of_cons in Hz as [->|Hz]; [lia|]. specialize (Hy z Hz). lia. }
    unfold blk_end, HEADER in *. lia.
Qed.

(** What [join_upper] and [join_lower] do to the memory is a [glue]. *)
Lemma join_upper_run bp n q p m s N e :
  units s !! bp = Some (mkhdr q n) → units s !! p = Some (mkhdr (first N e) m) → p ≠ bp →
  chain (units s) N e → (∀ x, x ∈ N → x.1 ≠ bp ∧ uint (n + x.2) = n + x.2) →
  bp + HEADER * n ≠ e →
  ∃ h, join_upper bp p s = Pure (tt, put bp h s) ∧ chain (units (put bp h s)) (glue (bp, n) N) e.
Proof.
  intros Hbp Hp Hne Hc HN He. unfold join_upper.
  erewrite um_bind; [|by apply load_run]. erewrite um_bind; [|by apply load_run]. simpl h_size. simpl h_ptr.
  assert (∀ h N', N' ⊆ N → chain (units s) N' e → chain (units (put bp h s)) N' e) as Hrest.
  { intros h N' Hsub. apply chain_ext. intros x Hx. apply put_other.
    intros ->. by destruct (HN x (Hsub x Hx)). }
  destruct N as [|y N]; simpl.
  { destruct (Z.eqb_spec (bp + HEADER * n) e); [done|].
    eexists. split; [by apply set_ptr_run|]. simpl. by rewrite lookup_insert_eq. }
  unfold blk_end. simpl. destruct Hc as [Hy Hc]. destruct (HN y ltac:(by left)) as [Hyb Hyu].
  destruct (Z.eqb_spec (bp + HEADER * n) y.1) as [E|E].
  - erewrite um_bind; [|by apply load_run]. erewrite um_bind; [|by apply set_size_run].
    erewrite um_bind; [|apply load_run; by rewrite put_other].
    erewrite um_bind; [|apply load_run; by rewrite put_other].
    eexists. split; [rewrite (set_ptr_run _ _ _ _ (proj2 (put_same _ _ _ _) eq_refl)), put_put; reflexivity|].
    simpl h_size. rewrite Hyu. split; [by apply put_same|]. apply Hrest; [set_solver|done].
  - eexists. split; [by apply set_ptr_run|]. split; [by apply put_same|]. by apply Hrest; [|split].
Qed.

Lemma join_lower_run bp p m q s N e :
  units s !! p = Some (mkhdr q m) → p ≠ bp → chain (units s) N e → first N e = bp → N ≠ [] →
  (∀ x, x ∈ N → x.1 ≠ p ∧ uint (m + x.2) = m + x.2) →
  ∃ h, join_lower bp p s = Pure (tt, put p h s) ∧ chain (units (put p h s)) (glue (p, m) N) e.
Proof.
  intros Hp Hne Hc Hf Hn HN. destruct N as [|x N]; [done|]. simpl in Hf. subst bp.
  unfold join_lower. erewrite um_bind; [|by apply load_run]. simpl h_size. simpl glue.
  assert (∀ h N', N' ⊆ x :: N → chain (units s) N' e → chain (units (put p h s)) N' e) as Hrest.
  { intros h N' Hsub. apply chain_ext. intros y Hy. apply put_other.
    intros ->. by destruct (HN y (Hsub y Hy)). }
  destruct Hc as [Hx Hc]. destruct (HN x ltac:(by left)) as [_ Hxu]. unfold blk_end. simpl.
  destruct (Z.eqb_spec (p + HEADER * m) x.1).
  - erewrite um_bind; [|by apply load_run]. erewrite um_bind; [|by apply set_size_run].
    erewrite um_bind; [|apply load_run; by rewrite put_other].
    eexists. split; [rewrite (set_ptr_run _ _ _ _ (proj2 (put_same _ _ _ _) eq_refl)), put_put; reflexivity|].
    simpl h_size. rewrite Hxu. split; [by apply put_same|]. apply Hrest; [set_solver|done].
  - eexists. split; [by apply set_ptr_run|]. split; [by apply put_same|]. by apply Hrest; [|split].
Qed.

(** * The invariant of the free list *)

(** The limit that keeps the sizes of joined blocks in a uint. *)
Definition heap_limit : Z := 2 ^ 36.

Definition backed (u : gmap Z hdr) (x : block) : Prop :=
  ∀ k, 0 <= k < x.2 → is_Some (u !! (x.1 + HEADER * k)).

Definition separate (x y : block) : Prop := blk_end x <= y.1 ∨ blk_end y <= x.1.

(** [x] lies in the heap, between [base] and the break [b], and is there. *)
Definition block_ok (base b : Z) (u : gmap Z hdr) (x : block) : Prop :=
  base + HEADER <= x.1 ∧ 0 < x.2 ∧ blk_end x <= b ∧ backed u x.

(** The free list is [L], in a ring with [base]. *)
Record ring_ok (base b : Z) (L : list block) (s : arena) : Prop := {
  ring_chain : chain (units s) ((base, 0) :: L) base;
  ring_apart : apart ((base, 0) :: L);
  ring_blocks : ∀ x, x ∈ L → block_ok base b (units s) x;
  ring_freep : ∃ x, x ∈ (base, 0) :: L ∧ x.1 = freep s
}.

(** No unit goes away. *)
Definition keeps (u u' : gmap Z hdr) : Prop := ∀ z, is_Some (u !! z) → is_Some (u' !! z).

Lemma keeps_put p h s : keeps (units s) (units (put p h s)).
Proof.
  intros z Hz. destruct (decide (p = z)) as [->|Hne]; [|by rewrite put_other].
  simpl. by rewrite lookup_insert_eq.
Qed.

Lemma block_ok_keeps base b u u' x : keeps u u' → block_ok base b u x → block_ok base b u' x.
Proof. intros Hk (H1 & H2 & H3 & H4). split_and!; try done. intros k Hkk. by apply Hk, H4. Qed.

Lemma block_ok_join base b u x y :
  block_ok base b u x → block_ok base b u y → blk_end x = y.1 → block_ok base b u (x.1, x.2 + y.2).
Proof.
  intros (X1 & X2 & X3 & X4) (Y1 & Y2 & Y3 & Y4) E. unfold block_ok, blk_end, HEADER in *.
  split_and!; simpl; [lia..|]. intros k Hk. simpl in *. destruct (decide (k < x.2)).
  - apply X4. lia.
  - replace (x.1 + HEADER * k) with (y.1 + HEADER * (k - x.2)) by (unfold HEADER; lia). apply Y4. lia.
Qed.

Lemma glue_ok base b u x N :
  block_ok base b u x → (∀ y, y ∈ N → block_ok base b u y) → ∀ y, y ∈ glue x N → block_ok base b u y.
Proof.
  intros Hx HN y. destruct N as [|z N]; simpl; [by intros ->%list_elem_of_singleton|].
  destruct (Z.eqb_spec (blk_end x) z.1); rewrite !elem_of_cons; intros Hy.
  - destruct Hy as [->|Hy]; [apply block_ok_join; [done|apply HN; by left|done]|apply HN; by right].
  - destruct Hy as [->|[->|Hy]]; [done|apply HN; by left|apply HN; by right].
Qed.

(** The place of [bp] in the list. *)
Lemma split_at bp N x :
  apart (x :: N) → x.1 < bp → (∀ y, y ∈ N → y.1 ≠ bp) →
  ∃ N1 t N2, x :: N = N1 ++ t :: N2 ∧ t.1 < bp ∧ ∀ y, y ∈ N2 → bp < y.1.
Proof.
  revert x. induction N as [|y N IH]; intros x Ha Hx Hne.
  { exists [], x, []. split; [done|]. split; [done|]. by intros y ?%not_elem_of_nil. }
  apply apart_cons in Ha as [_ Ha]. destruct (decide (y.1 < bp)).
  - destruct (IH y) as (N1 & t & N2 & E & Ht & HN2); [done|done|intros z Hz; apply Hne; by right|].
    exists (x :: N1), t, N2. by rewrite E.
  - exists [], x, (y :: N). split; [done|]. split; [done|]. specialize (Hne y ltac:(by left)).
    intros z [->|Hz]%elem_of_cons; [lia|]. apply apart_cons in Ha as [Hy _]. specialize (Hy z Hz). lia.
Qed.

Lemma apart_ne N1 t N2 y : apart (N1 ++ t :: N2) → y ∈ N1 → y.1 < t.1.
Proof. intros (H & _ & _)%apart_app Hy. specialize (H y t Hy ltac:(by left)). lia. Qed.

Section free.
Context (base b : Z).
Hypothesis base_pos : 0 < base.
Hypothesis b_limit : b <= heap_limit.

Lemma sizes_fit x y :
  0 < x.1 → 0 <= x.2 → 0 <= y.2 → blk_end x <= y.1 → blk_end y <= b → uint (x.2 + y.2) = x.2 + y.2.
Proof. intros. apply uint_small. unfold blk_end, HEADER, heap_limit in *. lia. Qed.

(** [free] as two [glue]s at the place of the block. *)
Lemma free_glues N1 t N2 bp n q s fuel :
  chain (units s) (N1 ++ t :: N2) base → apart (N1 ++ t :: N2) → first (N1 ++ [t]) base = base →
  (∃ x, x ∈ N1 ++ t :: N2 ∧ x.1 = freep s) →
  units s !! bp = Some (mkhdr q n) → 0 < n → bp + HEADER * n <= b →
  0 <= t.2 → base <= t.1 → t.1 < bp → blk_end t <= bp →
  (∀ y, y ∈ N2 → bp + HEADER * n <= y.1 ∧ 0 <= y.2 ∧ blk_end y <= b) →
  (2 * length (N1 ++ t :: N2) ≤ fuel)%nat →
  ∃ h h', free fuel (bp + HEADER) s = Pure (tt, (put t.1 h' (put bp h s)) <| freep := t.1 |>) ∧
    chain (units (put t.1 h' (put bp h s))) (N1 ++ glue t (glue (bp, n) N2)) base.
Proof.
  intros Hc Ha Hb (x & Hx & Ef) Hbp Hn Hbb Ht0 Hbt Ht Hte HN2 Hfuel.
  pose proof Hc as (Hc1 & Htu & Hc2)%chain_app.
  assert (∀ y, y ∈ N2 → bp < y.1) as HN2'.
  { intros y Hy. destruct (HN2 y Hy). unfold HEADER in *. lia. }
  destruct (join_upper_run bp n q t.1 t.2 s N2 base) as (h & Hj & Hcu);
    [done|done|lia|done| |unfold HEADER; lia|].
  { intros y Hy. destruct (HN2 y Hy) as (? & ? & ?). specialize (HN2' y Hy). split; [lia|].
    apply (sizes_fit (bp, n) y); simpl; try done; lia. }
  assert (∀ y, y ∈ glue (bp, n) N2 → bp <= y.1 ∧ 0 <= y.2 ∧ blk_end y <= b) as HG.
  { intros y. destruct N2 as [|z N2]; simpl.
    - intros ->%list_elem_of_singleton. unfold blk_end; simpl. lia.
    - destruct (HN2 z ltac:(by left)) as (Hz1 & Hz2 & Hz3). unfold blk_end, HEADER in Hz3.
      destruct (Z.eqb_spec (blk_end (bp, n)) z.1) as [E|]; rewrite ?elem_of_cons; intros Hy.
      + unfold blk_end, HEADER in *. simpl in *. destruct Hy as [->|Hy]; simpl; [lia|].
        destruct (HN2 y ltac:(by right)). lia.
      + destruct Hy as [->|Hy]; [unfold blk_end, HEADER in *; simpl in *; lia|].
        apply elem_of_cons in Hy. destruct (HN2 y Hy). unfold HEADER in *. lia. }
  destruct (join_lower_run bp t.1 t.2 (first N2 base) (put bp h s) (glue (bp, n) N2) base)
    as (h' & Hl & Hcl); [rewrite put_other by lia; done|lia|done|apply first_glue|..].
  { by destruct (glue_cons (bp, n) N2) as (? & ? & -> & _). }
  { intros y Hy. destruct (HG y Hy) as (? & ? & ?). split; [lia|]. apply sizes_fit; try done; lia. }
  exists h, h'. split.
  - unfold free. replace (bp + HEADER - HEADER) with bp by lia.
    erewrite um_bind; [|reflexivity]. rewrite <- Ef.
    erewrite um_bind; [|eapply find_pos_run; eauto].
    erewrite um_bind; [|exact Hj]. erewrite um_bind; [|exact Hl]. reflexivity.
  - apply chain_app. rewrite first_glue. simpl first. split; [|by destruct t].
    apply (chain_ext (units s)); [|exact Hc1]. intros y Hy.
    pose proof (apart_ne _ _ _ _ Ha Hy). rewrite !put_other by lia. done.
Qed.

(** The list after [free]. *)
Lemma free_list L bp n :
  apart ((base, 0) :: L) → (∀ x, x ∈ L → 0 < x.2 ∧ separate (bp, n) x) → base < bp → 0 < n →
  ∃ N1 t N2 L', (base, 0) :: L = N1 ++ t :: N2 ∧ (base, 0) :: L' = N1 ++ glue t (glue (bp, n) N2) ∧
    t.1 < bp ∧ blk_end t <= bp ∧ (∀ y, y ∈ N2 → bp + HEADER * n <= y.1) ∧
    (t = (base, 0) ∧ L' = glue (bp, n) N2 ∧ L = N2 ∨
     ∃ M, L' = M ++ glue t (glue (bp, n) N2) ∧ L = M ++ t :: N2).
Proof.
  intros Ha HL Hb Hn. destruct (split_at bp L (base, 0) Ha Hb) as (N1 & t & N2 & E & Ht & HN2).
  { intros y Hy. destruct (HL y Hy) as [? Hs]. unfold separate, blk_end, HEADER in Hs. simpl in Hs. lia. }
  assert (∀ y, y ∈ N2 → bp + HEADER * n <= y.1) as HN2'.
  { intros y Hy. assert (y ∈ L) as HyL.
    { destruct N1 as [|z N1]; simplify_eq/=; [done|]. apply elem_of_app. right. by right. }
    destruct (HL y HyL) as [? Hs]. specialize (HN2 y Hy). unfold separate, blk_end, HEADER in *. simpl in Hs. lia. }
  destruct N1 as [|z M]; simplify_eq/=.
  - exists [], (base, 0), N2, (glue (bp, n) N2). split_and!; try done.
    + destruct (glue_cons (bp, n) N2) as (k & N' & E & _). rewrite E. simpl.
      destruct (Z.eqb_spec (blk_end (base, 0)) bp); [|done]. unfold blk_end, HEADER in *. simpl in *. lia.
    + unfold blk_end, HEADER. simpl. lia.
    + by left.
  - destruct (HL t ltac:(apply elem_of_app; right; by left)) as [? Hs].
    exists ((base, 0) :: M), t, N2, (M ++ glue t (glue (bp, n) N2)). split_and!; try done.
    + unfold separate, blk_end, HEADER in *. simpl in Hs. lia.
    + right. by exists M.
Qed.

Lemma length_glue x N : (length (glue x N) ≤ S (length N))%nat.
Proof. destruct N as [|y N]; simpl; [lia|]. destruct (_ =? _); simpl; lia. Qed.

Lemma glue2_length N1 t x N2 : (length (N1 ++ glue t (glue x N2)) ≤ S (length (N1 ++ t :: N2)))%nat.
Proof.
  rewrite !length_app. pose proof (length_glue t (glue x N2)). pose proof (length_glue x N2). simpl. lia.
Qed.

(** A block at least as large as the one given back is in the list. *)
Lemma glue_big x N : 0 <= x.2 → (∀ y, y ∈ N → 0 <= y.2) → ∃ y, y ∈ glue x N ∧ x.2 <= y.2 ∧ y.1 = x.1.
Proof.
  intros Hx HN. destruct N as [|z N]; simpl; [exists x; split; [by left|lia]|].
  specialize (HN z ltac:(by left)). destruct (_ =? _); eexists; (split; [by left|]); simpl; lia.
Qed.

Lemma glue_big_tail x N y : 0 <= x.2 → y ∈ N → ∃ y', y' ∈ glue x N ∧ y.2 <= y'.2.
Proof.
  intros Hx Hy. destruct N as [|z N]; simpl; [by apply not_elem_of_nil in Hy|].
  destruct (_ =? _); [|exists y; split; [by right|lia]].
  apply elem_of_cons in Hy as [->|Hy]; [|exists y; split; [by right|lia]].
  eexists. split; [by left|]. simpl. lia.
Qed.

(** The starts and ends of glued blocks are among the old ones. *)
Lemma glue_range x N y :
  0 <= x.2 → (∀ z, z ∈ N → 0 <= z.2 ∧ blk_end x <= z.1) → y ∈ glue x N → x.1 <= y.1 ∧ 0 <= y.2.
Proof.
  intros Hx HN. destruct N as [|z N]; simpl; [intros ->%list_elem_of_singleton; lia|].
  destruct (HN z ltac:(by left)). unfold blk_end, HEADER in *.
  destruct (_ =? _); rewrite !elem_of_cons; intros Hy.
  - destruct Hy as [->|Hy]; [simpl; lia|]. destruct (HN y ltac:(by right)). lia.
  - destruct Hy as [->|Hy]; [lia|]. destruct (HN y ltac:(by apply elem_of_cons)). lia.
Qed.

Lemma glue2_apart N1 t x N2 :
  apart (N1 ++ t :: N2) → 0 <= t.2 → 0 <= x.2 → blk_end t <= x.1 →
  (∀ y, y ∈ N2 → 0 <= y.2 ∧ blk_end x <= y.1) → apart (N1 ++ glue t (glue x N2)).
Proof.
  intros (H1 & Ha1 & [_ Ha2]%apart_cons)%apart_app Ht Hx Htx HN2.
  assert (∀ z, z ∈ glue x N2 → 0 <= z.2 ∧ blk_end t <= z.1) as Hg.
  { intros z Hz. destruct (glue_range x N2 z Hx HN2 Hz). lia. }
  apply apart_app. split; [|split; [done|]].
  - intros y z Hy Hz. specialize (H1 y t Hy ltac:(by left)).
    destruct (glue_range t _ z Ht Hg Hz). lia.
  - apply apart_glue; [done..|]. by apply apart_glue.
Qed.

Lemma free_run L s bp n q fuel :
  ring_ok base b L s → block_ok base b (units s) (bp, n) → units s !! bp = Some (mkhdr q n) →
  (∀ x, x ∈ L → separate (bp, n) x) → (2 * S (length L) ≤ fuel)%nat →
  ∃ s' L', free fuel (bp + HEADER) s = Pure (tt, s') ∧ ring_ok base b L' s' ∧
    (∀ z, in_blocks L' z ↔ in_blocks L z ∨ bp <= z < bp + HEADER * n) ∧
    (length L' ≤ S (length L))%nat ∧ (∃ y, y ∈ L' ∧ n <= y.2) ∧
    keeps (units s) (units s') ∧
    (∀ z, z ≠ base → z ≠ bp → ¬ in_blocks L z → units s' !! z = units s !! z).
Proof.
  intros [Hc Ha HL Hf] Hok Hbp Hsep Hfuel. pose proof Hok as (Hb & Hn & He & _).
  simpl in Hb, Hn. unfold blk_end in He. simpl in He.
  assert (∀ y, y ∈ L → 0 < y.2 ∧ blk_end y <= b) as Hsz by (intros y Hy; destruct (HL y Hy); tauto).
  destruct (free_list L bp n) as (N1 & t & N2 & L' & E & E' & Ht & Hte & HN2 & Hcase); [done| |unfold HEADER in *; lia|done|].
  { intros x Hx. split; [by apply Hsz|by apply Hsep]. }
  assert (∀ y, y ∈ N2 → y ∈ L) as HN2L by (destruct Hcase as [(_ & _ & ->)|(M & _ & ->)]; set_solver).
  assert (t = (base, 0) ∨ t ∈ L) as Htc.
  { destruct Hcase as [(-> & _ & ->)|(M & _ & ->)]; [by left|right; set_solver]. }
  assert (0 <= t.2 ∧ base <= t.1) as [Ht0 Htb].
  { destruct Htc as [->|Htc]; [simpl; lia|]. destruct (HL t Htc) as (? & ? & ?). unfold HEADER in *. lia. }
  assert (∀ y, y ∈ N2 → 0 <= y.2 ∧ blk_end (bp, n) <= y.1) as HN2s.
  { intros y Hy. destruct (Hsz y (HN2L y Hy)). split; [lia|by apply HN2]. }
  assert (∀ y, y ∈ glue (bp, n) N2 → 0 <= y.2) as Hg0.
  { intros y Hy. apply (glue_range (bp, n) N2 y); [simpl; lia|done..]. }
  rewrite E in Hc, Ha, Hf. destruct (free_glues N1 t N2 bp n q s fuel) as (h & h' & Hrun & Hch); try done.
  { destruct N1; simplify_eq/=; done. }
  { intros y Hy. split; [by apply HN2|]. destruct (Hsz y); [by apply HN2L|lia]. }
  { rewrite <- E. simpl. lia. }
  eexists _, L'. split; [exact Hrun|]. cbn [units].
  assert (keeps (units s) (units (put t.1 h' (put bp h s)))) as Hk.
  { intros z Hz. by apply keeps_put, keeps_put. }
  split; [split|split_and!].
  - rewrite E'. exact Hch.
  - rewrite E'. apply glue2_apart; simpl; try done. lia.
  - intros x Hx. apply (block_ok_keeps _ _ _ _ _ Hk).
    destruct Hcase as [(_ & -> & ->)|(M & -> & ->)]; [by apply (glue_ok _ _ _ (bp, n) N2)|].
    apply elem_of_app in Hx as [Hx|Hx]; [apply HL; set_solver|].
    apply (glue_ok _ _ _ t (glue (bp, n) N2)); [apply HL; set_solver| |exact Hx].
    apply glue_ok; [done|]. intros y Hy. by apply HL, HN2L.
  - rewrite E'. destruct (glue_cons t (glue (bp, n) N2)) as (k & N' & -> & _).
    exists (t.1, k). split; [set_solver|done].
  - intros z. change (bp + HEADER * n) with (blk_end (bp, n)). assert (0 <= (bp, n).2) by (simpl; lia).
    destruct Hcase as [(_ & -> & ->)|(M & -> & ->)].
    + rewrite in_blocks_glue by (try done; intros y Hy; by apply HN2s). simpl. tauto.
    + rewrite !in_blocks_app, in_blocks_glue, in_blocks_glue, in_blocks_cons
        by (try done; intros y Hy; by apply HN2s). simpl. tauto.
  - pose proof (glue2_length N1 t (bp, n) N2) as Hlen. rewrite <- E, <- E' in Hlen. simpl in Hlen. lia.
  - destruct (glue_big (bp, n) N2) as (y & Hy & Hyn & _); [simpl; lia|apply HN2s|]. simpl in Hyn.
    destruct Hcase as [(_ & -> & _)|(M & -> & _)]; [by exists y|].
    destruct (glue_big_tail t (glue (bp, n) N2) y Ht0 Hy) as (y' & Hy' & ?).
    exists y'. split; [set_solver|lia].
  - exact Hk.
  - intros z Hz Hzb Hzn. simpl. rewrite !lookup_insert_ne; [done|done|]. intros <-.
    destruct Htc as [->|Htc]; [done|]. apply Hzn. exists t. split; [done|].
    destruct (Hsz t Htc). unfold blk_end, HEADER. lia.
Qed.
End free.

(** * Taking a block *)

Lemma apart_distinct N1 x N2 y N3 : apart (N1 ++ x :: N2 ++ y :: N3) → x.1 < y.1.
Proof.
  intros (_ & _ & [H _]%apart_cons)%apart_app. specialize (H y).
  rewrite elem_of_app, elem_of_cons in H. specialize (H ltac:(tauto)). lia.
Qed.

(** What it means that the block [(r, n)] was taken from the list [L], leaving [L']. *)
Record taken (base b : Z) (L L' : list block) (r n : Z) (s s' : arena) : Prop := {
  taken_ring : ring_ok base b L' s';
  taken_ok : block_ok base b (units s') (r, n);
  taken_size : ∃ q, units s' !! r = Some (mkhdr q n);
  taken_from : ∀ z, r <= z < r + HEADER * n → in_blocks L z;
  taken_left : ∀ z, in_blocks L' z ↔ in_blocks L z ∧ ¬ (r <= z < r + HEADER * n);
  taken_length : (length L' ≤ length L)%nat;
  taken_keeps : keeps (units s) (units s');
  taken_rest : ∀ z, z ≠ base → ¬ in_blocks L z → units s' !! z = units s !! z
}.

(** What is left of a block when its last [n] units are taken. *)
Definition shrink (n : Z) (y : block) : list block := if y.2 =? n then [] else [(y.1, y.2 - n)].

Definition cut (n : Z) (y : block) : Z := y.1 + HEADER * (y.2 - n).

Lemma elem_of_shrink n y z : 0 < n <= y.2 → z ∈ shrink n y → z = (y.1, y.2 - n) ∧ 0 < z.2 ∧ blk_end z = cut n y.
Proof.
  intros Hn. unfold shrink, cut, blk_end. destruct (Z.eqb_spec y.2 n); [by intros ?%not_elem_of_nil|].
  intros ->%list_elem_of_singleton. simpl. split; [done|lia].
Qed.

Lemma in_blocks_shrink n y z :
  0 < n <= y.2 → in_blocks (shrink n y) z ↔ y.1 <= z < cut n y.
Proof.
  intros Hn. unfold shrink, cut. destruct (Z.eqb_spec y.2 n) as [E|].
  - split; [by intros (w & ?%not_elem_of_nil & _)|]. unfold HEADER. lia.
  - rewrite in_blocks_cons. unfold blk_end. simpl. split; [|tauto].
    by intros [?|(w & ?%not_elem_of_nil & _)].
Qed.

Lemma cut_range n y : 0 < n <= y.2 → y.1 <= cut n y < blk_end y ∧ cut n y + HEADER * n = blk_end y.
Proof. unfold cut, blk_end, HEADER. lia. Qed.

Lemma apart_shrink N1 n y N2 :
  0 < n <= y.2 → apart (N1 ++ y :: N2) → apart (N1 ++ shrink n y ++ N2).
Proof.
  intros Hn (H1 & Ha1 & [H2 Ha2]%apart_cons)%apart_app. pose proof (cut_range n y Hn).
  apply apart_app. split; [|split; [done|]].
  - intros u w Hu [Hw|Hw]%elem_of_app; [|apply H1; [done|by right]].
    apply elem_of_shrink in Hw as (-> & _ & _); [|done]. apply (H1 u y); [done|by left].
  - apply apart_app. split; [|split; [|done]].
    + intros u w (-> & ? & ->)%elem_of_shrink Hw; [|done]. specialize (H2 w Hw). simpl. unfold HEADER in *. lia.
    + unfold shrink. destruct (_ =? _); repeat constructor.
Qed.

Section carve.
Context (base b : Z).
Hypothesis base_pos : 0 < base.

(** In the list, a block [x] and the free block [y] after it. *)
Lemma ring_split L N1 x y N2 :
  (base, 0) :: L = N1 ++ x :: y :: N2 →
  ∃ M, L = M ++ y :: N2 ∧ (∀ N', (base, 0) :: M ++ N' = N1 ++ x :: N') ∧ (x = (base, 0) ∨ x ∈ L).
Proof.
  destruct N1 as [|z N1]; intros ?; simplify_eq/=; [exists []; tauto|].
  exists (N1 ++ [x]). split; [by rewrite <- app_assoc|]. split; [|right; set_solver].
  intros N'. by rewrite <- app_assoc.
Qed.

(** The bytes left. *)
Lemma shrink_left M n y N2 z :
  apart (M ++ y :: N2) → 0 < n <= y.2 → 
  in_blocks (M ++ shrink n y ++ N2) z ↔
  in_blocks (M ++ y :: N2) z ∧ ¬ (cut n y <= z < cut n y + HEADER * n).
Proof.
  intros (H1 & _ & [H2 _]%apart_cons)%apart_app Hn. pose proof (cut_range n y Hn) as [Hc1 Hc2].
  rewrite !in_blocks_app, in_blocks_cons, in_blocks_shrink, Hc2 by done.
  assert (in_blocks M z → z < y.1) as HM.
  { intros (w & Hw & Hz). specialize (H1 w y Hw ltac:(by left)). lia. }
  assert (in_blocks N2 z → blk_end y < z) as HN.
  { intros (w & Hw & Hz). specialize (H2 w Hw). lia. }
  split.
  - intros [Hz|[Hz|Hz]].
    + specialize (HM Hz). split; [by left|lia].
    + split; [right; left; lia|lia].
    + specialize (HN Hz). split; [by right; right|lia].
  - intros [[Hz|[Hz|Hz]] Hout]; [by left| |by right; right]. right; left. lia.
Qed.

(** A block is taken by changing the headers of [x] and of the block so that the list
    is linked without it. *)
Lemma carve_taken L s s' N1 x y N2 n :
  ring_ok base b L s → (base, 0) :: L = N1 ++ x :: y :: N2 → 0 < n <= y.2 →
  chain (units s') (N1 ++ x :: shrink n y ++ N2) base → freep s' = x.1 → keeps (units s) (units s') →
  (∃ q, units s' !! cut n y = Some (mkhdr q n)) →
  (∀ z, z ≠ x.1 → z ≠ y.1 → z ≠ cut n y → units s' !! z = units s !! z) →
  ∃ L', taken base b L L' (cut n y) n s s'.
Proof.
  intros [Hc Ha HL _] E Hn Hch Hf Hk Hq Hu. destruct (ring_split L N1 x y N2 E) as (M & EL & EM & Hx).
  pose proof (cut_range n y Hn) as [Hc1 Hc2].
  assert (y ∈ L) as HyL by (rewrite EL; set_solver). destruct (HL y HyL) as (Hy1 & Hy2 & Hy3 & Hy4).
  assert (apart (M ++ y :: N2)) as HaL by (rewrite <- EL; by apply apart_cons in Ha as [_ ?]).
  exists (M ++ shrink n y ++ N2). split; [split|..]; rewrite ?EM; try done.
  - replace (N1 ++ x :: shrink n y ++ N2) with ((N1 ++ [x]) ++ shrink n y ++ N2) by (by rewrite <- app_assoc).
    apply apart_shrink; [done|]. rewrite <- app_assoc. simpl. by rewrite <- E.
  - intros z Hz. apply (block_ok_keeps _ _ _ _ _ Hk).
    apply elem_of_app in Hz as [Hz|[Hz|Hz]%elem_of_app]; [apply HL; rewrite EL; set_solver| |apply HL; rewrite EL; set_solver].
    apply elem_of_shrink in Hz as (-> & Hz2 & Hz3); [|done]. simpl in Hz2. split_and!; simpl; [lia..|].
    intros k Hkk. apply Hy4. simpl in Hkk. lia.
  - exists x. split; [set_solver|done].
  - apply (block_ok_keeps _ _ _ _ _ Hk). unfold block_ok, blk_end in *. simpl. split_and!; [lia..|].
    intros k Hkk. simpl in *. unfold cut.
    replace (y.1 + HEADER * (y.2 - n) + HEADER * k) with (y.1 + HEADER * (y.2 - n + k)) by lia. apply Hy4. lia.
  - intros z Hz. exists y. split; [done|]. lia.
  - intros z. rewrite EL. by apply shrink_left.
  - rewrite EL, !length_app. unfold shrink. destruct (_ =? _); simpl; lia.
  - intros z Hz Hin. apply Hu.
    + intros ->. destruct Hx as [->|Hx]; [done|]. apply Hin. exists x. split; [done|].
      destruct (HL x Hx) as (? & ? & ? & ?). unfold blk_end, HEADER. lia.
    + intros ->. apply Hin. exists y. split; [done|]. unfold blk_end, HEADER. lia.
    + intros ->. apply Hin. exists y. split; [done|]. unfold cut, blk_end, HEADER. lia.
Qed.

(** The headers around [x] and [y]. *)
Lemma ring_pair L s N1 x y N2 :
  ring_ok base b L s → (base, 0) :: L = N1 ++ x :: y :: N2 →
  (chain (units s) N1 x.1 ∧ ∀ z, z ∈ N1 → z.1 < x.1) ∧
  units s !! x.1 = Some (mkhdr y.1 x.2) ∧ x.1 < y.1 ∧
  units s !! y.1 = Some (mkhdr (first N2 base) y.2) ∧ y ∈ L ∧
  (chain (units s) N2 base ∧ ∀ z, z ∈ N2 → blk_end y < z.1).
Proof.
  intros [Hc Ha _ _] E. assert (y ∈ L) as HyL.
  { destruct (ring_split L N1 x y N2 E) as (M & -> & _). set_solver. }
  rewrite E in Hc, Ha. apply chain_app in Hc as (Hc1 & Hx & Hy & Hc2).
  apply apart_app in Ha as (Ha1 & _ & [Ha2 [Ha3 _]%apart_cons]%apart_cons).
  pose proof (Ha2 y ltac:(by left)). split_and!; try done; [|lia|].
  - intros z Hz. specialize (Ha1 z x Hz ltac:(by left)). lia.
  - intros z Hz. specialize (Ha3 z Hz). lia.
Qed.

Lemma carve_exact L s N1 x y N2 :
  ring_ok base b L s → (base, 0) :: L = N1 ++ x :: y :: N2 → 0 < y.2 →
  ∃ s' L', carve y.2 x.1 y.1 (mkhdr (first N2 base) y.2) s = Pure (cut y.2 y + HEADER, s') ∧
    taken base b L L' (cut y.2 y) y.2 s s'.
Proof.
  intros Hring E Hn. destruct (ring_pair L s N1 x y N2 Hring E) as ([Hc1 Hlo] & Hx & Hxy & Hy & HyL & Hc2 & Hhi).
  assert (cut y.2 y = y.1) as Ecut by (unfold cut; lia).
  assert (y.1 < blk_end y) by (unfold blk_end, HEADER; lia).
  set (s' := (put x.1 (mkhdr (first N2 base) x.2) s) <| freep := x.1 |>). exists s'.
  destruct (carve_taken L s s' N1 x y N2 y.2) as [L' HL']; try done.
  - unfold shrink. rewrite Z.eqb_refl. simpl app. apply chain_app. split.
    + apply (chain_ext (units s)); [|exact Hc1]. intros z Hz. apply put_other. specialize (Hlo z Hz). lia.
    + split; [by apply put_same|]. apply (chain_ext (units s)); [|exact Hc2]. intros z Hz. apply put_other.
      specialize (Hhi z Hz). lia.
  - apply keeps_put.
  - rewrite Ecut. eexists. simpl. rewrite lookup_insert_ne by lia. exact Hy.
  - intros z Hz _ _. by apply put_other.
  - exists L'. split; [|exact HL']. unfold carve. simpl h_size. rewrite Z.eqb_refl, Ecut. erewrite um_bind.
    2: { erewrite um_bind; [|by apply set_ptr_run]. reflexivity. }
    reflexivity.
Qed.

Lemma carve_split L s N1 x y N2 n :
  ring_ok base b L s → (base, 0) :: L = N1 ++ x :: y :: N2 → 0 < n < y.2 →
  ∃ s' L', carve n x.1 y.1 (mkhdr (first N2 base) y.2) s = Pure (cut n y + HEADER, s') ∧
    taken base b L L' (cut n y) n s s'.
Proof.
  intros Hring E Hn. destruct (ring_pair L s N1 x y N2 Hring E) as ([Hc1 Hlo] & Hx & Hxy & Hy & HyL & Hc2 & Hhi).
  assert (is_Some (units s !! cut n y)) as [hq Hq].
  { destruct (ring_blocks _ _ _ _ Hring y HyL) as (_ & _ & _ & Hback). apply Hback. lia. }
  destruct (cut_range n y) as [Hcut _]; [lia|]. assert (y.1 < cut n y) as Hlt by (unfold cut, HEADER; lia).
  set (s1 := put y.1 (mkhdr (first N2 base) (y.2 - n)) s).
  set (s' := (put (cut n y) (mkhdr (h_ptr hq) n) s1) <| freep := x.1 |>). exists s'.
  destruct (carve_taken L s s' N1 x y N2 n) as [L' HL']; try done; [lia|..].
  - unfold shrink. destruct (Z.eqb_spec y.2 n); [lia|]. simpl app. apply chain_app. simpl. split; [|split; [|split]].
    + apply (chain_ext (units s)); [|exact Hc1]. intros z Hz. specialize (Hlo z Hz). simpl.
      rewrite !lookup_insert_ne by lia. done.
    + rewrite !lookup_insert_ne by lia. exact Hx.
    + rewrite lookup_insert_ne, lookup_insert_eq by lia. done.
    + apply (chain_ext (units s)); [|exact Hc2]. intros z Hz. specialize (Hhi z Hz). simpl.
      rewrite !lookup_insert_ne by lia. done.
  - intros z Hz. by apply (keeps_put (cut n y) _ s1), keeps_put.
  - eexists. simpl. by rewrite lookup_insert_eq.
  - intros z _ Hz Hz'. simpl. by rewrite !lookup_insert_ne by done.
  - exists L'. split; [|exact HL']. unfold carve. simpl h_size. destruct (Z.eqb_spec y.2 n); [lia|].
    erewrite um_bind.
    2: { erewrite um_bind; [|by apply set_size_run].
         erewrite um_bind; [|apply set_size_run; rewrite put_other by (unfold cut in Hlt; lia); exact Hq]. reflexivity. }
    reflexivity.
Qed.

Lemma carve_run L s N1 x y N2 n h :
  ring_ok base b L s → (base, 0) :: L = N1 ++ x :: y :: N2 → 0 < n <= y.2 →
  units s !! y.1 = Some h →
  ∃ s' L', carve n x.1 y.1 h s = Pure (cut n y + HEADER, s') ∧ taken base b L L' (cut n y) n s s'.
Proof.
  intros Hring E Hn Hh. destruct (ring_pair L s N1 x y N2 Hring E) as (_ & _ & _ & Hy & _).
  rewrite Hy in Hh. injection Hh as <-. destruct (decide (n = y.2)) as [->|].
  - apply (carve_exact L s N1); [done|done|lia].
  - apply (carve_split L s N1); [done|done|lia].
Qed.

(** ** The loop of malloc *)

(** From [x] through [V] to the block [F] at freep: the first block that is large
    enough is taken; without one, morecore is called. *)
Lemma malloc_walk s n F V : ∀ x k,
  chain (units s) (x :: V) F.1 → (∃ q, units s !! F.1 = Some (mkhdr q F.2)) → freep s = F.1 →
  (∀ y, y ∈ V → y.1 ≠ F.1) →
  (∃ W1 p y W2 h, x :: V ++ [F] = W1 ++ p :: y :: W2 ∧ n <= y.2 ∧ units s !! y.1 = Some h ∧
     malloc_loop (length V + S k) n x.1 (first V F.1) s = carve n p.1 y.1 h s) ∨
  ((∀ y, y ∈ V ++ [F] → y.2 < n) ∧
     malloc_loop (length V + S k) n x.1 (first V F.1) s =
       (p ← morecore (S k) n;
        if p =? 0 then mret 0 else h ← load p; malloc_loop k n p (h_ptr h)) s).
Proof.
  induction V as [|y V IH]; intros x k Hc (q & HF) Hf Hne; destruct Hc as [Hx Hc].
  - simpl. erewrite um_bind; [|by apply load_run]. simpl. destruct (Z.leb_spec n F.2).
    + left. exists [], x, F, [], (mkhdr q F.2). done.
    + right. split; [by intros y ->%list_elem_of_singleton|].
      erewrite um_bind; [|reflexivity]. by rewrite Hf, Z.eqb_refl.
  - simpl. pose proof Hc as [Hy _]. erewrite um_bind; [|by apply load_run]. simpl. destruct (Z.leb_spec n y.2).
    + left. exists [], x, y, (V ++ [F]), (mkhdr (first V F.1) y.2). done.
    + erewrite um_bind; [|reflexivity]. rewrite Hf.
      destruct (Z.eqb_spec y.1 F.1) as [E|_]; [by destruct (Hne y ltac:(by left))|].
      destruct (IH y k) as [(W1 & p & w & W2 & h & E & H1 & H2 & H3)|(Hsm & Hrun)];
        [done|by exists q|done|intros z Hz; apply Hne; by right|..].
      * left. exists (x :: W1), p, w, W2, h. rewrite E. split; [done|]. split; [done|]. by split.
      * right. split; [intros z [->|Hz]%elem_of_cons; [lia|by apply Hsm]|exact Hrun].
Qed.

(** Neighbours in a list cut in two. *)
Lemma pair_app (A B W1 W2 : list block) p y :
  A ++ B = W1 ++ p :: y :: W2 →
  (∃ W, A = W1 ++ p :: y :: W) ∨ (∃ W, B = W ++ p :: y :: W2) ∨ (A = W1 ++ [p] ∧ B = y :: W2).
Proof.
  intros [W [[-> E]|[-> E]]]%app_eq_app.
  - destruct W as [|p' [|y' W]]; simplify_eq/=.
    + right; left. by exists [].
    + by right; right.
    + left. by exists W.
  - right; left. by exists W.
Qed.

Lemma malloc_search L s n k hF :
  ring_ok base b L s → 0 < n → units s !! freep s = Some hF →
  (∃ s' L' r, malloc_loop (length L + S k) n (freep s) (h_ptr hF) s = Pure (r + HEADER, s') ∧
     0 < r ∧ taken base b L L' r n s s') ∨
  ((∀ y, y ∈ L → y.2 < n) ∧
     malloc_loop (length L + S k) n (freep s) (h_ptr hF) s =
       (p ← morecore (S k) n;
        if p =? 0 then mret 0 else h ← load p; malloc_loop k n p (h_ptr h)) s).
Proof.
  intros Hring Hn HhF. pose proof Hring as [Hc Ha HL (F & HF & Ef)].
  apply list_elem_of_split in HF as (N1 & N2 & E). rewrite E in Hc, Ha. rewrite <- Ef in *.
  assert (first (N1 ++ F :: N2) 0 = base) as Hb by (rewrite <- E; done).
  rewrite <- Hb in Hc at 1. apply chain_rotate in Hc; [|done]. simpl app in Hc. simpl first in Hc.
  assert (length L = length (N2 ++ N1)) as Hlen.
  { apply (f_equal length) in E. rewrite !length_app in *. simpl in E. lia. }
  pose proof Hc as [HcF _]. rewrite HcF in HhF. injection HhF as <-. simpl h_ptr. rewrite Hlen.
  destruct (malloc_walk s n F (N2 ++ N1) F k) as [(W1 & p & y & W2 & h & EW & Hy & Hh & Hrun)|[Hsm Hrun]];
    [done|by eexists|done|..].
  { apply apart_app in Ha as (H1 & _ & [H2 _]%apart_cons). intros y [Hy|Hy]%elem_of_app.
    - specialize (H2 y Hy). lia.
    - specialize (H1 y F Hy ltac:(by left)). lia. }
  - left. assert (∃ M1 M2, (base, 0) :: L = M1 ++ p :: y :: M2) as (M1 & M2 & EM).
    { replace (F :: (N2 ++ N1) ++ [F]) with ((F :: N2) ++ (N1 ++ [F])) in EW by (simpl; by rewrite app_assoc).
      apply pair_app in EW as [(W & EW)|[(W & EW)|[_ EW]]].
      - exists (N1 ++ W1), W. by rewrite E, EW, app_assoc.
      - exists W, (W2 ++ N2). rewrite E. change (F :: N2) with ([F] ++ N2).
        by rewrite app_assoc, EW, <- app_assoc.
      - assert (y = (base, 0)) as ->; [|simpl in Hy; lia]. destruct N1; simplify_eq/=; done. }
    rewrite Hrun. destruct (carve_run L s M1 p y M2 n h) as (s' & L' & Hcarve & HT); [done|done|lia|done|].
    exists s', L', (cut n y). split; [done|]. split; [|done].
    destruct (taken_ok _ _ _ _ _ _ _ _ HT) as (? & _). unfold HEADER in *. simpl in *. lia.
  - right. split; [|exact Hrun]. intros y Hy. apply Hsm.
    assert (y ∈ N1 ++ F :: N2) as Hy' by (rewrite <- E; by right). set_solver.
Qed.
End carve.

(** * More memory *)

(** A kernel that moves the break, whose position is its state, when it grants it. *)
Definition brk_kernel (grant : Z → Z → bool) (b : Z) (c : ucall) : Z * Z * list Z :=
  match c with
  | SysSbrk n => if grant b n then (b + n, b, []) else (b, -1, [])
  | _ => (b, -1, [])
  end.

Lemma fresh_below p k z : z < p → fresh p k !! z = None.
Proof.
  revert p. induction k as [|k IH]; intros p Hz; [done|]. simpl.
  rewrite lookup_insert_ne by lia. apply IH. unfold HEADER. lia.
Qed.

Lemma fresh_at p k j : 0 <= j < Z.of_nat k → fresh p k !! (p + HEADER * j) = Some (mkhdr 0 0).
Proof.
  revert p j. induction k as [|k IH]; intros p j Hj; [lia|]. simpl. destruct (decide (j = 0)) as [->|].
  - replace (p + HEADER * 0) with p by lia. by rewrite lookup_insert_eq.
  - rewrite lookup_insert_ne by (unfold HEADER; lia).
    replace (p + HEADER * j) with (p + HEADER + HEADER * (j - 1)) by lia. apply IH. lia.
Qed.

(** Memory at and above the break does not matter to the free list. *)
Lemma ring_ok_ext base b b' L s s' :
  ring_ok base b L s → base < b → b <= b' → freep s' = freep s → keeps (units s) (units s') →
  (∀ z, z < b → units s' !! z = units s !! z) → ring_ok base b' L s'.
Proof.
  intros [Hc Ha HL Hf] Hbb Hb' Ef Hk Hu. split.
  - apply (chain_ext (units s)); [|done]. intros x [->|Hx]%elem_of_cons; [by apply Hu|].
    apply Hu. destruct (HL x Hx) as (? & ? & ? & _). unfold blk_end, HEADER in *. lia.
  - done.
  - intros x Hx. destruct (HL x Hx) as (? & ? & ? & H4). split_and!; try done; [lia|].
    intros k Hkk. by apply Hk, H4.
  - by rewrite Ef.
Qed.

(** freep points to a header. *)
Lemma ring_loads base b L s :
  0 < base → ring_ok base b L s → (∃ h, units s !! freep s = Some h) ∧ freep s ≠ 0.
Proof.
  intros Hb [Hc _ HL (x & Hx & Ef)]. rewrite <- Ef. split.
  - destruct (chain_lookup _ _ _ x Hc Hx) as (q & Hq). eauto.
  - apply elem_of_cons in Hx as [->|Hx]; [simpl; lia|]. destruct (HL x Hx) as (? & _). unfold HEADER in *. lia.
Qed.

(** The units asked for. *)
Definition core_units (nu : Z) : Z := if nu <? 4096 then 4096 else nu.

Section malloc.
Context (base : Z) (grant : Z → Z → bool).
Hypothesis base_pos : 0 < base.
Hypothesis grant_limit : ∀ b n, grant b n = true → b + n <= heap_limit.

Local Abbreviation urun := (run (brk_kernel grant)).

Lemma urun_bind {A B} (m : UM arena A) (f : A → UM arena B) s b a s' b' :
  urun (m s) b = (b', Returns (a, s')) → urun ((m ≫= f) s) b = urun (f a s') b'.
Proof.
  intros H. etransitivity; [exact (run_bind (brk_kernel grant) (m s) _ b)|]. by rewrite H.
Qed.

Lemma sbrk_run {A} n (f : Z → UM arena A) s b :
  b ≠ -1 → 0 <= n →
  urun ((sbrk n ≫= f) s) b =
    if grant b n
    then urun (f b (s <| units ::= fun u => fresh b (Z.to_nat (n / HEADER)) ∪ u |>)) (b + n)
    else urun (f (-1) s) b.
Proof.
  intros Hb Hn. unfold sbrk, mbind, UM_bind, lift, call. simpl. destruct (grant b n); simpl; [|done].
  destruct (Z.eqb_spec b (-1)); [done|]. unfold shrunk. by destruct (Z.ltb_spec n 0); [lia|].
Qed.

Lemma morecore_run b L s nu fuel :
  ring_ok base b L s → base + HEADER <= b → 0 < nu < 2 ^ 27 → (2 * S (length L) ≤ fuel)%nat →
  (grant b (HEADER * core_units nu) = false ∧ urun (morecore fuel nu s) b = (b, Returns (0, s))) ∨
  (grant b (HEADER * core_units nu) = true ∧
   let b' := b + HEADER * core_units nu in
   ∃ s' L', urun (morecore fuel nu s) b = (b', Returns (freep s', s')) ∧ ring_ok base b' L' s' ∧
     (∀ z, in_blocks L' z ↔ in_blocks L z ∨ b <= z < b') ∧
     (length L' ≤ S (length L))%nat ∧ (∃ y, y ∈ L' ∧ nu <= y.2) ∧
     keeps (units s) (units s') ∧
     (∀ z, z ≠ base → z < b → ¬ in_blocks L z → units s' !! z = units s !! z)).
Proof.
  intros Hring Hb Hnu Hfuel. unfold morecore. fold (core_units nu).
  assert (nu <= core_units nu < 2 ^ 27 ∧ 0 < core_units nu) as Hcore.
  { unfold core_units. destruct (Z.ltb_spec nu 4096); lia. }
  set (c := core_units nu) in *. rewrite (Z.mul_comm c HEADER), int_small by (unfold HEADER; lia).
  rewrite sbrk_run by (unfold HEADER in *; lia).
  destruct (grant b (HEADER * c)) eqn:Hg; [right|by left]. split; [done|]. pose proof (grant_limit _ _ Hg) as Hlim.
  destruct (Z.eqb_spec b (-1)); [unfold HEADER in *; lia|].
  replace (HEADER * c / HEADER) with c by (symmetry; unfold HEADER; rewrite Z.mul_comm; apply Z.div_mul; lia).
  set (s1 := s <| units ::= fun u => fresh b (Z.to_nat c) ∪ u |>).
  set (s2 := put b (mkhdr 0 c) s1). set (b' := b + HEADER * c) in *.
  assert (∀ j, 0 <= j < c → units s1 !! (b + HEADER * j) = Some (mkhdr 0 0)) as Hnew.
  { intros j Hj. simpl. apply lookup_union_Some_l, fresh_at. lia. }
  assert (∀ z, z < b → units s2 !! z = units s !! z) as Hold.
  { intros z Hz. unfold s2. rewrite put_other by lia. simpl. by apply lookup_union_r, fresh_below. }
  assert (keeps (units s) (units s2)) as Hk.
  { intros z Hz. apply keeps_put. simpl. apply lookup_union_is_Some. by right. }
  destruct (free_run base b' base_pos Hlim L s2 b c 0 fuel) as (s' & L' & Hfree & Hring' & Hin & Hlen & Hbig & Hk' & Hrest).
  - apply (ring_ok_ext base b b' L s s2); try done; unfold b', HEADER in *; lia.
  - split_and!; [done|simpl; lia|done|]. intros j Hj. apply (keeps_put b _ s1). simpl fst. by rewrite Hnew.
  - unfold s2. by apply put_same.
  - intros x Hx. destruct (ring_blocks _ _ _ _ Hring x Hx) as (_ & _ & ? & _). by right.
  - done.
  - exists s', L'. split; [|split; [done|]].
    + erewrite um_bind; [|apply set_size_run; rewrite <- (Hnew 0) by lia; f_equal; lia].
      change (put b _ s1) with s2. erewrite um_bind; [|exact Hfree]. reflexivity.
    + split; [done|]. split; [done|]. split; [destruct Hbig as (y & Hy & ?); exists y; split; [done|lia]|].
      split; [intros z Hz; by apply Hk', Hk|]. intros z Hz Hzb Hzn. rewrite Hrest; [by apply Hold|done|lia|done].
Qed.

(** The free list before and after the first call of [malloc]. *)
Definition heap_ok (b : Z) (L : list block) (s : arena) : Prop :=
  base + HEADER <= b ∧
  (ring_ok base b L s ∨ freep s = 0 ∧ L = [] ∧ is_Some (units s !! base)).

Lemma malloc_ready b L s fuel nbytes :
  heap_ok b L s →
  ∃ s0 h, ring_ok base b L s0 ∧ units s0 !! freep s0 = Some h ∧ keeps (units s) (units s0) ∧
    (∀ z, z ≠ base → units s0 !! z = units s !! z) ∧
    malloc base fuel nbytes s = malloc_loop fuel (units_for nbytes) (freep s0) (h_ptr h) s0.
Proof.
  intros [Hb [Hring|(Hf & -> & [h Hh])]]; unfold malloc; (erewrite um_bind; [|reflexivity]).
  - destruct (ring_loads base b L s base_pos Hring) as [[h Hh] H0]. exists s, h.
    split; [done|]. split; [done|]. split; [by intros z|]. split; [done|].
    destruct (Z.eqb_spec (freep s) 0); [done|].
    erewrite um_bind; [|reflexivity]. by erewrite um_bind; [|by apply load_run].
  - rewrite Hf, Z.eqb_refl. set (s1 := s <| freep := base |>).
    set (s0 := put base (mkhdr base 0) s1). exists s0, (mkhdr base 0).
    assert (units s0 !! base = Some (mkhdr base 0)) as H0 by (by apply put_same).
    split; [split|].
    + done.
    + apply apart_cons. split; [by intros y ?%not_elem_of_nil|constructor].
    + by intros x ?%not_elem_of_nil.
    + exists (base, 0). split; [by left|done].
    + split; [exact H0|]. split; [apply (keeps_put base _ s1)|]. split; [intros z Hz; by apply (put_other _ _ _ s1)|].
      erewrite um_bind.
      2: { erewrite um_bind; [|reflexivity]. erewrite um_bind; [|by apply (set_ptr_run _ _ s1 h)].
           erewrite um_bind; [|apply set_size_run; by apply put_same]. rewrite put_put. reflexivity. }
      by erewrite um_bind; [|by apply load_run].
Qed.

(** What [malloc] does: it gives a block of units that were free, or that sbrk gave,
    and 0 only when no block is large enough and sbrk refuses. *)
Definition malloc_post (b : Z) (L : list block) (s : arena) (n b' r : Z) (s' : arena) : Prop :=
  (r = 0 ∧ b' = b ∧ (∀ y, y ∈ L → y.2 < n) ∧ grant b (HEADER * core_units n) = false ∧
   ring_ok base b L s' ∧ keeps (units s) (units s') ∧ ∀ z, z ≠ base → units s' !! z = units s !! z) ∨
  (∃ a L', r = a + HEADER ∧ 0 < a ∧
   (b' = b ∨ b' = b + HEADER * core_units n ∧ grant b (HEADER * core_units n) = true ∧ ∀ y, y ∈ L → y.2 < n) ∧
   ring_ok base b' L' s' ∧ block_ok base b' (units s') (a, n) ∧ (∃ q, units s' !! a = Some (mkhdr q n)) ∧
   (∀ z, a <= z < a + HEADER * n → in_blocks L z ∨ b <= z < b') ∧
   (∀ z, in_blocks L' z ↔ (in_blocks L z ∨ b <= z < b') ∧ ¬ (a <= z < a + HEADER * n)) ∧
   (length L' ≤ S (length L))%nat ∧ keeps (units s) (units s') ∧
   ∀ z, z ≠ base → z < b → ¬ in_blocks L z → units s' !! z = units s !! z).

Lemma units_for_range nbytes : 0 <= nbytes <= 2 ^ 31 - 32 → 0 < units_for nbytes < 2 ^ 27.
Proof.
  intros Hn. unfold units_for, HEADER.
  pose proof (Z.div_pos (nbytes + 16 - 1) 16). pose proof (Z.div_lt_upper_bound (nbytes + 16 - 1) 16 (2 ^ 27 - 1)).
  rewrite uint_small; lia.
Qed.

(** The units behind the header are enough, and not one too many. *)
Lemma units_for_enough nbytes :
  0 <= nbytes <= 2 ^ 31 - 32 → nbytes <= HEADER * (units_for nbytes - 1) < nbytes + HEADER.
Proof.
  intros Hn. pose proof (units_for_range nbytes Hn) as Hr. revert Hr. unfold units_for, HEADER.
  pose proof (Z.div_mod (nbytes + 16 - 1) 16). pose proof (Z.mod_pos_bound (nbytes + 16 - 1) 16).
  rewrite uint_small; lia.
Qed.

(** Memory taken after growing. *)
Lemma taken_grown b b' L L1 L2 s s0 s1 s2 n r :
  (b <= b' ∧ base + HEADER <= b) → (b' = b + HEADER * core_units n ∧ grant b (HEADER * core_units n) = true ∧ ∀ y, y ∈ L → y.2 < n) →
  (∀ z, in_blocks L1 z ↔ in_blocks L z ∨ b <= z < b') → (length L1 ≤ S (length L))%nat →
  keeps (units s) (units s0) → (∀ z, z ≠ base → units s0 !! z = units s !! z) →
  keeps (units s0) (units s1) → (∀ z, z ≠ base → z < b → ¬ in_blocks L z → units s1 !! z = units s0 !! z) →
  taken base b' L1 L2 r n s1 s2 → 0 < r →
  malloc_post b L s n b' (r + HEADER) s2.
Proof.
  intros [Hbb Hb] Hgrow Hin Hlen Hk0 Hu0 Hk1 Hu1 [T1 T2 T3 T4 T5 T6 T7 T8] Hr.
  right. exists r, L2. split_and!; try done.
  - by right.
  - intros z Hz. by apply Hin, T4.
  - intros z. by rewrite T5, Hin.
  - lia.
  - intros z Hz. by apply T7, Hk1, Hk0.
  - intros z Hz Hzb Hzn. rewrite T8, Hu1, Hu0; try done. rewrite Hin. intros [?|?]; [done|lia].
Qed.

Lemma malloc_run b L s nbytes fuel :
  heap_ok b L s → 0 <= nbytes <= 2 ^ 31 - 32 → (3 * length L + 3 ≤ fuel)%nat →
  ∃ b' r s', urun (malloc base fuel nbytes s) b = (b', Returns (r, s')) ∧
    malloc_post b L s (units_for nbytes) b' r s'.
Proof.
  intros Hheap Hn Hfuel. pose proof (units_for_range nbytes Hn) as Hu. pose proof Hheap as [Hb _].
  destruct (malloc_ready b L s fuel nbytes Hheap) as (s0 & h & Hring & Hh & Hk0 & Hu0 & ->).
  set (n := units_for nbytes) in *.
  assert (∃ k, fuel = (length L + S k)%nat ∧ (2 * S (length L) ≤ S k)%nat ∧ (length L + 2 ≤ k)%nat) as (k & -> & Hk & Hk').
  { exists (fuel - length L - 1)%nat. lia. }
  destruct (malloc_search base b base_pos L s0 n k h Hring) as [(s' & L' & r & Hrun & Hr & [T1 T2 T3 T4 T5 T6 T7 T8])|[Hsm Hrun]];
    [lia|done|..]; rewrite Hrun; clear Hrun.
  { exists b, (r + HEADER), s'. split; [done|]. right. exists r, L'. split_and!; try done.
    - by left.
    - intros z Hz. left. by apply T4.
    - intros z. rewrite T5. split; [tauto|]. intros [[?|?] ?]; [done|lia].
    - lia.
    - intros z Hz. by apply T7, Hk0.
    - intros z Hz _ Hzn. rewrite T8, Hu0; done. }
  destruct (morecore_run b L s0 n (S k) Hring Hb Hu Hk) as [[Hg Hm]|(Hg & s1 & L1 & Hm & Hring1 & Hin & Hlen & (y & Hy & Hyn) & Hk1 & Hu1)];
    rewrite (urun_bind _ _ _ _ _ _ _ Hm).
  { exists b, 0, s0. split; [done|]. by left. }
  set (b' := b + HEADER * core_units n) in *.
  assert (b <= b') as Hbb by (unfold b', core_units, HEADER; destruct (_ <? _); lia).
  destruct (ring_loads base b' L1 s1 base_pos Hring1) as [[h1 Hq] H0].
  destruct (Z.eqb_spec (freep s1) 0); [done|].
  erewrite um_bind; [|by apply load_run].
  assert (∃ k2, k = (length L1 + S k2)%nat) as [k2 ->] by (exists (k - length L1 - 1)%nat; lia).
  destruct (malloc_search base b' base_pos L1 s1 n k2 _ Hring1 ltac:(lia) Hq)
    as [(s2 & L2 & r & Hrun & Hr & HT)|[Hsm1 _]]; [|specialize (Hsm1 y Hy); lia].
  exists b', (r + HEADER), s2. rewrite Hrun. split; [done|].
  by apply (taken_grown b b' L L1 L2 s s0 s1 s2).
Qed.

(** * Programs that allocate *)

(** What a program does with its heap: allocate, give a block back, write a unit of a
    block that is behind its header. *)
Inductive mop : Type :=
| MAlloc (nbytes : Z)
| MFree (a : Z)
| MStore (a k : Z) (h : hdr).

(** The live blocks, by header, with their sizes, and what the program wrote to them. *)
Record mstate := mkmstate { m_arena : arena; m_brk : Z; m_live : gmap Z Z; m_cells : gmap Z hdr }.

Definition mstep (fuel : nat) (st : mstate) (o : mop) : option mstate :=
  let '(mkmstate s b live cells) := st in
  match o with
  | MAlloc nbytes =>
      match urun (malloc base fuel nbytes s) b with
      | (b', Returns (r, s')) =>
          Some (mkmstate s' b' (if r =? 0 then live else <[r - HEADER := units_for nbytes]> live) cells)
      | _ => None
      end
  | MFree a =>
      match live !! a with
      | Some n =>
          match urun (free fuel (a + HEADER) s) b with
          | (b', Returns (_, s')) =>
              Some (mkmstate s' b' (delete a live)
                (filter (fun c => ¬ (a <= c.1 < a + HEADER * n)) cells))
          | _ => None
          end
      | None => Some st
      end
  | MStore a k h =>
      match live !! a with
      | Some n =>
          if (0 <? k) && (k <? n)
          then Some (mkmstate (put (a + HEADER * k) h s) b live (<[a + HEADER * k := h]> cells))
          else Some st
      | None => Some st
      end
  end.

Fixpoint msteps (fuel : nat) (st : mstate) (ops : list mop) : option mstate :=
  match ops with
  | [] => Some st
  | o :: ops' => st' ← mstep fuel st o; msteps fuel st' ops'
  end.

Definition mop_ok (o : mop) : Prop :=
  match o with MAlloc nbytes => 0 <= nbytes <= 2 ^ 31 - 32 | _ => True end.

Definition in_live (live : gmap Z Z) (z : Z) : Prop :=
  ∃ a n, live !! a = Some n ∧ a <= z < a + HEADER * n.

(** The invariant: the live blocks are in the heap and there is no byte that is both in
    one of them and in another one or in a free block; each has its header, and the
    units behind it hold what was written; every byte of the heap, which began at
    [b0], is free or live. *)
Record heap_inv (b0 : Z) (L : list block) (st : mstate) : Prop := {
  inv_heap : heap_ok (m_brk st) L (m_arena st);
  inv_first : freep (m_arena st) = 0 → m_live st = ∅;
  inv_live : ∀ a n, m_live st !! a = Some n →
    block_ok base (m_brk st) (units (m_arena st)) (a, n) ∧
    (∃ q, units (m_arena st) !! a = Some (mkhdr q n)) ∧
    ∀ z, a <= z < a + HEADER * n → ¬ in_blocks L z;
  inv_apart : ∀ a n a' n', m_live st !! a = Some n → m_live st !! a' = Some n' → a ≠ a' →
    separate (a, n) (a', n');
  inv_cells : ∀ z h, m_cells st !! z = Some h →
    units (m_arena st) !! z = Some h ∧ ∃ a n, m_live st !! a = Some n ∧ a < z < a + HEADER * n;
  inv_all : ∀ z, b0 <= z < m_brk st ↔ in_blocks L z ∨ in_live (m_live st) z;
  inv_limit : b0 <= m_brk st <= heap_limit
}.

Lemma in_live_insert live a n z :
  live !! a = None → in_live (<[a := n]> live) z ↔ a <= z < a + HEADER * n ∨ in_live live z.
Proof.
  intros Ha. split.
  - intros (a' & n' & [[-> ->]|[_ H]]%lookup_insert_Some & Hz); [by left|right; by exists a', n'].
  - intros [Hz|(a' & n' & H & Hz)]; [exists a, n; by rewrite lookup_insert_eq|].
    exists a', n'. rewrite lookup_insert_ne by congruence. done.
Qed.

Lemma in_live_delete live a n z :
  live !! a = Some n → in_live live z ↔ a <= z < a + HEADER * n ∨ in_live (delete a live) z.
Proof.
  intros Ha. rewrite <- (in_live_insert (delete a live)) by apply lookup_delete_eq.
  by rewrite insert_delete_id.
Qed.

(** Blocks without a byte in common are apart. *)
Lemma separate_bytes x y :
  0 < x.2 → 0 < y.2 → (∀ z, x.1 <= z < blk_end x → ¬ (y.1 <= z < blk_end y)) → separate x y.
Proof.
  intros Hx Hy H. unfold separate. specialize (H (Z.max x.1 y.1)).
  unfold blk_end, HEADER in *. lia.
Qed.

Lemma header_byte a n : 0 < n → a <= a < a + HEADER * n.
Proof. unfold HEADER. lia. Qed.

(** A live block that a call does not touch stays as it is. *)
Lemma live_kept b0 L st a n b' s' :
  heap_inv b0 L st → m_live st !! a = Some n → m_brk st <= b' →
  keeps (units (m_arena st)) (units s') →
  (∀ z, z ≠ base → z < m_brk st → a <= z < a + HEADER * n → ¬ in_blocks L z →
     units s' !! z = units (m_arena st) !! z) →
  block_ok base b' (units s') (a, n) ∧ (∃ q, units s' !! a = Some (mkhdr q n)) ∧
  ∀ z, a <= z < a + HEADER * n → z < m_brk st ∧ units s' !! z = units (m_arena st) !! z.
Proof.
  intros Hinv Ha Hb Hk Hu. destruct (inv_live _ _ _ Hinv a n Ha) as ((B1 & B2 & B3 & B4) & (q & Hq) & Hd).
  unfold blk_end in B3. simpl in *.
  assert (∀ z, a <= z < a + HEADER * n → z < m_brk st ∧ units s' !! z = units (m_arena st) !! z) as Hsame.
  { intros z Hz. split; [lia|]. apply Hu; [unfold HEADER in *; lia|lia|done|by apply Hd]. }
  split; [|split; [|done]].
  - split_and!; try done; [unfold blk_end; simpl; lia|]. intros k Hkk. by apply Hk, B4.
  - exists q. destruct (Hsame a (header_byte a n B2)) as [_ ->]. done.
Qed.

(** A refused [malloc] keeps the invariant. *)
Lemma refused_inv b0 L s b live cells s' :
  heap_inv b0 L (mkmstate s b live cells) → ring_ok base b L s' → keeps (units s) (units s') →
  (∀ z, z ≠ base → units s' !! z = units s !! z) → heap_inv b0 L (mkmstate s' b live cells).
Proof.
  intros Hinv Hring Hk Hu. pose proof Hinv as [[Hb _] _ Hlive Hap Hcells Hall Hlim]. simpl in *.
  assert (∀ a n, live !! a = Some n → block_ok base b (units s') (a, n) ∧
    (∃ q, units s' !! a = Some (mkhdr q n)) ∧ ∀ z, a <= z < a + HEADER * n → z < b ∧ units s' !! z = units s !! z) as HK.
  { intros a m Ha. apply (live_kept b0 L _ a m b s' Hinv Ha); try done. intros z Hz _ _ _. by apply Hu. }
  split; simpl; try done.
  - split; [done|by left].
  - intros E. by destruct (ring_loads base b L s' base_pos Hring).
  - intros a m Ha. destruct (HK a m Ha) as (H1 & H2 & _). split_and!; [done..|]. by apply (Hlive a m).
  - intros z h Hz. destruct (Hcells z h Hz) as (H1 & a & m & Ha & Hr). split; [|by exists a, m].
    destruct (HK a m Ha) as (_ & _ & H3). destruct (H3 z) as [_ ->]; [lia|done].
Qed.

(** So does one that gives the block [(a, n)]. *)
Lemma alloc_inv b0 L s b live cells a n b' L' s' :
  heap_inv b0 L (mkmstate s b live cells) → 0 < n → b <= b' <= heap_limit → ring_ok base b' L' s' →
  block_ok base b' (units s') (a, n) → (∃ q, units s' !! a = Some (mkhdr q n)) →
  (∀ z, a <= z < a + HEADER * n → in_blocks L z ∨ b <= z < b') →
  (∀ z, in_blocks L' z ↔ (in_blocks L z ∨ b <= z < b') ∧ ¬ (a <= z < a + HEADER * n)) →
  keeps (units s) (units s') →
  (∀ z, z ≠ base → z < b → ¬ in_blocks L z → units s' !! z = units s !! z) →
  heap_inv b0 L' (mkmstate s' b' (<[a := n]> live) cells).
Proof.
  intros Hinv Hn Hb' Hring Hok Hhdr Hfrom Hin Hk Hu. pose proof Hinv as [[Hb _] _ Hlive Hap Hcells Hall Hlim]. simpl in *.
  assert (∀ a n, live !! a = Some n → block_ok base b' (units s') (a, n) ∧
    (∃ q, units s' !! a = Some (mkhdr q n)) ∧ ∀ z, a <= z < a + HEADER * n → z < b ∧ units s' !! z = units s !! z) as HK.
  { intros a' m Ha'. apply (live_kept b0 L _ a' m b' s' Hinv Ha'); simpl; [lia|done|].
    intros z Hz Hzb _ Hzn. by apply Hu. }
  assert (∀ z a' m, live !! a' = Some m → a' <= z < a' + HEADER * m → ¬ (in_blocks L z ∨ b <= z < b')) as Hold.
  { intros z a' m Ha' Hz [Hz'|Hz']; [by destruct (Hlive a' m Ha') as (_ & _ & Hd); apply (Hd z)|].
    destruct (HK a' m Ha') as (_ & _ & H3). destruct (H3 z Hz). lia. }
  assert (∀ a' m, live !! a' = Some m → a' ≠ a ∧ separate (a, n) (a', m)) as Hnew.
  { intros a' m Ha'. destruct (HK a' m Ha') as ((_ & Hm & _) & _). simpl in Hm. split.
    - intros ->. apply (Hold a a m Ha' (header_byte a m Hm)), Hfrom, header_byte, Hn.
    - apply separate_bytes; [done..|]. intros z Hz Hz'. by apply (Hold z a' m Ha' Hz'), Hfrom. }
  split; simpl.
  - split; [lia|by left].
  - intros E. by destruct (ring_loads base b' L' s' base_pos Hring).
  - intros a' m [[<- <-]|[_ Ha']]%lookup_insert_Some.
    + split_and!; try done. intros z Hz Hz'. by apply Hin in Hz' as [_ Hz'].
    + destruct (HK a' m Ha') as (H1 & H2 & _). split_and!; try done.
      intros z Hz Hz'. apply Hin in Hz' as [Hz' _]. by apply (Hold z a' m).
  - intros a1 n1 a2 n2 [[<- <-]|[_ H1]]%lookup_insert_Some [[<- <-]|[_ H2]]%lookup_insert_Some Hne; [done|..].
    + by apply Hnew.
    + destruct (Hnew a1 n1 H1) as [_ [?|?]]; [by right|by left].
    + by apply Hap.
  - intros z h Hz. destruct (Hcells z h Hz) as (H1 & a' & m & Ha' & Hr). destruct (Hnew a' m Ha').
    destruct (HK a' m Ha') as (_ & _ & H3). destruct (H3 z) as [_ ->]; [lia|]. split; [done|].
    exists a', m. by rewrite lookup_insert_ne.
  - intros z. rewrite in_live_insert, Hin.
    2: { destruct (live !! a) as [m|] eqn:E; [|done]. by destruct (Hnew a m E). }
    specialize (Hall z). specialize (Hfrom z). specialize (Hlive). destruct (decide (a <= z < a + HEADER * n)).
    + specialize (Hfrom ltac:(done)). split; [tauto|]. intros _. destruct Hfrom; [|lia]. destruct Hall as [_ Hall].
      specialize (Hall ltac:(by left)). lia.
    + split.
      * intros Hz. destruct (decide (z < b)); [|left; split; [right; lia|done]].
        destruct Hall as [Hall _]. destruct (Hall ltac:(lia)); [left; by split; [left|]|by right; right].
      * intros [[[Hz|Hz] _]|[Hz|Hz]]; [|lia|done|]; destruct Hall as [_ Hall]; [specialize (Hall ltac:(by left))|specialize (Hall ltac:(by right))]; lia.
  - lia.
Qed.

Lemma mstep_alloc b0 L st nbytes fuel :
  heap_inv b0 L st → 0 <= nbytes <= 2 ^ 31 - 32 → (3 * length L + 3 ≤ fuel)%nat →
  ∃ st' L', mstep fuel st (MAlloc nbytes) = Some st' ∧ heap_inv b0 L' st' ∧ (length L' ≤ S (length L))%nat.
Proof.
  intros Hinv Hn Hfuel. destruct st as [s b live cells]. pose proof Hinv as [Hheap _ _ _ _ _ Hlim]. simpl in Hheap, Hlim.
  pose proof (units_for_range nbytes Hn) as Hu. simpl.
  destruct (malloc_run b L s nbytes fuel Hheap Hn Hfuel) as (b' & r & s' & -> & Hpost).
  destruct Hpost as [(-> & -> & _ & _ & Hring & Hk & Hrest)|
    (a & L' & -> & Ha & Hgrow & Hring & Hok & Hhdr & Hfrom & Hin & Hlen & Hk & Hrest)].
  - eexists _, L. split; [done|]. split; [|lia]. by apply (refused_inv b0 L s).
  - destruct (Z.eqb_spec (a + HEADER) 0); [unfold HEADER in *; lia|].
    eexists _, L'. split; [done|]. split; [|lia]. replace (a + HEADER - HEADER) with a by lia.
    apply (alloc_inv b0 L s b); try done; [lia|].
    destruct Hgrow as [->|(-> & Hg & _)]; [lia|]. specialize (grant_limit _ _ Hg).
    unfold core_units, HEADER in *. destruct (_ <? _); lia.
Qed.

Lemma mstep_free b0 L st a fuel :
  heap_inv b0 L st → (2 * S (length L) ≤ fuel)%nat →
  ∃ st' L', mstep fuel st (MFree a) = Some st' ∧ heap_inv b0 L' st' ∧ (length L' ≤ S (length L))%nat.
Proof.
  intros Hinv Hfuel. destruct st as [s b live cells]. pose proof Hinv as [[Hb Hheap] Hfirst Hlive Hap Hcells Hall Hlim].
  simpl in *. destruct (live !! a) as [n|] eqn:Ha; [|eexists _, L; split; [done|]; split; [done|lia]].
  destruct Hheap as [Hring|(Hf & _)]; [|by rewrite Hfirst in Ha].
  destruct (Hlive a n Ha) as (Hok & (q & Hq) & Hd). pose proof Hok as (_ & Hn & _). simpl in Hn.
  destruct (free_run base b base_pos ltac:(lia) L s a n q fuel) as (s' & L' & Hrun & Hring' & Hin & Hlen & _ & Hk & Hu); try done.
  { intros x Hx. destruct (ring_blocks _ _ _ _ Hring x Hx) as (_ & Hx2 & _). apply separate_bytes; [done..|].
    intros z Hz Hz'. apply (Hd z Hz). by exists x. }
  rewrite Hrun. simpl. eexists _, L'. split; [done|]. split; [|done].
  assert (∀ a' m, live !! a' = Some m → a' ≠ a → block_ok base b (units s') (a', m) ∧
    (∃ q, units s' !! a' = Some (mkhdr q m)) ∧
    ∀ z, a' <= z < a' + HEADER * m → (z < b ∧ units s' !! z = units s !! z) ∧ ¬ (a <= z < a + HEADER * n)) as HK.
  { intros a' m Ha' Hne. pose proof (Hap a n a' m Ha Ha' ltac:(done)) as Hs. unfold separate, blk_end in Hs. simpl in Hs.
    destruct (live_kept b0 L _ a' m b s' Hinv Ha') as (H1 & H2 & H3); simpl; [lia|done| |].
    - intros z Hz _ Hz' Hzn. apply Hu; [done| |done]. unfold HEADER in *. lia.
    - split_and!; try done. intros z Hz. split; [by apply H3|lia]. }
  split; simpl; try done.
  - split; [done|by left].
  - intros E. by destruct (ring_loads base b L' s' base_pos Hring').
  - intros a' m [Hne Ha']%lookup_delete_Some. destruct (HK a' m Ha' ltac:(done)) as (H1 & H2 & H3).
    split_and!; try done. intros z Hz [Hz'|Hz']%Hin; [|by destruct (H3 z Hz)].
    by destruct (Hlive a' m Ha') as (_ & _ & Hd'); apply (Hd' z).
  - intros a1 n1 a2 n2 [_ H1]%lookup_delete_Some [_ H2]%lookup_delete_Some. by apply Hap.
  - intros z h [Hz Hout]%map_lookup_filter_Some. simpl in Hout.
    destruct (Hcells z h Hz) as (H1 & a' & m & Ha' & Hr).
    assert (a' ≠ a) as Hne by (intros ->; rewrite Ha in Ha'; injection Ha' as <-; lia).
    destruct (HK a' m Ha' Hne) as (_ & _ & H3). destruct (H3 z) as [[_ ->] _]; [lia|]. split; [done|].
    exists a', m. rewrite lookup_delete_ne by done. done.
  - intros z. rewrite Hall, Hin, (in_live_delete live a n z Ha). tauto.
Qed.

Lemma mstep_store b0 L st a k h fuel :
  heap_inv b0 L st → ∃ st', mstep fuel st (MStore a k h) = Some st' ∧ heap_inv b0 L st'.
Proof.
  intros Hinv. destruct st as [s b live cells]. pose proof Hinv as [[Hb Hheap] Hfirst Hlive Hap Hcells Hall Hlim].
  simpl in *. destruct (live !! a) as [n|] eqn:Ha; [|by eexists].
  destruct (Z.ltb_spec 0 k); [|by eexists]. destruct (Z.ltb_spec k n); [|by eexists]. simpl.
  eexists. split; [done|]. set (c := a + HEADER * k).
  destruct (Hlive a n Ha) as ((B1 & B2 & B3 & B4) & _ & Hd). simpl in *. unfold blk_end in B3. simpl in B3.
  assert (a < c < a + HEADER * n) as Hc by (unfold c, HEADER; lia).
  assert (∀ a' m, live !! a' = Some m → a' ≠ c) as Hhd.
  { intros a' m Ha' ->. destruct (decide (c = a)); [lia|]. destruct (Hlive c m Ha') as ((_ & Hm & _) & _).
    destruct (Hap a n c m Ha Ha' ltac:(done)); unfold blk_end, HEADER in *; simpl in *; lia. }
  assert (keeps (units s) (units (put c h s))) as Hk by apply keeps_put.
  split; simpl; try done.
  - split; [done|]. destruct Hheap as [[Hch Hr1 Hr2 Hr3]|(Hf & _)]; [|by rewrite Hfirst in Ha]. left.
    split; try done; [|intros x Hx; by apply (block_ok_keeps _ _ _ _ _ Hk), Hr2].
    apply (chain_ext (units s)); [|exact Hch]. intros x Hx. apply put_other. intros Ec. 
    apply elem_of_cons in Hx as [->|Hx]; [unfold HEADER in *; simpl in *; lia|]. apply (Hd c ltac:(lia)).
    exists x. split; [done|]. destruct (Hr2 x Hx) as (_ & ? & _). unfold blk_end, HEADER. lia.
  - intros a' m Ha'. destruct (Hlive a' m Ha') as (H1 & (q & H2) & H3). split_and!; try done.
    + by apply (block_ok_keeps _ _ _ _ _ Hk).
    + exists q. rewrite lookup_insert_ne; [done|]. intros E. by apply (Hhd a' m).
  - intros z h' [[<- <-]|[Hne Hz]]%lookup_insert_Some.
    + split; [by rewrite lookup_insert_eq|]. by exists a, n.
    + rewrite lookup_insert_ne by done. by apply Hcells.
Qed.
End malloc.

(** C11. malloc of up to 2^31 - 32 bytes ends, for any free list in order and
    whatever sbrk answers. It returns 0 only when no free block is large enough and
    sbrk refuses the larger of 4096 and the needed units, and then leaves the list
    as it was; otherwise it returns the address behind a header that says the size,
    of a block of free or newly given units, which leave the free list and are the
    only ones to leave it. The units behind the header hold the bytes asked for,
    with less than one unit to spare. Memory that was not free is not changed. *)
Theorem malloc_gives base grant b L s nbytes fuel :
  0 < base → (∀ b n, grant b n = true → b + n <= heap_limit) →
  heap_ok base b L s → 0 <= nbytes <= 2 ^ 31 - 32 → (3 * length L + 3 ≤ fuel)%nat →
  ∃ b' r s', run (brk_kernel grant) (malloc base fuel nbytes s) b = (b', Returns (r, s')) ∧
    malloc_post base grant b L s (units_for nbytes) b' r s' ∧
    nbytes <= HEADER * (units_for nbytes - 1) < nbytes + HEADER.
Proof.
  intros Hb Hg Hok Hn Hfuel. destruct (malloc_run base grant Hb Hg b L s nbytes fuel Hok Hn Hfuel) as (b' & r & s' & H).
  exists b', r, s'. split_and!; [apply H..|by apply units_for_enough|by apply units_for_enough].
Qed.

Section trace.
Context (base b0 : Z) (grant : Z → Z → bool).
Hypothesis base_pos : 0 < base.
Hypothesis grant_limit : ∀ b n, grant b n = true → b + n <= heap_limit.

Lemma mstep_run L st o fuel :
  heap_inv base b0 L st → mop_ok o → (3 * length L + 3 ≤ fuel)%nat →
  ∃ st' L', mstep base grant fuel st o = Some st' ∧ heap_inv base b0 L' st' ∧ (length L' ≤ S (length L))%nat.
Proof.
  intros Hinv Ho Hfuel. destruct o as [nbytes|a|a k h].
  - by apply mstep_alloc.
  - apply mstep_free; [done..|lia].
  - destruct (mstep_store base grant b0 L st a k h fuel Hinv) as (st' & Hs & Hi).
    exists st', L. split; [done|]. split; [done|lia].
Qed.

Lemma msteps_run ops L st fuel :
  heap_inv base b0 L st → Forall mop_ok ops → (3 * (length L + length ops) + 3 ≤ fuel)%nat →
  ∃ st' L', msteps base grant fuel st ops = Some st' ∧ heap_inv base b0 L' st'.
Proof.
  revert L st. induction ops as [|o ops IH]; intros L st Hinv Hok Hfuel; [by exists st, L|].
  inversion_clear Hok as [|? ? Ho Hops]. simpl in *.
  destruct (mstep_run L st o fuel Hinv Ho) as (st1 & L1 & -> & Hinv1 & Hlen); [lia|].
  simpl. apply (IH L1); [done..|lia].
Qed.
End trace.

(** The memory of a program before its first call of malloc. *)
Definition heap_start (u : gmap Z hdr) (b0 : Z) : mstate := mkmstate (mkarena u 0) b0 ∅ ∅.

Lemma heap_start_inv base u b0 :
  base + HEADER <= b0 <= heap_limit → is_Some (u !! base) → heap_inv base b0 [] (heap_start u b0).
Proof.
  intros Hb Hu. split; simpl; try done.
  - split; [lia|]. by right.
  - intros z. split; [lia|]. intros [(x & ?%not_elem_of_nil & _)|(a & n & H & _)]; [done|].
    by rewrite lookup_empty in H.
  - lia.
Qed.

(** C10. Any program that starts with an empty heap and calls malloc for at most
    2^31 - 32 bytes at a time, free and writes to its blocks in any order runs
    through: no call reads or writes memory that the process does not have, and
    every call ends. Whatever sbrk answers, at the end no byte is in two live
    blocks, each live block holds what was last written to it, and every byte sbrk
    gave is in exactly one live or free block: none is lost. *)
Theorem allocator_keeps_blocks base grant u b0 ops fuel :
  0 < base → (∀ b n, grant b n = true → b + n <= heap_limit) →
  base + HEADER <= b0 <= heap_limit → is_Some (u !! base) → Forall mop_ok ops →
  (3 * length ops + 3 ≤ fuel)%nat →
  ∃ st L, msteps base grant fuel (heap_start u b0) ops = Some st ∧ heap_inv base b0 L st.
Proof.
  intros Hbase Hg Hb Hu Hok Hfuel.
  by apply (msteps_run base b0 grant Hbase Hg ops []); [apply heap_start_inv|..].
Qed.

(** ** Concrete runs *)

Definition ex_base : Z := 4096.
Definition ex_grant (b n : Z) : bool := b + n <=? heap_limit.
Definition ex_units : gmap Z hdr := {[ ex_base := mkhdr 0 0 ]}.

Lemma ex_grant_limit b n : ex_grant b n = true → b + n <= heap_limit.
Proof. apply Z.leb_le. Qed.

Lemma malloc_gives_witness :
  ∃ b' r s', run (brk_kernel ex_grant) (malloc ex_base 3 100 (mkarena ex_units 0)) 8192 = (b', Returns (r, s')) ∧
    malloc_post ex_base ex_grant 8192 [] (mkarena ex_units 0) (units_for 100) b' r s'.
Proof.
  destruct (malloc_gives ex_base ex_grant 8192 [] (mkarena ex_units 0) 100 3) as (b' & r & s' & H1 & H2 & _).
  - reflexivity.
  - apply ex_grant_limit.
  - split; [unfold ex_base, HEADER; lia|]. right. split; [reflexivity|]. split; [reflexivity|].
    exists (mkhdr 0 0). apply lookup_singleton_eq.
  - lia.
  - simpl. lia.
  - exists b', r, s'. split; [exact H1|exact H2].
Defined.

(** Two blocks are allocated, written, the first is given back and taken again. *)
Definition ex_ops : list mop :=
  [MAlloc 100; MAlloc 40; MStore 73536 1 (mkhdr 7 8); MFree 73600; MAlloc 30].

Lemma allocator_keeps_blocks_witness :
  ∃ st L, msteps ex_base ex_grant 18 (heap_start ex_units 8192) ex_ops = Some st ∧
    heap_inv ex_base 8192 L st.
Proof.
  apply (allocator_keeps_blocks ex_base ex_grant ex_units 8192 ex_ops 18).
  - reflexivity.
  - apply ex_grant_limit.
  - unfold ex_base, HEADER, heap_limit. lia.
  - exists (mkhdr 0 0). apply lookup_singleton_eq.
  - unfold ex_ops. repeat constructor; simpl; lia.
  - simpl. lia.
Defined.

(** The blocks that are live after it, and the unit written. *)
Example ex_ops_live :
  (fun st => (map_to_list (m_live st), units (m_arena st) !! 73552)) <$>
    msteps ex_base ex_grant 18 (heap_start ex_units 8192) ex_ops =
  Some ([(73680, 3); (73536, 4)], Some (mkhdr 7 8)).
Proof. vm_compute. reflexivity. Qed.

(** Above the bound the int that sbrk gets is negative.  The kernel's growproc then
    changes nothing and sbrk gives the break, and malloc writes a header there. *)
Example malloc_huge_faults :
  (run (fun b c => (b, b, [])) (malloc ex_base 3 (2 ^ 31) (mkarena ex_units 0)) 8192).2 = Crashed.
Proof. vm_compute. reflexivity. Qed.
