(* ===== verification/Text.v ===== *)
(** The text utilities: user/cat.c, user/echo.c, user/wc.c and user/grep.c.

    A buffer is the list of the bytes read into it; pointers into it are the
    lists they point at.  The loops over [read] take fuel: one turn more than
    there are bytes to read is enough for every way the kernel cuts the input
    into pieces. *)

From Stdlib Require Import Ascii.
From stdpp Require Import base gmap strings numbers list.
From S2P Require Import Prelude Printf User.
Local Open Scope Z_scope.

(** * user/cat.c *)

Module Cat.

Fixpoint cat (fuel : nat) (fd : Z) : uprog unit :=
  match fuel with
  | O => Unfinished
  | S fuel' =>
      x ← read fd 512;
      let '(n, buf) := x in
      if 0 <? n then
        r ← write 1 (take (Z.to_nat n) buf);
        if negb (r =? n) then
          _ ← fprintf 2 (line "cat: write error") [];
          exit 1
        else cat fuel' fd
      else if n <? 0 then
        _ ← fprintf 2 (line "cat: read error") [];
        exit 1
      else Pure tt
  end.

Fixpoint files (fuel : nat) (names : list (list Z)) : uprog Z :=
  match names with
  | [] => exit 0
  | name :: names' =>
      fd ← open name O_RDONLY;
      if fd <? 0 then
        _ ← fprintf 2 (line "cat: cannot open %s") [AStr (Some name)];
        exit 1
      else
        _ ← cat fuel fd;
        _ ← close fd;
        files fuel names'
  end.

(** [argv] with the name of the program first; [argc] is its length. *)
Definition main (fuel : nat) (argv : list (list Z)) : uprog Z :=
  if (length argv <=? 1)%nat then _ ← cat fuel 0; exit 0 else files fuel (tail argv).

End Cat.

(** * user/echo.c *)

Module Echo.

Fixpoint words (args : list (list Z)) : uprog Z :=
  match args with
  | [] => exit 0
  | a :: args' =>
      _ ← write 1 a;
      match args' with
      | _ :: _ => _ ← write 1 (chars " "); words args'
      | [] => _ ← write 1 [10]; words args'
      end
  end.

Definition main (argv : list (list Z)) : uprog Z := words (tail argv).

End Echo.

(** * user/wc.c *)

Module Wc.

Record counts := mkcounts { l_ : Z; w_ : Z; c_ : Z; inword : bool }.

Definition spaces : list Z := [32; 13; 9; 10; 11].

(** The body of the inner loop. *)
Definition count (k : counts) (b : Z) : counts :=
  let c := int (c_ k + 1) in
  let l := if b =? 10 then int (l_ k + 1) else l_ k in
  if strchr spaces b then mkcounts l (w_ k) c false
  else if negb (inword k) then mkcounts l (int (w_ k + 1)) c true
  else mkcounts l (w_ k) c (inword k).

Fixpoint wc_loop (fuel : nat) (fd : Z) (k : counts) : uprog (Z * counts) :=
  match fuel with
  | O => Unfinished
  | S fuel' =>
      x ← read fd 512;
      let '(n, buf) := x in
      if 0 <? n then wc_loop fuel' fd (foldl count k (take (Z.to_nat n) buf)) else Pure (n, k)
  end.

Definition wc (fuel : nat) (fd : Z) (name : list Z) : uprog unit :=
  x ← wc_loop fuel fd (mkcounts 0 0 0 false);
  let '(n, k) := x in
  if n <? 0 then _ ← printf (line "wc: read error") []; exit 1
  else printf (line "%d %d %d %s") [ANum (l_ k); ANum (w_ k); ANum (c_ k); AStr (Some name)].

Fixpoint files (fuel : nat) (names : list (list Z)) : uprog Z :=
  match names with
  | [] => exit 0
  | name :: names' =>
      fd ← open name O_RDONLY;
      if fd <? 0 then
        _ ← printf (line "wc: cannot open %s") [AStr (Some name)];
        exit 1
      else
        _ ← wc fuel fd name;
        _ ← close fd;
        files fuel names'
  end.

Definition main (fuel : nat) (argv : list (list Z)) : uprog Z :=
  if (length argv <=? 1)%nat then _ ← wc fuel 0 []; exit 0 else files fuel (tail argv).

End Wc.

(** * user/grep.c *)

Module Grep.

Definition star : Z := chr "*".
Definition dot : Z := chr ".".
Definition dollar : Z := chr "$".
Definition caret : Z := chr "^".

(** [matchstar(c, re, text)], given the matcher of [re]. *)
Fixpoint matchstar (here : list Z → bool) (c : Z) (text : list Z) : bool :=
  here text ||
  match text with
  | [] => false
  | t :: text' => ((t =? c) || (c =? dot)) && matchstar here c text'
  end.

Fixpoint matchhere (re text : list Z) {struct re} : bool :=
  match re with
  | [] => true
  | c :: re1 =>
      let once :=
        if (c =? dollar) && bool_decide (re1 = []) then bool_decide (text = [])
        else match text with
             | t :: text' => ((c =? dot) || (c =? t)) && matchhere re1 text'
             | [] => false
             end in
      match re1 with
      | s :: re2 => if s =? star then matchstar (matchhere re2) c text else once
      | [] => once
      end
  end.

(** The [do] loop of [match]. *)
Fixpoint match_from (re text : list Z) : bool :=
  matchhere re text ||
  match text with
  | [] => false
  | _ :: text' => match_from re text'
  end.

Definition match_ (re text : list Z) : bool :=
  match re with
  | c :: re' => if c =? caret then matchhere re' text else match_from re text
  | [] => match_from re text
  end.

(** [strchr(p, '\n')] in the nul-terminated buffer: the line before the newline and
    what follows it. *)
Fixpoint find_nl (p : list Z) : option (list Z * list Z) :=
  match p with
  | [] => None
  | b :: p' =>
      if b =? 0 then None
      else if b =? 10 then Some ([], p')
      else '(l, q) ← find_nl p'; Some (b :: l, q)
  end.

(** The inner loop: prints the matching lines of [p], gives what is left after the
    last newline.  Each turn removes a newline from the buffer. *)
Fixpoint lines (fuel : nat) (pattern p : list Z) : uprog (list Z) :=
  match fuel with
  | O => Unfinished
  | S fuel' =>
      match find_nl p with
      | None => Pure p
      | Some (l, q) =>
          if match_ pattern l then _ ← write 1 (l ++ [10]); lines fuel' pattern q
          else lines fuel' pattern q
      end
  end.

(** [pend] is buf[0..m). *)
Fixpoint grep (fuel : nat) (pattern : list Z) (fd : Z) (pend : list Z) : uprog unit :=
  match fuel with
  | O => Unfinished
  | S fuel' =>
      x ← read fd (1024 - Z.of_nat (length pend) - 1);
      let '(n, out) := x in
      if 0 <? n then
        let buf := pend ++ take (Z.to_nat n) out in
        pend' ← lines (S (length buf)) pattern buf;
        grep fuel' pattern fd pend'
      else Pure tt
  end.

Fixpoint files (fuel : nat) (pattern : list Z) (names : list (list Z)) : uprog Z :=
  match names with
  | [] => exit 0
  | name :: names' =>
      fd ← open name O_RDONLY;
      if fd <? 0 then
        _ ← printf (line "grep: cannot open %s") [AStr (Some name)];
        exit 1
      else
        _ ← grep fuel pattern fd [];
        _ ← close fd;
        files fuel pattern names'
  end.

Definition main (fuel : nat) (argv : list (list Z)) : uprog Z :=
  match argv with
  | _ :: pattern :: names =>
      match names with
      | [] => _ ← grep fuel pattern 0 []; exit 0
      | _ => files fuel pattern names
      end
  | _ =>
      _ ← fprintf 2 (line "usage: grep pattern [file ...]") [];
      exit 1
  end.

End Grep.

(** * What a pattern means *)

Module Regex.

(** A pattern is a sequence of characters, each once or any number of times, that
    may be tied to the start and to the end of the line. *)
Inductive item : Type := Once (c : Z) | Star (c : Z).
Record pattern := mkpattern { at_start : bool; items : list item; at_end : bool }.

(** A dot stands for any character. *)
Definition stands (c t : Z) : Prop := c = Grep.dot ∨ c = t.

Fixpoint lang (p : list item) (w : list Z) : Prop :=
  match p with
  | [] => w = []
  | Once c :: p' => ∃ t w', w = t :: w' ∧ stands c t ∧ lang p' w'
  | Star c :: p' => ∃ w1 w2, w = w1 ++ w2 ∧ Forall (stands c) w1 ∧ lang p' w2
  end.

(** The line has a part in the language of the pattern, at its ends where the pattern
    is tied to them. *)
Definition found (p : pattern) (text : list Z) : Prop :=
  ∃ pre w post, text = pre ++ w ++ post ∧ lang (items p) w ∧
    (at_start p = true → pre = []) ∧ (at_end p = true → post = []).

(** How a pattern is written. *)
Fixpoint read_items (re : list Z) : list item * bool :=
  match re with
  | [] => ([], false)
  | c :: re1 =>
      let once := if (c =? Grep.dollar) && bool_decide (re1 = []) then ([], true)
                  else let '(p, e) := read_items re1 in (Once c :: p, e) in
      match re1 with
      | s :: re2 =>
          if s =? Grep.star then let '(p, e) := read_items re2 in (Star c :: p, e) else once
      | [] => once
      end
  end.

Definition read_pattern (re : list Z) : pattern :=
  match re with
  | c :: re' =>
      if c =? Grep.caret then let '(p, e) := read_items re' in mkpattern true p e
      else let '(p, e) := read_items re in mkpattern false p e
  | [] => mkpattern false [] false
  end.

(** [re] matches at the start of the text. *)
Definition here (p : list item * bool) (text : list Z) : Prop :=
  ∃ w post, text = w ++ post ∧ lang p.1 w ∧ (p.2 = true → post = []).

Lemma stands_spec c t : (c =? Grep.dot) || (c =? t) = true ↔ stands c t.
Proof. unfold stands. rewrite orb_true_iff, !Z.eqb_eq. done. Qed.

Lemma stands_spec' c t : (t =? c) || (c =? Grep.dot) = true ↔ stands c t.
Proof. rewrite orb_comm, (Z.eqb_sym t c). apply stands_spec. Qed.

Lemma matchstar_here (f : list Z → bool) p e c text :
  (∀ text, f text = true ↔ here (p, e) text) →
  Grep.matchstar f c text = true ↔ here (Star c :: p, e) text.
Proof.
  intros Hf. induction text as [|t text IH]; cbn [Grep.matchstar]; rewrite orb_true_iff, Hf.
  - unfold here. simpl. split.
    + intros [(w & post & Ht & Hl & He)|]; [|done]. exists w, post. split_and!; [done| |done].
      exists [], w. by split_and!.
    + intros (w & post & Ht & (w1 & w2 & -> & Hw1 & Hw2) & He). left.
      symmetry in Ht. apply app_eq_nil in Ht as [[-> ->]%app_eq_nil ->]. by exists [], [].
  - rewrite andb_true_iff, stands_spec', IH. unfold here. simpl. split.
    + intros [(w & post & Ht & Hl & He)|(Hs & w & post & -> & (w1 & w2 & -> & Hw1 & Hw2) & He)].
      * exists w, post. split_and!; [done| |done]. exists [], w. by split_and!.
      * exists (t :: w1 ++ w2), post. split_and!; [done| |done].
        exists (t :: w1), w2. split_and!; [done|by constructor|done].
    + intros (w & post & Ht & (w1 & w2 & -> & Hw1 & Hw2) & He).
      destruct w1 as [|t' w1]; [left; by exists w2, post|]. right.
      simpl in Ht. injection Ht as <- ->. apply Forall_cons in Hw1 as [Hs Hw1]. split; [done|].
      exists (w1 ++ w2), post. split_and!; [done| |done]. by exists w1, w2.
Qed.

Lemma here_once c p e t text :
  here (Once c :: p, e) (t :: text) ↔ stands c t ∧ here (p, e) text.
Proof.
  unfold here. simpl. split.
  - intros (w & post & Ht & (t' & w' & -> & Hs & Hl) & He). simpl in Ht. injection Ht as <- ->.
    split; [done|]. by exists w', post.
  - intros (Hs & w & post & -> & Hl & He). exists (t :: w), post. split_and!; [done| |done].
    by exists t, w.
Qed.

Lemma here_once_nil c p e : ¬ here (Once c :: p, e) [].
Proof. by intros (w & post & Ht & (t & w' & -> & _) & _). Qed.

Lemma here_end text : here ([], true) text ↔ text = [].
Proof.
  split.
  - intros (w & post & -> & Hw & He). simpl in *. by rewrite Hw, (He eq_refl).
  - intros ->. by exists [], [].
Qed.

(** Patterns of [n] characters or fewer. *)
Lemma matchhere_here n re text :
  (length re ≤ n)%nat → Grep.matchhere re text = true ↔ here (read_items re) text.
Proof.
  revert re text. induction n as [|n IH]; intros re text Hn.
  { destruct re; [|simpl in Hn; lia]. split; [|done]. intros _. by exists [], text. }
  destruct re as [|c re1]; [split; [|done]; intros _; by exists [], text|].
  simpl in Hn.
  assert (Honce : (if (c =? Grep.dollar) && bool_decide (re1 = []) then bool_decide (text = [])
                   else match text with
                        | t :: text' => ((c =? Grep.dot) || (c =? t)) && Grep.matchhere re1 text'
                        | [] => false
                        end) = true ↔
                  here (if (c =? Grep.dollar) && bool_decide (re1 = []) then ([], true)
                        else let '(p, e) := read_items re1 in (Once c :: p, e)) text).
  { destruct ((c =? Grep.dollar) && bool_decide (re1 = [])).
    - by rewrite here_end, bool_decide_eq_true.
    - destruct (read_items re1) as [p e] eqn:Hr. destruct text as [|t text].
      + split; [done|]. by intros ?%here_once_nil.
      + rewrite andb_true_iff, stands_spec, here_once, IH, Hr by lia. done. }
  destruct re1 as [|s re2]; [exact Honce|]. cbn [Grep.matchhere read_items].
  destruct (s =? Grep.star); [|exact Honce].
  destruct (read_items re2) as [p e] eqn:Hr. apply matchstar_here. intros text'.
  rewrite IH, Hr; [done|]. simpl in Hn. lia.
Qed.

Lemma match_from_found re text :
  Grep.match_from re text = true ↔
  found (mkpattern false (read_items re).1 (read_items re).2) text.
Proof.
  assert (Hh : ∀ t, Grep.matchhere re t = true ↔ here (read_items re) t).
  { intros t. by apply (matchhere_here (length re)). }
  induction text as [|t text IH]; cbn [Grep.match_from]; rewrite orb_true_iff, Hh.
  - split.
    + intros [(w & post & Ht & Hl & He)|]; [|done]. by exists [], w, post.
    + intros (pre & w & post & Ht & Hl & _ & He). left. symmetry in Ht.
      apply app_eq_nil in Ht as [_ Ht]. by exists w, post.
  - rewrite IH. split.
    + intros [(w & post & Ht & Hl & He)|(pre & w & post & -> & Hl & _ & He)].
      * by exists [], w, post.
      * by exists (t :: pre), w, post.
    + intros (pre & w & post & Ht & Hl & _ & He). destruct pre as [|t' pre].
      * left. by exists w, post.
      * right. simpl in Ht. injection Ht as <- ->. by exists pre, w, post.
Qed.

(** C12. match(re, text) holds exactly when some part of the text is in the language
    of the pattern, where a character stands for itself, a dot for any character, a
    following star for any number of repetitions, and ^ and $ tie the part to the
    start and the end of the text. *)
Theorem match_finds re text : Grep.match_ re text = true ↔ found (read_pattern re) text.
Proof.
  unfold Grep.match_, read_pattern.
  destruct re as [|c re]; [exact (match_from_found [] text)|].
  destruct (c =? Grep.caret).
  - rewrite (matchhere_here (length re)) by done. destruct (read_items re) as [p e]. split.
    + intros (w & post & Ht & Hl & He). by exists [], w, post.
    + intros (pre & w & post & Ht & Hl & Hs & He). rewrite (Hs eq_refl) in Ht. by exists w, post.
  - rewrite match_from_found. by destruct (read_items (c :: re)) as [p e].
Qed.

End Regex.

(** * A kernel that serves an input in pieces *)

(** [rest] is what is left of the input, [sizes] how many bytes it has ready for the
    next reads, [sent] what was written to descriptor 1. *)
Record stream := mkstream { rest : list Z; sizes : list nat; sent : list Z }.

Definition ready (s : stream) : nat := (1 `max` default 1 (head (sizes s)))%nat.

Definition serve (s : stream) (c : ucall) : stream * Z * list Z :=
  match c with
  | SysRead fd n =>
      let data := take (Z.to_nat n `min` ready s)%nat (rest s) in
      (mkstream (drop (length data) (rest s)) (tail (sizes s)) (sent s), Z.of_nat (length data), data)
  | SysWrite fd bytes =>
      (mkstream (rest s) (sizes s) (if fd =? 1 then sent s ++ bytes else sent s),
       Z.of_nat (length bytes), [])
  | _ => (s, -1, [])
  end.

(** A read for at least one byte either ends the input or takes a first part of it. *)
Lemma serve_read s fd n :
  0 < n →
  (rest s = [] ∧ serve s (SysRead fd n) = (mkstream [] (tail (sizes s)) (sent s), 0, [])) ∨
  ∃ data r, rest s = data ++ r ∧ data ≠ [] ∧ Z.of_nat (length data) ≤ n ∧
    serve s (SysRead fd n) =
      (mkstream r (tail (sizes s)) (sent s), Z.of_nat (length data), data).
Proof.
  intros Hn. cbn [serve]. set (k := (Z.to_nat n `min` ready s)%nat).
  assert (Hk : (1 ≤ k)%nat) by (unfold k, ready; lia).
  assert (Hkn : Z.of_nat k ≤ n) by (unfold k; lia). clearbody k.
  destruct (rest s) as [|b l] eqn:Hr; [left; by rewrite take_nil|].
  right. exists (take k (b :: l)), (drop (length (take k (b :: l))) (b :: l)). split_and!.
  - rewrite length_take. destruct (decide (k ≤ length (b :: l))%nat) as [Hle|Hgt].
    + rewrite Nat.min_l by done. by rewrite take_drop.
    + rewrite Nat.min_r, take_ge, drop_ge, app_nil_r by lia. done.
  - destruct k; [lia|]. done.
  - rewrite length_take. lia.
  - done.
Qed.

Lemma take_whole (n : Z) (l : list Z) : n = Z.of_nat (length l) → take (Z.to_nat n) l = l.
Proof. intros ->. rewrite Nat2Z.id. by apply take_ge. Qed.

(** * cat *)

(** However read cuts the input into pieces, cat writes all of it and returns. *)
Theorem cat_copies fuel fd s :
  (length (rest s) < fuel)%nat →
  ∃ sz, run serve (Cat.cat fuel fd) s = (mkstream [] sz (sent s ++ rest s), Returns tt).
Proof.
  revert s. induction fuel as [|fuel IH]; intros s Hf; [lia|]. cbn [Cat.cat].
  rewrite run_bind. cbn [read run]. destruct (serve_read s fd 512) as [[Hr ->]|H]; [done| |].
  { cbn. exists (tail (sizes s)). by rewrite Hr, app_nil_r. }
  destruct H as (data & r & Hr & Hne & Hlen & ->). cbn [run].
  assert (Hpos : 0 < Z.of_nat (length data)) by (destruct data; [done|simpl; lia]).
  destruct (Z.ltb_spec 0 (Z.of_nat (length data))); [|lia].
  rewrite run_bind. cbn [write call run serve]. rewrite take_whole by done.
  rewrite Z.eqb_refl. cbn [negb]. edestruct IH as [sz ->].
  { simpl. rewrite Hr, length_app in Hf. lia. }
  exists sz. cbn. by rewrite Hr, app_assoc.
Qed.

Lemma cat_copies_witness :
  ∃ sz, run serve (Cat.cat 6 3) (mkstream (chars "hello") [2; 1]%nat []) =
        (mkstream [] sz (chars "hello"), Returns tt).
Proof. apply (cat_copies 6 3 (mkstream (chars "hello") [2; 1]%nat [])). simpl. lia. Defined.

(** * wc *)

Module WcSpec.

(** Words are maximal runs of characters that are not spaces: one starts at each
    character that is not a space after a space or at the start. *)
Fixpoint word_starts (after_space : bool) (l : list Z) : nat :=
  match l with
  | [] => 0
  | b :: l' =>
      if bool_decide (b ∈ Wc.spaces) then word_starts true l'
      else (if after_space then 1 else 0) + word_starts false l'
  end.

Definition newlines (l : list Z) : nat := length (filter (fun b => b = 10) l).

Lemma strchr_spaces b : strchr Wc.spaces b = bool_decide (b ∈ Wc.spaces).
Proof.
  unfold strchr. destruct (Z.eqb_spec b 0) as [->|]; [|by rewrite andb_true_r].
  rewrite andb_false_r. symmetry. apply bool_decide_eq_false_2. vm_compute. set_solver.
Qed.

(** The counters stay exact while the counts fit an int. *)
Lemma count_all l k :
  0 ≤ Wc.l_ k → 0 ≤ Wc.w_ k → 0 ≤ Wc.c_ k →
  Wc.l_ k + Z.of_nat (length l) < 2 ^ 31 → Wc.w_ k + Z.of_nat (length l) < 2 ^ 31 →
  Wc.c_ k + Z.of_nat (length l) < 2 ^ 31 →
  let k' := foldl Wc.count k l in
  Wc.l_ k' = Wc.l_ k + Z.of_nat (newlines l) ∧
  Wc.w_ k' = Wc.w_ k + Z.of_nat (word_starts (negb (Wc.inword k)) l) ∧
  Wc.c_ k' = Wc.c_ k + Z.of_nat (length l).
Proof.
  revert k. induction l as [|b l IH]; intros k Hl Hw Hc Hlb Hwb Hcb; [simpl; unfold newlines; simpl; lia|].
  cbn [foldl length] in *. rewrite Nat2Z.inj_succ in *.
  assert (Hnl : newlines (b :: l) = ((if (b =? 10)%Z then 1 else 0) + newlines l)%nat).
  { unfold newlines. rewrite filter_cons. destruct (Z.eqb_spec b 10).
    - by rewrite decide_True.
    - by rewrite decide_False. }
  rewrite Hnl. cbn [word_starts]. rewrite <- strchr_spaces.
  assert (Hi : ∀ z, 0 ≤ z → z + Z.succ (Z.of_nat (length l)) < 2 ^ 31 → int (z + 1) = z + 1).
  { intros z Hz Hzb. apply int_small. lia. }
  unfold Wc.count at 2 4 6. rewrite (Hi (Wc.c_ k)), (Hi (Wc.l_ k)), (Hi (Wc.w_ k)) by lia.
  destruct (strchr Wc.spaces b), (b =? 10), (Wc.inword k) eqn:Hin; cbn [negb];
    match goal with |- context [foldl Wc.count ?k' l] => specialize (IH k') end;
    cbn [Wc.l_ Wc.w_ Wc.c_ Wc.inword negb] in IH; rewrite ?Hin in *; lia.
Qed.

Lemma newlines_app l1 l2 : newlines (l1 ++ l2) = (newlines l1 + newlines l2)%nat.
Proof. unfold newlines. by rewrite filter_app, length_app. Qed.

(** The loop over [read] counts as one pass over the whole input. *)
Lemma wc_loop_folds fuel fd k s :
  (length (rest s) < fuel)%nat →
  ∃ sz, run serve (Wc.wc_loop fuel fd k) s =
        (mkstream [] sz (sent s), Returns (0, foldl Wc.count k (rest s))).
Proof.
  revert s k. induction fuel as [|fuel IH]; intros s k Hf; [lia|]. cbn [Wc.wc_loop].
  rewrite run_bind. cbn [read run]. destruct (serve_read s fd 512) as [[Hr ->]|H]; [done| |].
  { cbn. exists (tail (sizes s)). by rewrite Hr. }
  destruct H as (data & r & Hr & Hne & Hlen & ->). cbn [run].
  assert (Hpos : 0 < Z.of_nat (length data)) by (destruct data; [done|simpl; lia]).
  destruct (Z.ltb_spec 0 (Z.of_nat (length data))); [|lia].
  rewrite take_whole by done. edestruct IH as [sz ->].
  { simpl. rewrite Hr, length_app in Hf. lia. }
  exists sz. cbn. by rewrite Hr, foldl_app.
Qed.

(** However read cuts an input of less than 2^31 bytes into pieces, wc counts
    its newlines, its bytes and its words, a word being a maximal run of characters
    that are not spaces. *)
Theorem wc_counts fuel fd s :
  (length (rest s) < fuel)%nat → Z.of_nat (length (rest s)) < 2 ^ 31 →
  ∃ sz k, run serve (Wc.wc_loop fuel fd (Wc.mkcounts 0 0 0 false)) s =
            (mkstream [] sz (sent s), Returns (0, k)) ∧
    Wc.l_ k = Z.of_nat (newlines (rest s)) ∧
    Wc.w_ k = Z.of_nat (word_starts true (rest s)) ∧
    Wc.c_ k = Z.of_nat (length (rest s)).
Proof.
  intros Hf Hb. destruct (wc_loop_folds fuel fd (Wc.mkcounts 0 0 0 false) s Hf) as [sz ->].
  eexists sz, _. split; [done|].
  apply (count_all (rest s) (Wc.mkcounts 0 0 0 false)); simpl; lia.
Qed.

Lemma wc_counts_witness :
  ∃ sz k, run serve (Wc.wc_loop 20 0 (Wc.mkcounts 0 0 0 false))
            (mkstream (line "two words" ++ line "three") [3; 5]%nat []) =
            (mkstream [] sz [], Returns (0, k)) ∧ Wc.l_ k = 2 ∧ Wc.w_ k = 3 ∧ Wc.c_ k = 16.
Proof.
  apply (wc_counts 20 0 (mkstream (line "two words" ++ line "three") [3; 5]%nat []));
    vm_compute; [lia|done].
Defined.

End WcSpec.

(** * grep *)

Module GrepSpec.

(** The lines of an input that end in a newline, and what follows the last one. *)
Fixpoint split_lines (cur l : list Z) : list (list Z) * list Z :=
  match l with
  | [] => ([], cur)
  | b :: l' =>
      if b =? 10 then let '(ls, last_) := split_lines [] l' in (cur :: ls, last_)
      else split_lines (cur ++ [b]) l'
  end.

Definition printed (pattern : list Z) (ls : list (list Z)) : list Z :=
  concat ((fun l => l ++ [10]) <$> filter (fun l => Grep.match_ pattern l = true) ls).

(** Every line fits into the buffer. *)
Definition fit (x : list (list Z) * list Z) : Prop :=
  Forall (fun l => (length l < 1023)%nat) x.1 ∧ (length x.2 < 1023)%nat.

Lemma split_lines_app cur l1 l2 :
  split_lines cur (l1 ++ l2) =
  let '(ls1, last1_) := split_lines cur l1 in
  let '(ls2, last2_) := split_lines last1_ l2 in (ls1 ++ ls2, last2_).
Proof.
  revert cur. induction l1 as [|b l1 IH]; intros cur; simpl; [by destruct split_lines|].
  destruct (b =? 10); [|apply IH]. rewrite IH.
  destruct (split_lines [] l1) as [ls1 last1_]. by destruct (split_lines last1_ l2).
Qed.

Lemma split_lines_plain cur l : Forall (fun b => b ≠ 10) l → split_lines cur l = ([], cur ++ l).
Proof.
  intros Hl. revert cur. induction Hl as [|b l Hb Hl IH]; intros cur; simpl; [by rewrite app_nil_r|].
  destruct (Z.eqb_spec b 10); [done|]. rewrite IH. by rewrite <- app_assoc.
Qed.

Lemma split_lines_last (P : Z → Prop) cur l :
  Forall P cur → Forall P l → Forall P (split_lines cur l).2.
Proof.
  intros Hc Hl. revert cur Hc. induction Hl as [|b l Hb Hl IH]; intros cur Hc; simpl; [done|].
  destruct (b =? 10).
  - specialize (IH [] (Forall_nil_2 _)). by destruct (split_lines [] l).
  - apply IH. apply Forall_app. by repeat constructor.
Qed.

Lemma split_lines_last_nl cur l :
  Forall (fun b => b ≠ 10) cur → Forall (fun b => b ≠ 10) (split_lines cur l).2.
Proof.
  revert cur. induction l as [|b l IH]; intros cur Hc; simpl; [done|].
  destruct (Z.eqb_spec b 10).
  - specialize (IH [] (Forall_nil_2 _)). by destruct (split_lines [] l).
  - apply IH. apply Forall_app. by repeat constructor.
Qed.

Lemma printed_app pattern ls1 ls2 :
  printed pattern (ls1 ++ ls2) = printed pattern ls1 ++ printed pattern ls2.
Proof. unfold printed. by rewrite filter_app, fmap_app, concat_app. Qed.

Lemma printed_cons pattern l ls :
  printed pattern (l :: ls) =
  (if Grep.match_ pattern l then l ++ [10] else []) ++ printed pattern ls.
Proof.
  unfold printed. rewrite filter_cons. destruct (Grep.match_ pattern l).
  - by rewrite decide_True.
  - by rewrite decide_False.
Qed.

(** The line being read is a first part of a line. *)
Lemma fit_cur cur l : fit (split_lines cur l) → (length cur < 1023)%nat.
Proof.
  revert cur. induction l as [|b l IH]; intros cur; simpl; [by intros []|].
  destruct (b =? 10).
  - destruct (split_lines [] l). intros [Hl _]. by apply Forall_cons in Hl as [? _].
  - intros H%IH. rewrite length_app in H. simpl in H. lia.
Qed.

Lemma find_nl_split l cur :
  Forall (fun b => b ≠ 0) l →
  match Grep.find_nl l with
  | None => split_lines cur l = ([], cur ++ l)
  | Some (x, q) =>
      split_lines cur l = (let '(ls, last_) := split_lines [] q in ((cur ++ x) :: ls, last_)) ∧
      (length q < length l)%nat ∧ Forall (fun b => b ≠ 0) q
  end.
Proof.
  intros Hl. revert cur. induction Hl as [|b l Hb Hl IH]; intros cur; simpl; [by rewrite app_nil_r|].
  destruct (Z.eqb_spec b 0); [done|]. destruct (Z.eqb_spec b 10) as [->|].
  - rewrite app_nil_r. split_and!; [done|lia|done].
  - specialize (IH (cur ++ [b])). destruct (Grep.find_nl l) as [[x q]|]; simpl.
    + rewrite <- app_assoc in IH. destruct IH as (-> & ? & ?). split_and!; [done|lia|done].
    + by rewrite <- app_assoc in IH.
Qed.

Lemma lines_prints fuel pattern l s :
  Forall (fun b => b ≠ 0) l → (length l < fuel)%nat →
  run serve (Grep.lines fuel pattern l) s =
  (mkstream (rest s) (sizes s) (sent s ++ printed pattern (split_lines [] l).1),
   Returns (split_lines [] l).2).
Proof.
  revert l s. induction fuel as [|fuel IH]; intros l s Hl Hf; [lia|]. cbn [Grep.lines].
  pose proof (find_nl_split l [] Hl) as Hs. destruct (Grep.find_nl l) as [[x q]|].
  - destruct Hs as (-> & Hq & Hnz). destruct (split_lines [] q) as [ls last_] eqn:Hsq.
    cbn [fst snd app]. rewrite printed_cons. destruct (Grep.match_ pattern x).
    + rewrite run_bind. cbn [write call run serve]. rewrite IH by (done || lia).
      rewrite Hsq. cbn. by rewrite <- !app_assoc.
    + rewrite IH by (done || lia). by rewrite Hsq.
  - rewrite Hs. cbn. rewrite app_nil_r. by destruct s.
Qed.

(** C13. However read cuts the input into pieces, grep runs to the end of the input
    and prints exactly the lines that end in a newline and match the pattern, in
    order, provided the input has no nul byte and no line longer than the 1022
    characters the buffer holds. *)
Theorem grep_prints fuel pattern fd pend s :
  (length (rest s) < fuel)%nat → Forall (fun b => b ≠ 0) (pend ++ rest s) →
  Forall (fun b => b ≠ 10) pend → fit (split_lines pend (rest s)) →
  ∃ sz, run serve (Grep.grep fuel pattern fd pend) s =
    (mkstream [] sz (sent s ++ printed pattern (split_lines pend (rest s)).1), Returns tt).
Proof.
  revert pend s. induction fuel as [|fuel IH]; intros pend s Hf Hnz Hpend Hfit; [lia|].
  cbn [Grep.grep]. pose proof (fit_cur _ _ Hfit) as Hcur.
  rewrite run_bind. cbn [read run].
  destruct (serve_read s fd (1024 - Z.of_nat (length pend) - 1)) as [[Hr ->]|H]; [lia| |].
  { cbn. exists (tail (sizes s)). by rewrite Hr, app_nil_r. }
  destruct H as (data & r & Hr & Hne & Hlen & ->). cbn [run].
  assert (Hpos : 0 < Z.of_nat (length data)) by (destruct data; [done|simpl; lia]).
  destruct (Z.ltb_spec 0 (Z.of_nat (length data))); [|lia].
  rewrite take_whole by done. rewrite Hr in *. rewrite app_assoc in Hnz.
  apply Forall_app in Hnz as [Hnz1 Hnz2].
  rewrite run_bind, lines_prints by (done || lia). cbn [sent rest sizes].
  rewrite (split_lines_app [] pend), (split_lines_plain [] pend) by done. cbn [app].
  rewrite (split_lines_app pend data r) in *.
  pose proof (split_lines_last (fun b => b ≠ 0) pend data) as Hz.
  pose proof (split_lines_last_nl pend data Hpend) as Hn.
  destruct (split_lines pend data) as [ls1 last1_]. cbn [fst snd] in *.
  destruct (split_lines last1_ r) as [ls2 last2_] eqn:Hs2.
  destruct Hfit as [[_ Hf2]%Forall_app Hlast]. cbn [fst snd] in *.
  apply Forall_app in Hnz1 as [Hp Hd].
  edestruct (IH last1_ (mkstream r (tail (sizes s)) (sent s ++ printed pattern ls1))) as [sz ->].
  - cbn. rewrite length_app in Hf. lia.
  - cbn. apply Forall_app. auto.
  - done.
  - cbn. by rewrite Hs2.
  - exists sz. cbn. by rewrite Hs2, printed_app, <- app_assoc.
Qed.

Lemma grep_prints_witness :
  ∃ sz, run serve (Grep.grep 40 (chars "^a.*t$") 0 [])
          (mkstream (line "apt" ++ line "cat" ++ line "at home" ++ chars "ant") [2; 7; 1]%nat []) =
        (mkstream [] sz (line "apt"), Returns tt).
Proof.
  destruct (grep_prints 40 (chars "^a.*t$") 0 []
    (mkstream (line "apt" ++ line "cat" ++ line "at home" ++ chars "ant") [2; 7; 1]%nat []))
    as [sz Hr].
  - vm_compute. lia.
  - vm_compute. repeat constructor; lia.
  - constructor.
  - split; vm_compute; repeat constructor; lia.
  - exists sz. rewrite Hr. vm_compute. reflexivity.
Defined.

End GrepSpec.
