(* ===== verification/Sh.v ===== *)
(** The shell, user/sh.c.

    The line is a nul-terminated buffer and pointers into it are positions.  The
    parsed commands are nodes of a heap that [malloc] hands out in order, so that
    [parseexec] can go on filling a node that a redirection already points at;
    [cap] is the number of nodes there is memory for. *)

From Stdlib Require Import Ascii.
From stdpp Require Import base gmap strings numbers list.
From S2P Require Import Prelude Printf User.
Local Open Scope Z_scope.

(** * Commands *)

Definition MAXARGS : nat := 10%nat.

(** [None] is the null pointer.  Commands point to nodes, arguments into the line. *)
Inductive cmd : Type :=
| EXEC (argv eargv : list (option nat))
| REDIR (c : nat) (file efile : nat) (mode fd : Z)
| PIPE (left_ right_ : nat)
| LIST (left_ right_ : nat)
| BACK (c : nat).

(** The position [*ps], the line and the commands allocated so far. *)
Record parser := mkparser { pos : nat; sbuf : list Z; heap : list cmd }.

#[global] Instance eta_parser : Settable parser := fun s => mkparser (pos s) (sbuf s) (heap s).

(** Programs over the state of the parser. *)
Abbreviation P := (UM parser).

(** [*s], which is undefined outside the buffer. *)
Definition char_at (i : nat) : P Z :=
  s ← get; match sbuf s !! i with Some b => mret b | None => stuck end.

Definition panic {A} (s : string) : uprog A :=
  _ ← fprintf 2 (line "%s") [AStr (Some (chars s))];
  exit 1.

Definition fork1 : uprog Z :=
  pid ← fork;
  if pid =? -1 then panic "fork" else Pure pid.

(** * Constructors *)

Section memory.
Context (cap : nat).

(** [malloc] and [memset] of a node; without memory [memset] writes to the null
    pointer. *)
Definition alloc (c : cmd) : P nat :=
  s ← get;
  if (length (heap s) <? cap)%nat then
    upd (fun s => s <| heap ::= fun h => h ++ [c] |>) ;; mret (length (heap s))
  else stuck.

Definition execcmd : P nat := alloc (EXEC (replicate MAXARGS None) (replicate MAXARGS None)).
Definition redircmd (subcmd : nat) (file efile : nat) (mode fd : Z) : P nat :=
  alloc (REDIR subcmd file efile mode fd).
Definition pipecmd (l r : nat) : P nat := alloc (PIPE l r).
Definition listcmd (l r : nat) : P nat := alloc (LIST l r).
Definition backcmd (subcmd : nat) : P nat := alloc (BACK subcmd).

(** * Parsing *)

Definition whitespace : list Z := [32; 9; 13; 10; 11].
Definition symbols : list Z := chars "<|>&;()".

(** The characters from [s] to [es] that satisfy [p], counted; they are read from
    the buffer. *)
Fixpoint span (p : Z → bool) (l : list Z) : nat :=
  match l with
  | b :: l' => if p b then S (span p l') else O
  | [] => O
  end.

(** [while(s < es && p( *s)) s++;] *)
Definition skip_while (p : Z → bool) (i es : nat) : P nat :=
  s ← get; mret (i + span p (take (es - i) (drop i (sbuf s))))%nat.

Definition gettoken (es : nat) : P (Z * nat * nat) :=
  s ← get;
  i ← skip_while (strchr whitespace) (pos s) es;
  let q := i in
  c ← char_at i;
  x ← (if c =? 0 then mret (c, i)
       else if bool_decide (c ∈ chars "|();&<") then mret (c, S i)
       else if c =? chr ">" then
         d ← char_at (S i);
         if d =? chr ">" then mret (chr "+", S (S i)) else mret (c, S i)
       else
         j ← skip_while (fun b => negb (strchr whitespace b) && negb (strchr symbols b)) i es;
         mret (chr "a", j));
  let '(ret, eq) := x in
  i ← skip_while (strchr whitespace) eq es;
  upd (fun s => s <| pos := i |>) ;;
  mret (ret, q, eq).

Definition peek (es : nat) (toks : list Z) : P bool :=
  s ← get;
  i ← skip_while (strchr whitespace) (pos s) es;
  upd (fun s => s <| pos := i |>) ;;
  c ← char_at i;
  mret (negb (c =? 0) && strchr toks c).

Definition append_mode : Z := Z.lor O_WRONLY O_CREATE.
Definition trunc_mode : Z := Z.lor (Z.lor O_WRONLY O_CREATE) O_TRUNC.

Fixpoint parseredirs (fuel : nat) (es : nat) (c : nat) : P nat :=
  match fuel with
  | O => loops
  | S fuel' =>
      b ← peek es (chars "<>");
      if negb b then mret c else
      t ← gettoken es;
      let '(tok, _, _) := t in
      t ← gettoken es;
      let '(w, q, eq) := t in
      if negb (w =? chr "a") then lift (panic "missing file for redirection") else
      c' ← (if tok =? chr "<" then redircmd c q eq O_RDONLY 0
            else if tok =? chr ">" then redircmd c q eq trunc_mode 1
            else if tok =? chr "+" then redircmd c q eq append_mode 1
            else mret c);
      parseredirs fuel' es c'
  end.

(** [cmd->argv[i] = q; cmd->eargv[i] = eq;] for the EXEC node at [c]. *)
Definition set_args (c i : nat) (q eq : option nat) : P unit :=
  s ← get;
  match heap s !! c with
  | Some (EXEC argv eargv) =>
      if (i <? MAXARGS)%nat then
        upd (fun s => s <| heap ::= <[c := EXEC (<[i := q]> argv) (<[i := eq]> eargv)]> |>)
      else stuck
  | _ => stuck
  end.

(** The loop of [parseexec]; [c] is cmd, [ret] is ret. *)
Fixpoint parse_args (fuel : nat) (es c argc ret : nat) : P nat :=
  match fuel with
  | O => loops
  | S fuel' =>
      b ← peek es (chars "|)&;");
      if (b : bool) then set_args c argc None None ;; mret ret else
      t ← gettoken es;
      let '(tok, q, eq) := t in
      if tok =? 0 then set_args c argc None None ;; mret ret else
      if negb (tok =? chr "a") then lift (panic "syntax") else
      set_args c argc (Some q) (Some eq) ;;
      let argc := S argc in
      if (MAXARGS <=? argc)%nat then lift (panic "too many args") else
      ret ← parseredirs fuel' es ret;
      parse_args fuel' es c argc ret
  end.

(** The loop of [parseline] over the &s. *)
Fixpoint parse_backs (fuel : nat) (es c : nat) : P nat :=
  match fuel with
  | O => loops
  | S fuel' =>
      b ← peek es (chars "&");
      if negb b then mret c else
      _ ← gettoken es;
      c ← backcmd c;
      parse_backs fuel' es c
  end.

Fixpoint parseline (fuel : nat) (es : nat) {struct fuel} : P nat :=
  match fuel with
  | O => loops
  | S fuel' =>
      c ← parsepipe fuel' es;
      c ← parse_backs fuel' es c;
      b ← peek es (chars ";");
      if (b : bool) then
        _ ← gettoken es;
        r ← parseline fuel' es;
        listcmd c r
      else mret c
  end
with parsepipe (fuel : nat) (es : nat) {struct fuel} : P nat :=
  match fuel with
  | O => loops
  | S fuel' =>
      c ← parseexec fuel' es;
      b ← peek es (chars "|");
      if (b : bool) then
        _ ← gettoken es;
        r ← parsepipe fuel' es;
        pipecmd c r
      else mret c
  end
with parseexec (fuel : nat) (es : nat) {struct fuel} : P nat :=
  match fuel with
  | O => loops
  | S fuel' =>
      b ← peek es (chars "(");
      if (b : bool) then parseblock fuel' es else
      c ← execcmd;
      ret ← parseredirs fuel' es c;
      parse_args fuel' es c 0 ret
  end
with parseblock (fuel : nat) (es : nat) {struct fuel} : P nat :=
  match fuel with
  | O => loops
  | S fuel' =>
      b ← peek es (chars "(");
      if negb b then lift (panic "parseblock") else
      _ ← gettoken es;
      c ← parseline fuel' es;
      b ← peek es (chars ")");
      if negb b then lift (panic "syntax - missing )") else
      _ ← gettoken es;
      parseredirs fuel' es c
  end.

(** * Terminating the strings *)

(** [*p = 0] *)
Definition put_nul (i : nat) : P unit :=
  s ← get;
  if (i <? length (sbuf s))%nat then upd (fun s => s <| sbuf ::= <[i := 0]> |>) else stuck.

(** [for(i=0; argv[i]; i++) *eargv[i] = 0;] over the rest of the arrays. *)
Fixpoint nul_args (argv eargv : list (option nat)) : P unit :=
  match argv, eargv with
  | Some _ :: argv', Some e :: eargv' => put_nul e ;; nul_args argv' eargv'
  | None :: _, _ => mret tt
  | _, _ => stuck
  end.

Fixpoint nulterminate (fuel : nat) (c : nat) : P unit :=
  match fuel with
  | O => loops
  | S fuel' =>
      s ← get;
      match heap s !! c with
      | None => stuck
      | Some (EXEC argv eargv) => nul_args argv eargv
      | Some (REDIR c' _ efile _ _) => nulterminate fuel' c' ;; put_nul efile
      | Some (PIPE l r) => nulterminate fuel' l ;; nulterminate fuel' r
      | Some (LIST l r) => nulterminate fuel' l ;; nulterminate fuel' r
      | Some (BACK c') => nulterminate fuel' c'
      end
  end.

(** The string at position [i] of a buffer. *)
Definition cstring (i : nat) (b : list Z) : list Z := take (span (fun c => negb (c =? 0)) (drop i b)) (drop i b).

(** [parsecmd(s)] on a buffer that starts with the line; gives the command, the
    commands and the buffer. *)
Definition parsecmd (fuel : nat) (buf : list Z) : uprog (nat * parser) :=
  let es := length (cstring 0 buf) in
  (c ← parseline fuel es;
   _ ← peek es [];
   s ← get;
   if negb (pos s =? es)%nat then
     lift (_ ← fprintf 2 (line "leftovers: %s") [AStr (Some (cstring (pos s) (sbuf s)))];
           panic "syntax")
   else nulterminate fuel c ;; mret c)
  (mkparser 0 buf []).

(** * Running commands *)

(** The strings that argv points at. *)
Fixpoint arg_strings (b : list Z) (argv : list (option nat)) : list (list Z) :=
  match argv with
  | Some q :: argv' => cstring q b :: arg_strings b argv'
  | _ => []
  end.

(** Never returns. *)
Fixpoint runcmd (fuel : nat) (b : list Z) (h : list cmd) (c : nat) : uprog unit :=
  match fuel with
  | O => Unfinished
  | S fuel' =>
      match h !! c with
      | None => Undefined
      | Some (EXEC argv _) =>
          match argv with
          | Some q :: _ =>
              _ ← call (SysExec (cstring q b) (arg_strings b argv));
              _ ← fprintf 2 (line "exec %s failed") [AStr (Some (cstring q b))];
              exit 0
          | _ => exit 1
          end
      | Some (REDIR c' file _ mode fd) =>
          _ ← close fd;
          r ← open (cstring file b) mode;
          if r <? 0 then
            _ ← fprintf 2 (line "open %s failed") [AStr (Some (cstring file b))];
            exit 1
          else runcmd fuel' b h c'
      | Some (LIST l r) =>
          pid ← fork1;
          if pid =? 0 then runcmd fuel' b h l else
          _ ← wait;
          runcmd fuel' b h r
      | Some (PIPE l r) =>
          x ← Sys SysPipe (fun r p => Pure (r, p));
          let '(ret, p) := x in
          if ret <? 0 then panic "pipe" else
          let p0 := default 0 (p !! 0%nat) in
          let p1 := default 0 (p !! 1%nat) in
          pid ← fork1;
          if pid =? 0 then
            _ ← close 1; _ ← call (SysDup p1); _ ← close p0; _ ← close p1;
            runcmd fuel' b h l
          else
          pid ← fork1;
          if pid =? 0 then
            _ ← close 0; _ ← call (SysDup p0); _ ← close p0; _ ← close p1;
            runcmd fuel' b h r
          else
          _ ← close p0; _ ← close p1;
          _ ← wait; _ ← wait;
          exit 0
      | Some (BACK c') =>
          pid ← fork1;
          if pid =? 0 then runcmd fuel' b h c' else exit 0
      end
  end.

(** * The command loop *)

(** The buffer of 100 bytes that [getcmd] fills; -1 at the end of the input. *)
Definition getcmd : uprog (Z * list Z) :=
  _ ← write 2 (chars "$ ");
  l ← gets 100;
  let buf := l ++ replicate (100 - length l) 0 in
  Pure (if default 0 (head buf) =? 0 then -1 else 0, buf).

(** The loop over [open]. *)
Fixpoint open_three (fuel : nat) : uprog unit :=
  match fuel with
  | O => Unfinished
  | S fuel' =>
      fd ← open (chars "console") O_RDWR;
      if fd <? 0 then Pure tt
      else if 3 <=? fd then _ ← close fd; Pure tt
      else open_three fuel'
  end.

Definition is_cd (b : list Z) : bool := bool_decide (take 3 b = chars "cd ").

Fixpoint commands (fuel : nat) : uprog Z :=
  match fuel with
  | O => Unfinished
  | S fuel' =>
      x ← getcmd;
      let '(r, buf) := x in
      if r <? 0 then exit 0
      else if is_cd buf then
        let buf := <[(length (cstring 0 buf) - 1)%nat := 0]> buf in
        r ← call (SysChdir (cstring 3 buf));
        _ ← (if r <? 0 then fprintf 2 (line "cannot cd %s") [AStr (Some (cstring 3 buf))] else Pure tt);
        commands fuel'
      else
        pid ← fork1;
        if pid =? 0 then
          x ← parsecmd fuel buf;
          let '(c, s) := x in
          _ ← runcmd fuel (sbuf s) (heap s) c;
          Undefined
        else
          _ ← wait;
          commands fuel'
  end.

Definition main (fuel : nat) : uprog Z := _ ← open_three fuel; commands fuel.

End memory.

(** * Specifications of parser steps *)

Lemma wp_panic {A} msg (Q : A → Prop) : wp (panic msg) Q.
Proof.
  apply wp_bind, wp_str, (wp_plain _ [10] []); [|done]. by repeat constructor.
Qed.

Lemma pwp_panic {A} msg s (Q : A → parser → Prop) : pwp (lift (panic msg)) s Q.
Proof.
  apply wp_bind, wp_panic.
Qed.

(** * The line *)

Section line.
Context (cap es : nat) (buf : list Z).

(** [buf] holds a string of [es] characters. *)
Definition is_line : Prop :=
  buf !! es = Some 0 ∧ ∀ i, (i < es)%nat → ∃ b, buf !! i = Some b ∧ b ≠ 0.

(** The arguments of an EXEC: [n] pairs of a start and a later end, then null. *)
Definition args_ok (n : nat) (argv eargv : list (option nat)) : Prop :=
  (n < MAXARGS)%nat ∧ length argv = MAXARGS ∧ length eargv = MAXARGS ∧
  (∀ j, (j < n)%nat → ∃ q e, argv !! j = Some (Some q) ∧ eargv !! j = Some (Some e) ∧
                              (q < e ≤ es)%nat) ∧
  (∀ j, (n ≤ j < MAXARGS)%nat → argv !! j = Some None).

(** A command points at earlier commands and into the line. *)
Definition cmd_ok (i : nat) (c : cmd) : Prop :=
  match c with
  | EXEC argv eargv => ∃ n, args_ok n argv eargv
  | REDIR c f e _ _ => (c < i)%nat ∧ (f < e ≤ es)%nat
  | PIPE l r | LIST l r => (l < i)%nat ∧ (r < i)%nat
  | BACK c => (c < i)%nat
  end.

Definition heap_ok (h : list cmd) : Prop := ∀ i c, h !! i = Some c → cmd_ok i c.

Definition good (s : parser) : Prop := sbuf s = buf ∧ (pos s ≤ es)%nat ∧ heap_ok (heap s).

(** Each character of the rest of the line pays for two commands. *)
Definition need (s : parser) : nat := (length (heap s) + 2 * (es - pos s))%nat.

Context (Hline : is_line).

Lemma line_char i : (i ≤ es)%nat → ∃ b, buf !! i = Some b ∧ (b = 0 ↔ i = es).
Proof.
  intros Hi. destruct Hline as [He Hb]. destruct (decide (i = es)) as [->|Hne]; [by exists 0|].
  destruct (Hb i) as (b & Hib & Hb0); [lia|]. exists b. split; [done|]. by split.
Qed.

Lemma span_le p l : (span p l ≤ length l)%nat.
Proof. induction l as [|b l IH]; simpl; [lia|]. destruct (p b); lia. Qed.

Lemma skip_while_spec p i s :
  good s → (i ≤ es)%nat →
  pwp (skip_while p i es) s (fun j s' => s' = s ∧ (i ≤ j ≤ es)%nat ∧
    ((i < es)%nat → ∀ b, buf !! i = Some b → p b = true → (i < j)%nat) ∧
    ((j < es)%nat → ∀ b, buf !! j = Some b → p b = false)).
Proof.
  intros (Hs & _ & _) Hi. unfold skip_while, pwp. simpl. rewrite Hs.
  assert (Hlen : (es < length buf)%nat) by (apply lookup_lt_is_Some; by exists 0; apply Hline).
  set (l := take (es - i) (drop i buf)).
  assert (Hll : length l = (es - i)%nat) by (unfold l; rewrite length_take, length_drop; lia).
  assert (Hlk : ∀ j, (j < es - i)%nat → l !! j = buf !! (i + j)%nat).
  { intros j Hj. unfold l. rewrite lookup_take_lt by lia. by rewrite lookup_drop. }
  split; [done|]. pose proof (span_le p l) as Hsp. split; [lia|]. split.
  - intros Hlt b Hb Hp. specialize (Hlk 0%nat ltac:(lia)). rewrite Nat.add_0_r, Hb in Hlk.
    destruct l as [|b' l']; [done|]. simpl in Hlk. injection Hlk as ->. simpl. rewrite Hp. lia.
  - intros Hlt b Hb. rewrite <- (Hlk (span p l)) in Hb by lia. clear - Hb.
    induction l as [|b' l IH]; simpl in *; [done|]. destruct (p b') eqn:Hp; [by apply IH|].
    by injection Hb as ->.
Qed.

Lemma char_at_spec i s :
  good s → (i ≤ es)%nat →
  pwp (char_at i) s (fun b s' => s' = s ∧ buf !! i = Some b ∧ (b = 0 ↔ i = es)).
Proof.
  intros (Hs & _ & _) Hi. destruct (line_char i Hi) as (b & Hb & H0).
  unfold char_at. apply pwp_bind. unfold pwp at 1. cbn [get wp]. by rewrite Hs, Hb.
Qed.

(** What [gettoken] does: it moves over a token [q..eq) unless the line is at its end. *)
Definition token_post (s : parser) (t : Z * nat * nat) (s' : parser) : Prop :=
  good s' ∧ heap s' = heap s ∧ (pos s ≤ t.1.2)%nat ∧ (t.1.2 ≤ t.2)%nat ∧ (t.2 ≤ pos s')%nat ∧
  (t.1.1 ≠ 0 → (t.1.2 < t.2)%nat) ∧ ((pos s < es)%nat → (pos s < pos s')%nat).

Lemma word_first c :
  c ≠ 0 → c ∉ chars "|();&<" → c ≠ chr ">" → strchr whitespace c = false →
  negb (strchr whitespace c) && negb (strchr symbols c) = true.
Proof.
  intros H0 Hs Hg Hw. rewrite Hw. unfold strchr. destruct (Z.eqb_spec c 0); [done|].
  rewrite andb_true_r. simpl. rewrite bool_decide_eq_false_2; [done|].
  intros Hin. unfold symbols in Hin. simpl in Hin, Hs, Hg. set_solver.
Qed.

Lemma gettoken_spec s : good s → pwp (gettoken es) s (token_post s).
Proof.
  intros Hg. pose proof Hg as (Hb & Hp & Hh). unfold gettoken. apply pwp_get.
  eapply pwp_step; [by apply skip_while_spec|]. intros i s' (-> & Hi & Hprog & Hstop).
  eapply pwp_step; [apply char_at_spec; [done|lia]|]. intros c s' (-> & Hc & Hc0).
  eapply (pwp_step _ _ _ (fun x s' => s' = s ∧ (i ≤ x.2 ≤ es)%nat ∧ (x.1 ≠ 0 → (i < x.2)%nat) ∧
                                      ((i < es)%nat → (i < x.2)%nat))).
  - destruct (Z.eqb_spec c 0) as [->|Hne]; [apply pwp_ret; cbn; split_and!; try lia; try done|].
    assert (i < es)%nat by (destruct (decide (i = es)); [tauto|lia]).
    case_bool_decide as Hsym; [apply pwp_ret; cbn; split_and!; lia || done|].
    destruct (Z.eqb_spec c (chr ">")) as [->|Hgt].
    { eapply pwp_step; [apply char_at_spec; [done|lia]|]. intros d s' (-> & Hd & Hd0).
      destruct (Z.eqb_spec d (chr ">")) as [->|_]; apply pwp_ret; cbn; split_and!; try lia; try done. }
    eapply pwp_step; [by apply skip_while_spec; [|lia]|]. intros j s' (-> & Hj & Hjp & _).
    apply pwp_ret. cbn.
    assert (i < j)%nat by (eapply Hjp; [lia|done|apply word_first; auto]).
    split_and!; lia || done.
  - intros [ret eq] s' (-> & Heq & Ht & Ht'). cbn [fst snd] in *.
    eapply pwp_step; [by apply skip_while_spec; [|lia]|]. intros k s' (-> & Hk & _).
    apply pwp_upd, pwp_ret. unfold token_post. cbn. split_and!; try lia; try done.
    + split_and!; [done|cbn; lia|done].
Qed.

(** [peek] skips blanks; when it sees one of [toks] the line is not at its end. *)
Definition peek_post (s : parser) (b : bool) (s' : parser) : Prop :=
  good s' ∧ heap s' = heap s ∧ (pos s ≤ pos s')%nat ∧ (b = true → (pos s' < es)%nat).

Lemma peek_spec toks s : good s → pwp (peek es toks) s (peek_post s).
Proof.
  intros Hg. pose proof Hg as (Hb & Hp & Hh). unfold peek. apply pwp_get.
  eapply pwp_step; [by apply skip_while_spec|]. intros i s' (-> & Hi & _ & _).
  apply pwp_upd. eapply pwp_step; [apply (char_at_spec i); [|lia]|].
  { split_and!; [done|cbn; lia|done]. }
  intros c s' (-> & Hc & Hc0). apply pwp_ret. unfold peek_post. cbn. split_and!; [|done|lia|].
  - split_and!; [done|cbn; lia|done].
  - intros [Hn _]%andb_prop. destruct (Z.eqb_spec c 0); [done|].
    destruct (decide (i = es)); [tauto|lia].
Qed.

(** * The grammar *)

(** Commands are added after the ones that are there. *)
Definition grows (s s' : parser) : Prop := heap s `prefix_of` heap s' ∧ (pos s ≤ pos s')%nat.

Lemma alloc_spec c s :
  good s → cmd_ok (length (heap s)) c → (length (heap s) < cap)%nat →
  pwp (alloc cap c) s (fun i s' => i = length (heap s) ∧ good s' ∧ pos s' = pos s ∧
    heap s' = heap s ++ [c]).
Proof.
  intros (Hb & Hp & Hh) Hc Hcap. unfold alloc. apply pwp_get.
  destruct (Nat.ltb_spec (length (heap s)) cap); [|lia]. apply pwp_upd, pwp_ret.
  split_and!; [done| |done|done]. split_and!; [done|done|]. cbn.
  intros i c' Hi. apply lookup_app_Some in Hi as [Hi|[Hge Hi]]; [by apply Hh|].
  apply list_lookup_singleton_Some in Hi as [Hi ->].
  by replace i with (length (heap s)) by lia.
Qed.

(** What a rule of the grammar gives back: a command, with [k] commands more than the
    characters it read pay for. *)
Definition rule_post (k : nat) (s : parser) (c : nat) (s' : parser) : Prop :=
  good s' ∧ (c < length (heap s'))%nat ∧ (pos s ≤ pos s')%nat ∧
  (length (heap s) ≤ length (heap s'))%nat ∧ (need s' ≤ need s + k)%nat.

Lemma parseredirs_spec fuel c s :
  good s → (c < length (heap s))%nat → (need s ≤ cap)%nat → (es - pos s < fuel)%nat →
  pwp (parseredirs cap fuel es c) s (fun c' s' => rule_post 0 s c' s' ∧ heap s `prefix_of` heap s').
Proof.
  revert c s. induction fuel as [|fuel IH]; intros c s Hg Hc Hn Hf; [lia|]. cbn [parseredirs].
  eapply pwp_step; [by apply peek_spec|]. intros b s1 (Hg1 & Hh1 & Hp1 & Hb).
  pose proof Hg1 as (_ & Hpe1 & _).
  destruct b; cbn [negb].
  2: { apply pwp_ret. unfold rule_post, need. rewrite Hh1. split_and!; done || lia. }
  specialize (Hb eq_refl).
  eapply pwp_step; [by apply gettoken_spec|].
  intros [[tok ?] ?] s2 (Hg2 & Hh2 & _ & _ & _ & _ & Hprog). specialize (Hprog Hb).
  eapply pwp_step; [by apply gettoken_spec|].
  intros [[w q] eq] s3 (Hg3 & Hh3 & Hq & Hqe & He3 & Hw & _). cbn [fst snd] in *.
  pose proof Hg3 as (_ & Hpe3 & _).
  destruct (Z.eqb_spec w (chr "a")) as [->|]; cbn [negb]; [|apply pwp_panic].
  assert (Hlt : (q < eq)%nat) by (apply Hw; done).
  assert (Hheap : heap s3 = heap s) by congruence.
  eapply (pwp_step _ _ _ (fun c' s' => good s' ∧ pos s' = pos s3 ∧ (c' < length (heap s'))%nat ∧
            heap s `prefix_of` heap s' ∧ (length (heap s') ≤ S (length (heap s)))%nat)).
  - assert (Hre : ∀ m f, pwp (redircmd cap c q eq m f) s3 (fun c' s' => good s' ∧
            pos s' = pos s3 ∧ (c' < length (heap s'))%nat ∧
            heap s `prefix_of` heap s' ∧ (length (heap s') ≤ S (length (heap s)))%nat)).
    { intros m f. eapply pwp_mono; [apply alloc_spec; [done| |]|].
      - rewrite Hheap. cbn. lia.
      - rewrite Hheap. unfold need in Hn. lia.
      - intros i s' (-> & Hg' & Hp' & ->). rewrite length_app, Hheap. cbn.
        split_and!; [done|done|lia|by apply prefix_app_r|lia]. }
    repeat case_match; [apply Hre..|]. apply pwp_ret. rewrite Hheap. split_and!; done || lia.
  - intros c' s' (Hg' & Hp' & Hc' & Hpre & Hlen'). eapply pwp_mono; [apply IH|].
    + done.
    + done.
    + unfold need in *. lia.
    + lia.
    + intros c'' s'' [(Hg'' & Hc'' & Hp'' & Hl'' & Hn'') Hpre'']. split.
      * apply prefix_length in Hpre. unfold rule_post, need in *. split_and!; done || lia.
      * by trans (heap s').
Qed.

Lemma set_args_spec c i q e s argv eargv :
  heap s !! c = Some (EXEC argv eargv) → (i < MAXARGS)%nat →
  pwp (set_args c i q e) s (fun _ s' =>
    s' = mkparser (pos s) (sbuf s) (<[c := EXEC (<[i := q]> argv) (<[i := e]> eargv)]> (heap s))).
Proof.
  intros Hc Hi. unfold set_args. apply pwp_get. rewrite Hc.
  destruct (Nat.ltb_spec i MAXARGS); [|lia]. done.
Qed.

Lemma args_ok_more n q e argv eargv :
  args_ok n argv eargv → (S n < MAXARGS)%nat → (q < e ≤ es)%nat →
  args_ok (S n) (<[n := Some q]> argv) (<[n := Some e]> eargv).
Proof.
  intros (Hn & Hl1 & Hl2 & Hj & Hnull) HS Hq. unfold args_ok. rewrite !length_insert.
  split_and!; [done..| |].
  - intros j Hlt. destruct (decide (j = n)) as [->|Hne].
    + exists q, e. rewrite !list_lookup_insert_eq by lia. done.
    + rewrite !list_lookup_insert_ne by done. apply Hj. lia.
  - intros j Hlt. rewrite list_lookup_insert_ne by lia. apply Hnull. lia.
Qed.

Lemma args_ok_end n argv eargv :
  args_ok n argv eargv → args_ok n (<[n := None]> argv) (<[n := None]> eargv).
Proof.
  intros (Hn & Hl1 & Hl2 & Hj & Hnull). unfold args_ok. rewrite !length_insert.
  split_and!; [done..| |].
  - intros j Hlt. rewrite !list_lookup_insert_ne by lia. by apply Hj.
  - intros j Hlt. destruct (decide (j = n)) as [->|Hne].
    + rewrite list_lookup_insert_eq by lia. done.
    + rewrite list_lookup_insert_ne by done. by apply Hnull.
Qed.

Lemma good_insert c x s :
  good s → cmd_ok c x → good (mkparser (pos s) (sbuf s) (<[c := x]> (heap s))).
Proof.
  intros (Hb & Hp & Hh) Hx. split_and!; [done|done|]. cbn. intros i c' Hi.
  apply list_lookup_insert_Some in Hi as [(<- & <- & _)|[_ Hi]]; [done|by apply Hh].
Qed.

Lemma parse_args_spec fuel c argc ret s argv eargv :
  good s → heap s !! c = Some (EXEC argv eargv) → args_ok argc argv eargv →
  (ret < length (heap s))%nat → (need s ≤ cap)%nat → (es - pos s < fuel)%nat →
  pwp (parse_args cap fuel es c argc ret) s (rule_post 0 s).
Proof.
  revert argc ret s argv eargv.
  induction fuel as [|fuel IH]; intros argc ret s argv eargv Hg Hc Ha Hr Hn Hf; [lia|].
  cbn [parse_args].
  assert (Hdone : ∀ s', good s' → heap s' = heap s → (pos s ≤ pos s')%nat →
            pwp (set_args c argc None None ;; mret ret) s' (rule_post 0 s)).
  { intros s' Hg' Hh' Hp'. eapply pwp_step; [apply set_args_spec; [by rewrite Hh'|apply Ha]|].
    intros [] s'' ->. apply pwp_ret. pose proof (args_ok_end _ _ _ Ha) as Ha'.
    pose proof Hg' as (_ & Hpe & _). unfold rule_post, need. cbn. rewrite length_insert, Hh'.
    split_and!; [|lia..]. rewrite <- Hh'. apply good_insert; [done|]. cbn. by exists argc. }
  eapply pwp_step; [by apply peek_spec|]. intros b s1 (Hg1 & Hh1 & Hp1 & _).
  destruct b; [by apply Hdone|].
  eapply pwp_step; [by apply gettoken_spec|].
  intros [[tok q] e] s2 (Hg2 & Hh2 & Hq & Hqe & He2 & Hw & _). cbn [fst snd] in *.
  pose proof Hg2 as (_ & Hpe2 & _).
  destruct (Z.eqb_spec tok 0) as [->|Hne]; [apply Hdone; [done|congruence|lia]|].
  destruct (Z.eqb_spec tok (chr "a")) as [->|]; cbn [negb]; [|apply pwp_panic].
  specialize (Hw Hne). assert (Hheap : heap s2 = heap s) by congruence.
  eapply pwp_step; [apply set_args_spec; [by rewrite Hheap|apply Ha]|]. intros [] s3 ->.
  destruct (Nat.leb_spec MAXARGS (S argc)); [apply pwp_panic|].
  pose proof (args_ok_more argc q e argv eargv Ha ltac:(lia) ltac:(lia)) as Ha'.
  set (s3 := mkparser _ _ _).
  assert (Hg3 : good s3) by (apply good_insert; [done|]; cbn; by exists (S argc)).
  assert (Hl3 : length (heap s3) = length (heap s)) by (cbn; by rewrite length_insert, Hheap).
  eapply pwp_step; [apply (parseredirs_spec fuel ret s3); [done|lia| |cbn; lia]|].
  { unfold need in *. rewrite Hl3. cbn. lia. }
  intros ret' s4 [(Hg4 & Hr4 & Hp4 & Hl4 & Hn4) Hpre]. cbn [pos s3] in Hp4.
  eapply pwp_mono;
    [apply (IH (S argc) ret' s4 (<[argc := Some q]> argv) (<[argc := Some e]> eargv))|].
  - done.
  - eapply prefix_lookup_Some; [|done]. cbn. rewrite list_lookup_insert_eq; [done|].
    rewrite Hheap. by apply lookup_lt_Some in Hc.
  - done.
  - done.
  - unfold need in *. cbn [heap pos s3] in *. lia.
  - lia.
  - intros r' s5 (Hg5 & Hr5 & Hp5 & Hl5 & Hn5). unfold rule_post, need in *. cbn [pos s3] in *.
    split_and!; done || lia.
Qed.

Lemma parse_backs_spec fuel c s :
  good s → (c < length (heap s))%nat → (need s ≤ cap)%nat → (es - pos s < fuel)%nat →
  pwp (parse_backs cap fuel es c) s (rule_post 0 s).
Proof.
  revert c s. induction fuel as [|fuel IH]; intros c s Hg Hc Hn Hf; [lia|]. cbn [parse_backs].
  eapply pwp_step; [by apply peek_spec|]. intros b s1 (Hg1 & Hh1 & Hp1 & Hb).
  pose proof Hg1 as (_ & Hpe1 & _).
  destruct b; cbn [negb].
  2: { apply pwp_ret. unfold rule_post, need. rewrite Hh1. split_and!; done || lia. }
  specialize (Hb eq_refl).
  eapply pwp_step; [by apply gettoken_spec|].
  intros t s2 (Hg2 & Hh2 & _ & _ & _ & _ & Hprog). specialize (Hprog Hb).
  pose proof Hg2 as (_ & Hpe2 & _). assert (Hheap : heap s2 = heap s) by congruence.
  eapply pwp_step; [apply alloc_spec; [done|rewrite Hheap; cbn; lia|]|].
  { rewrite Hheap. unfold need in Hn. lia. }
  intros i s3 (-> & Hg3 & Hp3 & Hh3).
  assert (Hl3 : length (heap s3) = S (length (heap s))) by (rewrite Hh3, length_app, Hheap; cbn; lia).
  eapply pwp_mono; [apply (IH _ s3)|].
  - done.
  - rewrite Hl3, Hheap. lia.
  - unfold need in *. lia.
  - lia.
  - intros c'' s4 (Hg4 & Hc4 & Hp4 & Hl4 & Hn4). unfold rule_post, need in *. split_and!; done || lia.
Qed.

(** Peeking for a token and taking it. *)
Lemma peek_take toks {A} (yes no : P A) s Q :
  good s →
  (∀ s', good s' → heap s' = heap s → (pos s < pos s')%nat → pwp yes s' Q) →
  (∀ s', good s' → heap s' = heap s → (pos s ≤ pos s')%nat → pwp no s' Q) →
  pwp (b ← peek es toks; if (b : bool) then _ ← gettoken es; yes else no) s Q.
Proof.
  intros Hg Hy Hn. eapply pwp_step; [by apply peek_spec|]. intros b s1 (Hg1 & Hh1 & Hp1 & Hb).
  destruct b; [|by apply Hn]. specialize (Hb eq_refl).
  eapply pwp_step; [by apply gettoken_spec|].
  intros t s2 (Hg2 & Hh2 & _ & _ & _ & _ & Hprog). specialize (Hprog Hb).
  apply Hy; [done|congruence|lia].
Qed.

(** A command made of a left part that was parsed before and a right part that a rule
    parses from [s2] on. *)
Lemma rule_pair (rule : P nat) (mk : nat → nat → cmd) l s s2 :
  (∀ i r, (l < i)%nat → (r < i)%nat → cmd_ok i (mk l r)) →
  (l < length (heap s2))%nat → (length (heap s) ≤ length (heap s2))%nat → (pos s ≤ pos s2)%nat →
  (need s2 + 1 ≤ need s)%nat → (need s + 1 ≤ cap)%nat →
  pwp rule s2 (rule_post 1 s2) →
  pwp (r ← rule; alloc cap (mk l r)) s2 (rule_post 1 s).
Proof.
  intros Hmk Hl Hh Hp Hn Hcap Hr. eapply pwp_step; [exact Hr|].
  intros r s3 (Hg3 & Hr3 & Hp3 & Hh3 & Hn3). unfold need in *.
  eapply pwp_mono; [apply alloc_spec; [done|apply Hmk; lia|lia]|].
  intros i s4 (-> & Hg4 & Hp4 & Hh4). unfold rule_post, need. rewrite Hh4, length_app. cbn.
  rewrite Hp4. split_and!; done || lia.
Qed.

Definition rule_ok (k : nat) (rule : nat → nat → P nat) (fuel : nat) : Prop :=
  ∀ s, good s → (need s + 1 ≤ cap)%nat → (4 * (es - pos s) + k ≤ fuel)%nat →
       pwp (rule fuel es) s (rule_post 1 s).

Lemma line_rule fuel :
  rule_ok 6 (parseline cap) fuel → rule_ok 5 (parsepipe cap) fuel →
  rule_ok 6 (parseline cap) (S fuel).
Proof.
  intros IHl IHp s Hg Hn Hf. cbn [parseline].
  eapply pwp_step; [apply IHp; [done|done|lia]|]. intros c s1 (Hg1 & Hc1 & Hp1 & Hl1 & Hn1).
  pose proof Hg1 as (_ & Hpe1 & _).
  eapply pwp_step; [apply parse_backs_spec; [done|done|lia|lia]|].
  intros c' s2 (Hg2 & Hc2 & Hp2 & Hl2 & Hn2). pose proof Hg2 as (_ & Hpe2 & _).
  apply peek_take; [done| |].
  - intros s3 Hg3 Hh3 Hp3. pose proof Hg3 as (_ & Hpe3 & _).
    assert (need s3 + 2 ≤ need s2)%nat by (unfold need; rewrite Hh3; lia).
    apply (rule_pair _ LIST); [done|rewrite Hh3; lia..|lia|lia|done|]. apply IHl; [done|lia|lia].
  - intros s3 Hg3 Hh3 Hp3. apply pwp_ret. unfold rule_post, need in *. rewrite Hh3.
    split_and!; done || lia.
Qed.

Lemma pipe_rule fuel :
  rule_ok 5 (parsepipe cap) fuel → rule_ok 4 (parseexec cap) fuel →
  rule_ok 5 (parsepipe cap) (S fuel).
Proof.
  intros IHp IHe s Hg Hn Hf. cbn [parsepipe].
  eapply pwp_step; [apply IHe; [done|done|lia]|]. intros c s1 (Hg1 & Hc1 & Hp1 & Hl1 & Hn1).
  pose proof Hg1 as (_ & Hpe1 & _). apply peek_take; [done| |].
  - intros s3 Hg3 Hh3 Hp3. pose proof Hg3 as (_ & Hpe3 & _).
    assert (need s3 + 2 ≤ need s1)%nat by (unfold need; rewrite Hh3; lia).
    apply (rule_pair _ PIPE); [done|rewrite Hh3; lia..|lia|lia|done|]. apply IHp; [done|lia|lia].
  - intros s3 Hg3 Hh3 Hp3. apply pwp_ret. unfold rule_post, need in *. rewrite Hh3.
    split_and!; done || lia.
Qed.

Lemma empty_args_ok : args_ok 0 (replicate MAXARGS None) (replicate MAXARGS None).
Proof.
  unfold args_ok. rewrite !length_replicate. split_and!; [unfold MAXARGS; lia|done|done|lia|].
  intros j Hj. apply lookup_replicate_2. lia.
Qed.

(** [parseblock] is only called with a parenthesis to read. *)
Definition block_ok (fuel : nat) : Prop :=
  ∀ s, good s → (pos s < es)%nat → (need s + 1 ≤ cap)%nat → (4 * (es - pos s) + 3 ≤ fuel)%nat →
       pwp (parseblock cap fuel es) s (rule_post 1 s).

Lemma exec_rule fuel : block_ok fuel → rule_ok 4 (parseexec cap) (S fuel).
Proof.
  intros IHb s Hg Hn Hf. cbn [parseexec].
  eapply pwp_step; [by apply peek_spec|]. intros b s1 (Hg1 & Hh1 & Hp1 & Hb).
  pose proof Hg1 as (_ & Hpe1 & _).
  assert (Hn1 : (need s1 ≤ need s)%nat) by (unfold need; rewrite Hh1; lia).
  destruct b.
  - eapply pwp_mono; [apply IHb; [done|by apply Hb|lia|lia]|].
    intros c s2 (Hg2 & Hc2 & Hp2 & Hl2 & Hn2). rewrite Hh1 in Hl2.
    unfold rule_post. split_and!; done || lia.
  - eapply pwp_step; [apply alloc_spec; [done|exists 0%nat; apply empty_args_ok|]|].
    { rewrite Hh1. unfold need in Hn. lia. }
    intros i s2 (-> & Hg2 & Hp2 & Hh2).
    assert (Hl2 : length (heap s2) = S (length (heap s))) by (rewrite Hh2, length_app, Hh1; cbn; lia).
    assert (Hn2 : (need s2 ≤ need s + 1)%nat) by (unfold need in *; lia).
    eapply pwp_step; [apply parseredirs_spec; [done|rewrite Hl2, Hh1; lia|lia|lia]|].
    intros ret s3 [(Hg3 & Hr3 & Hp3 & Hl3 & Hn3) Hpre].
    eapply pwp_mono; [apply (parse_args_spec fuel (length (heap s1)) 0 ret s3
      (replicate MAXARGS None) (replicate MAXARGS None) Hg3)|].
    + eapply prefix_lookup_Some; [|exact Hpre]. rewrite Hh2. by apply list_lookup_middle.
    + apply empty_args_ok.
    + done.
    + lia.
    + lia.
    + intros c s4 (Hg4 & Hc4 & Hp4 & Hl4 & Hn4). unfold rule_post. split_and!; done || lia.
Qed.

Lemma block_rule fuel : rule_ok 6 (parseline cap) fuel → block_ok (S fuel).
Proof.
  intros IHl s Hg Hlt Hn Hf. cbn [parseblock].
  eapply pwp_step; [by apply peek_spec|]. intros b s1 (Hg1 & Hh1 & Hp1 & Hb).
  destruct b; cbn [negb]; [|apply pwp_panic]. specialize (Hb eq_refl).
  eapply pwp_step; [by apply gettoken_spec|].
  intros t s2 (Hg2 & Hh2 & _ & _ & _ & _ & Hprog). specialize (Hprog Hb).
  pose proof Hg2 as (_ & Hpe2 & _).
  assert (Hn2 : (need s2 + 2 ≤ need s)%nat) by (unfold need; rewrite Hh2, Hh1; lia).
  eapply pwp_step; [apply IHl; [done|lia|lia]|]. intros c s3 (Hg3 & Hc3 & Hp3 & Hl3 & Hn3).
  rewrite Hh2, Hh1 in Hl3.
  eapply pwp_step; [by apply peek_spec|]. intros b s4 (Hg4 & Hh4 & Hp4 & Hb4).
  destruct b; cbn [negb]; [|apply pwp_panic]. specialize (Hb4 eq_refl).
  eapply pwp_step; [by apply gettoken_spec|].
  intros t' s5 (Hg5 & Hh5 & _ & _ & _ & _ & Hprog5). specialize (Hprog5 Hb4).
  pose proof Hg5 as (_ & Hpe5 & _).
  assert (Hh53 : heap s5 = heap s3) by congruence.
  assert (Hn5 : (need s5 + 2 ≤ need s3)%nat) by (unfold need; rewrite Hh53; lia).
  eapply pwp_mono; [apply parseredirs_spec; [done|rewrite Hh53; lia|lia|lia]|].
  intros c' s6 [(Hg6 & Hc6 & Hp6 & Hl6 & Hn6) _]. rewrite Hh53 in Hl6.
  unfold rule_post. split_and!; done || lia.
Qed.

Lemma rules fuel :
  rule_ok 6 (parseline cap) fuel ∧ rule_ok 5 (parsepipe cap) fuel ∧
  rule_ok 4 (parseexec cap) fuel ∧ block_ok fuel.
Proof.
  induction fuel as [|fuel (IHl & IHp & IHe & IHb)].
  - split_and!; intros s; intros; lia.
  - split_and!; [by apply line_rule|by apply pipe_rule|by apply exec_rule|by apply block_rule].
Qed.

End line.

(** * Terminating the strings *)

Section nulterminate.
Context (es : nat).

Definition same_heap (s s' : parser) : Prop :=
  heap s' = heap s ∧ length (sbuf s') = length (sbuf s) ∧ pos s' = pos s.

Lemma put_nul_spec i s :
  (i < length (sbuf s))%nat → pwp (put_nul i) s (fun _ s' => same_heap s s').
Proof.
  intros Hi. unfold put_nul. apply pwp_get. destruct (Nat.ltb_spec i (length (sbuf s))); [|lia].
  split_and!; [done|apply length_insert|done].
Qed.

Lemma nul_args_spec n argv eargv s :
  (∀ j, (j < n)%nat → ∃ q e, argv !! j = Some (Some q) ∧ eargv !! j = Some (Some e) ∧
                              (e < length (sbuf s))%nat) →
  argv !! n = Some None →
  pwp (nul_args argv eargv) s (fun _ s' => same_heap s s').
Proof.
  revert argv eargv s. induction n as [|n IH]; intros argv eargv s Hj Hn.
  { destruct argv as [|a argv]; [done|]. simpl in Hn. injection Hn as ->. done. }
  destruct (Hj 0%nat) as (q & e & Hq & He & Hlt); [lia|].
  destruct argv as [|a argv]; [done|]. destruct eargv as [|b eargv]; [done|].
  simpl in Hq, He. injection Hq as ->. injection He as ->. cbn [nul_args].
  eapply pwp_step; [by apply put_nul_spec|]. intros [] s1 (Hh & Hl & Hp).
  eapply pwp_mono; [apply IH|].
  - intros j Hlj. rewrite Hl. apply (Hj (S j)). lia.
  - done.
  - intros [] s2 (Hh2 & Hl2 & Hp2). split_and!; congruence.
Qed.

Lemma nulterminate_spec fuel c s :
  heap_ok es (heap s) → (es < length (sbuf s))%nat → (c < length (heap s))%nat → (c < fuel)%nat →
  pwp (nulterminate fuel c) s (fun _ s' => same_heap s s').
Proof.
  revert c s. induction fuel as [|fuel IH]; intros c s Hok Hes Hc Hf; [lia|]. cbn [nulterminate].
  apply pwp_get. destruct (lookup_lt_is_Some_2 (heap s) c Hc) as [x Hx]. rewrite Hx.
  pose proof (Hok c x Hx) as Hcx.
  assert (Hseq : ∀ l r, (l < c)%nat → (r < c)%nat →
            pwp (nulterminate fuel l ;; nulterminate fuel r) s (fun _ s' => same_heap s s')).
  { intros l r Hl Hr. eapply pwp_step; [apply IH; [done|done|lia|lia]|].
    intros [] s1 (Hh1 & Hl1 & Hp1). eapply pwp_mono; [apply IH; rewrite ?Hh1, ?Hl1; done || lia|].
    intros [] s2 (Hh2 & Hl2 & Hp2). split_and!; congruence. }
  destruct x as [argv eargv|c' f e m d|l r|l r|c']; cbn in Hcx.
  - destruct Hcx as (n & Hn & Hl1 & Hl2 & Hj & Hnull). apply (nul_args_spec n).
    + intros j Hlj. destruct (Hj j Hlj) as (q & e & ? & ? & ?). exists q, e. split_and!; done || lia.
    + apply Hnull. lia.
  - destruct Hcx as [Hcl He]. eapply pwp_step; [apply IH; [done|done|lia|lia]|].
    intros [] s1 (Hh1 & Hl1 & Hp1). eapply pwp_mono; [apply put_nul_spec; lia|].
    intros [] s2 (Hh2 & Hl2 & Hp2). split_and!; congruence.
  - destruct Hcx; by apply Hseq.
  - destruct Hcx; by apply Hseq.
  - apply IH; done || lia.
Qed.

End nulterminate.

(** * The child of the shell *)

Lemma cstring_line buf es :
  es = length (cstring 0 buf) → 0 ∈ buf → is_line es buf.
Proof.
  intros ->. unfold cstring, is_line. rewrite drop_0.
  induction buf as [|b buf IH]; intros Hin; [by apply elem_of_nil in Hin|].
  cbn [span]. destruct (Z.eqb_spec b 0) as [->|Hb]; cbn [negb take length]; [split; [done|lia]|].
  apply elem_of_cons in Hin as [<-|Hin]; [done|]. destruct (IH Hin) as [H1 H2].
  split; [done|]. intros [|i] Hi; [by exists b|]. apply H2. lia.
Qed.

Lemma parsecmd_spec cap fuel buf :
  let es := length (cstring 0 buf) in
  0 ∈ buf → (2 * es + 1 ≤ cap)%nat → (4 * es + 6 ≤ fuel)%nat →
  wp (parsecmd cap fuel buf) (fun '(c, s) =>
    heap_ok es (heap s) ∧ (c < length (heap s))%nat ∧ (length (heap s) ≤ 2 * es + 1)%nat ∧
    length (sbuf s) = length buf).
Proof.
  intros es Hin Hcap Hf. pose proof (cstring_line buf es eq_refl Hin) as Hline.
  unfold parsecmd. fold es. set (s0 := mkparser 0 buf []).
  assert (Hg0 : good es buf s0) by (split_and!; [done|cbn; lia|intros i c Hi; done]).
  assert (Hn0 : need es s0 = (2 * es)%nat) by (unfold need; cbn; lia).
  destruct (rules cap es buf Hline fuel) as [Hrule _].
  apply (pwp_step (parseline cap fuel es) _ s0 (rule_post es buf 1 s0)).
  { apply Hrule; [done|lia|cbn; lia]. }
  intros c s1 (Hg1 & Hc1 & _ & _ & Hn1).
  eapply pwp_step; [by apply (peek_spec es buf Hline)|].
  intros b s2 ((Hb2 & Hp2 & Hh2) & Hheap & _ & _).
  apply pwp_get. destruct (Nat.eqb_spec (pos s2) es) as [He|]; cbn [negb].
  - assert (Hes : (es < length buf)%nat) by (apply lookup_lt_is_Some; by exists 0; apply Hline).
    assert (Hlen : (length (heap s1) ≤ 2 * es + 1)%nat) by (unfold need in *; lia).
    eapply pwp_step; [apply (nulterminate_spec es); [done|rewrite Hb2; lia|rewrite Hheap; lia|lia]|].
    intros [] s3 (Hh3 & Hl3 & Hp3). apply pwp_ret. rewrite Hh3, Hl3, Hb2, Hheap.
    split_and!; [|done..]. by rewrite <- Hheap.
  - apply wp_bind, wp_bind.
    apply (wp_plain _ (chars "leftovers: ") (chars "%s" ++ [10])); [by repeat constructor|].
    apply wp_str, (wp_plain _ [10] []); [by repeat constructor|]. apply wp_panic.
Qed.

Lemma wp_call_bind c {A} (f : Z → uprog A) Q : (∀ r, wp (f r) Q) → wp (x ← call c; f x) Q.
Proof. intros Hf. apply wp_bind. simpl. by intros. Qed.

Lemma wp_fork1 {A} (f : Z → uprog A) Q : (∀ r, wp (f r) Q) → wp (x ← fork1; f x) Q.
Proof.
  intros Hf. apply wp_bind, wp_bind. simpl. intros r _. destruct (r =? -1); [apply wp_panic|]. apply Hf.
Qed.

Lemma wp_message pre suf s {A} (f : unit → uprog A) Q :
  Forall (fun c => c ≠ chr "%") pre → Forall (fun c => c ≠ chr "%") suf → wp (f tt) Q →
  wp (x ← fprintf 2 (pre ++ chars "%s" ++ suf) [AStr s]; f x) Q.
Proof.
  intros Hp Hs HQ. apply wp_bind. apply wp_plain; [done|]. apply wp_str.
  rewrite <- (app_nil_r suf). by apply wp_plain.
Qed.

(** [runcmd] never returns. *)
Lemma runcmd_spec es fuel b h c :
  heap_ok es h → (c < length h)%nat → (c < fuel)%nat →
  wp (runcmd fuel b h c) (fun _ => False).
Proof.
  revert c. induction fuel as [|fuel IH]; intros c Hok Hc Hf; [lia|]. cbn [runcmd].
  destruct (lookup_lt_is_Some_2 h c Hc) as [x Hx]. rewrite Hx. pose proof (Hok c x Hx) as Hcx.
  assert (Hrun : ∀ c', (c' < c)%nat → wp (runcmd fuel b h c') (fun _ => False)).
  { intros c' Hlt. apply IH; done || lia. }
  destruct x as [argv eargv|c' f e m d|l r|l r|c']; cbn in Hcx.
  - destruct argv as [|[q|] argv]; [done| |done]. apply wp_call_bind. intros _.
    apply (wp_message (chars "exec ") (line " failed")); by repeat constructor.
  - destruct Hcx as [Hlt _]. apply wp_call_bind. intros _. apply wp_call_bind. intros r.
    destruct (r <? 0); [|by apply Hrun].
    apply (wp_message (chars "open ") (line " failed")); by repeat constructor.
  - destruct Hcx. apply wp_bind. simpl. intros ret p. destruct (ret <? 0); [apply wp_panic|].
    apply wp_fork1. intros pid. destruct (pid =? 0).
    { do 4 (apply wp_call_bind; intros _). by apply Hrun. }
    apply wp_fork1. intros pid'. destruct (pid' =? 0); do 4 (apply wp_call_bind; intros _); [|done].
    by apply Hrun.
  - destruct Hcx. apply wp_fork1. intros pid. destruct (pid =? 0); [by apply Hrun|].
    apply wp_call_bind. intros _. by apply Hrun.
  - apply wp_fork1. intros pid. destruct (pid =? 0); [by apply Hrun|done].
Qed.

(** C9. For every line in the buffer and whatever the kernel answers, the child of
    the shell finishes: parsecmd and runcmd read and write only inside the line and
    the ten entries of argv, use at most two commands of heap per character plus one
    and four nested calls per character plus six, and runcmd never returns. *)
Theorem shell_child_finishes cap fuel buf :
  0 ∈ buf → (2 * length (cstring 0 buf) + 1 ≤ cap)%nat → (4 * length (cstring 0 buf) + 6 ≤ fuel)%nat →
  wp (x ← parsecmd cap fuel buf; let '(c, s) := x in runcmd fuel (sbuf s) (heap s) c)
     (fun _ => False).
Proof.
  intros Hin Hcap Hf. apply wp_bind.
  eapply wp_mono; [by apply parsecmd_spec|]. intros [c s] (Hok & Hc & Hlen & _).
  apply (runcmd_spec (length (cstring 0 buf))); [done|done|lia].
Qed.

Definition ex_line : list Z := line "(cat < in ; ls -l) | wc > out &" ++ replicate 68 0.

Lemma shell_child_finishes_witness :
  match (run writes (x ← parsecmd 65 134 ex_line; let '(c, s) := x in runcmd 134 (sbuf s) (heap s) c)
           []).2 with
  | Exited _ => True
  | _ => False
  end.
Proof.
  pose proof (wp_run writes _ _ [] (shell_child_finishes 65 134 ex_line
    ltac:(vm_compute; set_solver) ltac:(vm_compute; lia) ltac:(vm_compute; lia))) as H.
  destruct (run _ _ _) as [out [[]| | |]]; exact H.
Defined.
