(* ===== verification/Utils.v ===== *)
(** The other user programs: user/init.c, user/kill.c, user/ln.c, user/ls.c,
    user/mkdir.c, user/rm.c, user/setpolicy.c, user/top.c, user/zombie.c, and the
    first code that runs in user space, user/initcode.S.

    [argv] is the list of the arguments with the name of the program first. *)

From Stdlib Require Import Ascii.
From stdpp Require Import base gmap strings numbers list.
From S2P Require Import Prelude Printf User.
Local Open Scope Z_scope.

(** * user/initcode.S *)

(** [exec(init, argv)]; when it fails, exit with what is in a0. *)
Definition initcode : uprog unit :=
  r ← call (SysExec (chars "/init") [chars "/init"]);
  exit r.

(** * user/init.c *)

Module Init.

Definition CONSOLE : Z := 1.

Definition open_console : uprog unit :=
  r ← open (chars "console") O_RDWR;
  _ ← (if r <? 0 then
         _ ← call (SysMknod (chars "console") CONSOLE 0);
         open (chars "console") O_RDWR
       else Pure r);
  _ ← call (SysDup 0);
  _ ← call (SysDup 0);
  Pure tt.

(** The loop over [wait], until the shell with [pid] is gone. *)
Fixpoint reap (fuel : nat) (pid : Z) : uprog unit :=
  match fuel with
  | O => Unfinished
  | S fuel' =>
      wpid ← wait;
      if wpid =? pid then Pure tt
      else if wpid <? 0 then
        _ ← printf (line "init: wait returned an error") [];
        exit 1
      else reap fuel' pid
  end.

Fixpoint shells (fuel : nat) : uprog Z :=
  match fuel with
  | O => Unfinished
  | S fuel' =>
      _ ← printf (line "init: starting sh") [];
      pid ← fork;
      if pid <? 0 then
        _ ← printf (line "init: fork failed") [];
        exit 1
      else if pid =? 0 then
        _ ← call (SysExec (chars "sh") [chars "sh"]);
        _ ← printf (line "init: exec sh failed") [];
        exit 1
      else
        _ ← reap fuel' pid;
        shells fuel'
  end.

Definition main (fuel : nat) : uprog Z := _ ← open_console; shells fuel.

End Init.

(** * user/kill.c *)

Module Kill.

Fixpoint kills (args : list (list Z)) : uprog Z :=
  match args with
  | [] => exit 0
  | a :: args' => _ ← call (SysKill (atoi a)); kills args'
  end.

Definition main (argv : list (list Z)) : uprog Z :=
  if (length argv <? 2)%nat then
    _ ← fprintf 2 (line "usage: kill pid...") [];
    exit 1
  else kills (tail argv).

End Kill.

(** * user/ln.c *)

Module Ln.

Definition main (argv : list (list Z)) : uprog Z :=
  match argv with
  | [_; old; new] =>
      r ← call (SysLink old new);
      _ ← (if r <? 0 then fprintf 2 (line "link %s %s: failed") [AStr (Some old); AStr (Some new)]
           else Pure tt);
      exit 0
  | _ =>
      _ ← fprintf 2 (line "Usage: ln old new") [];
      exit 1
  end.

End Ln.

(** * user/mkdir.c and user/rm.c *)

Module Mkdir.

Fixpoint dirs (args : list (list Z)) : uprog Z :=
  match args with
  | [] => exit 0
  | a :: args' =>
      r ← call (SysMkdir a);
      if r <? 0 then
        _ ← fprintf 2 (line "mkdir: %s failed to create") [AStr (Some a)];
        exit 0
      else dirs args'
  end.

Definition main (argv : list (list Z)) : uprog Z :=
  if (length argv <? 2)%nat then
    _ ← fprintf 2 (line "Usage: mkdir files...") [];
    exit 1
  else dirs (tail argv).

End Mkdir.

Module Rm.

Fixpoint files (args : list (list Z)) : uprog Z :=
  match args with
  | [] => exit 0
  | a :: args' =>
      r ← call (SysUnlink a);
      if r <? 0 then
        _ ← fprintf 2 (line "rm: %s failed to delete") [AStr (Some a)];
        exit 0
      else files args'
  end.

Definition main (argv : list (list Z)) : uprog Z :=
  if (length argv <? 2)%nat then
    _ ← fprintf 2 (line "Usage: rm files...") [];
    exit 1
  else files (tail argv).

End Rm.

(** * user/ls.c *)

Module Ls.

Definition DIRSIZ : nat := 14%nat.
Definition slash : Z := chr "/".

(** The characters after the last slash of [path]. *)
Fixpoint after_slash (path cur : list Z) : list Z :=
  match path with
  | [] => cur
  | c :: path' => if c =? slash then after_slash path' path' else after_slash path' cur
  end.

(** The name, padded with blanks to DIRSIZ; a longer one as it is. *)
Definition fmtname (path : list Z) : list Z :=
  let p := after_slash path path in
  if (DIRSIZ <=? length p)%nat then p else p ++ replicate (DIRSIZ - length p) 32.

Definition T_DIR : Z := 1.
Definition T_FILE : Z := 2.
Definition T_DEVICE : Z := 3.

Definition print_entry (path : list Z) (st : ustat) : uprog unit :=
  printf (line "%s %d %d %d")
    [AStr (Some (fmtname path)); ANum (st_type st); ANum (st_ino st); ANum (int (st_size st))].

(** The string that [l] starts with. *)
Fixpoint cstr_of (l : list Z) : list Z :=
  match l with
  | c :: l' => if c =? 0 then [] else c :: cstr_of l'
  | [] => []
  end.

(** The loop over the entries of a directory: 2 bytes of inode number and 14 of name. *)
Fixpoint entries (fuel : nat) (fd : Z) (path : list Z) : uprog unit :=
  match fuel with
  | O => Unfinished
  | S fuel' =>
      x ← read fd 16;
      let '(n, de) := x in
      if negb (n =? 16) then Pure tt else
      let inum := default 0 (de !! 0%nat) + 256 * default 0 (de !! 1%nat) in
      if inum =? 0 then entries fuel' fd path else
      let buf := path ++ [slash] ++ cstr_of (take DIRSIZ (drop 2 de)) in
      y ← stat buf;
      match y with
      | (r, Some st) =>
          if r <? 0 then
            _ ← printf (line "ls: cannot stat %s") [AStr (Some buf)];
            entries fuel' fd path
          else
            _ ← print_entry buf st;
            entries fuel' fd path
      | (r, None) =>
          if r <? 0 then
            _ ← printf (line "ls: cannot stat %s") [AStr (Some buf)];
            entries fuel' fd path
          else Undefined
      end
  end.

Definition ls (fuel : nat) (path : list Z) : uprog unit :=
  fd ← open path O_RDONLY;
  if fd <? 0 then fprintf 2 (line "ls: cannot open %s") [AStr (Some path)]
  else
    y ← fstat fd;
    let '(r, st) := y in
    if r <? 0 then
      _ ← fprintf 2 (line "ls: cannot stat %s") [AStr (Some path)];
      _ ← close fd;
      Pure tt
    else
      match st with
      | None => Undefined
      | Some st =>
          _ ← (if (st_type st =? T_DEVICE) || (st_type st =? T_FILE) then print_entry path st
               else if st_type st =? T_DIR then
                 if (512 <? length path + 1 + DIRSIZ + 1)%nat then
                   printf (line "ls: path too long") []
                 else entries fuel fd path
               else Pure tt);
          _ ← close fd;
          Pure tt
      end.

Fixpoint all (fuel : nat) (paths : list (list Z)) : uprog Z :=
  match paths with
  | [] => exit 0
  | p :: paths' => _ ← ls fuel p; all fuel paths'
  end.

Definition main (fuel : nat) (argv : list (list Z)) : uprog Z :=
  if (length argv <? 2)%nat then _ ← ls fuel (chars "."); exit 0 else all fuel (tail argv).

End Ls.

(** * user/setpolicy.c *)

Module Setpolicy.

Definition main (argv : list (list Z)) : uprog Z :=
  match argv with
  | _ :: a :: _ =>
      let mode := atoi a in
      r ← call (SysSetSched mode);
      _ ← (if r <? 0 then printf (line "Failed to set scheduler policy: %d") [ANum mode]
           else match mode with
                | 0 => printf (line "Scheduler policy set to Round-Robin (RR)") []
                | 1 => printf (line "Scheduler policy set to First-Come First-Served (FCFS)") []
                | 2 => printf (line "Scheduler policy set to Priority Scheduling") []
                | 3 => printf (line "Scheduler policy set to HRRN") []
                | 4 => printf (line "Scheduler policy set to MLFQ") []
                | _ => printf (line "Scheduler policy set to Unknown mode: %d") [ANum mode]
                end);
      exit 0
  | _ =>
      _ ← printf (line "Usage: setpolicy [0=RR | 1=FCFS | 2=Priority | 3=HRRN| 4=MLFQ]") [];
      exit 1
  end.

End Setpolicy.

(** * user/top.c and user/zombie.c *)

Module Top.
Definition main : uprog Z := _ ← call SysTop; exit 0.
End Top.

Module Zombie.
Definition main : uprog Z :=
  pid ← fork;
  _ ← (if 0 <? pid then call (SysSleep 5) else Pure 0);
  exit 0.
End Zombie.

(** * Properties *)

Lemma after_slash_spec path cur :
  (∃ pre, path = pre ++ [Ls.slash] ++ Ls.after_slash path cur ∧
          Forall (fun c => c ≠ Ls.slash) (Ls.after_slash path cur)) ∨
  (Forall (fun c => c ≠ Ls.slash) path ∧ Ls.after_slash path cur = cur).
Proof.
  revert cur. induction path as [|c path IH]; intros cur; [by right|]. cbn [Ls.after_slash].
  destruct (Z.eqb_spec c Ls.slash) as [->|Hc].
  - left. destruct (IH path) as [(pre & Hp & Hf)|[Hf ->]].
    + exists (Ls.slash :: pre). by rewrite Hp at 1.
    + by exists [].
  - destruct (IH cur) as [(pre & Hp & Hf)|[Hf Hc']].
    + left. exists (c :: pre). by rewrite Hp at 1.
    + right. by split; [constructor|].
Qed.

(** The name that [ls] prints is at least DIRSIZ wide, starts with the last part of
    the path and goes on with blanks. *)
Theorem fmtname_pads path :
  ∃ name pad, Ls.fmtname path = name ++ replicate pad 32 ∧
    Forall (fun c => c ≠ Ls.slash) name ∧ (Ls.DIRSIZ ≤ length (Ls.fmtname path))%nat ∧
    (path = name ∨ ∃ pre, path = pre ++ [Ls.slash] ++ name).
Proof.
  set (name := Ls.after_slash path path).
  assert (Hn : Forall (fun c => c ≠ Ls.slash) name ∧
               (path = name ∨ ∃ pre, path = pre ++ [Ls.slash] ++ name)).
  { destruct (after_slash_spec path path) as [(pre & Hp & Hf)|[Hf Hp]]; subst name.
    - split; [done|]. right. by exists pre.
    - rewrite Hp. split; [done|]. by left. }
  unfold Ls.fmtname. fold name. destruct (Nat.leb_spec Ls.DIRSIZ (length name)) as [Hl|Hl].
  - exists name, 0%nat. simpl. rewrite app_nil_r. by destruct Hn.
  - exists name, (Ls.DIRSIZ - length name)%nat. rewrite length_app, length_replicate.
    destruct Hn. split_and!; [done..|lia|done].
Qed.
