(* ===== verification/Tests.v ===== *)
(** The small test programs: user/forktest.c, user/stressfs.c and the tests of the
    schedulers, user/test_ps.c, user/test_fcfs.c, user/test_hrrn.c,
    user/test_mlfq.c, user/test.c.

    The loops that only count in local variables make no system call and their
    counts are not used; what is left of them is the time they take. *)

From Stdlib Require Import Ascii.
From stdpp Require Import base gmap strings numbers list.
From S2P Require Import Prelude Printf User.
Local Open Scope Z_scope.

(** * user/forktest.c *)

Module Forktest.

Definition N : nat := 1000%nat.

Definition print (s : list Z) : uprog Z := write 1 s.

(** The loop over [fork], with [k] turns left; gives the number of children. *)
Fixpoint forks (k : nat) : uprog nat :=
  match k with
  | O => Pure N
  | S k' =>
      pid ← fork;
      if pid <? 0 then Pure (N - k)%nat
      else if pid =? 0 then exit 0
      else forks k'
  end.

Fixpoint waits (n : nat) : uprog unit :=
  match n with
  | O => Pure tt
  | S n' =>
      r ← wait;
      if r <? 0 then _ ← print (line "wait stopped early"); exit 1 else waits n'
  end.

Definition forktest : uprog unit :=
  _ ← print (line "fork test");
  n ← forks N;
  if (n =? N)%nat then _ ← print (line "fork claimed to work N times!"); exit 1 else
  _ ← waits n;
  r ← wait;
  if negb (r =? -1) then _ ← print (line "wait got too many"); exit 1 else
  _ ← print (line "fork test OK");
  Pure tt.

Definition main : uprog Z := _ ← forktest; exit 0.

End Forktest.

(** * user/stressfs.c *)

Module Stressfs.

(** [for(i = 0; i < 4; i++) if(fork() > 0) break;] *)
Fixpoint forks (k : nat) (i : Z) : uprog Z :=
  match k with
  | O => Pure i
  | S k' => pid ← fork; if 0 <? pid then Pure i else forks k' (i + 1)
  end.

Fixpoint repeat_ (n : nat) (p : uprog unit) : uprog unit :=
  match n with O => Pure tt | S n' => _ ← p; repeat_ n' p end.

Definition main : uprog Z :=
  _ ← printf (line "stressfs starting") [];
  let data := replicate 512 (chr "a") in
  i ← forks 4 0;
  _ ← printf (line "write %d") [ANum i];
  let path := chars "stressfs" ++ [uchar (chr "0" + i)] in
  fd ← open path (Z.lor O_CREATE O_RDWR);
  _ ← repeat_ 20 (_ ← write fd data; Pure tt);
  _ ← close fd;
  _ ← printf (line "read") [];
  fd ← open path O_RDONLY;
  _ ← repeat_ 20 (_ ← read fd 512; Pure tt);
  _ ← close fd;
  _ ← wait;
  exit 0.

End Stressfs.

(** * The lock of the scheduler tests

    [printing] is an ordinary variable of the process. *)

(** [while (__sync_lock_test_and_set(&printing, 1) != 0);] gives the new value: a
    process that finds its own variable set spins. *)
Definition acquire_lock (printing : Z) : uprog Z := if printing =? 0 then Pure 1 else Unfinished.
Definition release_lock (printing : Z) : uprog Z := Pure 0.

(** [acquire_lock(); p; release_lock();] *)
Definition locked (p : uprog unit) (printing : Z) : uprog Z :=
  l ← acquire_lock printing; _ ← p; release_lock l.

(** * user/test_ps.c *)

Module TestPs.

Definition priorities : list Z := [5; 3; 1; 4; 2].

Definition child (start_time priority : Z) : uprog Z :=
  _ ← call (SysSleep 1);
  mypid ← call SysGetpid;
  l ← acquire_lock 0;
  now ← uptime;
  _ ← printf (line "Child PID=%d (priority=%d) DONE at %d ticks")
        [ANum mypid; ANum priority; ANum (int (now - start_time))];
  _ ← release_lock l;
  exit 0.

Fixpoint children (start_time : Z) (ps : list Z) : uprog unit :=
  match ps with
  | [] => Pure tt
  | p :: ps' =>
      pid ← call (SysForkWithPriority p);
      if pid =? 0 then _ ← child start_time p; Undefined else children start_time ps'
  end.

Fixpoint waits (n : nat) : uprog unit :=
  match n with O => Pure tt | S n' => _ ← wait; waits n' end.

Definition main : uprog Z :=
  _ ← printf (line "Setting scheduling policy to Priority (2)...") [];
  _ ← call (SysSetSched 2);
  start_time ← uptime;
  _ ← children start_time priorities;
  _ ← waits 5;
  _ ← locked (printf (line "Parent done") []) 0;
  exit 0.

End TestPs.

(** * user/test_fcfs.c *)

Module TestFcfs.

Definition workload : list Z := [100000000; 80000000; 60000000; 40000000; 20000000].

(** The lock is taken and released at every multiple of 20000000 below the bound. *)
Fixpoint phases (n : nat) (printing : Z) : uprog Z :=
  match n with O => Pure printing | S n' => l ← locked (Pure tt) printing; phases n' l end.

Definition child (start_time work : Z) : uprog Z :=
  mypid ← call SysGetpid;
  l ← locked (Pure tt) 0;
  l ← phases (Z.to_nat ((work - 1) / 20000000)) l;
  l ← acquire_lock l;
  now ← uptime;
  _ ← printf (line "Child %d DONE at %d ticks") [ANum mypid; ANum (int (now - start_time))];
  _ ← release_lock l;
  exit 0.

Fixpoint children (start_time : Z) (ws : list Z) : uprog unit :=
  match ws with
  | [] => Pure tt
  | w :: ws' =>
      pid ← fork;
      if pid =? 0 then _ ← child start_time w; Undefined else
      _ ← call (SysSleep 3);
      children start_time ws'
  end.

Definition main : uprog Z :=
  start_time ← uptime;
  _ ← printf (line "Setting scheduling policy to FCFS (1)...") [];
  _ ← call (SysSetSched 1);
  _ ← children start_time workload;
  _ ← TestPs.waits 5;
  _ ← locked (printf (line "Parent done") []) 0;
  exit 0.

End TestFcfs.

(** * user/test_hrrn.c *)

Module TestHrrn.

(** [acquire_lock(); printf(fmt, uptime() - start_time); release_lock();] *)
Definition report (fmt : string) (args : list arg) (start_time printing : Z) : uprog Z :=
  l ← acquire_lock printing;
  now ← uptime;
  _ ← printf (line fmt) (args ++ [ANum (int (now - start_time))]);
  release_lock l.

Definition child (started yielding resumed done_ : string) (start_time : Z) : uprog Z :=
  mypid ← call SysGetpid;
  l ← report started [ANum mypid] start_time 0;
  l ← report yielding [] start_time l;
  _ ← call SysYield;
  l ← report resumed [] start_time l;
  _ ← report done_ [] start_time l;
  exit 0.

Definition main : uprog Z :=
  _ ← printf (line "Setting scheduling policy to HRRN (3)...") [];
  _ ← call (SysSetSched 3);
  start_time ← uptime;
  pid1 ← fork;
  if pid1 =? 0 then
    child "Child1 (long task) PID=%d STARTED at %d ticks" "Child1 YIELDING at %d ticks"
          "Child1 RESUMED at %d ticks" "Child1 DONE at %d ticks" start_time
  else
  pid2 ← fork;
  if pid2 =? 0 then
    child "Child2 (short task) PID=%d STARTED at %d ticks" "Child2 YIELDING at %d ticks"
          "Child2 RESUMED at %d ticks" "Child2 DONE at %d ticks" start_time
  else
  _ ← wait;
  _ ← wait;
  _ ← locked (printf (line "Parent done.") []) 0;
  exit 0.

End TestHrrn.

(** * user/test_mlfq.c *)

Module TestMlfq.

(** The turns [i] of the loop that print, one per multiple of [print_every]. *)
Fixpoint prints (n : nat) (i print_every id start_time : Z) (label : list Z) (printing : Z) : uprog Z :=
  match n with
  | O => Pure printing
  | S n' =>
      now ← uptime;
      l ← locked (printf (line "[%s] PID=%d running at tick=%d (+%d) (i=%d)")
             [AStr (Some label); ANum id; ANum now; ANum (int (now - start_time)); ANum i]) printing;
      prints n' (i + print_every) print_every id start_time label l
  end.

Definition simulate_workload (loops print_every id start_time : Z) (label : list Z) (printing : Z)
  : uprog Z :=
  prints (Z.to_nat ((loops - 1) / print_every + 1)) 0 print_every id start_time label printing.

(** [now = uptime();] and a line with it. *)
Definition report (fmt : string) (args : list arg) (start_time printing : Z) : uprog Z :=
  now ← uptime;
  locked (printf (line fmt) (args ++ [ANum now; ANum (int (now - start_time))])) printing.

Definition child (started label done_ : string) (loops print_every start_time : Z) : uprog Z :=
  mypid ← call SysGetpid;
  l ← report started [ANum mypid] start_time 0;
  l ← simulate_workload loops print_every mypid start_time (chars label) l;
  _ ← report done_ [] start_time l;
  exit 0.

Definition main : uprog Z :=
  boot_ticks ← uptime;
  _ ← printf (line "Current system tick at test start: %d") [ANum boot_ticks];
  _ ← printf (line "Setting scheduling policy to MLFQ (4)...") [];
  _ ← call (SysSetSched 4);
  start_time ← uptime;
  pid1 ← fork;
  if pid1 =? 0 then
    child "Child1 (CPU-bound) PID=%d STARTED at tick=%d (+%d)" "Child1-Phase1"
          "Child1 DONE at tick=%d (+%d)" 200000000 20000000 start_time
  else
  _ ← call (SysSleep 5);
  pid2 ← fork;
  if pid2 =? 0 then
    child "Child2 (short-task x2) PID=%d STARTED at tick=%d (+%d)" "Child2-Phase1"
          "Child2 DONE at tick=%d (+%d)" 40000000 10000000 start_time
  else
  _ ← wait;
  _ ← wait;
  _ ← report "Parent done at tick=%d (+%d)." [] start_time 0;
  exit 0.

End TestMlfq.

(** * user/test.c *)

Module Test.

Definition NPROCS : nat := 1500%nat.

Record proc_info := mkinfo {
  pid : Z; start_tick : Z; finish_tick : Z; runtime_ticks : Z; waiting_time : Z
}.

Definition info0 : proc_info := mkinfo 0 0 0 0 0.

(** The kind of task [i] decides only how long it computes and whether it yields. *)
Definition child (i : Z) : uprog Z :=
  mypid ← call SysGetpid;
  _ ← (if i mod 4 =? 2 then call SysYield else Pure 0);
  waiting ← call (SysGetWaitingTime mypid);
  exit waiting.

(** The loop over [fork], from [infos[i]] on, with [k] turns left. *)
Fixpoint forks (k : nat) (i : Z) (infos : list proc_info) : uprog (list proc_info) :=
  match k with
  | O => Pure infos
  | S k' =>
      p ← fork;
      if p =? 0 then _ ← child i; Undefined
      else if 0 <? p then
        now ← uptime;
        forks k' (i + 1) (alter (fun x => mkinfo p now (finish_tick x) (runtime_ticks x) (waiting_time x))
                                (Z.to_nat i) infos)
      else
        _ ← printf (line "Fork failed at i=%d!") [ANum i];
        forks k' (i + 1) infos
  end.

(** The first entry with the pid of the child that ended takes its times. *)
Fixpoint finish (p now status : Z) (infos : list proc_info) : list proc_info :=
  match infos with
  | [] => []
  | x :: infos' =>
      if pid x =? p then mkinfo p (start_tick x) now (int (now - start_tick x)) status :: infos'
      else x :: finish p now status infos'
  end.

Fixpoint waits (n : nat) (infos : list proc_info) : uprog (list proc_info) :=
  match n with
  | O => Pure infos
  | S n' =>
      x ← Sys SysWait (fun r out => Pure (r, default 0 (head out)));
      let '(p, status) := x in
      now ← uptime;
      waits n' (finish p now status infos)
  end.

Definition total_turnaround (infos : list proc_info) : Z :=
  foldl (fun t x => int (t + int (finish_tick x - start_tick x))) 0 infos.
Definition total_waiting (infos : list proc_info) : Z :=
  foldl (fun t x => int (t + waiting_time x)) 0 infos.

(** The float of the last line is passed but no conversion of [printf] reads it. *)
Definition main : uprog Z :=
  _ ← printf (line "Starting massive scheduling test with %d processes") [ANum (Z.of_nat NPROCS)];
  _ ← call (SysSetSched 4);
  start_time ← uptime;
  infos ← forks NPROCS 0 (replicate NPROCS info0);
  infos ← waits NPROCS infos;
  end_time ← uptime;
  _ ← printf ([10] ++ line "======== Test Summary ========") [];
  _ ← printf (line "Total Processes: %d") [ANum (Z.of_nat NPROCS)];
  _ ← printf (line "Total Time: %d ticks") [ANum (int (end_time - start_time))];
  _ ← printf (line "Average Turnaround Time: %d ticks")
        [ANum (total_turnaround infos ÷ Z.of_nat NPROCS)];
  _ ← printf (line "Average Waiting Time: %d ticks") [ANum (total_waiting infos ÷ Z.of_nat NPROCS)];
  _ ← printf (line "Throughput: %.2f processes per second") [];
  _ ← printf (line "===============================") [];
  exit 0.

End Test.

(** * Properties *)

(** [printf] has no conversion for floats: the throughput is printed as its format. *)
Example throughput_not_printed :
  run writes (printf (line "Throughput: %.2f processes per second") []) [] =
  (line "Throughput: %.2f processes per second", Returns tt).
Proof. vm_compute. reflexivity. Qed.

(** ** forktest

    A kernel that lets a process have [slots] children: their number, and what was
    written. *)
Module ForktestSpec.

Definition table (slots : nat) (s : nat * list Z) (c : ucall) : nat * list Z * Z * list Z :=
  let '(live, out) := s in
  match c with
  | SysFork => if (live <? slots)%nat then ((S live, out), 100 + Z.of_nat live, []) else (s, -1, [])
  | SysWait => if (0 <? live)%nat then ((live - 1, out)%nat, 100, [0]) else (s, -1, [])
  | SysWrite _ b => ((live, out ++ b), Z.of_nat (length b), [])
  | _ => (s, -1, [])
  end.

Lemma forks_run slots k live out :
  (k + live = Forktest.N)%nat →
  run (table slots) (Forktest.forks k) (live, out) =
  ((if (slots <? Forktest.N)%nat then live `max` slots else Forktest.N, out)%nat,
   Returns (if (slots <? Forktest.N)%nat then live `max` slots else Forktest.N)%nat).
Proof.
  revert live. induction k as [|k IH]; intros live Hk; cbn [Forktest.forks].
  { simpl in Hk. subst live. cbn [run]. destruct (Nat.ltb_spec slots Forktest.N); [|done].
    by rewrite Nat.max_l by lia. }
  rewrite run_bind. cbn [fork call run table]. destruct (Nat.ltb_spec live slots) as [Hlt|Hge].
  - cbn [run]. destruct (Z.ltb_spec (100 + Z.of_nat live) 0); [lia|].
    destruct (Z.eqb_spec (100 + Z.of_nat live) 0); [lia|]. rewrite IH by lia.
    destruct (Nat.ltb_spec slots Forktest.N); [|done]. by replace (S live `max` slots)%nat with (live `max` slots)%nat by lia.
  - cbn [run]. change (-1 <? 0) with true. cbn [run]. destruct (Nat.ltb_spec slots Forktest.N); [|lia].
    rewrite Nat.max_l by lia. do 2 f_equal. lia.
Qed.

Lemma waits_run slots n out :
  run (table slots) (Forktest.waits n) (n, out) = ((0%nat, out), Returns tt).
Proof.
  induction n as [|n IH]; [done|]. cbn [Forktest.waits]. rewrite run_bind.
  cbn [wait call run table]. simpl. rewrite Nat.sub_0_r. exact IH.
Qed.

(** forktest passes if and only if the kernel gives a process less than 1000 children. *)
Theorem forktest_passes slots :
  run (table slots) Forktest.main (0%nat, []) =
  if (slots <? Forktest.N)%nat
  then ((0%nat, line "fork test" ++ line "fork test OK"), Exited 0)
  else ((Forktest.N, line "fork test" ++ line "fork claimed to work N times!"), Exited 1).
Proof.
  unfold Forktest.main, Forktest.forktest. rewrite !run_bind.
  cbn [Forktest.print write call run table]. rewrite run_bind, forks_run by lia.
  cbn [app Nat.max]. destruct (Nat.ltb_spec slots Forktest.N) as [Hlt|Hge].
  - destruct (Nat.eqb_spec slots Forktest.N); [lia|]. rewrite run_bind, waits_run.
    rewrite run_bind. cbn [wait call run table]. simpl. by rewrite <- ?app_assoc.
  - rewrite Nat.eqb_refl. done.
Qed.

End ForktestSpec.
