(* ===== verification/Grind.v ===== *)
(** user/grind.c: random system calls.  The generator is the one of Park and Miller; the
    loop of [go] is a turn after a turn on the state of the process. *)

From Stdlib Require Import Ascii.
From stdpp Require Import base gmap strings numbers list.
From S2P Require Import Prelude Printf User.
Local Open Scope Z_scope.

Module Grind.

(** * Random numbers *)

(** The new context and the result. *)
Definition do_rand (ctx : Z) : Z * Z :=
  let x := int64 (uint64 (ctx mod 0x7ffffffe + 1)) in
  let hi := Z.quot x 127773 in
  let lo := Z.rem x 127773 in
  let x := int64 (16807 * lo - 2836 * hi) in
  let x := if x <? 0 then int64 (x + 0x7fffffff) else x in
  let x := int64 (x - 1) in
  (uint64 x, int x).

(** * The actions *)

(** The variables that outlive a turn: [fd], [rand_next], [iters] and the static [buf]. *)
Record st := mkst { fd : Z; rand_next : Z; iters : Z; buf : list Z }.

Definition st0 (rand_next : Z) : st := mkst (-1) rand_next 0 (replicate 999 0).

Section grind.
(** What a variable has before it is assigned. *)
Context (junk : Z).

Definition mkdir (path : string) : uprog Z := call (SysMkdir (chars path)).
Definition chdir (path : string) : uprog Z := call (SysChdir (chars path)).
Definition unlink (path : string) : uprog Z := call (SysUnlink (chars path)).
Definition link (old new : string) : uprog Z := call (SysLink (chars old) (chars new)).
Definition create (path : string) : uprog Z := open (chars path) (Z.lor O_CREATE O_RDWR).
Definition sbrk (n : Z) : uprog Z := call (SysSbrk (int n)).

Definition die {A} (fmt : string) : uprog A := printf (line fmt) [] ;; exit 1.
Definition complain {A} (fmt : string) (status : Z) : uprog A := fprintf 2 (line fmt) [] ;; exit status.

(** [pid = fork(); if(pid == 0) child else if(pid < 0) ...; rest] *)
Definition forking {A} (child : uprog A) (rest : Z → uprog A) : uprog A :=
  pid ← fork;
  if pid =? 0 then child
  else if pid <? 0 then die "grind: fork failed"
  else rest pid.

(** The part of an array up to its nul. *)
Fixpoint cstr (b : list Z) : list Z :=
  match b with c :: b' => if c =? 0 then [] else c :: cstr b' | [] => [] end.

(** [read(fd, b + i, 1)] *)
Definition read1 (fd : Z) (i : nat) (b : list Z) : uprog (list Z) :=
  x ← read fd 1;
  Pure (match head x.2 with Some c => <[i := c]> b | None => b end).

(** echo hi | cat *)
Definition pipeline {A} (rest : uprog A) : uprog A :=
  p ← pipe (junk, junk);
  if p.1 <? 0 then complain "grind: pipe failed" 1 else
  let aa := p.2 in
  p ← pipe (junk, junk);
  if p.1 <? 0 then complain "grind: pipe failed" 1 else
  let bb := p.2 in
  pid1 ← fork;
  if pid1 =? 0 then
    close bb.1 ;; close bb.2 ;; close aa.1 ;; close 1 ;;
    r ← call (SysDup aa.2);
    if negb (r =? 1) then complain "grind: dup failed" 1 else
    close aa.2 ;;
    call (SysExec (chars "grindir/../echo") [chars "echo"; chars "hi"]) ;;
    complain "grind: echo: not found" 2
  else if pid1 <? 0 then complain "grind: fork failed" 3 else
  pid2 ← fork;
  if pid2 =? 0 then
    close aa.2 ;; close bb.1 ;; close 0 ;;
    r ← call (SysDup aa.1);
    if negb (r =? 0) then complain "grind: dup failed" 4 else
    close aa.1 ;; close 1 ;;
    r ← call (SysDup bb.2);
    if negb (r =? 1) then complain "grind: dup failed" 5 else
    close bb.2 ;;
    call (SysExec (chars "/cat") [chars "cat"]) ;;
    complain "grind: cat: not found" 6
  else if pid2 <? 0 then complain "grind: fork failed" 7 else
  close aa.1 ;; close aa.2 ;; close bb.2 ;;
  b ← read1 bb.1 0 [0; 0; 0; 0];
  b ← read1 bb.1 1 b;
  b ← read1 bb.1 2 b;
  close bb.1 ;;
  w1 ← wait_into junk;
  w2 ← wait_into junk;
  if negb (w1.2 =? 0) || negb (w2.2 =? 0) || negb (bool_decide (cstr b = line "hi")) then
    printf (chars "grind: exec pipeline failed %d %d " ++ [34] ++ chars "%s" ++ [34; 10])
      [ANum w1.2; ANum w2.2; AStr (Some (cstr b))] ;;
    exit 1
  else rest.

(** Action 21: there are free inodes, file descriptors and blocks. *)
Definition make_c {A} (rest : uprog A) : uprog A :=
  unlink "c" ;;
  fd1 ← create "c";
  if fd1 <? 0 then die "grind: create c failed" else
  n ← write fd1 (chars "x");
  if negb (n =? 1) then die "grind: write c failed" else
  x ← fstat fd1;
  if negb (x.1 =? 0) then die "grind: fstat failed" else
  let s := default (mkustat junk junk junk junk junk) x.2 in
  if negb (st_size s =? 1) then
    printf (line "grind: fstat reports wrong size %d") [ANum (int (st_size s))] ;; exit 1
  else if 200 <? st_ino s then
    printf (line "grind: fstat reports crazy i-number %d") [ANum (st_ino s)] ;; exit 1
  else
  close fd1 ;; unlink "c" ;; rest.

(** Action 19: a pipe between children. *)
Definition piping {A} (rest : uprog A) : uprog A :=
  p ← pipe (junk, junk);
  if p.1 <? 0 then die "grind: pipe failed" else
  let fds := p.2 in
  forking
    (fork ;; fork ;;
     n ← write fds.2 (chars "x");
     (if negb (n =? 1) then printf (line "grind: pipe write failed") [] else Pure tt) ;;
     x ← read fds.1 1;
     (if negb (x.1 =? 1) then printf (line "grind: pipe read failed") [] else Pure tt) ;;
     exit 0)
    (fun _ => close fds.1 ;; close fds.2 ;; wait ;; rest).

(** One action, of the number [what]. *)
Definition act (what break0 : Z) (s : st) : uprog st :=
  let ret := Pure s in
  match what with
  | 1 => f ← create "grindir/../a"; close f ;; ret
  | 2 => f ← create "grindir/../grindir/../b"; close f ;; ret
  | 3 => unlink "grindir/../a" ;; ret
  | 4 =>
      r ← chdir "grindir";
      if negb (r =? 0) then die "grind: chdir grindir failed" else
      unlink "../b" ;; chdir "/" ;; ret
  | 5 => close (fd s) ;; f ← create "/grindir/../a"; Pure (mkst f (rand_next s) (iters s) (buf s))
  | 6 => close (fd s) ;; f ← create "/./grindir/./../b"; Pure (mkst f (rand_next s) (iters s) (buf s))
  | 7 => write (fd s) (buf s) ;; ret
  | 8 =>
      x ← read (fd s) 999;
      let got := take 999 x.2 in
      Pure (mkst (fd s) (rand_next s) (iters s) (got ++ drop (length got) (buf s)))
  | 9 => mkdir "grindir/../a" ;; f ← create "a/../a/./a"; close f ;; unlink "a/a" ;; ret
  | 10 => mkdir "/../b" ;; f ← create "grindir/../b/b"; close f ;; unlink "b/b" ;; ret
  | 11 => unlink "b" ;; link "../grindir/./../a" "../b" ;; ret
  | 12 => unlink "../grindir/../a" ;; link ".././b" "/grindir/../a" ;; ret
  | 13 => forking (exit 0) (fun _ => wait ;; ret)
  | 14 => forking (fork ;; fork ;; exit 0) (fun _ => wait ;; ret)
  | 15 => sbrk 6011 ;; ret
  | 16 =>
      a ← sbrk 0;
      if uint64 break0 <? uint64 a then b ← sbrk 0; sbrk (- (b - break0)) ;; ret else ret
  | 17 =>
      forking (f ← create "a"; close f ;; exit 0)
        (fun pid =>
           r ← chdir "../grindir/..";
           if negb (r =? 0) then die "grind: chdir failed" else
           call (SysKill pid) ;; wait ;; ret)
  | 18 => forking (me ← call SysGetpid; call (SysKill me) ;; exit 0) (fun _ => wait ;; ret)
  | 19 => piping ret
  | 20 =>
      forking (unlink "a" ;; mkdir "a" ;; chdir "a" ;; unlink "../a" ;; create "x" ;; unlink "x" ;; exit 0)
        (fun _ => wait ;; ret)
  | 21 => make_c ret
  | 22 => pipeline ret
  | _ => ret
  end.

(** * The loops *)

(** One turn of the loop of [go]. *)
Definition turn (which_child break0 : Z) (s : st) : uprog st :=
  let n := uint64 (iters s + 1) in
  (if n mod 500 =? 0 then write 1 (chars (if which_child =? 0 then "A" else "B")) else Pure 0) ;;
  let '(next, r) := do_rand (rand_next s) in
  act (Z.rem r 23) break0 (mkst (fd s) next n (buf s)).

Fixpoint turns (fuel : nat) (which_child break0 : Z) (s : st) : uprog unit :=
  match fuel with
  | O => Unfinished
  | S fuel' => s' ← turn which_child break0 s; turns fuel' which_child break0 s'
  end.

Definition go (fuel : nat) (which_child rand_next : Z) : uprog unit :=
  break0 ← sbrk 0;
  mkdir "grindir" ;;
  r ← chdir "grindir";
  if negb (r =? 0) then die "grind: chdir grindir failed" else
  chdir "/" ;;
  turns fuel which_child break0 (st0 rand_next).

Definition iter (fuel : nat) (rand_next : Z) : uprog unit :=
  unlink "a" ;;
  unlink "b" ;;
  pid1 ← fork;
  if pid1 <? 0 then die "grind: fork failed" else
  if pid1 =? 0 then go fuel 0 (Z.lxor rand_next 31) ;; exit 0 else
  pid2 ← fork;
  if pid2 <? 0 then die "grind: fork failed" else
  if pid2 =? 0 then go fuel 1 (Z.lxor rand_next 7177) ;; exit 0 else
  w ← wait_into (-1);
  (if negb (w.2 =? 0) then call (SysKill pid1) ;; call (SysKill pid2) ;; Pure tt else Pure tt) ;;
  wait_into (-1) ;;
  exit 0.

Fixpoint main (fuel : nat) (rand_next : Z) : uprog unit :=
  match fuel with
  | O => Unfinished
  | S fuel' =>
      pid ← fork;
      if pid =? 0 then iter fuel' rand_next ;; exit 0 else
      (if 0 <? pid then wait else Pure 0) ;;
      call (SysSleep 20) ;;
      main fuel' (uint64 (rand_next + 1))
  end.
End grind.
End Grind.

(** * The generator *)

Module GrindSpec.
Import Grind.

Definition M31 : Z := 0x7fffffff.

Lemma int64_small z : - 2 ^ 63 <= z < 2 ^ 63 → int64 z = z.
Proof. intros H. unfold int64. rewrite Z.mod_small; lia. Qed.

(** Schrage's way to compute [16807 * x mod M31]. *)
Lemma schrage x :
  0 < x < M31 →
  let y := 16807 * (x mod 127773) - 2836 * (x / 127773) in
  - M31 < y < M31 ∧ (if y <? 0 then y + M31 else y) = (16807 * x) mod M31.
Proof.
  intros Hx y. unfold M31 in *. pose proof (Z.mod_pos_bound x 127773 ltac:(lia)) as Hlo.
  pose proof (Z.div_mod x 127773 ltac:(lia)) as Hd.
  assert (0 <= x / 127773 <= 16807) as Hhi.
  { split; [apply Z.div_pos; lia|]. apply Zlt_succ_le, Z.div_lt_upper_bound; lia. }
  assert (- 0x7fffffff < y < 0x7fffffff) as Hy by (unfold y; lia). split; [done|].
  assert (16807 * x = (x / 127773) * 0x7fffffff + y) as E by (unfold y; lia).
  destruct (Z.ltb_spec y 0).
  - apply (Z.mod_unique _ _ (x / 127773 - 1)); lia.
  - apply (Z.mod_unique _ _ (x / 127773)); lia.
Qed.

(** 16807 has an inverse modulo M31. *)
Lemma mult_nonzero x : 0 < x < M31 → 0 < (16807 * x) mod M31.
Proof.
  intros Hx. pose proof (Z.mod_pos_bound (16807 * x) M31 eq_refl) as Hb.
  destruct (decide ((16807 * x) mod M31 = 0)) as [E|]; [|lia].
  apply Z.mod_divide in E; [|done]. apply Z.gauss in E; [|reflexivity].
  apply Z.divide_pos_le in E; lia.
Qed.

Lemma mult_injective x y : 0 < x < M31 → 0 < y < M31 → (16807 * x) mod M31 = (16807 * y) mod M31 → x = y.
Proof.
  intros Hx Hy E. assert (M31 | 16807 * (x - y)) as Hd.
  { apply Z.mod_divide; [done|]. rewrite Z.mul_sub_distr_l, Zminus_mod, E, Z.sub_diag. done. }
  apply Z.gauss in Hd; [|reflexivity].
  destruct (decide (x = y)) as [|Hne]; [done|]. destruct (decide (x < y)).
  - apply Z.divide_opp_r in Hd. apply Z.divide_pos_le in Hd; lia.
  - apply Z.divide_pos_le in Hd; lia.
Qed.

Lemma do_rand_value ctx :
  0 <= ctx → let r := (16807 * (ctx mod 0x7ffffffe + 1)) mod M31 - 1 in do_rand ctx = (r, r) ∧ 0 <= r < 0x7ffffffe.
Proof.
  intros Hc r. pose proof (Z.mod_pos_bound ctx 0x7ffffffe eq_refl) as Hm. set (x := ctx mod 0x7ffffffe + 1) in *.
  assert (0 < x < M31) as Hx by (unfold M31; lia). destruct (schrage x Hx) as [Hy E]. cbv zeta in Hy, E.
  pose proof (mult_nonzero x Hx) as Hnz. pose proof (Z.mod_pos_bound (16807 * x) M31 eq_refl) as Hb.
  unfold do_rand. fold x. unfold M31 in *. rewrite (uint64_small x), (int64_small x) by lia.
  rewrite Z.quot_div_nonneg, Z.rem_mod_nonneg by lia.
  set (y := 16807 * (x mod 127773) - 2836 * (x / 127773)) in *. rewrite (int64_small y) by lia.
  assert ((if y <? 0 then int64 (y + 0x7fffffff) else y) = (16807 * x) mod 0x7fffffff) as ->.
  { rewrite <- E. destruct (Z.ltb_spec y 0); [apply int64_small; lia|done]. }
  rewrite int64_small by lia. fold r. rewrite uint64_small, int_small by lia. split; [done|lia].
Qed.

(** Every turn finishes, and keeps the variables in the ranges of their types. *)
Definition st_ok (s : st) : Prop := length (buf s) = 999%nat ∧ 0 <= rand_next s < 2 ^ 64 ∧ 0 <= iters s < 2 ^ 64.

Lemma turn_finishes junk which_child break0 s : st_ok s → wp (turn junk which_child break0 s) st_ok.
Proof.
  intros (Hb & Hr & Hi). destruct (do_rand_value (rand_next s)) as [E Hrange]; [lia|].
  unfold turn. apply wp_bind. apply (wp_mono _ (fun _ => True)); [wp_auto|]. intros _ _. rewrite E.
  set (s' := mkst _ _ _ _). assert (st_ok s') as Hs'.
  { split; [done|]. simpl. split; [lia|apply uint64_range]. }
  clearbody s'. unfold act. wp_auto; try exact Hs'.
  destruct Hs' as (Hl & Hs2 & Hs3). split; [|done]. cbn [buf]. rewrite length_app, length_drop, length_take, Hl. lia.
Qed.

(** C37. do_rand computes the minimal standard generator without overflow: for every
    context that is not negative the new context and the result are 16807 * (1 +
    context mod (2^31 - 2)) mod (2^31 - 1) - 1, between 0 and 2^31 - 3, and no two
    contexts of that range have the same successor. *)
Theorem do_rand_permutes ctx :
  0 <= ctx →
  let r := (16807 * (ctx mod 0x7ffffffe + 1)) mod 0x7fffffff - 1 in
  do_rand ctx = (r, r) ∧ 0 <= r <= 0x7ffffffd ∧
  ∀ ctx', 0 <= ctx <= 0x7ffffffd → 0 <= ctx' <= 0x7ffffffd → do_rand ctx' = do_rand ctx → ctx' = ctx.
Proof.
  intros Hc r. destruct (do_rand_value ctx Hc) as [E Hr]. split; [exact E|]. split; [unfold M31 in Hr; lia|].
  intros ctx' H1 H2 Heq. destruct (do_rand_value ctx' ltac:(lia)) as [E' _]. rewrite E, E' in Heq.
  injection Heq as Heq _. rewrite (Z.mod_small ctx 0x7ffffffe), (Z.mod_small ctx' 0x7ffffffe) in Heq by lia.
  apply (Z.add_cancel_r _ _ 1), mult_injective; unfold M31 in *; lia.
Qed.

Lemma do_rand_permutes_witness : do_rand 1 = (33613, 33613) ∧ 0 <= 33613 <= 0x7ffffffd.
Proof. destruct (do_rand_permutes 1) as (H1 & H2 & _); [lia|]. split; [exact H1|exact H2]. Defined.
End GrindSpec.
