(* ===== verification/UtArgs.v ===== *)
(** user/usertests.c, first part: the vocabulary of the tests, and the tests of bad
    arguments and of simple file operations, copyin to exectest.

    A test gets its own name and ends by returning or by an exit.  [junk] is what a
    variable has before it is assigned, [lit] the addresses of the string literals that are
    passed along with bad pointers; loops without a bound take [fuel]. *)

From Stdlib Require Import Ascii.
From stdpp Require Import base gmap strings numbers list.
From S2P Require Import Prelude Spinlock Kstate CString Globals Printf User.
Local Open Scope Z_scope.

(** * Vocabulary *)

Module Ut.

Definition BUFSZ : Z := (MAXOPBLOCKS + 2) * BSIZE.

(** The array [buf] at the start of a test. *)
Definition buf0 : list Z := replicate (Z.to_nat BUFSZ) 0.

(** [buf] after a read of at most [n] bytes into it. *)
Definition fill (n : Z) (out buf : list Z) : list Z :=
  let got := take (Z.to_nat n) out in got ++ drop (length got) buf.

(** [a[i]] and [a[i] = v]; outside the array they are undefined. *)
Definition elem (a : list Z) (i : Z) : uprog Z :=
  match at_idx a i with Some v => Pure v | None => Undefined end.
Definition set_elem (a : list Z) (i v : Z) : uprog (list Z) :=
  match at_idx a i with Some _ => Pure (<[Z.to_nat i := v]> a) | None => Undefined end.

(** The bytes [l] stored from the start of [buf] on. *)
Definition set_bytes (l buf : list Z) : uprog (list Z) :=
  if (length buf <? length l)%nat then Undefined else Pure (l ++ drop (length l) buf).

(** [read(fd, buf, n)] gives the result and the array; the array must have [n] bytes, as
    for [write(fd, buf, n)]. *)
Definition read_into (fd n : Z) (buf : list Z) : uprog (Z * list Z) :=
  if Z.of_nat (length buf) <? n then Undefined else
  x ← read fd n; Pure (x.1, fill n x.2 buf).
Definition write_from (fd : Z) (buf : list Z) (n : Z) : uprog Z :=
  if Z.of_nat (length buf) <? n then Undefined else write fd (take (Z.to_nat n) buf).

Definition crw : Z := Z.lor O_CREATE O_RDWR.
Definition cwr : Z := Z.lor O_CREATE O_WRONLY.
Definition cwt : Z := Z.lor cwr O_TRUNC.

Definition open (path : string) (mode : Z) : uprog Z := User.open (chars path) mode.
Definition unlink (path : string) : uprog Z := call (SysUnlink (chars path)).
Definition mkdir (path : string) : uprog Z := call (SysMkdir (chars path)).
Definition chdir (path : string) : uprog Z := call (SysChdir (chars path)).
Definition link (old new : string) : uprog Z := call (SysLink (chars old) (chars new)).
Definition exec (path : string) (argv : list (list Z)) : uprog Z := call (SysExec (chars path) argv).
Definition sbrk (n : Z) : uprog Z := call (SysSbrk (int n)).
Definition sleep (n : Z) : uprog Z := call (SysSleep n).
Definition kill (pid : Z) : uprog Z := call (SysKill pid).
Definition write_str (fd : Z) (s : string) : uprog Z := write fd (chars s).

(** Calls with addresses that are no objects of the program. *)
Definition raw_read (fd a n : Z) : uprog Z := call (SysRaw 5 [fd; a; n]).
Definition raw_write (fd a n : Z) : uprog Z := call (SysRaw 16 [fd; a; n]).
Definition raw_unlink (a : Z) : uprog Z := call (SysRaw 18 [a]).
Definition raw_open (a mode : Z) : uprog Z := call (SysRaw 15 [a; mode]).
Definition raw_link (a b : Z) : uprog Z := call (SysRaw 19 [a; b]).
(** The elements of the array follow the path. *)
Definition raw_exec (a : Z) (argv : list Z) : uprog Z := call (SysRaw 7 (a :: argv)).

(** [printf(...); exit(1);] when [b] holds. *)
Definition fails (b : bool) (fmt : string) (args : list arg) : uprog unit :=
  if b then printf (line fmt) args ;; exit 1 else Pure tt.
(** The same without a newline. *)
Definition fails' (b : bool) (fmt : string) (args : list arg) : uprog unit :=
  if b then printf (chars fmt) args ;; exit 1 else Pure tt.

Definition str (s : list Z) : arg := AStr (Some s).

(** [for(i = i0; ...; i++)], [k] turns. *)
Fixpoint for_from (k : nat) (i : Z) (body : Z → uprog unit) : uprog unit :=
  match k with O => Pure tt | S k' => body i ;; for_from k' (i + 1) body end.
Definition for_ (n : Z) (body : Z → uprog unit) : uprog unit := for_from (Z.to_nat n) 0 body.

(** The same with a variable that the turns change. *)
Fixpoint fold_from {A} (k : nat) (i : Z) (body : Z → A → uprog A) (a : A) : uprog A :=
  match k with O => Pure a | S k' => a' ← body i a; fold_from k' (i + 1) body a' end.
Definition fold_ {A} (n : Z) (body : Z → A → uprog A) (a : A) : uprog A := fold_from (Z.to_nat n) 0 body a.

Fixpoint each {A} (l : list A) (body : A → uprog unit) : uprog unit :=
  match l with [] => Pure tt | a :: l' => body a ;; each l' body end.

(** A loop that [body] ends with [inr]. *)
Fixpoint while_ {A B} (fuel : nat) (body : A → uprog (A + B)) (a : A) : uprog B :=
  match fuel with
  | O => Unfinished
  | S fuel' => x ← body a; match x with inl a' => while_ fuel' body a' | inr b => Pure b end
  end.

(** [while(1) body;] *)
Fixpoint forever (fuel : nat) (body : uprog unit) : uprog unit :=
  match fuel with O => Unfinished | S fuel' => body ;; forever fuel' body end.

Section args.
Context (junk : Z) (fuel : nat) (lit : string → Z) (s : list Z).

(** * Ridiculous pointers *)

Definition copyin : uprog unit :=
  each [0x80000000; 0x3fffffe000; 0x3ffffff000; 0x4000000000; 0xffffffffffffffff]
    (fun addr =>
       fd ← open "copyin1" cwr;
       fails (fd <? 0) "open(copyin1) failed" [] ;;
       n ← raw_write fd addr 8192;
       fails (0 <=? n) "write(fd, %p, 8192) returned %d, not -1" [ANum addr; ANum n] ;;
       close fd ;;
       unlink "copyin1" ;;
       n ← raw_write 1 addr 8192;
       fails (0 <? n) "write(1, %p, 8192) returned %d, not -1 or 0" [ANum addr; ANum n] ;;
       p ← pipe (junk, junk);
       fails (p.1 <? 0) "pipe() failed" [] ;;
       n ← raw_write p.2.2 addr 8192;
       fails (0 <? n) "write(pipe, %p, 8192) returned %d, not -1 or 0" [ANum addr; ANum n] ;;
       close p.2.1 ;;
       close p.2.2 ;;
       Pure tt).

Definition copyout : uprog unit :=
  each [0; 0x80000000; 0x3fffffe000; 0x3ffffff000; 0x4000000000; 0xffffffffffffffff]
    (fun addr =>
       fd ← open "README" 0;
       fails (fd <? 0) "open(README) failed" [] ;;
       n ← raw_read fd addr 8192;
       fails (0 <? n) "read(fd, %p, 8192) returned %d, not -1 or 0" [ANum addr; ANum n] ;;
       close fd ;;
       p ← pipe (junk, junk);
       fails (p.1 <? 0) "pipe() failed" [] ;;
       n ← write_str p.2.2 "x";
       fails (negb (n =? 1)) "pipe write failed" [] ;;
       n ← raw_read p.2.1 addr 8192;
       fails (0 <? n) "read(pipe, %p, 8192) returned %d, not -1 or 0" [ANum addr; ANum n] ;;
       close p.2.1 ;;
       close p.2.2 ;;
       Pure tt).

Definition copyinstr1 : uprog unit :=
  each [0x80000000; 0x3fffffe000; 0x3ffffff000; 0x4000000000; 0xffffffffffffffff]
    (fun addr =>
       fd ← raw_open addr cwr;
       fails (0 <=? fd) "open(%p) returned %d, not -1" [ANum addr; ANum fd]).

(** [b] has no nul in its first MAXPATH characters. *)
Definition copyinstr2 : uprog unit :=
  let b := replicate (Z.to_nat MAXPATH) (chr "x") in
  ret ← call (SysUnlink b);
  fails (negb (ret =? -1)) "unlink(%s) returned %d, not -1" [str b; ANum ret] ;;
  fd ← User.open b cwr;
  fails (negb (fd =? -1)) "open(%s) returned %d, not -1" [str b; ANum fd] ;;
  ret ← call (SysLink b b);
  fails (negb (ret =? -1)) "link(%s, %s) returned %d, not -1" [str b; str b; ANum ret] ;;
  ret ← call (SysExec b [chars "xx"]);
  fails (negb (ret =? -1)) "exec(%s) returned %d, not -1" [str b; ANum fd] ;;
  pid ← fork;
  fails (pid <? 0) "fork failed" [] ;;
  if pid =? 0 then
    let big := replicate (Z.to_nat PGSIZE) (chr "x") in
    ret ← exec "echo" [big; big; big];
    fails (negb (ret =? -1)) "exec(echo, BIG) returned %d, not -1" [ANum fd] ;;
    exit 747
  else
  w ← wait_into 0;
  fails (negb (w.2 =? 747)) "exec(echo, BIG) succeeded, should have failed" [].

(** [printf] of the string at an address that is no object of the program. *)
Fixpoint print_at (k : nat) (a : Z) : uprog unit :=
  match k with
  | O => Unfinished
  | S k' => c ← call (MemRead a); if c =? 0 then Pure tt else putc 1 c ;; print_at k' (uint64 (a + 1))
  end.

Definition fails_at (b : bool) (before : string) (a : Z) (after : string) (args : list arg) : uprog unit :=
  if b then printf (chars before) [] ;; print_at fuel a ;; printf (line after) args ;; exit 1 else Pure tt.

(** [sbrk] up to the end of the page. *)
Definition copyinstr3 : uprog unit :=
  sbrk 8192 ;;
  top ← sbrk 0;
  (if negb (uint64 top mod PGSIZE =? 0) then sbrk (PGSIZE - uint64 top mod PGSIZE) else Pure 0) ;;
  top ← sbrk 0;
  fails (negb (uint64 top mod PGSIZE =? 0)) "oops" [] ;;
  let b := uint64 (top - 1) in
  call (MemWrite b (chr "x")) ;;
  ret ← raw_unlink b;
  fails_at (negb (ret =? -1)) "unlink(" b ") returned %d, not -1" [ANum ret] ;;
  fd ← raw_open b cwr;
  fails_at (negb (fd =? -1)) "open(" b ") returned %d, not -1" [ANum fd] ;;
  ret ← raw_link b b;
  (if negb (ret =? -1) then
     printf (chars "link(") [] ;; print_at fuel b ;; printf (chars ", ") [] ;; print_at fuel b ;;
     printf (line ") returned %d, not -1") [ANum ret] ;; exit 1
   else Pure tt) ;;
  ret ← raw_exec b [lit "xx"; 0];
  fails_at (negb (ret =? -1)) "exec(" b ") returned %d, not -1" [ANum fd].

Definition rwsbrk : uprog unit :=
  r ← sbrk 8192;
  let a := uint64 r in
  fails (a =? 0xffffffffffffffff) "sbrk(rwsbrk) failed" [] ;;
  r ← sbrk (-8192);
  fails (uint64 r =? 0xffffffffffffffff) "sbrk(rwsbrk) shrink failed" [] ;;
  fd ← open "rwsbrk" cwr;
  fails (fd <? 0) "open(rwsbrk) failed" [] ;;
  n ← raw_write fd (uint64 (a + 4096)) 1024;
  fails (0 <=? n) "write(fd, %p, 1024) returned %d, not -1" [ANum (uint64 (a + 4096)); ANum n] ;;
  close fd ;;
  unlink "rwsbrk" ;;
  fd ← open "README" O_RDONLY;
  fails (fd <? 0) "open(rwsbrk) failed" [] ;;
  n ← raw_read fd (uint64 (a + 4096)) 10;
  fails (0 <=? n) "read(fd, %p, 10) returned %d, not -1" [ANum (uint64 (a + 4096)); ANum n] ;;
  close fd ;;
  exit 0.

(** * Truncation *)

Definition truncate1 : uprog unit :=
  let buf := replicate 32 junk in
  unlink "truncfile" ;;
  fd1 ← open "truncfile" cwt;
  write_str fd1 "abcd" ;;
  close fd1 ;;
  fd2 ← open "truncfile" O_RDONLY;
  x ← read_into fd2 32 buf;
  fails (negb (x.1 =? 4)) "%s: read %d bytes, wanted 4" [str s; ANum x.1] ;;
  fd1 ← open "truncfile" (Z.lor O_WRONLY O_TRUNC);
  fd3 ← open "truncfile" O_RDONLY;
  x ← read_into fd3 32 buf;
  (if negb (x.1 =? 0) then
     printf (line "aaa fd3=%d") [ANum fd3] ;;
     printf (line "%s: read %d bytes, wanted 0") [str s; ANum x.1] ;; exit 1
   else Pure tt) ;;
  x ← read_into fd2 32 buf;
  (if negb (x.1 =? 0) then
     printf (line "bbb fd2=%d") [ANum fd2] ;;
     printf (line "%s: read %d bytes, wanted 0") [str s; ANum x.1] ;; exit 1
   else Pure tt) ;;
  write_str fd1 "abcdef" ;;
  x ← read_into fd3 32 buf;
  fails (negb (x.1 =? 6)) "%s: read %d bytes, wanted 6" [str s; ANum x.1] ;;
  x ← read_into fd2 32 buf;
  fails (negb (x.1 =? 2)) "%s: read %d bytes, wanted 2" [str s; ANum x.1] ;;
  unlink "truncfile" ;;
  close fd1 ;;
  close fd2 ;;
  close fd3 ;;
  Pure tt.

Definition truncate2 : uprog unit :=
  unlink "truncfile" ;;
  fd1 ← open "truncfile" cwt;
  write_str fd1 "abcd" ;;
  fd2 ← open "truncfile" (Z.lor O_TRUNC O_WRONLY);
  n ← write_str fd1 "x";
  fails (negb (n =? -1)) "%s: write returned %d, expected -1" [str s; ANum n] ;;
  unlink "truncfile" ;;
  close fd1 ;;
  close fd2 ;;
  Pure tt.

Definition truncate3 : uprog unit :=
  fd ← open "truncfile" cwt;
  close fd ;;
  pid ← fork;
  fails (pid <? 0) "%s: fork failed" [str s] ;;
  if pid =? 0 then
    for_ 100 (fun _ =>
      fd ← open "truncfile" O_WRONLY;
      fails (fd <? 0) "%s: open failed" [str s] ;;
      n ← write_str fd "1234567890";
      fails (negb (n =? 10)) "%s: write got %d, expected 10" [str s; ANum n] ;;
      close fd ;;
      fd ← open "truncfile" O_RDONLY;
      read_into fd 32 (replicate 32 junk) ;;
      close fd ;;
      Pure tt) ;;
    exit 0
  else
  for_ 150 (fun _ =>
    fd ← open "truncfile" cwt;
    fails (fd <? 0) "%s: open failed" [str s] ;;
    n ← write_str fd "xxx";
    fails (negb (n =? 3)) "%s: write got %d, expected 3" [str s; ANum n] ;;
    close fd ;;
    Pure tt) ;;
  w ← wait_into junk;
  unlink "truncfile" ;;
  exit w.2.

(** * Directories *)

Definition iputtest : uprog unit :=
  r ← mkdir "iputdir";
  fails (r <? 0) "%s: mkdir failed" [str s] ;;
  r ← chdir "iputdir";
  fails (r <? 0) "%s: chdir iputdir failed" [str s] ;;
  r ← unlink "../iputdir";
  fails (r <? 0) "%s: unlink ../iputdir failed" [str s] ;;
  r ← chdir "/";
  fails (r <? 0) "%s: chdir / failed" [str s].

Definition exitiputtest : uprog unit :=
  pid ← fork;
  fails (pid <? 0) "%s: fork failed" [str s] ;;
  if pid =? 0 then
    r ← mkdir "iputdir";
    fails (r <? 0) "%s: mkdir failed" [str s] ;;
    r ← chdir "iputdir";
    fails (r <? 0) "%s: child chdir failed" [str s] ;;
    r ← unlink "../iputdir";
    fails (r <? 0) "%s: unlink ../iputdir failed" [str s] ;;
    exit 0
  else
  w ← wait_into junk;
  exit w.2.

Definition openiputtest : uprog unit :=
  r ← mkdir "oidir";
  fails (r <? 0) "%s: mkdir oidir failed" [str s] ;;
  pid ← fork;
  fails (pid <? 0) "%s: fork failed" [str s] ;;
  if pid =? 0 then
    fd ← open "oidir" O_RDWR;
    fails (0 <=? fd) "%s: open directory for write succeeded" [str s] ;;
    exit 0
  else
  sleep 1 ;;
  r ← unlink "oidir";
  fails (negb (r =? 0)) "%s: unlink failed" [str s] ;;
  w ← wait_into junk;
  exit w.2.

(** * Simple file operations *)

Definition opentest : uprog unit :=
  fd ← open "echo" 0;
  fails (fd <? 0) "%s: open echo failed!" [str s] ;;
  close fd ;;
  fd ← open "doesnotexist" 0;
  fails (0 <=? fd) "%s: open doesnotexist succeeded!" [str s].

Definition writetest : uprog unit :=
  fd ← open "small" crw;
  fails (fd <? 0) "%s: error: creat small failed!" [str s] ;;
  for_ 100 (fun i =>
    n ← write_str fd "aaaaaaaaaa";
    fails (negb (n =? 10)) "%s: error: write aa %d new file failed" [str s; ANum i] ;;
    n ← write_str fd "bbbbbbbbbb";
    fails (negb (n =? 10)) "%s: error: write bb %d new file failed" [str s; ANum i]) ;;
  close fd ;;
  fd ← open "small" O_RDONLY;
  fails (fd <? 0) "%s: error: open small failed!" [str s] ;;
  x ← read_into fd 2000 buf0;
  fails (negb (x.1 =? 2000)) "%s: read failed" [str s] ;;
  close fd ;;
  r ← unlink "small";
  fails (r <? 0) "%s: unlink small failed" [str s].

(** The first int of [buf], and an assignment to it. *)
Definition first_int (buf : list Z) : uprog Z :=
  if (length buf <? 4)%nat then Undefined else Pure (int (le_value (take 4 buf))).
Definition set_first_int (i : Z) (buf : list Z) : uprog (list Z) := set_bytes (le_bytes 4 (uint i)) buf.

(** The loop that reads the file back; the variables are [n] and [buf]. *)
Definition writebig_read (fd : Z) : Z * list Z → uprog (Z * list Z + unit) := fun '(n, buf) =>
  x ← read_into fd BSIZE buf;
  let buf := x.2 in
  if x.1 =? 0 then
    fails' (negb (n =? MAXFILE)) "%s: read only %d blocks from big" [str s; ANum n] ;;
    Pure (inr tt)
  else
  fails (negb (x.1 =? BSIZE)) "%s: read failed %d" [str s; ANum x.1] ;;
  v ← first_int buf;
  fails (negb (v =? n)) "%s: read content of block %d is %d" [str s; ANum n; ANum v] ;;
  Pure (inl (int (n + 1), buf)).

Definition writebig : uprog unit :=
  fd ← open "big" crw;
  fails (fd <? 0) "%s: error: creat big failed!" [str s] ;;
  buf ← fold_ MAXFILE (fun i buf =>
    buf ← set_first_int i buf;
    n ← write_from fd buf BSIZE;
    fails (negb (n =? BSIZE)) "%s: error: write big file failed i=%d" [str s; ANum i] ;;
    Pure buf) buf0;
  close fd ;;
  fd ← open "big" O_RDONLY;
  fails (fd <? 0) "%s: error: open big failed!" [str s] ;;
  while_ fuel (writebig_read fd) (0, buf) ;;
  close fd ;;
  r ← unlink "big";
  fails (r <? 0) "%s: unlink big failed" [str s].

Definition createtest : uprog unit :=
  let name i := [chr "a"; uchar (chr "0" + i)] in
  for_ 52 (fun i => fd ← User.open (name i) crw; close fd ;; Pure tt) ;;
  for_ 52 (fun i => call (SysUnlink (name i)) ;; Pure tt).

Definition dirtest : uprog unit :=
  r ← mkdir "dir0";
  fails (r <? 0) "%s: mkdir failed" [str s] ;;
  r ← chdir "dir0";
  fails (r <? 0) "%s: chdir dir0 failed" [str s] ;;
  r ← chdir "..";
  fails (r <? 0) "%s: chdir .. failed" [str s] ;;
  r ← unlink "dir0";
  fails (r <? 0) "%s: unlink dir0 failed" [str s].

Definition exectest : uprog unit :=
  unlink "echo-ok" ;;
  pid ← fork;
  fails (pid <? 0) "%s: fork failed" [str s] ;;
  (if pid =? 0 then
     close 1 ;;
     fd ← open "echo-ok" cwr;
     fails (fd <? 0) "%s: create failed" [str s] ;;
     fails (negb (fd =? 1)) "%s: wrong fd" [str s] ;;
     r ← exec "echo" [chars "echo"; chars "OK"];
     fails (r <? 0) "%s: exec echo failed" [str s]
   else Pure tt) ;;
  w ← wait_into junk;
  (if negb (w.1 =? pid) then printf (line "%s: wait failed!") [str s] else Pure tt) ;;
  (if negb (w.2 =? 0) then exit w.2 else Pure tt) ;;
  fd ← open "echo-ok" O_RDONLY;
  fails (fd <? 0) "%s: open failed" [str s] ;;
  x ← read_into fd 2 (replicate 3 junk);
  fails (negb (x.1 =? 2)) "%s: read failed" [str s] ;;
  unlink "echo-ok" ;;
  c0 ← elem x.2 0;
  c1 ← elem x.2 1;
  if (c0 =? chr "O") && (c1 =? chr "K") then exit 0
  else printf (line "%s: wrong output") [str s] ;; exit 1.
End args.
End Ut.
