(* ===== verification/UtProcs.v ===== *)
(** user/usertests.c, second part: pipes, processes and their memory, pipe1 to mem, and
    forktest. *)

From Stdlib Require Import Ascii.
From stdpp Require Import base gmap strings numbers list.
From S2P Require Import Prelude Spinlock Kstate CString Globals Printf User Umalloc UtArgs.
Local Open Scope Z_scope.

Module UtP.
Import Ut.

Section procs.
Context (junk : Z) (fuel : nat) (s : list Z).

(** * Pipes *)

(** The first [n] bytes of [buf] are those that count up from [seq]; a read outside
    [buf] is undefined. *)
Fixpoint counts_up (n : nat) (buf : list Z) (seq : Z) : uprog bool :=
  match n with
  | O => Pure true
  | S n' =>
      match buf with
      | [] => Undefined
      | c :: buf' => if negb (Z.land c 0xff =? Z.land seq 0xff) then Pure false else counts_up n' buf' (int (seq + 1))
      end
  end.

(** The loop of the reader over [seq], [total], [cc] and [buf]; it gives [total], or
    nothing when the data is wrong. *)
Definition pipe1_read (fd : Z) : Z * Z * Z * list Z → uprog (Z * Z * Z * list Z + option Z) :=
  fun '(seq, total, cc, buf) =>
    x ← read_into fd cc buf;
    let n := x.1 in
    let buf := x.2 in
    if 0 <? n then
      ok ← counts_up (Z.to_nat n) buf seq;
      if (ok : bool) then
        let cc := int (cc * 2) in
        Pure (inl (int (seq + n), int (total + n), if BUFSZ <? cc then BUFSZ else cc, buf))
      else
        printf (line "%s: pipe1 oops 2") [str s] ;; Pure (inr None)
    else Pure (inr (Some total)).

Definition pipe1 : uprog unit :=
  p ← pipe (junk, junk);
  fails (negb (p.1 =? 0)) "%s: pipe() failed" [str s] ;;
  let fds := p.2 in
  pid ← fork;
  if pid =? 0 then
    close fds.1 ;;
    for_ 5 (fun n =>
      let bytes := (fun i => uchar (n * 1033 + Z.of_nat i)) <$> seq 0 1033 in
      buf ← set_bytes bytes buf0;
      r ← write_from fds.2 buf 1033;
      fails (negb (r =? 1033)) "%s: pipe1 oops 1" [str s]) ;;
    exit 0
  else if 0 <? pid then
    close fds.2 ;;
    r ← while_ fuel (pipe1_read fds.1) (0, 0, 1, buf0);
    match r with
    | None => Pure tt
    | Some total =>
        fails (negb (total =? 5 * 1033)) "%s: pipe1 oops 3 total %d" [str s; ANum total] ;;
        close fds.1 ;;
        w ← wait_into junk;
        exit w.2
    end
  else
    printf (line "%s: fork() failed") [str s] ;; exit 1.

(** * Killing and waiting *)

Definition killstatus : uprog unit :=
  fold_ 100 (fun _ xst =>
    pid1 ← fork;
    fails (pid1 <? 0) "%s: fork failed" [str s] ;;
    if pid1 =? 0 then forever fuel (call SysGetpid ;; Pure tt) ;; exit 0
    else
    sleep 1 ;;
    kill pid1 ;;
    w ← wait_into xst;
    fails (negb (w.2 =? -1)) "%s: status should be -1" [str s] ;;
    Pure w.2) junk ;;
  exit 0.

(** [for(;;) ;] makes no call and does not end. *)
Definition spins : uprog unit := Unfinished.

Definition preempt : uprog unit :=
  pid1 ← fork;
  fails' (pid1 <? 0) "%s: fork failed" [str s] ;;
  if pid1 =? 0 then spins else
  pid2 ← fork;
  fails (pid2 <? 0) "%s: fork failed" [str s] ;;
  if pid2 =? 0 then spins else
  p ← pipe (junk, junk);
  let pfds := p.2 in
  pid3 ← fork;
  fails (pid3 <? 0) "%s: fork failed" [str s] ;;
  if pid3 =? 0 then
    close pfds.1 ;;
    n ← write_str pfds.2 "x";
    (if negb (n =? 1) then printf (chars "%s: preempt write error") [str s] else Pure tt) ;;
    close pfds.2 ;;
    spins
  else
  close pfds.2 ;;
  x ← read_into pfds.1 BUFSZ buf0;
  if negb (x.1 =? 1) then printf (chars "%s: preempt read error") [str s] else
  close pfds.1 ;;
  printf (chars "kill... ") [] ;;
  kill pid1 ;;
  kill pid2 ;;
  kill pid3 ;;
  printf (chars "wait... ") [] ;;
  wait ;;
  wait ;;
  wait ;;
  Pure tt.

Definition exitwait : uprog unit :=
  for_ 100 (fun i =>
    pid ← fork;
    fails (pid <? 0) "%s: fork failed" [str s] ;;
    if negb (pid =? 0) then
      w ← wait_into junk;
      fails (negb (w.1 =? pid)) "%s: wait wrong pid" [str s] ;;
      fails (negb (i =? w.2)) "%s: wait wrong exit status" [str s]
    else exit i).

Definition reparent : uprog unit :=
  master_pid ← call SysGetpid;
  for_ 200 (fun _ =>
    pid ← fork;
    fails (pid <? 0) "%s: fork failed" [str s] ;;
    if negb (pid =? 0) then
      r ← wait;
      fails (negb (r =? pid)) "%s: wait wrong pid" [str s]
    else
      pid2 ← fork;
      (if pid2 <? 0 then kill master_pid ;; exit 1 else Pure tt) ;;
      exit 0) ;;
  exit 0.

Definition twochildren : uprog unit :=
  for_ 1000 (fun _ =>
    pid1 ← fork;
    fails (pid1 <? 0) "%s: fork failed" [str s] ;;
    if pid1 =? 0 then exit 0 else
    pid2 ← fork;
    fails (pid2 <? 0) "%s: fork failed" [str s] ;;
    if pid2 =? 0 then exit 0 else
    wait ;;
    wait ;;
    Pure tt).

Definition forkfork : uprog unit :=
  for_ 2 (fun _ =>
    pid ← fork;
    fails' (pid <? 0) "%s: fork failed" [str s] ;;
    if pid =? 0 then
      for_ 200 (fun _ =>
        pid1 ← fork;
        if pid1 <? 0 then exit 1 else
        if pid1 =? 0 then exit 0 else
        wait ;; Pure tt) ;;
      exit 0
    else Pure tt) ;;
  fold_ 2 (fun _ xstatus =>
    w ← wait_into xstatus;
    fails' (negb (w.2 =? 0)) "%s: fork in child failed" [str s] ;;
    Pure w.2) junk ;;
  Pure tt.

Definition forkforkfork : uprog unit :=
  unlink "stopforking" ;;
  pid ← fork;
  fails' (pid <? 0) "%s: fork failed" [str s] ;;
  if pid =? 0 then
    forever fuel (
      fd ← open "stopforking" 0;
      (if 0 <=? fd then exit 0 else Pure tt) ;;
      r ← fork;
      if r <? 0 then fd ← open "stopforking" crw; close fd ;; Pure tt else Pure tt) ;;
    exit 0
  else
  sleep 20 ;;
  fd ← open "stopforking" crw;
  close fd ;;
  wait ;;
  sleep 10 ;;
  Pure tt.

Definition reparent2 : uprog unit :=
  for_ 800 (fun _ =>
    pid1 ← fork;
    fails (pid1 <? 0) "fork failed" [] ;;
    if pid1 =? 0 then fork ;; fork ;; exit 0 else
    wait ;; Pure tt) ;;
  exit 0.

(** * Memory *)

(** The chain of blocks that [mem] allocates, each pointing to the one before. *)
Fixpoint mem_take (base : Z) (k : nat) (m1 : Z) : UM arena Z :=
  match k with
  | O => loops
  | S k' =>
      m2 ← malloc base fuel 10001;
      if m2 =? 0 then mret m1 else set_ptr m2 m1 ;; mem_take base k' m2
  end.

Fixpoint mem_free (base : Z) (k : nat) (m1 : Z) : UM arena unit :=
  match k with
  | O => loops
  | S k' =>
      if m1 =? 0 then mret tt else
      h ← load m1;
      free fuel m1 ;;
      mem_free base k' (h_ptr h)
  end.

(** [base] is the address of the allocator's own variable. *)
Definition mem_child (base : Z) : UM arena unit :=
  m1 ← mem_take base fuel 0;
  mem_free base fuel m1 ;;
  m1 ← malloc base fuel (1024 * 20);
  (if m1 =? 0 then lift (printf (line "%s: couldn't allocate mem?!!") [str s] ;; exit 1) else mret tt) ;;
  free fuel m1 ;;
  lift (exit 0).

Definition mem (base : Z) : uprog unit :=
  pid ← fork;
  if pid =? 0 then mem_child base (mkarena {[base := mkhdr 0 0]} 0) ;; Pure tt
  else
  w ← wait_into junk;
  if w.2 =? -1 then exit 0 else exit w.2.

(** * Forking until it fails *)

(** The loop over [fork] with [k] turns left; gives [n]. *)
Fixpoint forks (k : nat) (n : Z) : uprog Z :=
  match k with
  | O => Pure n
  | S k' =>
      pid ← fork;
      if pid <? 0 then Pure n
      else if pid =? 0 then exit 0
      else forks k' (n + 1)
  end.

Definition forktest : uprog unit :=
  n ← forks 1000 0;
  fails (n =? 0) "%s: no fork at all!" [str s] ;;
  fails (n =? 1000) "%s: fork claimed to work 1000 times!" [str s] ;;
  for_ n (fun _ => r ← wait; fails (r <? 0) "%s: wait stopped early" [str s]) ;;
  r ← wait;
  fails (negb (r =? -1)) "%s: wait got too many" [str s].
End procs.
End UtP.
