(* ===== verification/UtFiles.v ===== *)
(** user/usertests.c, third part: files and directories, sharedfd to iref. *)

From Stdlib Require Import Ascii.
From stdpp Require Import base gmap strings numbers list.
From S2P Require Import Prelude Spinlock Kstate CString Globals Printf User UtArgs.
Local Open Scope Z_scope.

Module UtF.
Import Ut.

Section files.
Context (junk : Z) (fuel : nat) (s : list Z).

(** * Shared and parallel writes *)

(** The letters in [buf] are added to [nc] and [np]. *)
Definition count_letters (buf : list Z) (nc np : Z) : Z * Z :=
  foldl (fun '(nc, np) c => (if c =? chr "c" then int (nc + 1) else nc, if c =? chr "p" then int (np + 1) else np))
    (nc, np) buf.

(** The loop that reads the file back, over the array [buf] of ten bytes. *)
Definition sharedfd_read (fd : Z) : Z * Z * list Z → uprog (Z * Z * list Z + Z * Z) :=
  fun '(nc, np, buf) =>
    x ← read_into fd 10 buf;
    let buf := x.2 in
    if 0 <? x.1 then let '(nc, np) := count_letters buf nc np in Pure (inl (nc, np, buf))
    else Pure (inr (nc, np)).

Definition sharedfd : uprog unit :=
  unlink "sharedfd" ;;
  fd ← open "sharedfd" crw;
  fails' (fd <? 0) "%s: cannot open sharedfd for writing" [str s] ;;
  pid ← fork;
  let buf := replicate 10 (if pid =? 0 then chr "c" else chr "p") in
  for_ 1000 (fun _ =>
    n ← write_from fd buf 10;
    fails (negb (n =? 10)) "%s: write sharedfd failed" [str s]) ;;
  if pid =? 0 then exit 0 else
  w ← wait_into junk;
  (if negb (w.2 =? 0) then exit w.2 else Pure tt) ;;
  close fd ;;
  fd ← open "sharedfd" 0;
  fails (fd <? 0) "%s: cannot open sharedfd for reading" [str s] ;;
  x ← while_ fuel (sharedfd_read fd) (0, 0, buf);
  close fd ;;
  unlink "sharedfd" ;;
  if (x.1 =? 10000) && (x.2 =? 10000) then exit 0
  else printf (line "%s: nc/np test fails") [str s] ;; exit 1.

(** [while((n = read(fd, buf, sizeof(buf))) > 0)]: [n] bytes that are [c]; the variables
    are [total] and [buf]. *)
Fixpoint all_are (n : nat) (c : Z) (buf : list Z) : uprog unit :=
  match n with
  | O => Pure tt
  | S n' =>
      match buf with
      | [] => Undefined
      | x :: buf' => fails (negb (x =? c)) "%s: wrong char" [str s] ;; all_are n' c buf'
      end
  end.

Definition fourfiles_read (fd c : Z) : Z * list Z → uprog (Z * list Z + Z * list Z) := fun '(total, buf) =>
  x ← read_into fd BUFSZ buf;
  let buf := x.2 in
  if 0 <? x.1 then all_are (Z.to_nat x.1) c buf ;; Pure (inl (int (total + x.1), buf))
  else Pure (inr (total, buf)).

Definition fourfiles : uprog unit :=
  let name pi := chars "f" ++ [chr "0" + pi] in
  for_ 4 (fun pi =>
    call (SysUnlink (name pi)) ;;
    pid ← fork;
    fails (pid <? 0) "%s: fork failed" [str s] ;;
    if pid =? 0 then
      fd ← User.open (name pi) crw;
      fails (fd <? 0) "%s: create failed" [str s] ;;
      buf ← set_bytes (replicate 500 (chr "0" + pi)) buf0;
      for_ 12 (fun _ =>
        n ← write_from fd buf 500;
        fails (negb (n =? 500)) "write failed %d" [ANum n]) ;;
      exit 0
    else Pure tt) ;;
  fold_ 4 (fun _ xstatus =>
    w ← wait_into xstatus;
    if negb (w.2 =? 0) then exit w.2 else Pure w.2) junk ;;
  fold_ 4 (fun i buf =>
    fd ← User.open (name i) 0;
    x ← while_ fuel (fourfiles_read fd (chr "0" + i)) (0, buf);
    close fd ;;
    fails (negb (x.1 =? 6000)) "wrong length %d" [ANum x.1] ;;
    call (SysUnlink (name i)) ;;
    Pure x.2) buf0 ;;
  Pure tt.

Definition createdelete : uprog unit :=
  let name pi i := [uchar (chr "p" + pi); uchar (chr "0" + i)] in
  for_ 4 (fun pi =>
    pid ← fork;
    fails (pid <? 0) "%s: fork failed" [str s] ;;
    if pid =? 0 then
      for_ 20 (fun i =>
        fd ← User.open (name pi i) crw;
        fails (fd <? 0) "%s: create failed" [str s] ;;
        close fd ;;
        if (0 <? i) && (i mod 2 =? 0) then
          r ← call (SysUnlink (name pi (i / 2)));
          fails (r <? 0) "%s: unlink failed" [str s]
        else Pure tt) ;;
      exit 0
    else Pure tt) ;;
  fold_ 4 (fun _ xstatus =>
    w ← wait_into xstatus;
    if negb (w.2 =? 0) then exit 1 else Pure w.2) junk ;;
  for_ 20 (fun i => for_ 4 (fun pi =>
    fd ← User.open (name pi i) 0;
    (if ((i =? 0) || (10 <=? i)) && (fd <? 0) then
       fails true "%s: oops createdelete %s didn't exist" [str s; str (name pi i)]
     else fails ((1 <=? i) && (i <? 10) && (0 <=? fd)) "%s: oops createdelete %s did exist" [str s; str (name pi i)]) ;;
    (if 0 <=? fd then close fd else Pure 0) ;; Pure tt)) ;;
  for_ 20 (fun i => for_ 4 (fun pi => call (SysUnlink (name pi i)) ;; Pure tt)).

(** * Links *)

Definition unlinkread : uprog unit :=
  fd ← open "unlinkread" crw;
  fails (fd <? 0) "%s: create unlinkread failed" [str s] ;;
  write_str fd "hello" ;;
  close fd ;;
  fd ← open "unlinkread" O_RDWR;
  fails (fd <? 0) "%s: open unlinkread failed" [str s] ;;
  r ← unlink "unlinkread";
  fails (negb (r =? 0)) "%s: unlink unlinkread failed" [str s] ;;
  fd1 ← open "unlinkread" crw;
  write_str fd1 "yyy" ;;
  close fd1 ;;
  x ← read_into fd BUFSZ buf0;
  fails' (negb (x.1 =? 5)) "%s: unlinkread read failed" [str s] ;;
  c ← elem x.2 0;
  fails (negb (c =? chr "h")) "%s: unlinkread wrong data" [str s] ;;
  n ← write_from fd x.2 10;
  fails (negb (n =? 10)) "%s: unlinkread write failed" [str s] ;;
  close fd ;;
  unlink "unlinkread" ;;
  Pure tt.

Definition linktest : uprog unit :=
  unlink "lf1" ;;
  unlink "lf2" ;;
  fd ← open "lf1" crw;
  fails (fd <? 0) "%s: create lf1 failed" [str s] ;;
  n ← write_str fd "hello";
  fails (negb (n =? 5)) "%s: write lf1 failed" [str s] ;;
  close fd ;;
  r ← link "lf1" "lf2";
  fails (r <? 0) "%s: link lf1 lf2 failed" [str s] ;;
  unlink "lf1" ;;
  r ← open "lf1" 0;
  fails (0 <=? r) "%s: unlinked lf1 but it is still there!" [str s] ;;
  fd ← open "lf2" 0;
  fails (fd <? 0) "%s: open lf2 failed" [str s] ;;
  x ← read_into fd BUFSZ buf0;
  fails (negb (x.1 =? 5)) "%s: read lf2 failed" [str s] ;;
  close fd ;;
  r ← link "lf2" "lf2";
  fails (0 <=? r) "%s: link lf2 lf2 succeeded! oops" [str s] ;;
  unlink "lf2" ;;
  r ← link "lf2" "lf1";
  fails (0 <=? r) "%s: link non-existent succeeded! oops" [str s] ;;
  r ← link "." "lf1";
  fails (0 <=? r) "%s: link . lf1 succeeded! oops" [str s].

(** A directory entry of 16 bytes: [inum] and the characters of [name]. *)
Definition entry_inum (de : list Z) : uprog Z := a ← elem de 0; b ← elem de 1; Pure (a + 256 * b).
Definition entry_name (de : list Z) : list Z := drop 2 de.

(** The string in [b]; without a nul it is undefined. *)
Fixpoint cstr (b : list Z) : uprog (list Z) :=
  match b with
  | [] => Undefined
  | c :: b' => if c =? 0 then Pure [] else l ← cstr b'; Pure (c :: l)
  end.

(** The loop over the directory; the variables are [n], [fa] and [de]. *)
Definition concreate_read (fd : Z) : Z * list Z * list Z → uprog (Z * list Z * list Z + Z) :=
  fun '(n, fa, de) =>
    x ← read_into fd 16 de;
    let de := x.2 in
    if 0 <? x.1 then
      inum ← entry_inum de;
      if inum =? 0 then Pure (inl (n, fa, de)) else
      c0 ← elem (entry_name de) 0;
      c2 ← elem (entry_name de) 2;
      if (c0 =? chr "C") && (c2 =? 0) then
        c1 ← elem (entry_name de) 1;
        let i := c1 - chr "0" in
        name ← cstr (entry_name de);
        fails ((i <? 0) || (40 <=? i)) "%s: concreate weird file %s" [str s; str name] ;;
        v ← elem fa i;
        fails (negb (v =? 0)) "%s: concreate duplicate file %s" [str s; str name] ;;
        fa ← set_elem fa i 1;
        Pure (inl (int (n + 1), fa, de))
      else Pure (inl (n, fa, de))
    else Pure (inr n).

Definition concreate : uprog unit :=
  let file i := [chr "C"; uchar (chr "0" + i)] in
  for_ 40 (fun i =>
    call (SysUnlink (file i)) ;;
    pid ← fork;
    (if negb (pid =? 0) && (i mod 3 =? 1) then call (SysLink (chars "C0") (file i)) ;; Pure tt
     else if (pid =? 0) && (i mod 5 =? 1) then call (SysLink (chars "C0") (file i)) ;; Pure tt
     else
       fd ← User.open (file i) crw;
       fails (fd <? 0) "concreate create %s failed" [str (file i)] ;;
       close fd ;; Pure tt) ;;
    if pid =? 0 then exit 0 else
    w ← wait_into junk;
    if negb (w.2 =? 0) then exit 1 else Pure tt) ;;
  fd ← open "." 0;
  n ← while_ fuel (concreate_read fd) (0, replicate 40 0, replicate 16 junk);
  close fd ;;
  fails (negb (n =? 40)) "%s: concreate not enough files in directory listing" [str s] ;;
  for_ 40 (fun i =>
    pid ← fork;
    fails (pid <? 0) "%s: fork failed" [str s] ;;
    (if ((i mod 3 =? 0) && (pid =? 0)) || ((i mod 3 =? 1) && negb (pid =? 0)) then
       for_ 6 (fun _ => fd ← User.open (file i) 0; close fd ;; Pure tt)
     else for_ 6 (fun _ => call (SysUnlink (file i)) ;; Pure tt)) ;;
    if pid =? 0 then exit 0 else wait ;; Pure tt).

Definition linkunlink : uprog unit :=
  unlink "x" ;;
  pid ← fork;
  fails (pid <? 0) "%s: fork failed" [str s] ;;
  fold_ 100 (fun _ x =>
    let x := uint (x * 1103515245 + 12345) in
    (if x mod 3 =? 0 then fd ← open "x" crw; close fd
     else if x mod 3 =? 1 then link "cat" "x"
     else unlink "x") ;;
    Pure x) (if negb (pid =? 0) then 1 else 97) ;;
  if negb (pid =? 0) then wait ;; Pure tt else exit 0.

(** * Directories *)

(** [if(call != 0)], [if(call < 0)], [if(call == 0)] and [if(call >= 0)] in front of a
    message and [exit(1)]. *)
Definition must (p : uprog Z) (fmt : string) : uprog unit := r ← p; fails (negb (r =? 0)) fmt [str s].
Definition must_not_fail (p : uprog Z) (fmt : string) : uprog unit := r ← p; fails (r <? 0) fmt [str s].
Definition must_not (p : uprog Z) (fmt : string) : uprog unit := r ← p; fails (r =? 0) fmt [str s].
Definition must_fail (p : uprog Z) (fmt : string) : uprog unit := r ← p; fails (0 <=? r) fmt [str s].

(** [fd = open(path, mode); if(fd < 0)] a message and [exit(1)]. *)
Definition must_open (path : string) (mode : Z) (fmt : string) : uprog Z :=
  fd ← open path mode; fails (fd <? 0) fmt [str s] ;; Pure fd.

Definition subdir : uprog unit :=
  unlink "ff" ;;
  must (mkdir "dd") "%s: mkdir dd failed" ;;
  fd ← must_open "dd/ff" crw "%s: create dd/ff failed";
  write_str fd "ff" ;;
  close fd ;;
  must_fail (unlink "dd") "%s: unlink dd (non-empty dir) succeeded!" ;;
  must (mkdir "/dd/dd") "%s: subdir mkdir dd/dd failed" ;;
  fd ← must_open "dd/dd/ff" crw "%s: create dd/dd/ff failed";
  write_str fd "FF" ;;
  close fd ;;
  fd ← must_open "dd/dd/../ff" 0 "%s: open dd/dd/../ff failed";
  x ← read_into fd BUFSZ buf0;
  c ← elem x.2 0;
  fails (negb (x.1 =? 2) || negb (c =? chr "f")) "%s: dd/dd/../ff wrong content" [str s] ;;
  close fd ;;
  must (link "dd/dd/ff" "dd/dd/ffff") "%s: link dd/dd/ff dd/dd/ffff failed" ;;
  must (unlink "dd/dd/ff") "%s: unlink dd/dd/ff failed" ;;
  must_fail (open "dd/dd/ff" O_RDONLY) "%s: open (unlinked) dd/dd/ff succeeded" ;;
  must (chdir "dd") "%s: chdir dd failed" ;;
  must (chdir "dd/../../dd") "%s: chdir dd/../../dd failed" ;;
  must (chdir "dd/../../../dd") "%s: chdir dd/../../../dd failed" ;;
  must (chdir "./..") "%s: chdir ./.. failed" ;;
  fd ← must_open "dd/dd/ffff" 0 "%s: open dd/dd/ffff failed";
  x ← read_into fd BUFSZ buf0;
  fails (negb (x.1 =? 2)) "%s: read dd/dd/ffff wrong len" [str s] ;;
  close fd ;;
  must_fail (open "dd/dd/ff" O_RDONLY) "%s: open (unlinked) dd/dd/ff succeeded!" ;;
  must_fail (open "dd/ff/ff" crw) "%s: create dd/ff/ff succeeded!" ;;
  must_fail (open "dd/xx/ff" crw) "%s: create dd/xx/ff succeeded!" ;;
  must_fail (open "dd" O_CREATE) "%s: create dd succeeded!" ;;
  must_fail (open "dd" O_RDWR) "%s: open dd rdwr succeeded!" ;;
  must_fail (open "dd" O_WRONLY) "%s: open dd wronly succeeded!" ;;
  must_not (link "dd/ff/ff" "dd/dd/xx") "%s: link dd/ff/ff dd/dd/xx succeeded!" ;;
  must_not (link "dd/xx/ff" "dd/dd/xx") "%s: link dd/xx/ff dd/dd/xx succeeded!" ;;
  must_not (link "dd/ff" "dd/dd/ffff") "%s: link dd/ff dd/dd/ffff succeeded!" ;;
  must_not (mkdir "dd/ff/ff") "%s: mkdir dd/ff/ff succeeded!" ;;
  must_not (mkdir "dd/xx/ff") "%s: mkdir dd/xx/ff succeeded!" ;;
  must_not (mkdir "dd/dd/ffff") "%s: mkdir dd/dd/ffff succeeded!" ;;
  must_not (unlink "dd/xx/ff") "%s: unlink dd/xx/ff succeeded!" ;;
  must_not (unlink "dd/ff/ff") "%s: unlink dd/ff/ff succeeded!" ;;
  must_not (chdir "dd/ff") "%s: chdir dd/ff succeeded!" ;;
  must_not (chdir "dd/xx") "%s: chdir dd/xx succeeded!" ;;
  must (unlink "dd/dd/ffff") "%s: unlink dd/dd/ff failed" ;;
  must (unlink "dd/ff") "%s: unlink dd/ff failed" ;;
  must_not (unlink "dd") "%s: unlink non-empty dd succeeded!" ;;
  must_not_fail (unlink "dd/dd") "%s: unlink dd/dd failed" ;;
  must_not_fail (unlink "dd") "%s: unlink dd failed".

(** [for(sz = 499; sz < (MAXOPBLOCKS+2)*BSIZE; sz += 471)] has 26 turns. *)
Definition bigwrite : uprog unit :=
  unlink "bigwrite" ;;
  for_ 26 (fun k =>
    let sz := 499 + 471 * k in
    fd ← must_open "bigwrite" crw "%s: cannot create bigwrite";
    for_ 2 (fun _ =>
      cc ← write_from fd buf0 sz;
      fails (negb (cc =? sz)) "%s: write(%d) ret %d" [str s; ANum sz; ANum cc]) ;;
    close fd ;;
    unlink "bigwrite" ;;
    Pure tt).

(** The loop that reads the file back; the variables are [i], [total] and [buf]. *)
Definition bigfile_read (fd : Z) : Z * Z * list Z → uprog (Z * Z * list Z + Z) := fun '(i, total, buf) =>
  x ← read_into fd 300 buf;
  let cc := x.1 in
  let buf := x.2 in
  fails (cc <? 0) "%s: read bigfile failed" [str s] ;;
  if cc =? 0 then Pure (inr total) else
  fails (negb (cc =? 300)) "%s: short read bigfile" [str s] ;;
  a ← elem buf 0;
  b ← elem buf 299;
  fails (negb (a =? i / 2) || negb (b =? i / 2))
    "%s: read bigfile wrong data" [str s] ;;
  Pure (inl (int (i + 1), int (total + cc), buf)).

Definition bigfile : uprog unit :=
  unlink "bigfile.dat" ;;
  fd ← open "bigfile.dat" crw;
  fails' (fd <? 0) "%s: cannot create bigfile" [str s] ;;
  buf ← fold_ 20 (fun i buf =>
    buf ← set_bytes (replicate 600 (uchar i)) buf;
    n ← write_from fd buf 600;
    fails (negb (n =? 600)) "%s: write bigfile failed" [str s] ;;
    Pure buf) buf0;
  close fd ;;
  fd ← must_open "bigfile.dat" 0 "%s: cannot open bigfile";
  total ← while_ fuel (bigfile_read fd) (0, 0, buf);
  close fd ;;
  fails (negb (total =? 12000)) "%s: read bigfile wrong total" [str s] ;;
  unlink "bigfile.dat" ;;
  Pure tt.

Definition fourteen : uprog unit :=
  must (mkdir "12345678901234") "%s: mkdir 12345678901234 failed" ;;
  must (mkdir "12345678901234/123456789012345") "%s: mkdir 12345678901234/123456789012345 failed" ;;
  fd ← must_open "123456789012345/123456789012345/123456789012345" O_CREATE
    "%s: create 123456789012345/123456789012345/123456789012345 failed";
  close fd ;;
  fd ← must_open "12345678901234/12345678901234/12345678901234" 0
    "%s: open 12345678901234/12345678901234/12345678901234 failed";
  close fd ;;
  must_not (mkdir "12345678901234/12345678901234") "%s: mkdir 12345678901234/12345678901234 succeeded!" ;;
  must_not (mkdir "123456789012345/12345678901234") "%s: mkdir 12345678901234/123456789012345 succeeded!" ;;
  unlink "123456789012345/12345678901234" ;;
  unlink "12345678901234/12345678901234" ;;
  unlink "12345678901234/12345678901234/12345678901234" ;;
  unlink "123456789012345/123456789012345/123456789012345" ;;
  unlink "12345678901234/123456789012345" ;;
  unlink "12345678901234" ;;
  Pure tt.

Definition rmdot : uprog unit :=
  must (mkdir "dots") "%s: mkdir dots failed" ;;
  must (chdir "dots") "%s: chdir dots failed" ;;
  must_not (unlink ".") "%s: rm . worked!" ;;
  must_not (unlink "..") "%s: rm .. worked!" ;;
  must (chdir "/") "%s: chdir / failed" ;;
  must_not (unlink "dots/.") "%s: unlink dots/. worked!" ;;
  must_not (unlink "dots/..") "%s: unlink dots/.. worked!" ;;
  must (unlink "dots") "%s: unlink dots failed!".

Definition dirfile : uprog unit :=
  fd ← must_open "dirfile" O_CREATE "%s: create dirfile failed";
  close fd ;;
  must_not (chdir "dirfile") "%s: chdir dirfile succeeded!" ;;
  must_fail (open "dirfile/xx" 0) "%s: create dirfile/xx succeeded!" ;;
  must_fail (open "dirfile/xx" O_CREATE) "%s: create dirfile/xx succeeded!" ;;
  must_not (mkdir "dirfile/xx") "%s: mkdir dirfile/xx succeeded!" ;;
  must_not (unlink "dirfile/xx") "%s: unlink dirfile/xx succeeded!" ;;
  must_not (link "README" "dirfile/xx") "%s: link to dirfile/xx succeeded!" ;;
  must (unlink "dirfile") "%s: unlink dirfile failed!" ;;
  must_fail (open "." O_RDWR) "%s: open . for writing succeeded!" ;;
  fd ← open "." 0;
  n ← write_str fd "x";
  fails (0 <? n) "%s: write . succeeded!" [str s] ;;
  close fd ;;
  Pure tt.

Definition iref : uprog unit :=
  for_ (Z.of_nat NINODE + 1) (fun _ =>
    must (mkdir "irefd") "%s: mkdir irefd failed" ;;
    must (chdir "irefd") "%s: chdir irefd failed" ;;
    mkdir "" ;;
    link "README" "" ;;
    fd ← open "" O_CREATE;
    (if 0 <=? fd then close fd else Pure 0) ;;
    fd ← open "xx" O_CREATE;
    (if 0 <=? fd then close fd else Pure 0) ;;
    unlink "xx" ;;
    Pure tt) ;;
  for_ (Z.of_nat NINODE + 1) (fun _ => chdir ".." ;; unlink "irefd" ;; Pure tt) ;;
  chdir "/" ;;
  Pure tt.
End files.
End UtF.
