(* ===== verification/UtMem.v ===== *)
(** user/usertests.c, fourth part: the memory of a process, sbrkbasic to badarg, and the
    tests that take long, bigdir to outofinodes. *)

From Stdlib Require Import Ascii.
From stdpp Require Import base gmap strings numbers list.
From S2P Require Import Prelude Spinlock Kstate CString Globals Printf User UtArgs.
Local Open Scope Z_scope.

Module UtM.
Import Ut.

Definition MINUS1 : Z := 0xffffffffffffffff.

(** A store to, and a load from, memory that [sbrk] gave or that is not the program's. *)
Definition poke (a v : Z) : uprog unit := call (MemWrite (uint64 a) v) ;; Pure tt.
Definition peek (a : Z) : uprog Z := call (MemRead (uint64 a)).

(** [for(p = a; p < e; p += step)] *)
Definition strides (a e step : Z) : Z := (e - a + step - 1) / step.

Section mem.
Context (junk : Z) (fuel : nat) (lit : string → Z) (s : list Z).

(** * sbrk *)

Definition sbrkbasic : uprog unit :=
  let TOOMUCH := 1024 * 1024 * 1024 in
  pid ← fork;
  fails (pid <? 0) "fork failed in sbrkbasic" [] ;;
  if pid =? 0 then
    r ← sbrk TOOMUCH;
    let a := uint64 r in
    (if a =? MINUS1 then exit 0 else Pure tt) ;;
    for_ (strides a (a + TOOMUCH) 4096) (fun k => poke (a + 4096 * k) 99) ;;
    exit 1
  else
  w ← wait_into junk;
  fails (w.2 =? 1) "%s: too much memory allocated!" [str s] ;;
  r ← sbrk 0;
  a ← fold_ 5000 (fun i a =>
    r ← sbrk 1;
    let b := uint64 r in
    fails (negb (b =? a)) "%s: sbrk test failed %d %p %p" [str s; ANum i; ANum a; ANum b] ;;
    poke b 1 ;;
    Pure (uint64 (b + 1))) (uint64 r);
  pid ← fork;
  fails (pid <? 0) "%s: sbrk test fork failed" [str s] ;;
  sbrk 1 ;;
  c ← sbrk 1;
  fails (negb (uint64 c =? uint64 (a + 1))) "%s: sbrk test failed post-fork" [str s] ;;
  if pid =? 0 then exit 0 else
  w ← wait_into w.2;
  exit w.2.

Definition BIG : Z := 100 * 1024 * 1024.

Definition sbrkmuch : uprog unit :=
  r ← sbrk 0;
  let oldbrk := uint64 r in
  r ← sbrk 0;
  let a := uint64 r in
  p ← sbrk (uint64 (BIG - a));
  fails (negb (uint64 p =? a)) "%s: sbrk test failed to grow big address space; enough phys mem?" [str s] ;;
  r ← sbrk 0;
  let eee := uint64 r in
  for_ (strides a eee 4096) (fun k => poke (a + 4096 * k) 1) ;;
  let lastaddr := BIG - 1 in
  poke lastaddr 99 ;;
  r ← sbrk 0;
  let a := uint64 r in
  c ← sbrk (- PGSIZE);
  fails (uint64 c =? MINUS1) "%s: sbrk could not deallocate" [str s] ;;
  c ← sbrk 0;
  fails (negb (uint64 c =? uint64 (a - PGSIZE))) "%s: sbrk deallocation produced wrong address, a %p c %p"
    [str s; ANum a; ANum (uint64 c)] ;;
  r ← sbrk 0;
  let a := uint64 r in
  c ← sbrk PGSIZE;
  bad ← (if negb (uint64 c =? a) then Pure true else r ← sbrk 0; Pure (negb (uint64 r =? uint64 (a + PGSIZE))));
  fails bad "%s: sbrk re-allocation failed, a %p c %p" [str s; ANum a; ANum (uint64 c)] ;;
  v ← peek lastaddr;
  fails (v =? 99) "%s: sbrk de-allocation didn't really deallocate" [str s] ;;
  r ← sbrk 0;
  let a := uint64 r in
  r ← sbrk 0;
  c ← sbrk (- (uint64 r - oldbrk));
  fails (negb (uint64 c =? a)) "%s: sbrk downsize failed, a %p c %p" [str s; ANum a; ANum (uint64 c)].

(** * Memory that is not the program's *)

Definition kernmem : uprog unit :=
  for_ (strides KERNBASE (KERNBASE + 2000000) 50000) (fun k =>
    let a := KERNBASE + 50000 * k in
    pid ← fork;
    fails (pid <? 0) "%s: fork failed" [str s] ;;
    if pid =? 0 then
      v ← peek a;
      printf (line "%s: oops could read %p = %x") [str s; ANum a; ANum v] ;;
      exit 1
    else
    w ← wait_into junk;
    if negb (w.2 =? -1) then exit 1 else Pure tt).

(** [for( ; a != 0; a <<= 1)] from MAXVA on has 26 turns. *)
Definition MAXVAplus : uprog unit :=
  for_ 26 (fun k =>
    let a := Z.shiftl MAXVA k in
    pid ← fork;
    fails (pid <? 0) "%s: fork failed" [str s] ;;
    if pid =? 0 then
      poke a 99 ;;
      printf (line "%s: oops wrote %p") [str s; ANum a] ;;
      exit 1
    else
    w ← wait_into junk;
    if negb (w.2 =? -1) then exit 1 else Pure tt).

Definition sbrkfail : uprog unit :=
  p ← pipe (junk, junk);
  fails (negb (p.1 =? 0)) "%s: pipe() failed" [str s] ;;
  let fds := p.2 in
  pids ← fold_ 10 (fun _ pids =>
    pid ← fork;
    (if pid =? 0 then
       r ← sbrk 0;
       sbrk (uint64 (BIG - uint64 r)) ;;
       write_str fds.2 "x" ;;
       forever fuel (sleep 1000 ;; Pure tt)
     else Pure tt) ;;
    (if negb (pid =? -1) then read_into fds.1 1 [junk] ;; Pure tt else Pure tt) ;;
    Pure (pids ++ [pid])) [];
  c ← sbrk PGSIZE;
  each pids (fun pid => if pid =? -1 then Pure tt else kill pid ;; wait ;; Pure tt) ;;
  fails (uint64 c =? MINUS1) "%s: failed sbrk leaked memory" [str s] ;;
  pid ← fork;
  fails (pid <? 0) "%s: fork failed" [str s] ;;
  if pid =? 0 then
    r ← sbrk 0;
    let a := uint64 r in
    sbrk (10 * BIG) ;;
    n ← fold_ (strides 0 (10 * BIG) PGSIZE) (fun k n => v ← peek (a + PGSIZE * k); Pure (int (n + v))) 0;
    printf (line "%s: allocate a lot of memory succeeded %d") [str s; ANum n] ;;
    exit 1
  else
  w ← wait_into junk;
  if negb (w.2 =? -1) && negb (w.2 =? 2) then exit 1 else Pure tt.

Definition sbrkarg : uprog unit :=
  a ← sbrk PGSIZE;
  fd ← open "sbrk" cwr;
  unlink "sbrk" ;;
  fails (fd <? 0) "%s: open sbrk failed" [str s] ;;
  n ← raw_write fd (uint64 a) PGSIZE;
  fails (n <? 0) "%s: write sbrk failed" [str s] ;;
  close fd ;;
  a ← sbrk PGSIZE;
  r ← call (SysRaw 4 [uint64 a]);
  fails (negb (r =? 0)) "%s: pipe() failed" [str s].

(** [for(p = 0; p <= (uint)hi; p += PGSIZE)] *)
Definition validatetest : uprog unit :=
  for_ (strides 0 (1100 * 1024 + 1) PGSIZE) (fun k =>
    r ← raw_link (lit "nosuchfile") (PGSIZE * k);
    fails (negb (r =? -1)) "%s: link should not succeed" [str s]).

(** The array [uninit] starts out zero. *)
Definition uninit : list Z := replicate 10000 0.
Definition bsstest : uprog unit :=
  each uninit (fun c => fails (negb (c =? 0)) "%s: bss test failed" [str s]).

Definition bigargtest : uprog unit :=
  unlink "bigarg-ok" ;;
  pid ← fork;
  if pid =? 0 then
    exec "echo" (replicate (MAXARG - 1) (replicate 399 (chr " "))) ;;
    fd ← open "bigarg-ok" O_CREATE;
    close fd ;;
    exit 0
  else
  fails (pid <? 0) "%s: bigargtest: fork failed" [str s] ;;
  w ← wait_into junk;
  (if negb (w.2 =? 0) then exit w.2 else Pure tt) ;;
  fd ← open "bigarg-ok" 0;
  fails (fd <? 0) "%s: bigarg test failed!" [str s] ;;
  close fd ;;
  Pure tt.

(** The name of a file of [fsfull]. *)
Definition fsfull_name (n : Z) : list Z :=
  [chr "f"; uchar (chr "0" + n / 1000); uchar (chr "0" + n mod 1000 / 100);
   uchar (chr "0" + n mod 100 / 10); uchar (chr "0" + n mod 10)].

(** The loop of the writes, over [total]. *)
Definition fsfull_write (fd : Z) : Z → uprog (Z + Z) := fun total =>
  cc ← write_from fd buf0 BSIZE;
  if cc <? BSIZE then Pure (inr total) else Pure (inl (int (total + cc))).

Definition fsfull_file : Z → uprog (Z + Z) := fun nfiles =>
  printf (line "writing %s") [str (fsfull_name nfiles)] ;;
  fd ← User.open (fsfull_name nfiles) crw;
  if fd <? 0 then printf (line "open %s failed") [str (fsfull_name nfiles)] ;; Pure (inr nfiles) else
  total ← while_ fuel (fsfull_write fd) 0;
  printf (line "wrote %d bytes") [ANum total] ;;
  close fd ;;
  if total =? 0 then Pure (inr nfiles) else Pure (inl (int (nfiles + 1))).

Definition fsfull : uprog unit :=
  printf (line "fsfull test") [] ;;
  nfiles ← while_ fuel fsfull_file 0;
  for_ (nfiles + 1) (fun k => call (SysUnlink (fsfull_name (nfiles - k))) ;; Pure tt) ;;
  printf (line "fsfull test finished") [].

Definition argptest : uprog unit :=
  fd ← open "init" O_RDONLY;
  fails (fd <? 0) "%s: open failed" [str s] ;;
  a ← sbrk 0;
  raw_read fd (uint64 (a - 1)) (-1) ;;
  close fd ;;
  Pure tt.

(** [sp] is the stack pointer. *)
Definition stacktest (sp : Z) : uprog unit :=
  pid ← fork;
  if pid =? 0 then
    v ← peek (sp - USERSTACK * PGSIZE);
    printf (line "%s: stacktest: read below stack %d") [str s; ANum v] ;;
    exit 1
  else
  fails (pid <? 0) "%s: fork failed" [str s] ;;
  w ← wait_into junk;
  if w.2 =? -1 then exit 0 else exit w.2.

Definition nowrite : uprog unit :=
  fold_ 6 (fun k xstatus =>
    addr ← elem [0; 0x80000000; 0x3fffffe000; 0x3ffffff000; 0x4000000000; MINUS1] k;
    pid ← fork;
    if pid =? 0 then
      poke addr 10 ;;
      printf (line "%s: write to %p did not fail!") [str s; ANum addr] ;;
      exit 0
    else
    fails (pid <? 0) "%s: fork failed" [str s] ;;
    w ← wait_into xstatus;
    if w.2 =? 0 then exit 1 else Pure w.2) junk ;;
  exit 0.

Definition big : Z := 0xeaeb0b5b00002f5e.

Definition pgbug : uprog unit :=
  raw_exec big [0] ;;
  call (SysRaw 4 [big]) ;;
  exit 0.

Definition sbrkbugs : uprog unit :=
  pid ← fork;
  fails (pid <? 0) "fork failed" [] ;;
  if pid =? 0 then
    r ← sbrk 0;
    sbrk (- int r) ;;
    exit 0
  else
  wait ;;
  pid ← fork;
  fails (pid <? 0) "fork failed" [] ;;
  if pid =? 0 then
    r ← sbrk 0;
    sbrk (- (int r - 3500)) ;;
    exit 0
  else
  wait ;;
  pid ← fork;
  fails (pid <? 0) "fork failed" [] ;;
  if pid =? 0 then
    r ← sbrk 0;
    sbrk (uint64 (10 * 4096 + 2048 - uint64 r)) ;;
    sbrk (-10) ;;
    exit 0
  else
  wait ;;
  exit 0.

Definition sbrklast : uprog unit :=
  top ← sbrk 0;
  (if negb (uint64 top mod 4096 =? 0) then sbrk (4096 - uint64 top mod 4096) else Pure 0) ;;
  sbrk 4096 ;;
  sbrk 10 ;;
  sbrk (-20) ;;
  top ← sbrk 0;
  let p := uint64 (uint64 top - 64) in
  poke p (chr "x") ;;
  poke (p + 1) 0 ;;
  fd ← raw_open p crw;
  raw_write fd p 1 ;;
  close fd ;;
  fd ← raw_open p O_RDWR;
  poke p 0 ;;
  raw_read fd p 1 ;;
  c ← peek p;
  if negb (c =? chr "x") then exit 1 else Pure tt.

Definition sbrk8000 : uprog unit :=
  sbrk 0x80000004 ;;
  top ← sbrk 0;
  v ← peek (top - 1);
  poke (top - 1) (uchar (v + 1)).

Definition badarg : uprog unit :=
  for_ 50000 (fun _ => raw_exec (lit "echo") [0xffffffff; 0] ;; Pure tt) ;;
  exit 0.

(** * Tests that take long *)

Definition bigdir : uprog unit :=
  let name i := [chr "x"; uchar (chr "0" + i / 64); uchar (chr "0" + i mod 64)] in
  unlink "bd" ;;
  fd ← open "bd" O_CREATE;
  fails (fd <? 0) "%s: bigdir create failed" [str s] ;;
  close fd ;;
  for_ 500 (fun i =>
    r ← call (SysLink (chars "bd") (name i));
    fails (negb (r =? 0)) "%s: bigdir i=%d link(bd, %s) failed" [str s; ANum i; str (name i)]) ;;
  unlink "bd" ;;
  for_ 500 (fun i =>
    r ← call (SysUnlink (name i));
    fails' (negb (r =? 0)) "%s: bigdir unlink failed" [str s]).

Definition manywrites : uprog unit :=
  for_ 4 (fun ci =>
    pid ← fork;
    fails (pid <? 0) "fork failed" [] ;;
    if pid =? 0 then
      let name := [chr "b"; uchar (chr "a" + ci)] in
      call (SysUnlink name) ;;
      for_ 30 (fun _ =>
        for_ (ci + 1) (fun _ =>
          fd ← User.open name crw;
          fails (fd <? 0) "%s: cannot create %s" [str s; str name] ;;
          cc ← write_from fd buf0 BUFSZ;
          fails (negb (cc =? BUFSZ)) "%s: write(%d) ret %d" [str s; ANum BUFSZ; ANum cc] ;;
          close fd ;;
          Pure tt) ;;
        call (SysUnlink name) ;; Pure tt) ;;
      call (SysUnlink name) ;;
      exit 0
    else Pure tt) ;;
  for_ 4 (fun _ =>
    w ← wait_into 0;
    if negb (w.2 =? 0) then exit w.2 else Pure tt) ;;
  exit 0.

Definition badwrite : uprog unit :=
  unlink "junk" ;;
  for_ 600 (fun _ =>
    fd ← open "junk" cwr;
    fails (fd <? 0) "open junk failed" [] ;;
    raw_write fd 0xffffffffff 1 ;;
    close fd ;;
    unlink "junk" ;;
    Pure tt) ;;
  fd ← open "junk" cwr;
  fails (fd <? 0) "open junk failed" [] ;;
  n ← write_str fd "x";
  fails (negb (n =? 1)) "write failed" [] ;;
  close fd ;;
  unlink "junk" ;;
  exit 0.

(** Takes pages until there are no more. *)
Definition take_page : unit → uprog (unit + unit) := fun _ =>
  r ← sbrk 4096;
  let a := uint64 r in
  if a =? MINUS1 then Pure (inr tt) else
  poke (a + 4096 - 1) 1 ;;
  Pure (inl tt).

Definition execout : uprog unit :=
  for_ 15 (fun avail =>
    pid ← fork;
    fails (pid <? 0) "fork failed" [] ;;
    if pid =? 0 then
      while_ fuel take_page tt ;;
      for_ avail (fun _ => sbrk (-4096) ;; Pure tt) ;;
      close 1 ;;
      exec "echo" [chars "echo"; chars "x"] ;;
      exit 0
    else wait ;; Pure tt) ;;
  exit 0.

(** [write] until one fails; gives [done]. *)
Fixpoint diskfull_write (k : nat) (fd : Z) : uprog bool :=
  match k with
  | O => Pure false
  | S k' =>
      n ← write_from fd (replicate (Z.to_nat BSIZE) junk) BSIZE;
      if negb (n =? BSIZE) then close fd ;; Pure true else diskfull_write k' fd
  end.

Definition big_name (i : Z) : list Z := chars "big" ++ [uchar (chr "0" + i)].
Definition zz_name (i : Z) : list Z := chars "zz" ++ [uchar (chr "0" + i / 32); uchar (chr "0" + i mod 32)].

(** The files of [diskfull], [k] turns from [fi] on. *)
Fixpoint diskfull_files (k : nat) (fi : Z) : uprog unit :=
  match k with
  | O => Pure tt
  | S k' =>
      call (SysUnlink (big_name fi)) ;;
      fd ← User.open (big_name fi) (Z.lor crw O_TRUNC);
      if fd <? 0 then printf (line "%s: could not create file %s") [str s; str (big_name fi)] else
      done_ ← diskfull_write (Z.to_nat MAXFILE) fd;
      close fd ;;
      if (done_ : bool) then Pure tt else diskfull_files k' (fi + 1)
  end.

(** Creates files [zz] until one fails, [k] turns from [i] on. *)
Fixpoint zz_create (k : nat) (i : Z) : uprog unit :=
  match k with
  | O => Pure tt
  | S k' =>
      call (SysUnlink (zz_name i)) ;;
      fd ← User.open (zz_name i) (Z.lor crw O_TRUNC);
      if fd <? 0 then Pure tt else close fd ;; zz_create k' (i + 1)
  end.

(** There are 79 characters from '0' to 0177. *)
Definition diskfull : uprog unit :=
  unlink "diskfulldir" ;;
  diskfull_files 79 0 ;;
  zz_create 128 0 ;;
  r ← mkdir "diskfulldir";
  (if r =? 0 then printf (line "%s: mkdir(diskfulldir) unexpectedly succeeded!") [str s] else Pure tt) ;;
  unlink "diskfulldir" ;;
  for_ 128 (fun i => call (SysUnlink (zz_name i)) ;; Pure tt) ;;
  for_ 79 (fun i => call (SysUnlink (big_name i)) ;; Pure tt).

Definition outofinodes : uprog unit :=
  zz_create (Z.to_nat (32 * 32)) 0 ;;
  for_ (32 * 32) (fun i => call (SysUnlink (zz_name i)) ;; Pure tt).
End mem.
End UtM.
