(* ===== verification/Usertests.v ===== *)
(** user/usertests.c, last part: the tables of the tests and the code that runs them.
    runtests runs the chosen tests in order and stops at the first that fails; a test
    that returns has passed, also when it has printed an error. *)

From Stdlib Require Import Ascii.
From stdpp Require Import base gmap strings numbers list.
From S2P Require Import Prelude Spinlock Kstate CString Globals Printf User Umalloc UtArgs UtProcs UtFiles UtMem.
Local Open Scope Z_scope.

Module Usertests.
Import Ut.

(** * The tables *)

(** The indeterminate values and addresses of a program: an unassigned variable, the
    literals, the stack pointer, the allocator's [base]; and the turns of loops. *)
Record setting := mksetting { junk : Z; lit : string → Z; sp : Z; base : Z; fuel : nat }.

Definition test : Type := (list Z → uprog unit) * string.

Definition quicktests (e : setting) : list test :=
  let j := junk e in
  let f := fuel e in
  [ ((fun _ => copyin j), "copyin");
    ((fun _ => copyout j), "copyout");
    ((fun _ => copyinstr1), "copyinstr1");
    ((fun _ => copyinstr2), "copyinstr2");
    ((fun _ => copyinstr3 f (lit e)), "copyinstr3");
    ((fun _ => rwsbrk), "rwsbrk");
    (truncate1 j, "truncate1");
    (truncate2, "truncate2");
    (truncate3 j, "truncate3");
    (openiputtest j, "openiput");
    (exitiputtest j, "exitiput");
    (iputtest, "iput");
    (opentest, "opentest");
    (writetest, "writetest");
    (writebig f, "writebig");
    ((fun _ => createtest), "createtest");
    (dirtest, "dirtest");
    (exectest j, "exectest");
    (UtP.pipe1 j f, "pipe1");
    (UtP.killstatus j f, "killstatus");
    (UtP.preempt j, "preempt");
    (UtP.exitwait j, "exitwait");
    (UtP.reparent, "reparent");
    (UtP.twochildren, "twochildren");
    (UtP.forkfork j, "forkfork");
    (UtP.forkforkfork f, "forkforkfork");
    ((fun _ => UtP.reparent2), "reparent2");
    ((fun s => UtP.mem j f s (base e)), "mem");
    (UtF.sharedfd j f, "sharedfd");
    (UtF.fourfiles j f, "fourfiles");
    (UtF.createdelete j, "createdelete");
    (UtF.unlinkread, "unlinkread");
    (UtF.linktest, "linktest");
    (UtF.concreate j f, "concreate");
    (UtF.linkunlink, "linkunlink");
    (UtF.subdir, "subdir");
    (UtF.bigwrite, "bigwrite");
    (UtF.bigfile f, "bigfile");
    (UtF.fourteen, "fourteen");
    (UtF.rmdot, "rmdot");
    (UtF.dirfile, "dirfile");
    (UtF.iref, "iref");
    (UtP.forktest, "forktest");
    (UtM.sbrkbasic j, "sbrkbasic");
    (UtM.sbrkmuch, "sbrkmuch");
    (UtM.kernmem j, "kernmem");
    (UtM.MAXVAplus j, "MAXVAplus");
    (UtM.sbrkfail j f, "sbrkfail");
    (UtM.sbrkarg, "sbrkarg");
    (UtM.validatetest (lit e), "validatetest");
    (UtM.bsstest, "bsstest");
    (UtM.bigargtest j, "bigargtest");
    (UtM.argptest, "argptest");
    ((fun s => UtM.stacktest j s (sp e)), "stacktest");
    (UtM.nowrite j, "nowrite");
    ((fun _ => UtM.pgbug), "pgbug");
    ((fun _ => UtM.sbrkbugs), "sbrkbugs");
    ((fun _ => UtM.sbrklast), "sbrklast");
    ((fun _ => UtM.sbrk8000), "sbrk8000");
    ((fun _ => UtM.badarg (lit e)), "badarg") ].

Definition slowtests (e : setting) : list test :=
  [ (UtM.bigdir, "bigdir");
    (UtM.manywrites, "manywrites");
    ((fun _ => UtM.badwrite), "badwrite");
    ((fun _ => UtM.execout (fuel e)), "execout");
    (UtM.diskfull (junk e), "diskfull");
    ((fun _ => UtM.outofinodes), "outofinodes") ].

(** * Running them *)

Section drive.
Context (e : setting).

(** A test in a process of its own; whether it passed. *)
Definition run (f : list Z → uprog unit) (s : list Z) : uprog bool :=
  printf (chars "test %s: ") [str s] ;;
  pid ← fork;
  (if pid <? 0 then printf (line "runtest: fork error") [] ;; exit 1 else Pure tt) ;;
  if pid =? 0 then f s ;; exit 0 else
  w ← wait_into (junk e);
  (if negb (w.2 =? 0) then printf (line "FAILED") [] else printf (line "OK") []) ;;
  Pure (w.2 =? 0).

(** Is the test of this name to be run? *)
Definition chosen (justone : option (list Z)) (s : string) : bool :=
  match justone with None => true | Some n => bool_decide (chars s = n) end.

Fixpoint runtests (tests : list test) (justone : option (list Z)) (continuous : Z) : uprog Z :=
  match tests with
  | [] => Pure 0
  | (f, s) :: tests' =>
      if chosen justone s then
        ok ← run f (chars s);
        if negb ok && negb (continuous =? 2) then printf (line "SOME TESTS FAILED") [] ;; Pure 1
        else runtests tests' justone continuous
      else runtests tests' justone continuous
  end.

(** The child of [countfree] reports every page it gets. *)
Definition report_page (fd : Z) : unit → uprog (unit + unit) := fun _ =>
  r ← sbrk 4096;
  let a := uint64 r in
  if a =? UtM.MINUS1 then Pure (inr tt) else
  UtM.poke (a + 4096 - 1) 1 ;;
  n ← write_str fd "x";
  fails (negb (n =? 1)) "write() failed in countfree()" [] ;;
  Pure (inl tt).

(** The parent counts the reports in [n]. *)
Definition count_page (fd : Z) : Z → uprog (Z + Z) := fun n =>
  x ← read fd 1;
  fails (x.1 <? 0) "read() failed in countfree()" [] ;;
  if x.1 =? 0 then Pure (inr n) else Pure (inl (int (n + 1))).

Definition countfree : uprog Z :=
  p ← pipe (junk e, junk e);
  fails (p.1 <? 0) "pipe() failed in countfree()" [] ;;
  let fds := p.2 in
  pid ← fork;
  fails (pid <? 0) "fork failed in countfree()" [] ;;
  if pid =? 0 then close fds.1 ;; while_ (fuel e) (report_page fds.2) tt ;; exit 0 else
  close fds.2 ;;
  n ← while_ (fuel e) (count_page fds.1) 0;
  close fds.1 ;;
  wait ;;
  Pure n.

(** One turn of the loop of [drivetests]: [Some r] when it returns [r]. *)
Definition drive_once (quick continuous : Z) (justone : option (list Z)) : uprog (option Z) :=
  printf (line "usertests starting") [] ;;
  free0 ← countfree;
  r ← runtests (quicktests e) justone continuous;
  if negb (r =? 0) && negb (continuous =? 2) then Pure (Some 1) else
  r ← (if quick =? 0 then
         (if bool_decide (justone = None) then printf (line "usertests slow tests starting") [] else Pure tt) ;;
         runtests (slowtests e) justone continuous
       else Pure 0);
  if negb (r =? 0) && negb (continuous =? 2) then Pure (Some 1) else
  free1 ← countfree;
  if free1 <? free0 then
    printf (line "FAILED -- lost some free pages %d (out of %d)") [ANum free1; ANum free0] ;;
    Pure (if negb (continuous =? 2) then Some 1 else None)
  else Pure None.

Fixpoint drivetests (turns : nat) (quick continuous : Z) (justone : option (list Z)) : uprog Z :=
  match turns with
  | O => Unfinished
  | S turns' =>
      o ← drive_once quick continuous justone;
      match o with
      | Some r => Pure r
      | None => if continuous =? 0 then Pure 0 else drivetests turns' quick continuous justone
      end
  end.

(** The arguments of [drivetests] for a command line, or nothing when it is not understood. *)
Definition options (argv : list (list Z)) : option (Z * Z * option (list Z)) :=
  match argv with
  | [_; a] =>
      if bool_decide (a = chars "-q") then Some (1, 0, None)
      else if bool_decide (a = chars "-c") then Some (0, 1, None)
      else if bool_decide (a = chars "-C") then Some (0, 2, None)
      else if negb (default 0 (List.hd_error a) =? chr "-") then Some (0, 0, Some a)
      else None
  | _ :: _ :: _ => None
  | _ => Some (0, 0, None)
  end.

Definition main (turns : nat) (argv : list (list Z)) : uprog Z :=
  match options argv with
  | None => printf (line "Usage: usertests [-c] [-C] [-q] [testname]") [] ;; exit 1
  | Some (quick, continuous, justone) =>
      r ← drivetests turns quick continuous justone;
      if negb (r =? 0) then exit 1 else
      printf (line "ALL TESTS PASSED") [] ;;
      exit 0
  end.
End drive.
End Usertests.

(** * Tests that end *)

Module UtSpec.
Import Ut Usertests.






(** ** Arrays *)

















(** ** Tests with endless loops

    Such a test never accesses memory outside its arrays, when a read gives at most as
    many bytes as were asked for. *)

Definition answers (c : ucall) (r : Z) : Prop := match c with SysRead _ n => r ≤ n | _ => True end.

Fixpoint nofault {A} (p : uprog A) (Q : A → Prop) : Prop :=
  match p with
  | Pure a => Q a
  | Exits _ => True
  | Sys c k => ∀ r out, answers c r → nofault (k r out) Q
  | Undefined => False
  | Unfinished => True
  end.




(** A run of such a program does not crash. *)
Lemma nofault_run {S A} (kernel : S → ucall → S * Z * list Z) (p : uprog A) Q s :
  (∀ s c, answers c (kernel s c).1.2) → nofault p Q → (User.run kernel p s).2 ≠ Crashed.
Proof.
  intros Hk. revert s. induction p as [a|n|c k IH| |]; intros s; simpl; try done.
  intros Hp. pose proof (Hk s c) as Hc. destruct (kernel s c) as [[s' r] out]. by apply IH, Hp.
Qed.
































(** * What runtests reports *)

(** The kernel of the process that drives the tests: every fork gives a child, whose
    status is the next of the list; what is written is collected. *)
Definition judge (g : list Z * list Z) (c : ucall) : list Z * list Z * Z * list Z :=
  let '(sts, out) := g in
  match c with
  | SysFork => (g, 7, [])
  | SysWait => ((tail sts, out), 7, [default 0 (List.hd_error sts)])
  | SysWrite _ bytes => ((sts, out ++ bytes), Z.of_nat (length bytes), [])
  | _ => (g, -1, [])
  end.

Lemma judge_puts fd l sts out : User.run judge (puts fd l) (sts, out) = ((sts, out ++ l), Returns tt).
Proof.
  revert out. induction l as [|c l IH]; intros out; simpl; [by rewrite app_nil_r|]. rewrite IH. by rewrite <- app_assoc.
Qed.

Lemma judge_plain fd l fmt ap sts out :
  Forall (fun c => c ≠ chr "%") l →
  User.run judge (vprintf fd (l ++ fmt) ap) (sts, out) = User.run judge (vprintf fd fmt ap) (sts, out ++ l).
Proof.
  intros Hl. revert out. induction Hl as [|c l Hc Hl IH]; intros out; [by rewrite app_nil_r|]. cbn [app vprintf].
  unfold ischar. destruct (Z.eqb_spec c (chr "%")); [done|]. simpl. rewrite IH. by rewrite <- app_assoc.
Qed.

Lemma judge_print l sts out :
  Forall (fun c => c ≠ chr "%") l → User.run judge (printf l []) (sts, out) = ((sts, out ++ l), Returns tt).
Proof. intros Hl. unfold printf. rewrite <- (app_nil_r l) at 1. by rewrite judge_plain. Qed.

Lemma judge_str fd x fmt ap sts out :
  User.run judge (vprintf fd (chars "%s" ++ fmt) (str x :: ap)) (sts, out) =
  User.run judge (vprintf fd fmt ap) (sts, out ++ x).
Proof.
  change (chars "%s" ++ fmt) with (chr "%" :: chr "s" :: fmt). unfold str. cbn [vprintf].
  change (negb (ischar (chr "%") "%")) with false. cbn [str_arg].
  change (User.run judge (puts fd x ≫= fun _ => vprintf fd fmt ap) (sts, out) =
          User.run judge (vprintf fd fmt ap) (sts, out ++ x)).
  by rewrite run_bind, judge_puts.
Qed.

(** The line of a test with a status. *)
Definition test_line (x : string * Z) : list Z :=
  chars "test " ++ chars x.1 ++ chars ": " ++ line (if x.2 =? 0 then "OK" else "FAILED").

Lemma judge_fork {A} (k : Z → uprog A) g : User.run judge (fork ≫= k) g = User.run judge (k 7) g.
Proof. by destruct g. Qed.

Lemma judge_wait {A} j (k : Z * Z → uprog A) st sts out :
  User.run judge (wait_into j ≫= k) (st :: sts, out) = User.run judge (k (7, st)) (sts, out).
Proof. done. Qed.

Lemma judge_run e f name st sts out :
  User.run judge (run e f (chars name)) (st :: sts, out) = ((sts, out ++ test_line (name, st)), Returns (st =? 0)).
Proof.
  unfold run. rewrite run_bind. unfold printf at 1.
  change (chars "test %s: ") with (chars "test " ++ chars "%s" ++ chars ": " ++ []).
  rewrite judge_plain by (by repeat constructor). rewrite judge_str, judge_plain by (by repeat constructor).
  cbn [vprintf User.run]. rewrite judge_fork. change (7 <? 0) with false. change (7 =? 0) with false.
  cbn [mbind uprog_bind ubind]. rewrite judge_wait. cbn [snd]. rewrite run_bind.
  replace (User.run judge (if negb (st =? 0) then _ else _) _)
    with ((sts, (((out ++ chars "test ") ++ chars name) ++ chars ": ") ++ line (if st =? 0 then "OK" else "FAILED")), @Returns unit tt).
  - unfold test_line. cbn [User.run fst snd]. by rewrite <- !app_assoc.
  - destruct (st =? 0); cbn [negb]; by rewrite judge_print by (by repeat constructor).
Qed.

(** The tests that are run: all, or those up to the first that fails. *)
Fixpoint upto_failure (l : list (string * Z)) : list (string * Z) :=
  match l with
  | [] => []
  | x :: l' => if x.2 =? 0 then x :: upto_failure l' else [x]
  end.
Definition ran (continuous : Z) (l : list (string * Z)) : list (string * Z) :=
  if continuous =? 2 then l else upto_failure l.
Definition some_failed (continuous : Z) (l : list (string * Z)) : bool :=
  negb (continuous =? 2) && existsb (fun x => negb (x.2 =? 0)) l.

Lemma judge_runtests e tests justone continuous sts out :
  let picked := filter (fun n => chosen justone n = true) (snd <$> tests) in
  let l := zip picked sts in
  (length picked <= length sts)%nat →
  User.run judge (runtests e tests justone continuous) (sts, out) =
  ((drop (length (ran continuous l)) sts,
    out ++ concat (test_line <$> ran continuous l) ++ (if some_failed continuous l then line "SOME TESTS FAILED" else [])),
   Returns (if some_failed continuous l then 1 else 0)).
Proof.
  cbv zeta. revert sts out. induction tests as [|[f name] tests IH]; intros sts out Hl; cbn [fmap list_fmap runtests].
  { unfold ran, some_failed. destruct (continuous =? 2); simpl; by rewrite app_nil_r. }
  rewrite filter_cons. cbn [fmap list_fmap snd] in *. rewrite filter_cons in Hl.
  destruct (chosen justone name) eqn:Ec; [|rewrite decide_False by done; rewrite decide_False in Hl by done; by apply IH].
  rewrite decide_True by done. rewrite decide_True in Hl by done. destruct sts as [|st sts]; [simpl in Hl; lia|].
  rewrite run_bind, judge_run. cbn [zip zip_with]. simpl in Hl. specialize (IH sts (out ++ test_line (name, st)) ltac:(lia)).
  unfold ran, some_failed in *. destruct (continuous =? 2) eqn:E2; cbn [negb andb] in *.
  - rewrite andb_false_r, IH. cbn [concat fmap list_fmap length drop]. by rewrite <- !app_assoc.
  - cbn [upto_failure existsb snd]. destruct (st =? 0); cbn [negb andb orb].
    + rewrite IH. cbn [concat fmap list_fmap length drop]. by rewrite <- !app_assoc.
    + cbn [concat fmap list_fmap length drop]. rewrite run_bind, judge_print by (by repeat constructor).
      cbn [User.run]. rewrite app_nil_r. by rewrite <- !app_assoc.
Qed.

(** C27. On a kernel whose fork always gives a child, runtests in the parent runs
    exactly the tests whose name is asked for, in order, all of them when continuous
    is 2 and otherwise up to the first whose child exits with a status other than 0;
    it prints OK or FAILED behind the name of each, and returns 1 after a line that
    says so if and only if one failed and continuous is not 2. *)
Theorem runtests_reports e tests justone continuous sts :
  let picked := filter (fun n => chosen justone n = true) (snd <$> tests) in
  let l := zip picked sts in
  (length picked <= length sts)%nat →
  User.run judge (runtests e tests justone continuous) (sts, []) =
  ((drop (length (ran continuous l)) sts,
    concat (test_line <$> ran continuous l) ++ (if some_failed continuous l then line "SOME TESTS FAILED" else [])),
   Returns (if some_failed continuous l then 1 else 0)).
Proof. intros picked l Hl. exact (judge_runtests e tests justone continuous sts [] Hl). Qed.

Definition ex_setting : setting := mksetting 0 (fun _ => 0) 0 0 0.

(** The second of the slow tests fails. *)
Lemma runtests_reports_witness :
  User.run judge (runtests ex_setting (slowtests ex_setting) None 0) ([0; 1; 0; 0; 0; 0], []) =
  (([0; 0; 0; 0], line "test bigdir: OK" ++ line "test manywrites: FAILED" ++ line "SOME TESTS FAILED"), Returns 1).
Proof.
  rewrite (runtests_reports ex_setting (slowtests ex_setting) None 0 [0; 1; 0; 0; 0; 0]); [vm_compute; reflexivity|].
  vm_compute. lia.
Defined.

(** * A test that fails and passes *)

(** A pipe that delivers a wrong byte, and otherwise a kernel that forks. *)
Definition wrong_pipe (out : list Z) (c : ucall) : list Z * Z * list Z :=
  match c with
  | SysPipe => (out, 0, [3; 4])
  | SysFork => (out, 7, [])
  | SysRead _ _ => (out, 1, [5])
  | SysWrite _ bytes => (out ++ bytes, Z.of_nat (length bytes), [])
  | _ => (out, 0, [])
  end.

(** pipe1 finds the wrong byte and returns, so that the child of [run] exits with 0. *)
Lemma pipe1_error_passes :
  User.run wrong_pipe (UtP.pipe1 0 1 (chars "pipe1") ;; @exit unit 0) [] = (line "pipe1: pipe1 oops 2", Exited 0).
Proof. vm_compute. reflexivity. Qed.

(** A kernel on which only mkdir succeeds. *)
Definition only_mkdir (out : list Z) (c : ucall) : list Z * Z * list Z :=
  match c with
  | SysMkdir _ => (out, 0, [])
  | SysWrite _ bytes => (out ++ bytes, Z.of_nat (length bytes), [])
  | _ => (out, -1, [])
  end.

(** diskfull reports that mkdir succeeds, and passes. *)
Lemma diskfull_error_passes :
  User.run only_mkdir (UtM.diskfull 0 (chars "diskfull") ;; @exit unit 0) [] =
  (line "diskfull: could not create file big0" ++ line "diskfull: mkdir(diskfulldir) unexpectedly succeeded!", Exited 0).
Proof. vm_compute. reflexivity. Qed.
End UtSpec.
