(* ===== verification/Mkfs.v ===== *)
(** The image builder, mkfs/mkfs.c.

    The image is the list of the blocks of the file; the host's reads and writes of
    it are taken to succeed.  [None] is a failed assertion or a call of [die].  The
    host stores integers in the order of riscv, so that [xint] and [xshort] are
    their values. *)

From Stdlib Require Import Ascii.
From stdpp Require Import base gmap strings numbers list.
From S2P Require Import Prelude CString Globals Printf Log Fs FsProofs.
Local Open Scope Z_scope.

Definition NINODES : Z := 200.
Definition nbitmap : Z := FSSIZE / BPB + 1.
Definition ninodeblocks : Z := NINODES / IPB + 1.
Definition nlog : Z := LOGSIZE.
Definition nmeta : Z := 2 + nlog + ninodeblocks + nbitmap.
Definition nblocks : Z := FSSIZE - nmeta.

(** The order of bytes of an integer in memory. *)
Definition xshort (x : Z) : Z := le_value [uchar x; uchar (Z.shiftr x 8)].
Definition xint (x : Z) : Z :=
  le_value [uchar x; uchar (Z.shiftr x 8); uchar (Z.shiftr x 16); uchar (Z.shiftr x 24)].

Definition sb : superblock :=
  mksuperblock FSMAGIC (xint FSSIZE) (xint nblocks) (xint NINODES) (xint nlog) (xint 2)
    (xint (2 + nlog)) (xint (2 + nlog + ninodeblocks)).

(** * State *)

Record image := mkimage { blocks : list (list Z); freeinode : Z; freeblock : Z }.

#[global] Instance eta_image : Settable image := fun i => mkimage (blocks i) (freeinode i) (freeblock i).

Definition W (A : Type) : Type := image → option (A * image).
#[global] Instance W_ret : MRet W := fun _ a s => Some (a, s).
#[global] Instance W_bind : MBind W := fun _ _ f m s =>
  match m s with Some (a, s') => f a s' | None => None end.

Definition die {A} : W A := fun _ => None.
Definition assert_ (b : bool) : W unit := if b then mret tt else die.
Definition look {A} (f : image → A) : W A := fun s => Some (f s, s).
Definition change_ (f : image → image) : W unit := fun s => Some (tt, f s).

(** A block past the end of the file can be written, not read. *)
Definition wsect (sec : Z) (buf : list Z) : W unit :=
  change_ (fun s =>
    let n := Z.to_nat sec in
    s <| blocks ::= fun bs =>
           if (n <? length bs)%nat then <[n := buf]> bs
           else bs ++ replicate (n - length bs) (replicate (Z.to_nat BSIZE) 0) ++ [buf] |>).

Definition rsect (sec : Z) : W (list Z) :=
  bs ← look blocks;
  match at_idx bs sec with Some b => mret b | None => die end.

Definition winode (inum : Z) (ip : dinode) : W unit :=
  let bn := IBLOCK inum sb in
  buf ← rsect bn;
  wsect bn (write_dinode (slot inum) ip buf).

Definition rinode (inum : Z) : W dinode :=
  let bn := IBLOCK inum sb in
  buf ← rsect bn;
  mret (read_dinode buf (slot inum)).

Definition ialloc (type : Z) : W Z :=
  inum ← look freeinode;
  change_ (fun s => s <| freeinode ::= fun n => uint (n + 1) |>) ;;
  winode inum (mkdinode (xshort type) 0 0 (xshort 1) (xint 0) (replicate (S NDIRECT) 0)) ;;
  mret inum.

(** [freeblock++] *)
Definition newblock : W Z :=
  b ← look freeblock;
  change_ (fun s => s <| freeblock ::= fun n => uint (n + 1) |>) ;;
  mret b.

(** [buf[i/8] = buf[i/8] | (0x1 << (i%8))] for the first [used] bits. *)
Fixpoint mark (used : nat) (buf : list Z) : list Z :=
  match used with
  | O => buf
  | S i =>
      let buf := mark i buf in
      alter (fun b => uchar (Z.lor b (Z.shiftl 1 (Z.of_nat i mod 8)))) (i / 8)%nat buf
  end.

Definition balloc (used : Z) : W unit :=
  assert_ (used <? BPB) ;;
  wsect (sb_bmapstart sb) (mark (Z.to_nat used) (replicate (Z.to_nat BSIZE) 0)).

(** [buf] with [p] copied in at [off]. *)
Definition bcopy (p : list Z) (off : nat) (buf : list Z) : list Z :=
  take off buf ++ p ++ drop (off + length p) buf.

(** The block of the file that holds block [fbn], allocated when it is not there. *)
Definition file_block (din : dinode) (fbn : Z) : W (Z * dinode) :=
  let with_addrs f := mkdinode (d_type din) (d_major din) (d_minor din) (d_nlink din) (d_size din)
                        (f (d_addrs din)) in
  if fbn <? Z.of_nat NDIRECT then
    a ← (match at_idx (d_addrs din) fbn with Some a => mret a | None => die end);
    if xint a =? 0 then
      b ← newblock;
      mret (xint (xint b), with_addrs <[Z.to_nat fbn := xint b]>)
    else mret (xint a, din)
  else
    a ← (match d_addrs din !! NDIRECT with Some a => mret a | None => die end);
    x ← (if xint a =? 0 then
           b ← newblock;
           mret (xint b, with_addrs <[NDIRECT := xint b]>)
         else mret (a, din));
    let '(a, din) := x in
    indirect ← rsect (xint a);
    let i := Z.to_nat (fbn - Z.of_nat NDIRECT) in
    if word indirect i =? 0 then
      b ← newblock;
      wsect (xint a) (set_word i (xint b) indirect) ;;
      mret (xint (xint b), din)
    else mret (xint (word indirect i), din).

(** The loop of [iappend]; one block of the file is written in each turn. *)
Fixpoint append_loop (fuel : nat) (din : dinode) (off : Z) (p : list Z) : W (dinode * Z) :=
  match p with
  | [] => mret (din, off)
  | _ =>
    match fuel with
    | O => die
    | S fuel' =>
        let fbn := off / BSIZE in
        assert_ (fbn <? MAXFILE) ;;
        y ← file_block din fbn;
        let '(x, din) := y in
        let n1 := Z.min (Z.of_nat (length p)) ((fbn + 1) * BSIZE - off) in
        buf ← rsect x;
        wsect x (bcopy (take (Z.to_nat n1) p) (Z.to_nat (off - fbn * BSIZE)) buf) ;;
        append_loop fuel' din (uint (off + n1)) (drop (Z.to_nat n1) p)
    end
  end.

Definition iappend (inum : Z) (p : list Z) : W unit :=
  din ← rinode inum;
  let off := xint (d_size din) in
  y ← append_loop (length p) din off p;
  let '(din, off) := y in
  winode inum (mkdinode (d_type din) (d_major din) (d_minor din) (d_nlink din) (xint off) (d_addrs din)).

(** * [main] *)

(** The bytes of [struct superblock]. *)
Definition sb_bytes (s : superblock) : list Z :=
  mjoin (le_bytes 4 <$> [sb_magic s; sb_size s; sb_nblocks s; sb_ninodes s; sb_nlog s;
                         sb_logstart s; sb_inodestart s; sb_bmapstart s]).

Definition dirent (inum : Z) (name : list Z) : list Z :=
  le_bytes 2 (xshort inum) ++ strncpy_list (Z.to_nat DIRSIZ) name.

Definition strip_user (name : list Z) : list Z :=
  if bool_decide (take 5 name = chars "user/") then drop 5 name else name.

(** The pieces that [read] gives of a file, until it is at its end. *)
Fixpoint append_all (inum : Z) (pieces : list (list Z)) : W unit :=
  match pieces with
  | [] => mret tt
  | p :: pieces' => iappend inum p ;; append_all inum pieces'
  end.

(** A file of the command line: its name and what is read from it; [None] when it
    cannot be opened. *)
Definition add_file (rootino : Z) (name : list Z) (contents : option (list (list Z))) : W unit :=
  let shortname := strip_user name in
  assert_ (bool_decide (chr "/" ∉ shortname)) ;;
  match contents with
  | None => die
  | Some pieces =>
      let shortname := if default 0 (head shortname) =? chr "_" then tail shortname else shortname in
      assert_ (Z.of_nat (length shortname) <=? DIRSIZ) ;;
      inum ← ialloc T_FILE;
      iappend rootino (dirent inum shortname) ;;
      append_all inum pieces
  end.

Fixpoint add_files (rootino : Z) (files : list (list Z * option (list (list Z)))) : W unit :=
  match files with
  | [] => mret tt
  | (name, contents) :: files' => add_file rootino name contents ;; add_files rootino files'
  end.

(** The image before anything is written, and the whole program. *)
Definition image0 : image := mkimage [] 1 0.

Definition zero_all : W unit :=
  change_ (fun s => s <| freeblock := nmeta |>
                      <| blocks := replicate (Z.to_nat FSSIZE) (replicate (Z.to_nat BSIZE) 0) |>).

Definition main (files : list (list Z * option (list (list Z)))) : W unit :=
  zero_all ;;
  wsect 1 (bcopy (sb_bytes sb) 0 (replicate (Z.to_nat BSIZE) 0)) ;;
  rootino ← ialloc T_DIR;
  assert_ (rootino =? ROOTINO) ;;
  iappend rootino (dirent rootino (chars ".")) ;;
  iappend rootino (dirent rootino (chars "..")) ;;
  add_files rootino files ;;
  din ← rinode rootino;
  let off := xint (d_size din) in
  let off := uint ((off / BSIZE + 1) * BSIZE) in
  winode rootino (mkdinode (d_type din) (d_major din) (d_minor din) (d_nlink din) (xint off)
                    (d_addrs din)) ;;
  used ← look freeblock;
  balloc (int used).

(** * Properties *)

(** [mark] sets the bits as the kernel's [set_bit] does. *)
Lemma uchar_lor_bit b k : 0 ≤ b < 256 → 0 ≤ k < 8 → uchar (Z.lor b (Z.shiftl 1 k)) = Z.lor b (Z.shiftl 1 k).
Proof.
  intros Hb Hk. apply uchar_small. split; [apply Z.lor_nonneg; split; [lia|]; apply Z.shiftl_nonneg; lia|].
  rewrite Z.shiftl_1_l. change (2 ^ 8) with 256.
  assert (Z.lor b (2 ^ k) < 2 ^ 8); [|lia].
  destruct (decide (Z.lor b (2 ^ k) = 0)) as [->|]; [lia|].
  assert (0 < 2 ^ k) by (apply Z.pow_pos_nonneg; lia).
  apply Z.log2_lt_pow2; [assert (0 ≤ Z.lor b (2 ^ k)) by (apply Z.lor_nonneg; lia); lia|].
  rewrite Z.log2_lor by lia. rewrite Z.log2_pow2 by lia.
  destruct (decide (b = 0)) as [->|]; [simpl; lia|].
  assert (Z.log2 b < 8) by (apply Z.log2_lt_pow2; lia). lia.
Qed.

Definition all_bytes (l : list Z) : Prop := Forall (fun b => 0 ≤ b < 256) l.

Lemma alter_bytes f n l : all_bytes l → (∀ b, 0 ≤ b < 256 → 0 ≤ f b < 256) → all_bytes (alter f n l).
Proof.
  intros Hl Hf. apply Forall_lookup_2. intros i b Hi.
  destruct (decide (i = n)) as [->|Hne].
  - rewrite list_lookup_alter_eq in Hi. apply fmap_Some in Hi as (x & Hx & ->). apply Hf.
    by apply (Forall_lookup_1 _ _ _ _ Hl Hx).
  - rewrite list_lookup_alter_ne in Hi by done. by apply (Forall_lookup_1 _ _ _ _ Hl Hi).
Qed.

Lemma mark_bytes n l : all_bytes l → all_bytes (mark n l) ∧ length (mark n l) = length l.
Proof.
  intros Hl. induction n as [|n [IH1 IH2]]; [done|]. cbn [mark]. split.
  - apply alter_bytes; [done|]. intros b Hb. apply uchar_range.
  - by rewrite length_alter.
Qed.

Lemma mark_set_bit n l : all_bytes l → mark (S n) l = set_bit (Z.of_nat n) (mark n l).
Proof.
  intros Hl. cbn [mark]. unfold set_bit. destruct (mark_bytes n l Hl) as [Hb _].
  replace (Z.to_nat (Z.of_nat n / 8)) with (n / 8)%nat
    by (change 8 with (Z.of_nat 8); rewrite <- Nat2Z.inj_div, Nat2Z.id; done).
  apply list_eq. intros i. destruct (decide (i = n / 8)%nat) as [->|Hne].
  - rewrite !list_lookup_alter_eq. destruct (mark n l !! (n / 8)%nat) as [b|] eqn:Hm; [|done].
    simpl. f_equal. apply uchar_lor_bit; [by apply (Forall_lookup_1 _ _ _ _ Hb Hm)|].
    apply Z.mod_pos_bound. lia.
  - by rewrite !list_lookup_alter_ne.
Qed.

Lemma mark_bits n l j :
  all_bytes l → (n ≤ 8 * length l)%nat → 0 ≤ j →
  bit_set (mark n l) j = bit_set l j || (j <? Z.of_nat n).
Proof.
  intros Hl Hn Hj. induction n as [|n IH].
  - destruct (Z.ltb_spec j (Z.of_nat 0)); [lia|]. by rewrite orb_false_r.
  - rewrite mark_set_bit by done. destruct (mark_bytes n l Hl) as [_ Hlen].
    rewrite set_bit_bits; [|lia|done|].
    + rewrite IH by lia. rewrite <- orb_assoc. f_equal.
      destruct (Z.ltb_spec j (Z.of_nat n)), (Z.eqb_spec (Z.of_nat n) j), (Z.ltb_spec j (Z.of_nat (S n)));
        lia || done.
    + rewrite Hlen. apply Nat2Z.inj_lt. rewrite Z2Nat.id by (apply Z.div_pos; lia).
      apply Z.div_lt_upper_bound; lia.
Qed.

Lemma zero_bits n j : bit_set (replicate n 0) j = false.
Proof.
  rewrite bit_set_testbit. destruct (replicate n 0 !! Z.to_nat (j / 8)) as [b|] eqn:Hb.
  - apply lookup_replicate in Hb as [-> _]. apply Z.testbit_0_l.
  - apply Z.testbit_0_l.
Qed.

Lemma wsect_in sec buf s :
  (Z.to_nat sec < length (blocks s))%nat →
  wsect sec buf s =
  Some (tt, mkimage (<[Z.to_nat sec := buf]> (blocks s)) (freeinode s) (freeblock s)).
Proof.
  intros Hl. unfold wsect, change_. do 2 f_equal. destruct s as [bs fi fb]. cbn -[Nat.ltb] in *.
  destruct (Nat.ltb_spec (Z.to_nat sec) (length bs)); [done|lia].
Qed.

(** [balloc] marks the first [used] blocks. *)
Lemma balloc_marks n s :
  0 ≤ n < BPB → (Z.to_nat (sb_bmapstart sb) < length (blocks s))%nat →
  ∃ map, length map = Z.to_nat BSIZE ∧
    balloc n s = Some (tt, mkimage (<[Z.to_nat (sb_bmapstart sb) := map]> (blocks s)) (freeinode s) (freeblock s)) ∧
    ∀ i, 0 ≤ i < BPB → bit_set map i = (i <? n).
Proof.
  intros Hu Hl. exists (mark (Z.to_nat n) (replicate (Z.to_nat BSIZE) 0)).
  assert (Hz : all_bytes (replicate (Z.to_nat BSIZE) 0)) by (apply Forall_replicate; lia). split_and!.
  - by rewrite (proj2 (mark_bytes _ _ Hz)), length_replicate.
  - unfold balloc, assert_. destruct (Z.ltb_spec n BPB); [|lia]. by apply wsect_in.
  - intros i Hi. rewrite mark_bits; [|done| |lia].
    + rewrite zero_bits, Z2Nat.id by lia. done.
    + rewrite length_replicate. unfold BPB in Hu. change BSIZE with 1024 in *. lia.
Qed.

(** The inode blocks have room for 208 inodes; the next one would be written over the
    free map. *)
Lemma inode_over_map : IBLOCK 207 sb = sb_bmapstart sb - 1 ∧ IBLOCK 208 sb = sb_bmapstart sb.
Proof. by vm_compute. Qed.

(** The image of a file system with one file. *)
Definition ex_image : option (unit * image) :=
  main [(chars "user/_cat", Some [replicate 1024 7; replicate 10 8])] image0.

(** Its root directory has three entries in one block, rounded up to the next
    block boundary; the file has 1034 bytes in two blocks. *)
Example ex_image_inodes :
  match ex_image with
  | Some (_, s) =>
      freeblock s = nmeta + 3 ∧
      option_map (fun b => read_dinode b 1) (blocks s !! 32%nat) =
        Some (mkdinode 1 0 0 1 1024 (46 :: replicate 12 0)) ∧
      option_map (fun b => read_dinode b 2) (blocks s !! 32%nat) =
        Some (mkdinode 2 0 0 1 1034 (47 :: 48 :: replicate 11 0)) ∧
      option_map (fun b => take 16 (drop 32 b)) (blocks s !! 46%nat) = Some (dirent 2 (chars "cat"))
  | None => False
  end.
Proof. vm_compute. done. Qed.
