(* ===== verification/MkfsProofs.v ===== *)
(** The images that mkfs writes (mkfs/mkfs.c).

    A block of the data area belongs to exactly one place: to one address of one
    inode, or to one entry of one indirect block.  [Img] states this between the calls
    of mkfs, and while [iappend] has the inode it changes in memory. *)

From stdpp Require Import base gmap strings numbers list.
From S2P Require Import Prelude CString Globals Printf Log Fs FsProofs LogProofs Mkfs.
Local Open Scope Z_scope.

(** * The blocks of the files of an image *)

Definition zero : list Z := replicate (Z.to_nat BSIZE) 0.

Definition blk (bs : list (list Z)) (a : Z) : list Z := default [] (bs !! Z.to_nat a).

(** The inode of number [inum], as the kernel reads it. *)
Definition dinode_of (bs : list (list Z)) (inum : Z) : dinode :=
  read_dinode (blk bs (IBLOCK inum sb)) (slot inum).

Definition used (l : list Z) : list Z := filter (fun a => a ≠ 0) l.

(** The address of the indirect block, when there is one. *)
Definition ind (d : dinode) : list Z := used (drop NDIRECT (d_addrs d)).

(** The blocks of data, direct ones and those that the indirect block names. *)
Definition leaves (bs : list (list Z)) (d : dinode) : list Z :=
  used (take NDIRECT (d_addrs d)) ++
  mjoin ((fun a => used (word (blk bs a) <$> seq 0 (Z.to_nat NINDIRECT))) <$> ind d).

(** All blocks of the files with the inodes 1 to [n]. *)
Definition file_blocks (bs : list (list Z)) (n : nat) : list Z :=
  mjoin ((fun i => let d := dinode_of bs (Z.of_nat i) in ind d ++ leaves bs d) <$> seq 1 n).

(** * Lists *)

Lemma used_cons a l : used (a :: l) = (if decide (a = 0) then [] else [a]) ++ used l.
Proof. unfold used. rewrite filter_cons. by destruct (decide (a = 0)), (decide (a ≠ 0)). Qed.

Lemma used_app l1 l2 : used (l1 ++ l2) = used l1 ++ used l2.
Proof. apply filter_app. Qed.

Lemma elem_of_used a l : a ∈ used l ↔ a ≠ 0 ∧ a ∈ l.
Proof. unfold used. by rewrite list_elem_of_filter. Qed.

Lemma used_zeros n : used (replicate n 0) = [].
Proof. induction n as [|n IH]; [done|]. simpl. by rewrite used_cons. Qed.

(** A zero entry that is set to [b] adds [b]. *)
Lemma used_insert l i b : l !! i = Some 0 → b ≠ 0 → used (<[i := b]> l) ≡ₚ b :: used l.
Proof.
  revert i. induction l as [|a l IH]; intros i Hi Hb; [done|]. destruct i as [|i]; simpl in *.
  - simplify_eq. rewrite !used_cons. by rewrite decide_False, decide_True.
  - rewrite !used_cons, IH by done. symmetry. apply Permutation_middle.
Qed.

Lemma concat_cons {A} (f : A → list Z) x (l : list A) : mjoin (f <$> x :: l) = f x ++ mjoin (f <$> l).
Proof. done. Qed.

Lemma concat_insert {A} (f : A → list Z) (l : list A) k x y e :
  l !! k = Some x → f y ≡ₚ e ++ f x → mjoin (f <$> <[k := y]> l) ≡ₚ e ++ mjoin (f <$> l).
Proof.
  revert k. induction l as [|z l IH]; intros k Hk Hf; [done|]. destruct k as [|k]; simpl in *.
  - simplify_eq. rewrite Hf. by rewrite app_assoc.
  - rewrite (IH k Hk Hf). rewrite !app_assoc. by rewrite (Permutation_app_comm (f z)).
Qed.

Lemma concat_ext {A} (f g : A → list Z) (l : list A) :
  (∀ x, x ∈ l → f x = g x) → mjoin (f <$> l) = mjoin (g <$> l).
Proof.
  induction l as [|x l IH]; intros H; [done|]. rewrite !concat_cons, (H x) by left. f_equal. apply IH.
  intros y Hy. apply H. by right.
Qed.

Lemma concat_parts {A} (f g : A → list Z) (l : list A) :
  mjoin ((fun x => f x ++ g x) <$> l) ≡ₚ mjoin (f <$> l) ++ mjoin (g <$> l).
Proof.
  induction l as [|x l IH]; [done|]. rewrite !concat_cons, IH. rewrite <- !app_assoc. apply Permutation_app_head.
  rewrite !app_assoc. apply Permutation_app_tail. apply Permutation_app_comm.
Qed.

Lemma elem_of_concat {A} (f : A → list Z) (l : list A) a k x :
  l !! k = Some x → a ∈ f x → a ∈ mjoin (f <$> l).
Proof.
  intros Hk Ha. apply list_elem_of_join. exists (f x). split; [done|].
  apply list_elem_of_fmap. exists x. split; [done|]. by eapply list_elem_of_lookup_2.
Qed.

(** * The invariant *)

(** [ds] are the inodes 1, 2, ...; the one at [k] may be newer than its copy in the image. *)
Record Img (k : option nat) (ds : list dinode) (s : image) : Prop := mkImg {
  img_len : length (blocks s) = Z.to_nat FSSIZE;
  img_size : ∀ b, b ∈ blocks s → length b = Z.to_nat BSIZE;
  img_inodes : Forall dinode_ok ds;
  img_count : freeinode s = Z.of_nat (length ds) + 1 ∧ Z.of_nat (length ds) < NINODES;
  img_agree : ∀ i d, ds !! i = Some d → k ≠ Some i → dinode_of (blocks s) (Z.of_nat i + 1) = d;
  img_blocks : mjoin (ind <$> ds) ++ mjoin (leaves (blocks s) <$> ds) ≡ₚ seqZ nmeta (freeblock s - nmeta);
  img_free : nmeta <= freeblock s <= FSSIZE;
  img_zero : ∀ i, freeblock s <= i < FSSIZE → blocks s !! Z.to_nat i = Some zero
}.

(** The image after a block of it is written. *)
Definition put (a : Z) (buf : list Z) (s : image) : image :=
  mkimage (<[Z.to_nat a := buf]> (blocks s)) (freeinode s) (freeblock s).

Section img.
Context {k : option nat} {ds : list dinode} {s : image}.
Context (HI : Img k ds s).

Lemma img_range a : a ∈ mjoin (ind <$> ds) ++ mjoin (leaves (blocks s) <$> ds) → nmeta <= a < freeblock s.
Proof using HI. rewrite (img_blocks _ _ _ HI), elem_of_seqZ. lia. Qed.

Lemma ind_range a : a ∈ mjoin (ind <$> ds) → nmeta <= a < freeblock s.
Proof using HI. intros Ha. apply img_range. apply elem_of_app. by left. Qed.

Lemma img_NoDup : NoDup (mjoin (ind <$> ds) ++ mjoin (leaves (blocks s) <$> ds)).
Proof using HI. rewrite (img_blocks _ _ _ HI). apply NoDup_seqZ. Qed.

Lemma leaf_not_ind a : a ∈ mjoin (leaves (blocks s) <$> ds) → a ∉ mjoin (ind <$> ds).
Proof using HI. intros Ha Hi. pose proof img_NoDup as H. apply NoDup_app in H as (_ & H & _). by apply (H a). Qed.

Lemma img_block a : 0 <= a < FSSIZE → ∃ b, blocks s !! Z.to_nat a = Some b ∧ length b = Z.to_nat BSIZE.
Proof using HI.
  intros Ha. destruct (lookup_lt_is_Some_2 (blocks s) (Z.to_nat a)) as [b Hb].
  { rewrite (img_len _ _ _ HI). lia. }
  exists b. split; [done|]. apply (img_size _ _ _ HI). by eapply list_elem_of_lookup_2.
Qed.

End img.

Lemma blk_put a b buf bs :
  0 <= a → 0 <= b → a ≠ b → blk (<[Z.to_nat a := buf]> bs) b = blk bs b.
Proof. intros Ha Hb Hne. unfold blk. rewrite list_lookup_insert_ne by lia. done. Qed.

Lemma leaves_put a buf bs d :
  0 <= a → Forall (fun b => 0 <= b) (ind d) → a ∉ ind d → leaves (<[Z.to_nat a := buf]> bs) d = leaves bs d.
Proof.
  intros Ha Hd Hn. unfold leaves. f_equal. apply concat_ext. intros b Hb. f_equal. apply list_fmap_ext.
  intros i j _. f_equal. apply blk_put; [done|by apply (proj1 (Forall_forall _ _) Hd)|congruence].
Qed.

(** Inodes are stored in front of the free map. *)
Lemma IBLOCK_range inum : 0 <= inum < NINODES → 32 <= IBLOCK inum sb < 45.
Proof.
  intros Hi. unfold IBLOCK. change (sb_inodestart sb) with 32. change IPB with 16. unfold NINODES in Hi.
  assert (0 <= inum / 16 < 13) by (split; [apply Z.div_pos; lia|apply Z.div_lt_upper_bound; lia]).
  rewrite uint_small by lia. lia.
Qed.

Lemma Img_put_size k ds s a buf :
  Img k ds s → length buf = Z.to_nat BSIZE →
  length (blocks (put a buf s)) = Z.to_nat FSSIZE ∧ ∀ b, b ∈ blocks (put a buf s) → length b = Z.to_nat BSIZE.
Proof.
  intros HI Hb. simpl. rewrite length_insert. split; [apply (img_len _ _ _ HI)|].
  intros b [i Hi]%list_elem_of_lookup. apply list_lookup_insert_Some in Hi as [(_ & <- & _)|(_ & Hi)]; [done|].
  apply (img_size _ _ _ HI). by eapply list_elem_of_lookup_2.
Qed.

(** A write outside the indirect blocks changes no address. *)
Lemma leaves_put_all k ds s a buf :
  Img k ds s → 0 <= a → a ∉ mjoin (ind <$> ds) →
  mjoin (leaves (<[Z.to_nat a := buf]> (blocks s)) <$> ds) = mjoin (leaves (blocks s) <$> ds).
Proof.
  intros HI Ha Hn. apply concat_ext. intros d [j Hd]%list_elem_of_lookup.
  assert (∀ b, b ∈ ind d → b ∈ mjoin (ind <$> ds)) as Hin by (intros b Hb; by eapply elem_of_concat).
  apply leaves_put; [done| |intros Hi; by apply Hn, Hin].
  apply Forall_forall. intros b Hb. pose proof (ind_range HI b (Hin b Hb)). change nmeta with 46 in *. lia.
Qed.

(** A block of data, or the free map, is written. *)
Lemma Img_put_data k ds s a buf :
  Img k ds s → length buf = Z.to_nat BSIZE → sb_bmapstart sb <= a < freeblock s → a ∉ mjoin (ind <$> ds) →
  Img k ds (put a buf s).
Proof.
  intros HI Hb Ha Hn. change (sb_bmapstart sb) with 45 in *. destruct (Img_put_size _ _ _ a _ HI Hb) as [H1 H2]. split; try done.
  - apply (img_inodes _ _ _ HI).
  - apply (img_count _ _ _ HI).
  - intros i d Hi Hk. rewrite <- (img_agree _ _ _ HI i d Hi Hk). unfold dinode_of. f_equal.
    pose proof (img_count _ _ _ HI) as [_ Hc]. apply lookup_lt_Some in Hi.
    pose proof (IBLOCK_range (Z.of_nat i + 1) ltac:(lia)). apply blk_put; lia.
  - simpl. rewrite (leaves_put_all _ _ _ _ _ HI) by (done || lia). apply (img_blocks _ _ _ HI).
  - apply (img_free _ _ _ HI).
  - intros i Hi. simpl in *. rewrite list_lookup_insert_ne by lia. by apply (img_zero _ _ _ HI).
Qed.

(** * Inodes *)

Lemma dinode_fits inum : (64 * slot inum + 64 <= Z.to_nat BSIZE)%nat.
Proof. unfold slot. change IPB with 16. change (Z.to_nat BSIZE) with 1024%nat. pose proof (Z.mod_pos_bound inum 16). lia. Qed.

Lemma same_slot i j :
  0 <= i < NINODES → 0 <= j < NINODES → IBLOCK i sb = IBLOCK j sb → slot i = slot j → i = j.
Proof.
  intros Hi Hj Hb Hs. unfold NINODES in *. unfold IBLOCK, slot in *. change (sb_inodestart sb) with 32 in *.
  change IPB with 16 in *. pose proof (Z.mod_pos_bound i 16). pose proof (Z.mod_pos_bound j 16).
  pose proof (Z.div_mod i 16). pose proof (Z.div_mod j 16).
  rewrite !uint_small in Hb by (change (2 ^ 32) with 4294967296; lia). lia.
Qed.

(** Writing the inode [inum] changes that inode only. *)
Lemma dinode_of_put bs inum d j b :
  0 <= inum < NINODES → 0 <= j < NINODES → dinode_ok d →
  bs !! Z.to_nat (IBLOCK inum sb) = Some b → length b = Z.to_nat BSIZE →
  dinode_of (<[Z.to_nat (IBLOCK inum sb) := write_dinode (slot inum) d b]> bs) j =
  (if decide (j = inum) then d else dinode_of bs j).
Proof.
  intros Hi Hj Hd Hb Hl. pose proof (IBLOCK_range inum Hi). pose proof (IBLOCK_range j Hj).
  destruct (dinode_round_trip d b (slot inum) Hd) as (_ & H1 & H2).
  { rewrite Hl. apply dinode_fits. }
  unfold dinode_of. destruct (decide (IBLOCK inum sb = IBLOCK j sb)) as [E|E].
  - unfold blk. rewrite <- E, list_lookup_insert_eq, Hb by (by eapply lookup_lt_Some). simpl.
    destruct (decide (j = inum)) as [->|Hne]; [done|]. apply H2. intros Hs. by apply Hne, same_slot.
  - rewrite blk_put by lia. destruct (decide (j = inum)) as [->|Hne]; [done|done].
Qed.

Lemma ind_addrs d d' : d_addrs d' = d_addrs d → ind d' = ind d.
Proof. unfold ind. by intros ->. Qed.

Lemma leaves_addrs bs d d' : d_addrs d' = d_addrs d → leaves bs d' = leaves bs d.
Proof. unfold leaves, ind. by intros ->. Qed.

Lemma concat_insert_same {A} (f : A → list Z) (l : list A) k x y :
  l !! k = Some x → f y = f x → mjoin (f <$> <[k := y]> l) = mjoin (f <$> l).
Proof. intros Hk Hf. rewrite list_fmap_insert, Hf. rewrite list_insert_id; [done|]. by rewrite list_lookup_fmap, Hk. Qed.

(** ** Calls of the program *)

Lemma W_inv {A B} (m : W A) (f : A → W B) s r :
  (m ≫= f) s = Some r → ∃ a s', m s = Some (a, s') ∧ f a s' = Some r.
Proof. unfold mbind, W_bind. destruct (m s) as [[a s']|]; [|done]. by exists a, s'. Qed.

Lemma rsect_inv a s b s' :
  rsect a s = Some (b, s') → s' = s ∧ blocks s !! Z.to_nat a = Some b ∧ 0 <= a < Z.of_nat (length (blocks s)).
Proof.
  unfold rsect. intros (bs & s1 & H1 & H2)%W_inv. unfold look in H1. injection H1 as <- <-.
  destruct (at_idx (blocks s) a) as [b'|] eqn:E; [|done]. injection H2 as <- <-.
  split; [done|]. pose proof (at_idx_Some _ _ _ E). split; [|done].
  rewrite <- E. unfold at_idx. destruct (Z.ltb_spec a 0); [lia|done].
Qed.

Lemma wsect_put a buf s : (Z.to_nat a < length (blocks s))%nat → wsect a buf s = Some (tt, put a buf s).
Proof. apply wsect_in. Qed.

Lemma winode_inv inum d s u s' :
  winode inum d s = Some (u, s') →
  ∃ b, blocks s !! Z.to_nat (IBLOCK inum sb) = Some b ∧
    s' = put (IBLOCK inum sb) (write_dinode (slot inum) d b) s.
Proof.
  unfold winode. intros (b & s1 & (-> & Hb & Hl)%rsect_inv & H2)%W_inv. exists b. split; [done|].
  rewrite wsect_put in H2 by lia. by simplify_eq.
Qed.

Lemma rinode_inv inum s d s' :
  rinode inum s = Some (d, s') → s' = s ∧ d = dinode_of (blocks s) inum.
Proof.
  unfold rinode. intros (b & s1 & (-> & Hb & _)%rsect_inv & H2)%W_inv. injection H2 as <- <-.
  split; [done|]. unfold dinode_of, blk. by rewrite Hb.
Qed.

(** The inode at [i] is written back, with another size perhaps. *)
Lemma Img_winode k ds s i d d' u s' :
  Img k ds s → (∀ j, j ≠ i → k ≠ Some j) → ds !! i = Some d → dinode_ok d' → d_addrs d' = d_addrs d →
  winode (Z.of_nat i + 1) d' s = Some (u, s') → Img None (<[i := d']> ds) s' ∧ freeblock s' = freeblock s.
Proof.
  intros HI Hk Hd Hok Ha (b & Hb & ->)%winode_inv. pose proof (img_count _ _ _ HI) as [Hc Hn].
  pose proof (lookup_lt_Some _ _ _ Hd) as Hlt. pose proof (IBLOCK_range (Z.of_nat i + 1) ltac:(lia)) as Hr.
  assert (length b = Z.to_nat BSIZE) as Hl by (apply (img_size _ _ _ HI); by eapply list_elem_of_lookup_2).
  destruct (dinode_round_trip d' b (slot (Z.of_nat i + 1)) Hok) as (Hl' & _).
  { rewrite Hl. apply dinode_fits. }
  destruct (Img_put_size _ _ _ (IBLOCK (Z.of_nat i + 1) sb) _ HI (eq_trans Hl' Hl)) as [H1 H2].
  split; [|done]. split; try done.
  - apply Forall_insert; [apply (img_inodes _ _ _ HI)|done].
  - by rewrite length_insert.
  - intros j e Hj _. simpl. pose proof (lookup_lt_Some _ _ _ Hj) as Hjl. rewrite length_insert in Hjl.
    rewrite dinode_of_put by (done || lia). destruct (decide (Z.of_nat j + 1 = Z.of_nat i + 1)) as [E|E].
    + assert (j = i) as -> by lia. rewrite list_lookup_insert_eq in Hj by done. by simplify_eq.
    + rewrite list_lookup_insert_ne in Hj by lia. apply (img_agree _ _ _ HI j e Hj). apply Hk. lia.
  - simpl. rewrite (concat_insert_same ind ds i d d' Hd (ind_addrs _ _ Ha)).
    rewrite (concat_insert_same _ ds i d d' Hd (leaves_addrs _ _ _ Ha)).
    rewrite (leaves_put_all _ _ _ _ _ HI); [apply (img_blocks _ _ _ HI)|lia|].
    intros Hi. pose proof (ind_range HI _ Hi). change nmeta with 46 in *. lia.
  - apply (img_free _ _ _ HI).
  - intros j Hj. simpl in *. pose proof (img_free _ _ _ HI). change nmeta with 46 in *.
    rewrite list_lookup_insert_ne by lia. by apply (img_zero _ _ _ HI).
Qed.

Lemma xint_id x : 0 <= x < 2 ^ 32 → xint x = x.
Proof.
  intros Hx. unfold xint, le_value, uchar. rewrite !Z.shiftr_div_pow2 by lia.
  change (2 ^ 8) with 256. change (2 ^ 16) with 65536. change (2 ^ 24) with 16777216.
  change (2 ^ 32) with 4294967296 in Hx. Z.div_mod_to_equations. lia.
Qed.

Definition new_dinode (type : Z) : dinode :=
  mkdinode (xshort type) 0 0 (xshort 1) (xint 0) (replicate (S NDIRECT) 0).

Lemma Img_ialloc ds s type inum s' :
  Img None ds s → Z.of_nat (length ds) + 1 < NINODES → dinode_ok (new_dinode type) →
  ialloc type s = Some (inum, s') →
  inum = Z.of_nat (length ds) + 1 ∧ Img None (ds ++ [new_dinode type]) s'.
Proof.
  intros HI Hlt Hok. unfold ialloc. pose proof (img_count _ _ _ HI) as [Hc Hn].
  intros (n & s0 & H0 & (u & s1 & H1 & (u2 & s2 & H2 & H3)%W_inv)%W_inv)%W_inv.
  injection H0 as <- <-. injection H1 as _ <-. injection H3 as <- <-. rewrite Hc in *. split; [done|].
  assert (Img (Some (length ds)) (ds ++ [new_dinode type]) (s <| freeinode ::= fun n => uint (n + 1) |>)) as HI1.
  { destruct HI. split; try done.
    - by apply Forall_app_2; [|constructor].
    - simpl. rewrite length_app. simpl. rewrite Hc, uint_small by (unfold NINODES in Hlt; lia). lia.
    - intros i d Hi Hk. apply lookup_app_Some in Hi as [Hi|[Hge Hi]]; [by apply img_agree0|].
      apply lookup_lt_Some in Hi. simpl in Hi. assert (i = length ds) by lia. congruence.
    - simpl. rewrite !fmap_app, !join_app. simpl. rewrite !app_nil_r. done. }
  destruct (Img_winode _ _ _ (length ds) (new_dinode type) (new_dinode type) u2 s2 HI1) as [HI2 _]; try done.
  - intros j Hj. congruence.
  - apply list_lookup_middle. done.
  - cbn -[winode new_dinode]. rewrite Hc. exact H2.
  - rewrite list_insert_id in HI2; [done|]. by apply list_lookup_middle.
Qed.

(** * New blocks *)

Definition bump (s : image) : image := mkimage (blocks s) (freeinode s) (freeblock s + 1).

Definition set_addr (j : nat) (b : Z) (d : dinode) : dinode :=
  mkdinode (d_type d) (d_major d) (d_minor d) (d_nlink d) (d_size d) (<[j := b]> (d_addrs d)).

Lemma dinode_ok_set j b d : dinode_ok d → 0 <= b < 2 ^ 32 → dinode_ok (set_addr j b d).
Proof.
  intros (H1 & H2 & H3 & H4 & H5 & H6 & H7) Hb. unfold dinode_ok. cbn [set_addr d_type d_major d_minor d_nlink d_size d_addrs].
  rewrite length_insert. split_and!; try lia. by apply Forall_insert.
Qed.

(** The first free block is the next one in the order of [seqZ]. *)
Lemma seqZ_bump n : nmeta <= n → n :: seqZ nmeta (n - nmeta) ≡ₚ seqZ nmeta (n + 1 - nmeta).
Proof.
  intros Hn. replace (n + 1 - nmeta) with (n - nmeta + 1) by lia. rewrite seqZ_app by lia.
  replace (nmeta + (n - nmeta)) with n by lia. apply Permutation_cons_append.
Qed.

(** An address that is taken for the inode in memory. *)
Lemma set_addr_blocks bs j b d :
  (j <= NDIRECT)%nat → length (d_addrs d) = S NDIRECT → d_addrs d !! j = Some 0 → b ≠ 0 → blk bs b = zero →
  ∃ e1 e2, e1 ++ e2 = [b] ∧ ind (set_addr j b d) ≡ₚ e1 ++ ind d ∧ leaves bs (set_addr j b d) ≡ₚ e2 ++ leaves bs d.
Proof.
  intros Hj Hl Hz Hb Hbz. destruct (decide (j < NDIRECT)%nat) as [Hlt|Hge].
  - assert (ind (set_addr j b d) = ind d) as Ei.
    { unfold ind, set_addr. cbn [d_addrs]. by rewrite drop_insert_lt. }
    exists [], [b]. rewrite Ei. split_and!; [done|done|]. unfold leaves. rewrite Ei. unfold set_addr. cbn [d_addrs].
    rewrite take_insert_lt by done. rewrite used_insert; [done| |done]. by rewrite lookup_take_lt.
  - assert (j = NDIRECT) as -> by lia.
    assert (drop NDIRECT (d_addrs d) = [0]) as E0.
    { rewrite (drop_S _ _ _ Hz). f_equal. apply drop_ge. lia. }
    assert (ind (set_addr NDIRECT b d) = [b]) as Ei.
    { unfold ind, set_addr. cbn [d_addrs]. rewrite (drop_S _ b) by (apply list_lookup_insert_eq; lia).
      rewrite drop_ge by (rewrite length_insert; lia). rewrite used_cons. by rewrite decide_False. }
    assert (ind d = []) as Ei0 by (unfold ind; by rewrite E0).
    exists [b], []. rewrite Ei, Ei0. split_and!; [done|done|]. unfold leaves. rewrite Ei, Ei0.
    unfold set_addr at 1. cbn [d_addrs]. rewrite take_insert_ge by done. rewrite concat_cons, Hbz.
    assert (used (word zero <$> seq 0 (Z.to_nat NINDIRECT)) = []) as ->; [|done].
    generalize (seq 0 (Z.to_nat NINDIRECT)). intros l. induction l as [|i l IH]; [done|].
    rewrite fmap_cons, used_cons. unfold zero. rewrite word_zeros. exact IH.
Qed.

Lemma Img_new_addr k ds s j d :
  Img (Some k) ds s → ds !! k = Some d → (j <= NDIRECT)%nat → d_addrs d !! j = Some 0 → freeblock s < FSSIZE →
  Img (Some k) (<[k := set_addr j (freeblock s) d]> ds) (bump s).
Proof.
  intros HI Hd Hj Hz Hf. pose proof (img_free _ _ _ HI) as Hfr. change nmeta with 46 in Hfr. unfold FSSIZE in *.
  pose proof (Forall_lookup_1 _ _ _ _ (img_inodes _ _ _ HI) Hd) as Hok.
  assert (blk (blocks s) (freeblock s) = zero) as Hb.
  { unfold blk. rewrite (img_zero _ _ _ HI) by (unfold FSSIZE; lia). done. }
  destruct (set_addr_blocks (blocks s) j (freeblock s) d Hj) as (e1 & e2 & He & Hi & Hl); [apply Hok|done|lia|done|].
  split.
  - apply (img_len _ _ _ HI).
  - apply (img_size _ _ _ HI).
  - apply Forall_insert; [apply (img_inodes _ _ _ HI)|]. apply dinode_ok_set; [done|lia].
  - rewrite length_insert. apply (img_count _ _ _ HI).
  - intros i e Hi' Hk. rewrite list_lookup_insert_ne in Hi' by congruence. by apply (img_agree _ _ _ HI).
  - simpl. rewrite (concat_insert ind ds k d _ e1 Hd Hi), (concat_insert _ ds k d _ e2 Hd Hl).
    rewrite <- (seqZ_bump (freeblock s)) by (change nmeta with 46; lia). rewrite <- (img_blocks _ _ _ HI).
    change (freeblock s :: ?x) with ([freeblock s] ++ x). rewrite <- He. rewrite <- !app_assoc.
    apply Permutation_app_head. rewrite !app_assoc. apply Permutation_app_tail. apply Permutation_app_comm.
  - simpl. change nmeta with 46. unfold FSSIZE. lia.
  - intros i Hi'. simpl in *. apply (img_zero _ _ _ HI). lia.
Qed.

(** An entry that is taken in the indirect block [a] of the inode in memory. *)
Lemma leaves_new_word bs d a i b v :
  ind d = [a] → 0 <= a → bs !! Z.to_nat a = Some b → length b = Z.to_nat BSIZE → (i < Z.to_nat NINDIRECT)%nat →
  word b i = 0 → 0 < v < 2 ^ 32 →
  leaves (<[Z.to_nat a := set_word i v b]> bs) d ≡ₚ v :: leaves bs d.
Proof.
  intros Hi Ha Hb Hl Hlt Hw Hv. unfold leaves. rewrite Hi, !concat_cons, !app_nil_r.
  assert (4 * i + 4 <= length b)%nat as Hf by (rewrite Hl; change (Z.to_nat NINDIRECT) with 256%nat in *;
    change (Z.to_nat BSIZE) with 1024%nat; lia).
  assert (word (blk (<[Z.to_nat a := set_word i v b]> bs) a) <$> seq 0 (Z.to_nat NINDIRECT) =
          <[i := v]> (word (blk bs a) <$> seq 0 (Z.to_nat NINDIRECT))) as ->.
  { unfold blk. rewrite list_lookup_insert_eq, Hb by (by eapply lookup_lt_Some). simpl default.
    apply list_eq. intros j. rewrite list_lookup_fmap. destruct (decide (i = j)) as [<-|Hne].
    - rewrite list_lookup_insert_eq by (rewrite length_fmap, length_seq; lia).
      rewrite lookup_seq_lt by lia. simpl. by rewrite word_set_eq by (done || lia).
    - rewrite list_lookup_insert_ne, list_lookup_fmap by done. destruct (seq 0 _ !! j) as [j'|] eqn:E; [|done].
      apply lookup_seq in E as [-> _]. simpl. by rewrite word_set_ne. }
  rewrite used_insert; [symmetry; apply Permutation_middle| |lia].
  rewrite list_lookup_fmap, lookup_seq_lt by lia. unfold blk. rewrite Hb. simpl. by rewrite Hw.
Qed.

(** An indirect block belongs to one inode: writing it changes the addresses of that one. *)
Lemma leaves_one k ds s j d a buf v :
  Img k ds s → ds !! j = Some d → ind d = [a] →
  leaves (<[Z.to_nat a := buf]> (blocks s)) d ≡ₚ v :: leaves (blocks s) d →
  mjoin (leaves (<[Z.to_nat a := buf]> (blocks s)) <$> ds) ≡ₚ v :: mjoin (leaves (blocks s) <$> ds).
Proof.
  intros HI Hd Hi Hl. set (bs := <[Z.to_nat a := buf]> (blocks s)) in *.
  pose proof (img_NoDup HI) as [Hnd _]%NoDup_app.
  rewrite <- (take_drop_middle ds j d Hd) in Hnd |- *. set (l1 := take j ds) in *. set (l2 := drop (S j) ds) in *.
  rewrite !fmap_app, !join_app, !concat_cons in *. rewrite Hi in Hnd.
  apply NoDup_app in Hnd as (_ & N1 & N2). apply NoDup_app in N2 as (_ & N2 & _).
  assert (∀ b, b ∈ mjoin (ind <$> ds) → 0 <= b) as Hpos.
  { intros b Hb. pose proof (ind_range HI b Hb). change nmeta with 46 in *. lia. }
  assert (∀ l, (∀ e, e ∈ l → e ∈ ds) → a ∉ mjoin (ind <$> l) → mjoin (leaves bs <$> l) = mjoin (leaves (blocks s) <$> l)) as Hsame.
  { intros l Hsub Hn. apply concat_ext. intros e [i He]%list_elem_of_lookup.
    destruct (list_elem_of_lookup_1 ds e) as [i' He']; [apply Hsub; by eapply list_elem_of_lookup_2|].
    apply leaves_put.
    - apply Hpos. apply (elem_of_concat _ _ _ _ _ Hd). rewrite Hi. by left.
    - apply Forall_forall. intros b Hb. apply Hpos. by apply (elem_of_concat _ _ _ _ _ He').
    - intros Hb. apply Hn. by apply (elem_of_concat _ _ _ _ _ He). }
  rewrite (Hsame l1), (Hsame l2), Hl; [symmetry; apply Permutation_middle|..].
  - intros e He. apply (subseteq_drop _ _ _ He).
  - intros Hb. apply (N2 a); [by left|done].
  - intros e He. apply (subseteq_take _ _ _ He).
  - intros Hb. apply (N1 a Hb). by left.
Qed.

Lemma Img_new_word k ds s d a b i :
  Img (Some k) ds s → ds !! k = Some d → ind d = [a] → blocks s !! Z.to_nat a = Some b →
  (i < Z.to_nat NINDIRECT)%nat → word b i = 0 → freeblock s < FSSIZE →
  Img (Some k) ds (bump (put a (set_word i (freeblock s) b) s)).
Proof.
  intros HI Hd Hi Hb Hlt Hw Hf. pose proof (img_free _ _ _ HI) as Hfr. change nmeta with 46 in Hfr. unfold FSSIZE in *.
  assert (a ∈ mjoin (ind <$> ds)) as Ha by (apply (elem_of_concat _ _ _ _ _ Hd); rewrite Hi; by left).
  pose proof (ind_range HI a Ha) as Har. change nmeta with 46 in Har.
  assert (length b = Z.to_nat BSIZE) as Hl by (apply (img_size _ _ _ HI); by eapply list_elem_of_lookup_2).
  destruct (Img_put_size _ _ _ a (set_word i (freeblock s) b) HI) as [H1 H2].
  { rewrite length_set_word; [done|]. rewrite Hl. change (Z.to_nat NINDIRECT) with 256%nat in Hlt. change (Z.to_nat BSIZE) with 1024%nat. lia. }
  split; try done.
  - apply (img_inodes _ _ _ HI).
  - apply (img_count _ _ _ HI).
  - intros j e Hj Hk. rewrite <- (img_agree _ _ _ HI j e Hj Hk). unfold dinode_of. f_equal.
    pose proof (img_count _ _ _ HI) as [_ Hc]. apply lookup_lt_Some in Hj.
    pose proof (IBLOCK_range (Z.of_nat j + 1) ltac:(lia)). apply blk_put; lia.
  - simpl. rewrite <- (seqZ_bump (freeblock s)) by (change nmeta with 46; lia). rewrite <- (img_blocks _ _ _ HI).
    rewrite Permutation_middle. apply Permutation_app_head. apply (leaves_one _ _ _ _ _ _ _ _ HI Hd Hi).
    apply leaves_new_word; try done; lia.
  - simpl. change nmeta with 46. unfold FSSIZE. lia.
  - intros j Hj. simpl in *. rewrite list_lookup_insert_ne by lia. apply (img_zero _ _ _ HI). lia.
Qed.

Lemma newblock_inv k ds s b s' :
  Img k ds s → newblock s = Some (b, s') → b = freeblock s ∧ s' = bump s ∧ xint b = b.
Proof.
  intros HI. pose proof (img_free _ _ _ HI) as Hf. change nmeta with 46 in Hf. unfold FSSIZE in Hf.
  unfold newblock. intros (b1 & s1 & H1 & (u & s2 & H2 & H3)%W_inv)%W_inv.
  injection H1 as <- <-. injection H2 as _ <-. injection H3 as <- <-. split; [done|]. split; [|apply xint_id; lia].
  destruct s as [bs fi fb]. unfold bump. cbn in *. by rewrite uint_small by lia.
Qed.

(** The block for a place in the file: past the end of the image, or one of its blocks. *)
Definition placed (k : nat) (ds : list dinode) (r : Z * dinode) (s : image) : Prop :=
  FSSIZE <= r.1 ∧ length (blocks s) = Z.to_nat FSSIZE ∨
  Img (Some k) (<[k := r.2]> ds) s ∧ r.1 ∈ leaves (blocks s) r.2 ∧ dinode_ok r.2.

Lemma ind_some d a : dinode_ok d → d_addrs d !! NDIRECT = Some a → a ≠ 0 → ind d = [a].
Proof.
  intros (_ & _ & _ & _ & _ & Hl & _) Ha Hne. unfold ind. rewrite (drop_S _ _ _ Ha).
  rewrite drop_ge by lia. rewrite used_cons. by rewrite decide_False.
Qed.

Lemma leaf_direct bs d j a : d_addrs d !! j = Some a → (j < NDIRECT)%nat → a ≠ 0 → a ∈ leaves bs d.
Proof.
  intros Ha Hj Hne. apply elem_of_app. left. apply elem_of_used. split; [done|].
  apply list_elem_of_lookup. exists j. by rewrite lookup_take_lt.
Qed.

Lemma leaf_indirect bs d a b i :
  ind d = [a] → bs !! Z.to_nat a = Some b → (i < Z.to_nat NINDIRECT)%nat → word b i ≠ 0 → word b i ∈ leaves bs d.
Proof.
  intros Hi Hb Hlt Hne. apply elem_of_app. right. rewrite Hi, concat_cons, app_nil_r. apply elem_of_used.
  split; [done|]. apply list_elem_of_fmap. exists i. unfold blk. rewrite Hb. split; [done|]. apply elem_of_seq. lia.
Qed.

Lemma addr_range d j a : dinode_ok d → d_addrs d !! j = Some a → 0 <= a < 2 ^ 32.
Proof. intros (_ & _ & _ & _ & _ & _ & H) Ha. by apply (Forall_lookup_1 _ _ _ _ H Ha). Qed.

Lemma file_block_direct k ds s d fbn r s' :
  Img (Some k) ds s → ds !! k = Some d → 0 <= fbn < Z.of_nat NDIRECT →
  file_block d fbn s = Some (r, s') → placed k ds r s'.
Proof.
  intros HI Hd Hfbn. unfold file_block. rewrite (proj2 (Z.ltb_lt _ _)) by lia.
  pose proof (Forall_lookup_1 _ _ _ _ (img_inodes _ _ _ HI) Hd) as Hok.
  intros (a & s1 & H1 & H2)%W_inv. destruct (at_idx (d_addrs d) fbn) as [a'|] eqn:Ea; [|done]. injection H1 as -> <-.
  assert (d_addrs d !! Z.to_nat fbn = Some a) as Hl.
  { rewrite <- Ea. unfold at_idx. destruct (Z.ltb_spec fbn 0); [lia|done]. }
  rewrite (xint_id a) in H2 by (by apply (addr_range d (Z.to_nat fbn))).
  assert (Z.to_nat fbn < NDIRECT)%nat as Hn by lia. destruct (Z.eqb_spec a 0) as [->|Hne].
  - apply W_inv in H2 as (b & s2 & H2 & H3). injection H3 as <- <-.
    destruct (newblock_inv _ _ _ _ _ HI H2) as (-> & -> & Eb). rewrite !Eb. unfold placed. cbn [fst snd].
    destruct (decide (FSSIZE <= freeblock s)) as [Hge|Hlt]; [left; split; [done|apply (img_len _ _ _ HI)]|]. right.
    pose proof (Img_new_addr k ds s (Z.to_nat fbn) d HI Hd ltac:(lia) Hl ltac:(lia)) as HI'.
    pose proof (img_free _ _ _ HI) as Hf. change nmeta with 46 in Hf. split_and!; [exact HI'| |].
    + apply (leaf_direct _ (set_addr (Z.to_nat fbn) (freeblock s) d) (Z.to_nat fbn)); [|done|lia].
      apply list_lookup_insert_eq. by eapply lookup_lt_Some.
    + apply (dinode_ok_set (Z.to_nat fbn)); [done|]. unfold FSSIZE in *. lia.
  - injection H2 as <- <-. right. cbn [fst snd]. rewrite list_insert_id by done. split_and!; [done| |done].
    by apply (leaf_direct _ _ (Z.to_nat fbn)).
Qed.

(** The entry of the indirect block [a]. *)
Lemma file_block_entry k ds s d a b i r s' :
  Img (Some k) ds s → ds !! k = Some d → ind d = [a] → blocks s !! Z.to_nat a = Some b → 0 <= a < FSSIZE →
  (i < Z.to_nat NINDIRECT)%nat →
  (if word b i =? 0 then
     n ← newblock; wsect a (set_word i (xint n) b) ;; mret (xint (xint n), d)
   else mret (xint (word b i), d)) s = Some (r, s') →
  placed k ds r s'.
Proof.
  intros HI Hd Hi Hb Ha Hlt. pose proof (Forall_lookup_1 _ _ _ _ (img_inodes _ _ _ HI) Hd) as Hok.
  pose proof (img_free _ _ _ HI) as Hf. change nmeta with 46 in Hf.
  destruct (Z.eqb_spec (word b i) 0) as [Hz|Hne].
  - intros (n & s1 & H1 & (u & s2 & H2 & H3)%W_inv)%W_inv. injection H3 as <- <-.
    destruct (newblock_inv _ _ _ _ _ HI H1) as (-> & -> & En). rewrite !En in *.
    rewrite wsect_put in H2 by (cbn [blocks bump]; rewrite (img_len _ _ _ HI); lia). injection H2 as _ <-.
    unfold placed. cbn [fst snd]. destruct (decide (FSSIZE <= freeblock s)) as [Hge|Hlt'].
    { left. split; [done|]. cbn [blocks put bump]. rewrite length_insert. apply (img_len _ _ _ HI). }
    right.
    rewrite list_insert_id by done.
    pose proof (Img_new_word k ds s d a b i HI Hd Hi Hb Hlt Hz ltac:(lia)) as HI'. split_and!; [exact HI'| |done].
    assert (length b = Z.to_nat BSIZE) as Hl by (apply (img_size _ _ _ HI); by eapply list_elem_of_lookup_2).
    assert (word (set_word i (freeblock s) b) i = freeblock s) as Ew.
    { apply word_set_eq; [rewrite Hl; change (Z.to_nat NINDIRECT) with 256%nat in Hlt; change (Z.to_nat BSIZE) with 1024%nat|unfold FSSIZE in *]; lia. }
    rewrite <- Ew at 1. apply (leaf_indirect _ _ a); [done| |done|lia].
    cbn [blocks put bump]. apply list_lookup_insert_eq. by eapply lookup_lt_Some.
  - intros H1. injection H1 as <- <-. right. cbn [fst snd].
    pose proof (leaf_indirect _ _ _ _ _ Hi Hb Hlt Hne) as Hin.
    rewrite xint_id; [rewrite list_insert_id by done; done|].
    pose proof (img_range HI (word b i)) as Hr. rewrite elem_of_app in Hr.
    specialize (Hr (or_intror (elem_of_concat _ _ _ _ _ Hd Hin))). change nmeta with 46 in Hr. unfold FSSIZE in *. lia.
Qed.

Lemma file_block_placed k ds s d fbn r s' :
  Img (Some k) ds s → ds !! k = Some d → 0 <= fbn < MAXFILE →
  file_block d fbn s = Some (r, s') → placed k ds r s'.
Proof.
  intros HI Hd Hfbn H. destruct (decide (fbn < Z.of_nat NDIRECT)) as [Hlt|Hge].
  { eapply file_block_direct; [done|done| |done]. lia. }
  unfold file_block in H. rewrite (proj2 (Z.ltb_ge _ _)) in H by lia.
  pose proof (Forall_lookup_1 _ _ _ _ (img_inodes _ _ _ HI) Hd) as Hok.
  apply W_inv in H as (a & s1 & H1 & H). destruct (d_addrs d !! NDIRECT) as [a'|] eqn:Ea; [|done]. injection H1 as -> <-.
  apply W_inv in H as ([a1 d1] & s1 & H1 & H). apply W_inv in H as (b & s2 & (-> & Hb & Hr)%rsect_inv & H).
  rewrite (xint_id a) in H1 by (by apply (addr_range d NDIRECT)).
  assert (Z.to_nat (fbn - Z.of_nat NDIRECT) < Z.to_nat NINDIRECT)%nat as Hi.
  { change MAXFILE with 268 in Hfbn. change (Z.to_nat NINDIRECT) with 256%nat. unfold NDIRECT. lia. }
  destruct (Z.eqb_spec a 0) as [->|Hne].
  - apply W_inv in H1 as (n & s3 & H1 & H3). injection H3 as <- <- <-.
    destruct (newblock_inv _ _ _ _ _ HI H1) as (-> & -> & En). rewrite !En in *. cbn [blocks bump] in *.
    rewrite (img_len _ _ _ HI) in Hr. pose proof (img_free _ _ _ HI) as Hf. change nmeta with 46 in Hf.
    assert (freeblock s < FSSIZE) as Hlt by (unfold FSSIZE in *; lia).
    pose proof (Img_new_addr k ds s NDIRECT d HI Hd ltac:(lia) Ea Hlt) as HI'.
    set (d1 := set_addr NDIRECT (freeblock s) d) in *.
    assert (placed k (<[k := d1]> ds) r s') as Hp.
    { apply (file_block_entry k _ (bump s) d1 (freeblock s) b (Z.to_nat (fbn - Z.of_nat NDIRECT))); try done.
      - apply list_lookup_insert_eq. by eapply lookup_lt_Some.
      - apply ind_some; [apply dinode_ok_set; [done|unfold FSSIZE in *; lia]| |lia].
        apply list_lookup_insert_eq. by eapply lookup_lt_Some. }
    unfold placed in *. by rewrite list_insert_insert_eq in Hp.
  - injection H1 as <- <- <-. rewrite (xint_id a) in * by (by apply (addr_range d NDIRECT)).
    rewrite (img_len _ _ _ HI) in Hr. eapply file_block_entry; try done. by apply ind_some.
Qed.

(** * Appending *)

Lemma length_bcopy p off buf : (off + length p <= length buf)%nat → length (bcopy p off buf) = length buf.
Proof. intros H. unfold bcopy. rewrite !length_app, length_take, length_drop. lia. Qed.

Lemma append_loop_ok fuel k ds s d off p r s' :
  Img (Some k) ds s → ds !! k = Some d → 0 <= off < 2 ^ 32 →
  append_loop fuel d off p s = Some (r, s') →
  Img (Some k) (<[k := r.1]> ds) s' ∧ dinode_ok r.1 ∧ 0 <= r.2 < 2 ^ 32.
Proof.
  revert s d ds off p. induction fuel as [|fuel IH]; intros s d ds off p HI Hd Hoff H;
    pose proof (Forall_lookup_1 _ _ _ _ (img_inodes _ _ _ HI) Hd) as Hok.
  { destruct p; [|done]. injection H as <- <-. cbn [fst snd]. by rewrite list_insert_id. }
  cbn [append_loop] in H. destruct p as [|c p]; [injection H as <- <-; cbn [fst snd]; by rewrite list_insert_id|].
  set (p' := c :: p) in *. apply W_inv in H as (u & s1 & H1 & H).
  unfold assert_ in H1. destruct (Z.ltb_spec (off / BSIZE) MAXFILE) as [Hm|]; [|done]. injection H1 as _ <-.
  apply W_inv in H as ([x d'] & s1 & H1 & H). apply W_inv in H as (b & s2 & (-> & Hb & Hr)%rsect_inv & H).
  apply W_inv in H as (u2 & s3 & H3 & H). assert (0 <= off / BSIZE) as Hfbn by (apply Z.div_pos; [lia|done]).
  rewrite wsect_put in H3 by lia. injection H3 as _ <-.
  destruct (file_block_placed k ds s d _ _ _ HI Hd (conj Hfbn Hm) H1) as [[Hge Hlen]|(HI1 & Hx & Hok')]; cbn [fst snd] in *.
  { unfold FSSIZE in *. lia. }
  assert (x ∈ mjoin (leaves (blocks s1) <$> <[k := d']> ds)) as Hx'.
  { apply (elem_of_concat _ _ x k d'); [|done]. apply list_lookup_insert_eq. by eapply lookup_lt_Some. }
  pose proof (img_range HI1 x) as Hxr. rewrite elem_of_app in Hxr.
  set (n1 := Z.min (Z.of_nat (length p')) ((off / BSIZE + 1) * BSIZE - off)) in *.
  pose proof (Z.div_mod off 1024) as Hdm. pose proof (Z.mod_pos_bound off 1024). change BSIZE with 1024 in *.
  eapply IH in H; [|apply Img_put_data; [exact HI1| | |by apply (leaf_not_ind HI1)]|..].
  - by rewrite list_insert_insert_eq in H.
  - assert (length b = 1024%nat) as Hl by (apply (img_size _ _ _ HI1); by eapply list_elem_of_lookup_2).
    rewrite length_bcopy; [done|]. rewrite length_take, Hl. lia.
  - change (sb_bmapstart sb) with 45. change nmeta with 46 in Hxr. specialize (Hxr (or_intror Hx')). lia.
  - apply list_lookup_insert_eq. by eapply lookup_lt_Some.
  - apply uint_range.
Qed.

(** The loop does not run out of turns: every one of them takes a byte. *)
Lemma append_loop_fuel fuel fuel' d off p s :
  (length p <= fuel)%nat → (fuel <= fuel')%nat → 0 <= off →
  append_loop fuel' d off p s = append_loop fuel d off p s.
Proof.
  revert fuel' d off p s. induction fuel as [|fuel IH]; intros fuel' d off p s Hp Hf Hoff.
  { destruct p; [by destruct fuel'|simpl in Hp; lia]. }
  destruct fuel' as [|fuel']; [lia|]. destruct p as [|c p]; [done|]. cbn [append_loop].
  set (p' := c :: p) in *. unfold mbind, W_bind.
  destruct (assert_ _ s) as [[u s1]|]; [|done]. destruct (file_block _ _ s1) as [[[x d'] s2]|]; [|done].
  destruct (rsect x s2) as [[b s3]|]; [|done]. destruct (wsect _ _ s3) as [[u' s4]|]; [|done].
  pose proof (Z.div_mod off 1024). pose proof (Z.mod_pos_bound off 1024). change BSIZE with 1024.
  apply IH; [|lia|apply uint_range]. rewrite length_drop. simpl length in *. lia.
Qed.

(** An inode that is read into memory. *)
Lemma Img_open k ds s : Img None ds s → Img (Some k) ds s.
Proof. intros []. split; try done. intros i d Hi _. by apply img_agree0. Qed.

Lemma xint_range x : 0 <= xint x < 2 ^ 32.
Proof.
  unfold xint, le_value. pose proof (uchar_range x). pose proof (uchar_range (Z.shiftr x 8)).
  pose proof (uchar_range (Z.shiftr x 16)). pose proof (uchar_range (Z.shiftr x 24)).
  change (2 ^ 32) with 4294967296. change (2 ^ 8) with 256 in *. lia.
Qed.

Lemma dinode_ok_size d z :
  dinode_ok d → dinode_ok (mkdinode (d_type d) (d_major d) (d_minor d) (d_nlink d) (xint z) (d_addrs d)).
Proof.
  intros (?&?&?&?&?&?&?). unfold dinode_ok. cbn [d_type d_major d_minor d_nlink d_size d_addrs].
  split_and!; solve [apply xint_range|done|lia].
Qed.

Lemma Img_iappend ds s i p u s' :
  Img None ds s → (i < length ds)%nat → iappend (Z.of_nat i + 1) p s = Some (u, s') →
  ∃ ds', Img None ds' s' ∧ length ds' = length ds.
Proof.
  intros HI Hi. destruct (lookup_lt_is_Some_2 ds i Hi) as [d Hd]. unfold iappend.
  intros (din & s1 & (-> & ->)%rinode_inv & ([d' off] & s2 & H2 & H3)%W_inv)%W_inv.
  rewrite (img_agree _ _ _ HI i d Hd) in * by done.
  destruct (append_loop_ok _ i ds s d _ p _ _ (Img_open i _ _ HI) Hd (xint_range _) H2) as (HI2 & Hok & Hoff). cbn [fst snd] in *.
  eapply Img_winode in H3 as [HI3 _]; [|exact HI2|congruence|by apply list_lookup_insert_eq|by apply dinode_ok_size|done].
  eexists. split; [exact HI3|]. by rewrite !length_insert.
Qed.

(** * Files *)

Lemma new_dinode_ok : dinode_ok (new_dinode T_DIR) ∧ dinode_ok (new_dinode T_FILE).
Proof.
  split; (split_and!; [by vm_compute..|by vm_compute|]); apply Forall_replicate; lia.
Qed.

Lemma Img_append_all ds s i pieces u s' :
  Img None ds s → (i < length ds)%nat → append_all (Z.of_nat i + 1) pieces s = Some (u, s') →
  ∃ ds', Img None ds' s' ∧ length ds' = length ds.
Proof.
  revert ds s. induction pieces as [|p pieces IH]; intros ds s HI Hi H.
  { injection H as _ <-. by exists ds. }
  cbn [append_all] in H. apply W_inv in H as (u1 & s1 & H1 & H2).
  destruct (Img_iappend _ _ _ _ _ _ HI Hi H1) as (ds1 & HI1 & Hl1).
  destruct (IH ds1 s1 HI1 ltac:(lia) H2) as (ds2 & HI2 & Hl2). exists ds2. split; [done|lia].
Qed.

Lemma assert_inv b s u s' : assert_ b s = Some (u, s') → b = true ∧ s' = s.
Proof. unfold assert_. destruct b; [|done]. intros H. by injection H as _ <-. Qed.

Lemma Img_add_file ds s name contents u s' :
  Img None ds s → (0 < length ds)%nat → Z.of_nat (length ds) + 1 < NINODES →
  add_file 1 name contents s = Some (u, s') → ∃ ds', Img None ds' s' ∧ length ds' = S (length ds).
Proof.
  intros HI H0 Hn. unfold add_file. intros (u1 & s1 & (_ & ->)%assert_inv & H)%W_inv.
  destruct contents as [pieces|]; [|done].
  apply W_inv in H as (u2 & s2 & (_ & ->)%assert_inv & (inum & s3 & H3 & (u4 & s4 & H4 & H5)%W_inv)%W_inv).
  destruct (Img_ialloc _ _ _ _ _ HI Hn (proj2 new_dinode_ok) H3) as [-> HI3].
  change 1 with (Z.of_nat 0 + 1) in H4 at 1.
  destruct (Img_iappend _ _ 0 _ _ _ HI3 ltac:(rewrite length_app; lia) H4) as (ds4 & HI4 & Hl4).
  rewrite length_app in Hl4. simpl in Hl4.
  destruct (Img_append_all _ _ (length ds) _ _ _ HI4 ltac:(lia) H5) as (ds5 & HI5 & Hl5). exists ds5. split; [done|lia].
Qed.

Lemma Img_add_files ds s files u s' :
  Img None ds s → (0 < length ds)%nat → Z.of_nat (length ds + length files) < NINODES →
  add_files 1 files s = Some (u, s') → ∃ ds', Img None ds' s' ∧ length ds' = (length ds + length files)%nat.
Proof.
  revert ds s. induction files as [|[name contents] files IH]; intros ds s HI H0 Hn H.
  { injection H as _ <-. exists ds. split; [done|simpl; lia]. }
  cbn [add_files] in H. apply W_inv in H as (u1 & s1 & H1 & H2). simpl in Hn.
  destruct (Img_add_file _ _ _ _ _ _ HI H0 ltac:(lia) H1) as (ds1 & HI1 & Hl1).
  destruct (IH ds1 s1 HI1 ltac:(lia) ltac:(lia) H2) as (ds2 & HI2 & Hl2). exists ds2. split; [done|simpl; lia].
Qed.

(** * The whole program *)

Definition blank (inum : Z) : image := mkimage (replicate (Z.to_nat FSSIZE) zero) inum nmeta.

Lemma zero_all_blank : zero_all image0 = Some (tt, blank 1).
Proof. reflexivity. Qed.

Lemma Img_start : Img None [] (put 1 (bcopy (sb_bytes sb) 0 zero) (blank 1)).
Proof.
  assert (length (bcopy (sb_bytes sb) 0 zero) = Z.to_nat BSIZE) as Hl by (by vm_compute).
  split; cbn [blocks put blank freeinode freeblock].
  - rewrite length_insert. apply length_replicate.
  - intros b [i Hb]%list_elem_of_lookup. apply list_lookup_insert_Some in Hb as [(_ & <- & _)|(_ & Hb)]; [done|].
    apply lookup_replicate in Hb as [-> _]. apply length_replicate.
  - constructor.
  - split; [done|]. unfold NINODES. simpl. lia.
  - done.
  - done.
  - by vm_compute.
  - intros i Hr. change nmeta with 46 in Hr. rewrite list_lookup_insert_ne by lia.
    apply lookup_replicate. split; [done|lia].
Qed.

(** The addresses in the image are those of the invariant. *)
Lemma Img_file_blocks ds s :
  Img None ds s → file_blocks (blocks s) (length ds) ≡ₚ seqZ nmeta (freeblock s - nmeta).
Proof.
  intros HI. rewrite <- (img_blocks _ _ _ HI), <- concat_parts. unfold file_blocks.
  assert ((fun i => dinode_of (blocks s) (Z.of_nat i)) <$> seq 1 (length ds) = ds) as E.
  { apply list_eq. intros i. rewrite list_lookup_fmap. destruct (ds !! i) as [d|] eqn:Hd.
    - rewrite lookup_seq_lt by (by eapply lookup_lt_Some). simpl. f_equal. rewrite <- (img_agree _ _ _ HI i d Hd) by done.
      f_equal. lia.
    - rewrite lookup_seq_ge; [done|]. by apply lookup_ge_None_1. }
  rewrite <- E at 2. by rewrite <- list_fmap_compose.
Qed.

Lemma main_inv files s :
  (length files < 199)%nat → main files image0 = Some (tt, s) →
  ∃ ds s1 map, Img None ds s1 ∧ length ds = S (length files) ∧ length map = Z.to_nat BSIZE ∧
    s = put (sb_bmapstart sb) map s1 ∧ ∀ i, 0 ≤ i < BPB → bit_set map i = (i <? freeblock s1).
Proof.
  intros Hf. unfold main. intros (u1 & s1 & H1 & (u2 & s2 & H2 & H)%W_inv)%W_inv.
  assert (s1 = blank 1) as -> by (rewrite zero_all_blank in H1; congruence). pose proof Img_start as HI2.
  rewrite wsect_put in H2 by (cbn [blocks blank]; rewrite length_replicate; unfold FSSIZE; lia).
  fold zero in H2. assert (s2 = put 1 (bcopy (sb_bytes sb) 0 zero) (blank 1)) as -> by congruence. apply W_inv in H as (rootino & s3 & H3 & H).
  destruct (Img_ialloc _ _ _ _ _ HI2 ltac:(done) (proj1 new_dinode_ok) H3) as [-> HI3].
  apply W_inv in H as (u4 & s4 & (_ & ->)%assert_inv & (u5 & s5 & H5 & (u6 & s6 & H6 & (u7 & s7 & H7 & H)%W_inv)%W_inv)%W_inv).
  destruct (Img_iappend _ _ 0 _ _ _ HI3 ltac:(simpl; lia) H5) as (ds5 & HI5 & Hl5). simpl in Hl5.
  destruct (Img_iappend _ _ 0 _ _ _ HI5 ltac:(lia) H6) as (ds6 & HI6 & Hl6).
  destruct (Img_add_files ds6 s6 files u7 s7 HI6 ltac:(lia) ltac:(unfold NINODES; lia) H7) as (ds7 & HI7 & Hl7).
  apply W_inv in H as (din & s8 & (-> & ->)%rinode_inv & (u9 & s9 & H9 & (n & s10 & H10 & H)%W_inv)%W_inv).
  injection H10 as <- <-. destruct (lookup_lt_is_Some_2 ds7 0%nat ltac:(lia)) as [d Hd].
  pose proof (Forall_lookup_1 _ _ _ _ (img_inodes _ _ _ HI7) Hd) as Hok.
  pose proof (img_agree _ _ _ HI7 0%nat d Hd ltac:(done)) as Ed. change (Z.of_nat 0 + 1) with 1 in Ed.
  change (Z.of_nat (length (A := dinode) []) + 1) with 1 in H9. rewrite Ed in H9.
  apply (Img_winode _ _ _ 0 d _ _ _ HI7) in H9 as [HI9 Ef]; [|done|done|by apply dinode_ok_size|done].
  pose proof (img_free _ _ _ HI9) as Hr. change nmeta with 46 in Hr. unfold FSSIZE in Hr.
  rewrite int_small in H by lia. destruct (balloc_marks (freeblock s9) s9) as (map & Hm & Hb & Hbits).
  { change BPB with 8192. lia. }
  { rewrite (img_len _ _ _ HI9). change (sb_bmapstart sb) with 45. unfold FSSIZE. lia. }
  rewrite Hb in H. injection H as <-. eexists _, s9, map. split_and!; [exact HI9| |done|done|done].
  rewrite length_insert. lia.
Qed.

(** C38. When main of mkfs runs through, for fewer than 199 files of any contents,
    the blocks of the inodes, data and indirect blocks together, are exactly the
    blocks from the end of the metadata up to freeblock, each in one place of one
    file; the blocks from freeblock on are zero; and the free map on the image has
    exactly the bits below freeblock set, so that the kernel's search for a free
    block finds freeblock, or none when the image is full. *)
Theorem mkfs_free_map files s :
  (length files < 199)%nat → main files image0 = Some (tt, s) →
  nmeta <= freeblock s <= FSSIZE ∧
  file_blocks (blocks s) (S (length files)) ≡ₚ seqZ nmeta (freeblock s - nmeta) ∧
  (∀ i, freeblock s <= i < FSSIZE → blocks s !! Z.to_nat i = Some zero) ∧
  ∃ map, blocks s !! Z.to_nat (sb_bmapstart sb) = Some map ∧
    (∀ i, 0 <= i < BPB → bit_set map i = (i <? freeblock s)) ∧
    first_clear (Z.to_nat BPB) map 0 0 (sb_size sb) =
      (if freeblock s <? FSSIZE then Some (freeblock s) else None).
Proof.
  intros Hf (ds & s1 & map & HI & Hl & Hm & -> & Hbits)%main_inv; [|done].
  pose proof (img_free _ _ _ HI) as Hr. change nmeta with 46 in Hr.
  assert (Img None ds (put (sb_bmapstart sb) map s1)) as HI'.
  { apply Img_put_data; [done|done|change (sb_bmapstart sb) with 45; lia|].
    intros Hi. pose proof (ind_range HI _ Hi) as Hi'. change nmeta with 46 in Hi'. change (sb_bmapstart sb) with 45 in Hi'. lia. }
  split; [exact (img_free _ _ _ HI')|]. split_and!; [rewrite <- Hl; by apply Img_file_blocks|by apply (img_zero _ _ _ HI')|].
  exists map. split_and!; [|done|].
  - apply list_lookup_insert_eq. rewrite (img_len _ _ _ HI). change (sb_bmapstart sb) with 45. unfold FSSIZE. lia.
  - cbn [put freeblock]. change (sb_size sb) with FSSIZE. change BPB with 8192 in Hbits.
    unfold FSSIZE in *. destruct (Z.ltb_spec (freeblock s1) 2000) as [Hlt|Hge].
    + apply first_clear_spec; [|rewrite Hbits by lia; apply Z.ltb_irrefl|rewrite Z2Nat.id by done; change BPB with 8192; lia|lia].
      intros i Hi. rewrite Hbits by lia. apply Z.ltb_lt. lia.
    + apply first_clear_full. intros i Hi Hi'. rewrite Hbits by lia. apply Z.ltb_lt. lia.
Qed.

(** The image with the one file of [ex_image]. *)
Definition ex_files : list (list Z * option (list (list Z))) :=
  [(chars "user/_cat", Some [replicate 1024 7; replicate 10 8])].

Lemma mkfs_free_map_witness :
  ∃ s, main ex_files image0 = Some (tt, s) ∧ freeblock s = 49 ∧ file_blocks (blocks s) 2 ≡ₚ [46; 47; 48].
Proof.
  assert (match main ex_files image0 with Some (_, s) => freeblock s | None => 0 end = 49) as Hm
    by (vm_compute; reflexivity).
  destruct (main ex_files image0) as [[[] s]|] eqn:E; [|discriminate Hm].
  exists s. split; [reflexivity|]. split; [exact Hm|].
  destruct (mkfs_free_map ex_files s) as (_ & H & _); [simpl; lia|exact E|].
  rewrite Hm in H. exact H.
Defined.
